(* ===== verification/_CoqProject ===== *)
-Q . S2P
Prelude.v
JsText.v
Numbers.v
Float64.v
Float64Int.v
ExactNum.v
JsValue.v
JsObject.v
StoreClient.v
Dashboard.v
Color.v
JsDate.v
FlotFormat.v
FlotModel.v
FlotOptions.v
FlotOptionsSpec.v
FlotSeriesSpec.v
FlotData.v
FlotDataSpec.v
FlotDataRange.v
FlotAxis.v
FlotTicks.v
FlotTimeTicks.v
FlotMerge.v
FlotMergeSpec.v
FlotStack.v
Canvas.v
FlotStyle.v
FlotLines.v
FlotLineSpec.v
FlotAreaSpec.v
FlotMarks.v
FlotMarkSpec.v
FlotLayout.v
FlotGrid.v
FlotGridSpec.v
FlotLayoutSpec.v
FlotLegend.v
FlotHover.v
FlotHoverSpec.v
FlotPlot.v
FlotLifecycle.v
FlotSelection.v
FlotSelectionSpec.v
FlotCrosshair.v
FlotNavigate.v
FlotNavigateSpec.v
FlotImage.v
FlotImageSpec.v
FlotPie.v
FlotPieSpec.v
VmlStyle.v
VmlStyleSpec.v
VmlContext.v
VmlPage.v
VmlMatrix.v
VmlRefine.v
VmlStrokeSpec.v
VmlDraw.v
VmlPageSpec.v
JQueryDeferred.v
JQueryDeferredSpec.v
JQueryWhenSpec.v
JQueryEvent.v
JQueryEventSpec.v
JQueryRemoveSpec.v
JQueryBindSpec.v
JQueryPageSpec.v
JQueryHandleSpec.v
EventTarget.v
JQueryTarget.v
FlotEvents.v
JQueryConvert.v
JQueryTransports.v
JQueryAjax.v
JQueryAjaxSpec.v
StoreRequests.v
JQueryParam.v
JQueryData.v
JQueryQueue.v
