(* ===== verification/Prelude.v ===== *)
(** * The web client of open-instrument

    A verification development of the JavaScript program under [static/]: the
    page that graphs the data of the store, the client library that asks the
    store for them, and the plotting library with its plugins that draws them.

    ** The program

    - [static/openinstrument.js]: requests to the store, the notations of
      durations and variables.
    - [static/test.js]: the page; selectors, zoom, periodic refresh.
    - [static/flot/jquery.flot.js]: the plot.  A plot is made of its options
      ([parseOptions]), its series ([setData]: [parseData],
      [fillInSeriesOptions], [processData]), its layout ([setupGrid]: ranges,
      ticks, boxes of the axes, plot area), its drawing ([draw]) and its events
      (hovering, clicking, the overlay).
    - [static/flot/jquery.colorhelpers.js]: colors; inlined in the plot.
    - [static/flot/jquery.flot.*.js]: plugins, which hook into the data
      (stack, fillbetween, threshold, image, pie), the drawing (symbol, image,
      pie, crosshair, selection), the events (crosshair, selection, navigate,
      pie) and the life of a plot (resize).
    - [static/flot/excanvas.js]: the canvas for browsers that have none: it
      turns the calls of a drawing context into elements of VML.
    - [static/flot/jquery.js]: the library that all of them use; [$.extend]
      makes the options of a plot, its events call the handlers of the page
      and of the plots, [$.ajax] sends the requests to the store, deferred
      objects carry their outcome.

    ** The language

    - [Numbers]: numbers as an interface [Num] with its laws [NumLaws], the
      functions of [Math] ([MathLib]) and the conversions with text
      ([NumText]).  Every definition of the program is stated over it.  Two
      instances: [Float64] (binary64, correctly rounded; [Float64Int] shows
      that integers below [2^53] are exact) and [ExactNum] (the rationals with
      the infinities and NaN).  [NumRem] is the operator [%], [MathAtan] is
      [Math.atan2].  The geometric theorems are stated for exact
      numbers: they show what the code computes, without the rounding.
    - [JsText], [JsValue], [JsObject], [JsDate]: texts, dynamic values with
      their coercions, trees of objects with [$.extend], dates in UTC.
    - Errors are values: [result] has [Ok], [Throw] and [NoFuel].  [NoFuel] is
      only met by loops that do not end: the theorems on them prove that the
      fuel given is enough.
    - [Canvas]: the drawing context.  A drawing routine is the list of the
      operations it performs; [Canvas] says what they leave behind.

    ** The page

    - [StoreClient]: [SendRequest] and its callbacks, [Add], [Get], [List],
      [ParseDuration], [NiceDuration], [Variable.FromString].  A duration that
      was printed is read back; a request that completes has exactly one
      outcome, a callback with the response or a message on the console.
    - [Dashboard]: [test.js] as a step function over the state of the page
      (selections, zoom stack, timers, requests under way), where a plot may
      fail to be drawn.  Zooming out undoes zooming in, until the duration
      changes; one refresh at a time is under way while requests do not
      overlap; a refresh leads to the next one but for two cases, a plot that
      throws and a timer that finds a selector empty.

    ** The plot

    - [FlotOptions] ([FlotOptionsSpec], [FlotSeriesSpec]): the defaults,
      [parseOptions], [parseData], [fillInSeriesOptions], the hooks.  What
      every axis gets, what every series gets, the colors.
    - [FlotModel]: series, points, axes, geometry as records, with the options
      that the computations read.  This is what the rest of the plot works on;
      [FlotOptions] works on the trees of options before.
    - [FlotData] ([FlotDataSpec], [FlotDataRange]): [processData], with the
      format of each series, the data hooks and the ranges.  The points are
      those of a reference definition by groups; values are clean; ranges
      bound the data.
    - [FlotAxis], [FlotTicks], [FlotTimeTicks], [FlotFormat]: ranges,
      coordinates, ticks in base ten and in time, formats.  Coordinates convert
      both ways; the loops end, and ticks cover the range evenly.
    - [FlotLayout] ([FlotLayoutSpec]): label sizes and boxes of the axes;
      boxes do not overlap.
    - [FlotStyle], [FlotLines] ([FlotLineSpec], [FlotAreaSpec]), [FlotMarks]
      ([FlotMarkSpec]), [FlotGrid] ([FlotGridSpec]), [FlotLegend]: drawing.
      Lines, areas, points, bars, markings are drawn exactly where they are
      visible; the sweep of an area ends; the context is left as it was found.
    - [FlotHover] ([FlotHoverSpec]): the item under the mouse, which is as near
      as any point within the radius, and highlights.
    - [FlotPlot], [FlotLifecycle]: the interface for plugins, and the canvases,
      events and shutdown of the plots that replace each other in an element,
      as a step relation; only the last plot is alive.  Its [shutdown] takes all
      handlers of a plot out at once.
    - [FlotEvents]: the calls that the plot and each plugin make to bind and
      unbind handlers, against the interface [EventTarget], with selections
      being dragged and the page's own calls between; a plot without pies
      that is shut down leaves the handlers of the page as its own calls do.

    ** The plugins

    - [FlotMerge] ([FlotMergeSpec]), [FlotStack]: the walk over two series,
      stacking, filling between, thresholds.
    - [FlotSelection] ([FlotSelectionSpec]): the selection refines an abstract
      one that knows the start of the drag only; setting and getting agree.
    - [FlotCrosshair]; [FlotNavigate] ([FlotNavigateSpec]): zoom keeps its
      center, panning respects its limits, a drag pans by the way of the mouse.
    - [FlotImage] ([FlotImageSpec]): loading as a state machine; the part drawn.
    - [FlotPie] ([FlotPieSpec]): the slices share the whole and fill the
      circle; the attempts to draw end; a shadow that cannot be drawn.
    - The symbol plugin is in [FlotMarks], the resize plugin in [FlotLifecycle].

    ** The canvas emulation

    - [VmlStyle] ([VmlStyleSpec]): colors, fonts, line caps, gradients and
      patterns.  The colors that the plot prints are read back as the same
      colors; colors in HSL are those of CSS; what a pattern rejects.
    - [VmlContext]: the context, its state, saved states, transformation and
      path, and strokes and fills as the text that is inserted.  [VmlMatrix]:
      the matrices act as the affine transformations they stand for; a
      quadratic curve becomes the cubic that is the same curve.
      [VmlStrokeSpec]: a long path is cut in pieces that are the path.
    - [VmlRefine]: the context implements [Canvas], the specification against
      which the plot is drawn.  [VmlDraw] composes the two: drawing a plot on
      the emulation raises nothing and leaves the context as it was found.
    - [VmlPage] ([VmlPageSpec]): set-up of the elements, resizing, images and
      text.  Resizing a canvas of the plot, which makes a real canvas forget
      its state, has the same effect here by the [restore] and [save] of the
      plot.

    ** Deferred objects

    - [JQueryDeferred]: [jQuery._Deferred], [jQuery.Deferred] and
      [jQuery.when].  The functions that are called may register functions,
      resolve the object again or throw; the calls are a machine with a stack
      of what remains.  [JQueryDeferredSpec]: functions of one list only are
      called, once each and in order, and the calls end ([cost] steps are
      enough).  [JQueryWhenSpec]: the outcome of [jQuery.when] whatever the
      order of the events.

    ** Handlers of events

    - [JQueryEvent]: [jQuery.event.add], [remove], [handle], [trigger], with
      [bind], [one] and [unbind]: namespaces, unique numbers of functions,
      proxies, [mouseenter] and [mouseleave] with the handler they bind on
      another type.  [JQueryEventSpec] has the elements and the loops of [add]
      and [remove], [JQueryBindSpec] what [add] puts in, [JQueryRemoveSpec]
      what [remove] takes out.  [JQueryPageSpec]: in every reachable page the
      browser calls for exactly the types that have handlers; unbinding takes
      out exactly what its text names, and undoes binding.
      [JQueryHandleSpec]: an event calls what was bound for it on an element
      and its parents, in order; a function bound once is called once.
    - [EventTarget] is what a client may rely on, a class with its laws;
      [JQueryTarget] is its instance for [JQueryEvent], [FlotEvents] its client.

    ** Requests

    - [JQueryParam]: the text of the data of a request, from objects and from
      the fields of forms; reading it gives back the values with the names that
      lead to them.
    - [JQueryTransports]: the registers of prefilters and transports; their
      inspection ends, and gives the first transport that applies.
    - [JQueryAjax]: [$.ajax] with [jqXHR], its timer, global events, and the
      transport over [XMLHttpRequest], as a step function over the requests of
      a page and what the browser and the program do to them.
      [JQueryAjaxSpec]: in every order of events a request has one outcome at
      most and is completed once; the counter of active requests is right; a
      complete reply ends the request.  This is for programs that abort no
      request in a handler of [ajaxSend] ([quiet_send]).
    - [JQueryConvert]: the headers, the type and the
      conversions of a reply; the value for each type that is asked for.
    - [StoreRequests] puts [StoreClient] on top of them: what the callbacks of
      the client library get for a reply of the store.

    ** Data and queues of elements

    - [JQueryData]: [jQuery.data], [jQuery.removeData], [hasData], and the
      values that are read from attributes.  The one object of the cache that
      an element has implements two maps, that of the program and that of the
      library, for programs that write nothing under the name [toJSON].
    - [JQueryQueue], on top of it: [jQuery.queue] and
      [jQuery.dequeue], with the arrays that the data refer to and that
      functions may replace while their queue runs; a machine with the list of
      what remains.  Functions are called in the order of the queue; none is
      lost if functions call for the next one later.

    ** Fuel

    Loops whose end the code leaves to arithmetic take fuel: ticks
    ([FlotTicks.base_loop], [time_loop]), the sweep of an area
    ([FlotLines.area_loop]), the colors ([FlotOptions.color_fuel], the number
    of colors that are needed), the walk over two series ([FlotMerge]: the
    length of both), the inspection of transports ([JQueryTransports.inspect]:
    twice the number of the types).  The theorems give the bound for each.  The attempts of
    the pie are at most ten in the code itself.

    ** Not modelled

    - jQuery but for [$.extend], deferred objects, the handlers of events,
      requests, data and queues: its elements and animations are arguments or parts of the state
      of the page.  Of the requests, [load], [get] and [post], the merge of
      settings, and the transports and prefilters of scripts and of JSONP; of the
      data, [$(element).data()] without a key or with a value.  Of the events, [live] and [delegate], the special events
      for old browsers, the normalisation of the browser's event ([fix]) and
      [trigger] on all elements of a page.  The special events of the mouse
      wheel and of dragging come minified with the navigate plugin: their types
      are plain types here, without the handlers they bind for themselves.
      The page measures texts and elements: the sizes are arguments.
    - What the browser does for the canvas emulation: how it computes a font
      from the style sheets, the width of a text, the layout of an element and
      the delivery of events are arguments; its drawing of VML is not modelled.
    - The minified copies of the sources.
    - The protocol buffers that the client library uses: their messages are
      parameters of [StoreClient].
    - The store itself and its tools, in Go, C++, Python and Perl: another
      program, seen through the replies to the requests.
    - Functions that the user passes in options are arguments where the code
      calls them; in the trees of options they are opaque. *)

From stdpp Require Export base tactics option list numbers strings.
From Stdlib Require Export ZArith Lia Bool.

#[global] Set Default Goal Selector "!".

#[global] Arguments String.append : simpl nomatch.

(** * Hint databases *)

(** [jsdb] holds the closing lemmas of the development, [jsrw] the
    rewriting lemmas. *)
Create HintDb jsdb.
Create HintDb jsrw.

(** * Tactics *)

(** Linear arithmetic with [/] and [mod] by constants. *)
Ltac zdm := Z.div_mod_to_equations; lia.

(** Splits every conjunction of the goal and closes what [done] closes. *)
Ltac conj := repeat split; try done.

(** Case analysis on the head [match]/[if] of the goal, recording the
    equation and discarding impossible branches. *)
Ltac mcase := case_match; simplify_eq/=; try done.

(** Turns boolean connectives of hypotheses into propositions. *)
Ltac bools :=
  repeat match goal with
  | H : _ && _ = true |- _ => apply andb_true_iff in H; destruct H
  | H : _ || _ = false |- _ => apply orb_false_iff in H; destruct H
  | H : negb _ = true |- _ => apply negb_true_iff in H
  | H : negb _ = false |- _ => apply negb_false_iff in H
  | H : _ || _ = true |- _ => apply orb_true_iff in H; destruct H
  | H : _ && _ = false |- _ => apply andb_false_iff in H; destruct H
  end.

(** * Results *)

(** A computation returns a value, throws, or needs more fuel. *)
Inductive result (A : Type) : Type := Ok (x : A) | Throw (e : string) | NoFuel.
Arguments Ok {A} _. Arguments Throw {A} _. Arguments NoFuel {A}.

#[export] Instance result_ret : MRet result := λ A x, Ok x.
#[export] Instance result_bind : MBind result := λ A B k m,
  match m with Ok x => k x | Throw e => Throw e | NoFuel => NoFuel end.

Lemma result_bind_ok {A B} (m : result A) (k : A → result B) y :
  m ≫= k = Ok y ↔ ∃ x, m = Ok x ∧ k x = Ok y.
Proof. destruct m; simpl; split; [eauto|intros (? & [= <-] & ?)|..]; naive_solver. Qed.

(** * Lists *)

(** [chunk n l] cuts [l] in groups of [n] (the last one may be shorter). *)
Fixpoint chunk_fuel {A} (fuel n : nat) (l : list A) : list (list A) :=
  match fuel, l with
  | _, [] => []
  | 0, _ => []
  | S f, _ => take n l :: chunk_fuel f n (drop n l)
  end.

Definition chunk {A} (n : nat) (l : list A) : list (list A) := chunk_fuel (length l) n l.

Lemma chunk_fuel_enough {A} (n f g : nat) (l : list A) :
  0 < n → length l ≤ f → length l ≤ g → chunk_fuel f n l = chunk_fuel g n l.
Proof.
  intros Hn. revert g l. induction f as [|f IH]; intros g l Hf Hg.
  - destruct l; simpl in *; [by destruct g|lia].
  - destruct l as [|x l]; [by destruct g|]. destruct g as [|g]; simpl in *; [lia|].
    f_equal. apply IH; rewrite length_drop; simpl; lia.
Qed.

Lemma chunk_app {A} (n : nat) (g l : list A) :
  0 < n → length g = n → chunk n (g ++ l) = g :: chunk n l.
Proof.
  intros Hn Hg. unfold chunk. rewrite length_app, Hg.
  destruct g as [|x g]; simpl in *; [lia|].
  destruct n as [|n]; [lia|]. simpl in *. f_equal.
  - f_equal. assert (length g = n) by lia. subst n. by rewrite take_app_length.
  - assert (length g = n) by lia. subst n. rewrite drop_app_length.
    apply chunk_fuel_enough; lia.
Qed.

Lemma chunk_nil {A} n : chunk n ([] : list A) = [].
Proof. done. Qed.

Lemma chunk_concat {A} (n : nat) (gs : list (list A)) :
  0 < n → Forall (λ g, length g = n) gs → chunk n (concat gs) = gs.
Proof.
  intros Hn. induction 1 as [|g gs Hg Hgs IH]; [done|]. simpl. by rewrite chunk_app, IH.
Qed.

Lemma chunk_cons {A} (n : nat) (l : list A) :
  0 < n → l ≠ [] → chunk n l = take n l :: chunk n (drop n l).
Proof.
  intros Hn Hl. unfold chunk. destruct l as [|x l]; [done|]. simpl. f_equal.
  apply chunk_fuel_enough; rewrite ?length_drop; simpl; lia.
Qed.

(** Induction on the groups of a list. *)
Lemma chunk_ind {A} (n : nat) (P : list A → list (list A) → Prop) :
  0 < n → P [] [] →
  (∀ l, l ≠ [] → P (drop n l) (chunk n (drop n l)) → P l (take n l :: chunk n (drop n l))) →
  ∀ l, P l (chunk n l).
Proof.
  intros Hn H0 HS l. remember (length l) as k eqn:Ek. revert l Ek.
  induction k as [k IH] using lt_wf_ind. intros l ->.
  destruct (decide (l = [])) as [-> |Hl]; [done|]. rewrite chunk_cons by done.
  apply HS; [done|]. eapply IH; [|done]. rewrite length_drop.
  destruct l; simpl in *; [done|lia].
Qed.

Lemma concat_chunk {A} (n : nat) (l : list A) : 0 < n → concat (chunk n l) = l.
Proof.
  intros Hn. apply (chunk_ind n (λ l c, concat c = l)); [done..|].
  intros l' _ IH. simpl. by rewrite IH, take_drop.
Qed.

Lemma chunk_sizes {A} (n : nat) (l g : list A) : 0 < n → g ∈ chunk n l → 0 < length g ≤ n.
Proof.
  intros Hn. apply (chunk_ind n (λ l c, g ∈ c → 0 < length g ≤ n)); [done|by intros ?%elem_of_nil|].
  intros l' Hl IH [-> |Hg]%elem_of_cons; [|by apply IH].
  rewrite length_take. destruct l'; simpl in *; [done|lia].
Qed.

Lemma chunk_full {A} (n : nat) (l : list A) : 0 < n →
  ∀ i g, chunk n l !! i = Some g → S i < length (chunk n l) → length g = n.
Proof.
  intros Hn. apply (chunk_ind n (λ l c, ∀ i g, c !! i = Some g → S i < length c → length g = n)); [done..|].
  intros l' Hl IH [|i] g; simpl; [|intros Hi Hlt; apply (IH i); [done|lia]].
  intros [= <-] Hlt. rewrite length_take. destruct (decide (n ≤ length l')) as [|Hge]; [lia|].
  rewrite drop_ge in Hlt by lia. simpl in Hlt. lia.
Qed.

(** Filters that drop or keep everything. *)
Lemma filter_all_none {A} (P : A → Prop) `{∀ x, Decision (P x)} l : (∀ x, x ∈ l → ¬ P x) → filter P l = [].
Proof.
  induction l as [|x l IH]; intros HP; [done|]. rewrite filter_cons_False by (apply HP; constructor).
  apply IH. intros y Hy. apply HP. by constructor.
Qed.
Lemma filter_keeps {A} (P : A → Prop) `{∀ x, Decision (P x)} (l : list A) : (∀ x, x ∈ l → P x) → filter P l = l.
Proof.
  induction l as [|x l IH]; intros HP; [done|]. rewrite filter_cons_True by (apply HP; by left).
  by rewrite IH by (intros y Hy; apply HP; by right).
Qed.

(** Loops [for (i = 0; i < l.length; ++i)] that update every element. *)
Lemma alter_middle {A} (f : A → A) (l k : list A) (x : A) :
  alter f (length l) (l ++ x :: k) = l ++ f x :: k.
Proof. rewrite alter_app_r_alt by lia. by rewrite Nat.sub_diag. Qed.
