(* ===== verification/JsText.v ===== *)
(** Text operations of the language that the client code uses: decimal
    printing and scanning of integers, splitting, joining, case conversion,
    trimming, searching and replacing. *)

From S2P Require Import Prelude.
From Stdlib Require Import Ascii.

#[local] Open Scope Z_scope.

(** ** Characters *)

Definition is_digit (c : ascii) : bool :=
  let n := N_of_ascii c in ((48 <=? n) && (n <=? 57))%N.
Definition digit_val (c : ascii) : Z := Z.of_N (N_of_ascii c) - 48.
Definition digit_char (d : Z) : ascii := ascii_of_N (Z.to_N (d + 48)).

Definition lower_char (c : ascii) : ascii :=
  let n := N_of_ascii c in
  if ((65 <=? n) && (n <=? 90))%N then ascii_of_N (n + 32)%N else c.

Definition is_space (c : ascii) : bool :=
  let n := N_of_ascii c in
  ((9 <=? n) && (n <=? 13) || (n =? 32) || (n =? 160))%N.

(** Value of a hexadecimal digit. *)
Definition hex_val (c : ascii) : option Z :=
  let n := Z.of_N (N_of_ascii c) in
  if (48 <=? n) && (n <=? 57) then Some (n - 48)
  else if (65 <=? n) && (n <=? 70) then Some (n - 55)
  else if (97 <=? n) && (n <=? 102) then Some (n - 87)
  else None.

(** ** Strings *)

Fixpoint to_lower (s : string) : string :=
  match s with "" => "" | String c s => String (lower_char c) (to_lower s) end.

Fixpoint skip_spaces (s : string) : string :=
  match s with String c s' => if is_space c then skip_spaces s' else s | "" => "" end.

Fixpoint string_snoc (s : string) (c : ascii) : string :=
  match s with "" => String c "" | String d s => String d (string_snoc s c) end.
Fixpoint string_rev (s : string) : string :=
  match s with "" => "" | String c s => string_snoc (string_rev s) c end.

(** [$.trim] *)
Definition trim (s : string) : string :=
  string_rev (skip_spaces (string_rev (skip_spaces s))).

(** [Array.prototype.str_join] *)
Fixpoint str_join (sep : string) (l : list string) : string :=
  match l with
  | [] => ""
  | [x] => x
  | x :: l => x +:+ sep +:+ str_join sep l
  end.

(** [s.split(c)] for a one-character separator; never the empty list. *)
Fixpoint split_char (sep : ascii) (s : string) : list string :=
  match s with
  | "" => [""]
  | String c s =>
      if (c =? sep)%char then "" :: split_char sep s
      else match split_char sep s with
           | [] => [String c ""]
           | w :: ws => String c w :: ws
           end
  end.

(** [s.split(c, limit)] keeps the first [limit] pieces. *)
Definition split_limit (sep : ascii) (limit : nat) (s : string) : list string :=
  take limit (split_char sep s).

(** [s.replace(c, "")] for a one-character string pattern: the first occurrence. *)
Fixpoint remove_first (c : ascii) (s : string) : string :=
  match s with
  | "" => ""
  | String d s => if (d =? c)%char then s else String d (remove_first c s)
  end.

Fixpoint count_char (c : ascii) (s : string) : nat :=
  match s with
  | "" => 0
  | String d s => if (d =? c)%char then S (count_char c s) else count_char c s
  end.

(** Longest prefix of characters satisfying [p], and the rest. *)
Fixpoint span (p : ascii → bool) (s : string) : string * string :=
  match s with
  | "" => ("", "")
  | String c s' =>
      if p c then let '(a, b) := span p s' in (String c a, b) else ("", s)
  end.

Fixpoint all_chars (p : ascii → bool) (s : string) : bool :=
  match s with "" => true | String c s => p c && all_chars p s end.

Definition head_ok (p : ascii → bool) (s : string) : bool :=
  match s with "" => true | String c _ => p c end.

(** ** Decimal integers *)

(** Value of a digit string, most significant digit first. *)
Fixpoint digits_val (acc : Z) (s : string) : Z :=
  match s with
  | "" => acc
  | String c s => digits_val (acc * 10 + digit_val c) s
  end.

Fixpoint dec_fuel (fuel : nat) (n : Z) (acc : string) : string :=
  match fuel with
  | O => acc
  | S f =>
      let acc := String (digit_char (n mod 10)) acc in
      if n <? 10 then acc else dec_fuel f (n / 10) acc
  end.

(** Decimal digits of a natural number. *)
Definition dec_nat (n : Z) : string := dec_fuel (S (Z.to_nat (Z.log2 n))) n "".

(** Integers in decimal. *)
Definition dec_string (z : Z) : string :=
  if z <? 0 then String "-" (dec_nat (- z)) else dec_nat z.

(** ** Lemmas: characters *)

Lemma digit_char_spec d :
  0 ≤ d ≤ 9 → is_digit (digit_char d) = true ∧ digit_val (digit_char d) = d.
Proof.
  intros Hd.
  assert (d = 0 ∨ d = 1 ∨ d = 2 ∨ d = 3 ∨ d = 4 ∨ d = 5 ∨ d = 6 ∨ d = 7 ∨ d = 8 ∨ d = 9)
    as C by lia.
  repeat (destruct C as [->|C]; [done|]). by subst.
Qed.

(** ** Lemmas: span *)

Lemma span_all p s : all_chars p s = true → ∀ t, head_ok (negb ∘ p) t = true →
  span p (s +:+ t) = (s, t).
Proof.
  induction s as [|c s IH]; simpl; intros Hs t Ht.
  - destruct t as [|c t]; [done|]. simpl in *. by destruct (p c).
  - apply andb_true_iff in Hs as [-> Hs]. by rewrite (IH Hs t Ht).
Qed.

Lemma span_append p s : let '(a, b) := span p s in a +:+ b = s.
Proof.
  induction s as [|c s IH]; simpl; [done|].
  destruct (p c); [|done]. destruct (span p s) as [a b]. simpl. by rewrite IH.
Qed.

Lemma all_chars_app p s t : all_chars p (s +:+ t) = all_chars p s && all_chars p t.
Proof. induction s as [|c s IH]; simpl; [done|]. by rewrite IH, andb_assoc. Qed.

Lemma string_app_nil_r s : s +:+ "" = s.
Proof. induction s as [|c s IH]; simpl; [done|]. by f_equal. Qed.

Lemma string_app_assoc s t u : (s +:+ t) +:+ u = s +:+ (t +:+ u).
Proof. induction s as [|c s IH]; simpl; [done|]. by f_equal. Qed.

(** ** Lemmas: decimal round trip *)

Lemma digits_val_app acc s t : digits_val acc (s +:+ t) = digits_val (digits_val acc s) t.
Proof. revert acc. induction s as [|c s IH]; intros acc; simpl; [done|]. apply IH. Qed.

Lemma dec_fuel_app f n acc : dec_fuel f n acc = dec_fuel f n "" +:+ acc.
Proof.
  revert n acc. induction f as [|f IH]; intros n acc; simpl; [done|].
  case_match; [done|]. rewrite IH, (IH (n / 10) (String _ "")).
  by rewrite string_app_assoc.
Qed.

Lemma dec_fuel_spec f n :
  0 ≤ n → n < 2 ^ Z.of_nat f →
  all_chars is_digit (dec_fuel f n "") = true ∧
  (∀ acc, ∃ k : nat, digits_val acc (dec_fuel f n "") = acc * 10 ^ Z.of_nat k + n).
Proof.
  revert n. induction f as [|f IH]; intros n Hn Hf.
  { change (2 ^ Z.of_nat 0) with 1 in Hf. split; [done|]. intros acc. exists 0%nat.
    change (10 ^ Z.of_nat 0) with 1. simpl. lia. }
  simpl. destruct (digit_char_spec (n mod 10)) as [Hd Hv]; [zdm|].
  destruct (n <? 10) eqn:E; simpl.
  { apply Z.ltb_lt in E. rewrite Hd. split; [done|]. intros acc. exists 1%nat.
    change (10 ^ Z.of_nat 1) with 10. rewrite Hv, Z.mod_small; lia. }
  apply Z.ltb_ge in E. rewrite dec_fuel_app.
  destruct (IH (n / 10)) as [Ha Hr]; [zdm| |].
  { rewrite Nat2Z.inj_succ, Z.pow_succ_r in Hf by lia. apply Z.div_lt_upper_bound; lia. }
  rewrite all_chars_app, Ha. simpl. rewrite Hd. split; [done|].
  intros acc. destruct (Hr acc) as [k Hk]. exists (S k).
  rewrite digits_val_app, Hk. simpl. rewrite Hv, Nat2Z.inj_succ, Z.pow_succ_r by lia. zdm.
Qed.

Lemma dec_nat_spec n :
  0 ≤ n → all_chars is_digit (dec_nat n) = true ∧ digits_val 0 (dec_nat n) = n.
Proof.
  intros Hn. destruct (dec_fuel_spec (S (Z.to_nat (Z.log2 n))) n Hn) as [Ha Hv].
  { rewrite Nat2Z.inj_succ, Z2Nat.id by apply Z.log2_nonneg.
    destruct (decide (n = 0)) as [->|]; [done|]. apply Z.log2_spec. lia. }
  split; [done|]. destruct (Hv 0) as [k Hk]. unfold dec_nat. lia.
Qed.

Lemma dec_nat_nonempty n : ∃ c s, dec_nat n = String c s ∧ (0 ≤ n → is_digit c = true).
Proof.
  destruct (dec_nat n) as [|c s] eqn:E.
  - exfalso. unfold dec_nat in E. simpl in E.
    destruct (n <? 10); [done|]. rewrite dec_fuel_app in E.
    by destruct (dec_fuel (Z.to_nat (Z.log2 n)) (n / 10) "").
  - exists c, s. split; [done|]. intros Hn. destruct (dec_nat_spec n Hn) as [Ha _].
    rewrite E in Ha. simpl in Ha. by destruct (is_digit c).
Qed.

(** Printing then scanning a natural number followed by a non-digit. *)
Lemma span_dec_nat n t :
  0 ≤ n → head_ok (negb ∘ is_digit) t = true →
  span is_digit (dec_nat n +:+ t) = (dec_nat n, t).
Proof. intros Hn Ht. apply span_all; [by apply dec_nat_spec|done]. Qed.

Lemma dec_nat_inj m n : 0 ≤ m → 0 ≤ n → dec_nat m = dec_nat n → m = n.
Proof.
  intros Hm Hn E. destruct (dec_nat_spec m Hm) as [_ <-].
  rewrite E. by apply dec_nat_spec.
Qed.

(** ** Lemmas: splitting and joining *)

Lemma split_char_nonempty sep s : split_char sep s ≠ [].
Proof. destruct s as [|c s]; simpl; [done|]. by repeat case_match. Qed.

Lemma split_char_none sep s :
  all_chars (λ c, negb (c =? sep)%char) s = true → split_char sep s = [s].
Proof.
  induction s as [|c s IH]; simpl; [done|]. intros [Hc Hs]%andb_true_iff.
  apply negb_true_iff in Hc. by rewrite Hc, (IH Hs).
Qed.

Lemma split_char_app sep s t :
  all_chars (λ c, negb (c =? sep)%char) s = true →
  split_char sep (s +:+ String sep t) = s :: split_char sep t.
Proof.
  induction s as [|c s IH]; simpl; intros Hs.
  - by rewrite Ascii.eqb_refl.
  - apply andb_true_iff in Hs as [Hc Hs]. apply negb_true_iff in Hc.
    by rewrite Hc, (IH Hs).
Qed.

(** Splitting undoes joining when no piece holds the separator. *)
Lemma split_join sep l :
  l ≠ [] → Forall (λ s, all_chars (λ c, negb (c =? sep)%char) s = true) l →
  split_char sep (str_join (String sep "") l) = l.
Proof.
  induction l as [|s l IH]; [done|]. intros _ [Hs Hl]%Forall_cons.
  destruct l as [|t l]; [by apply split_char_none|].
  change (str_join (String sep "") (s :: t :: l))
    with (s +:+ String sep (str_join (String sep "") (t :: l))).
  rewrite split_char_app by done. by rewrite IH.
Qed.

(** Removing the first occurrence removes at most one. *)
Lemma count_remove_first c s : count_char c (remove_first c s) = Nat.pred (count_char c s).
Proof.
  induction s as [|d s IH]; simpl; [done|].
  destruct (d =? c)%char eqn:E; simpl; [done|]. by rewrite E, IH.
Qed.
