(* ===== verification/Numbers.v ===== *)
(** JavaScript numbers as an interface: the arithmetic and comparison
    operations the client code uses ([Num]), the order laws every
    implementation satisfies ([NumLaws]), and the derived operators of the
    language (relational operators, [Math.min], [Math.max], [Math.ceil],
    [Math.round], [isNaN], truthiness).  [Float64] gives the IEEE binary64
    implementation and [ExactNum] the exact one. *)

From S2P Require Import Prelude JsText.

(** ** The interface *)

Class Num (num : Type) : Type := {
  (** [None] when an operand is NaN. *)
  ncompare : num → num → option comparison;
  nadd : num → num → num;
  nsub : num → num → num;
  nmul : num → num → num;
  ndiv : num → num → num;
  nneg : num → num;
  nabs : num → num;
  nfloor : num → num;
  (** Truncation to an integer; [None] for NaN and the infinities. *)
  to_integer : num → option Z;
  (** The number nearest to [z / p]: integer and decimal literals. *)
  of_ratio : Z → positive → num;
  nnan : num;
  ninf : num;
  nmax_value : num;
}.

(** [Math] functions the language leaves implementation-approximated. *)
Class MathLib (num : Type) : Type := {
  math_log : num → num;
  math_pow : num → num → num;
  math_sqrt : num → num;
  math_sin : num → num;
  math_cos : num → num;
}.

(** [Math.atan2] and the remainder [x % y]. *)
Class MathAtan (num : Type) : Type := math_atan2 : num → num → num.
Class NumRem (num : Type) : Type := nrem : num → num → num.

(** Number-to-string and string-to-number conversions. *)
Class NumText (num : Type) : Type := {
  to_string : num → string;
  to_fixed : num → Z → string;
  (** The number whose decimal digits are [m], scaled by [10^e]. *)
  of_decimal : Z → Z → num;
}.

Declare Scope num_scope.
Delimit Scope num_scope with num.

Section derived.
Context {num : Type} `{Num num}.

Definition of_Z (z : Z) : num := of_ratio z 1.

Definition nltb (x y : num) : bool :=
  match ncompare x y with Some Lt => true | _ => false end.
Definition nleb (x y : num) : bool :=
  match ncompare x y with Some (Lt | Eq) => true | _ => false end.
Definition neqb (x y : num) : bool :=
  match ncompare x y with Some Eq => true | _ => false end.
Definition nis_nan (x : num) : bool :=
  match ncompare x x with None => true | _ => false end.

Definition nninf : num := nneg ninf.

(** [Math.max] and [Math.min] of two arguments. *)
Definition nmax (x y : num) : num :=
  if nis_nan x then x else if nis_nan y then y else if nltb x y then y else x.
Definition nmin (x y : num) : num :=
  if nis_nan x then x else if nis_nan y then y else if nltb y x then y else x.

Definition nceil (x : num) : num := nneg (nfloor (nneg x)).
Definition nround (x : num) : num := nfloor (nadd x (of_ratio 1 2)).

(** [isFinite] *)
Definition nis_finite (x : num) : bool :=
  negb (nis_nan x || neqb x ninf || neqb x nninf).

(** [Math.PI] *)
Definition math_pi : num := of_ratio 3141592653589793 1000000000000000.

(** Truthiness of a number: neither zero nor NaN. *)
Definition ntruthy (x : num) : bool := negb (nis_nan x || neqb x (of_Z 0)).
End derived.

Notation "x + y" := (nadd x y) : num_scope.
Notation "x - y" := (nsub x y) : num_scope.
Notation "x * y" := (nmul x y) : num_scope.
Notation "x / y" := (ndiv x y) : num_scope.
Notation "- x" := (nneg x) : num_scope.
Notation "x <? y" := (nltb x y) : num_scope.
Notation "x <=? y" := (nleb x y) : num_scope.
Notation "x >? y" := (nltb y x) (at level 70, no associativity) : num_scope.
Notation "x >=? y" := (nleb y x) (at level 70, no associativity) : num_scope.
Notation "x =? y" := (neqb x y) : num_scope.
Notation "x ≠? y" := (negb (neqb x y)) (at level 70, no associativity) : num_scope.
Notation "⟨ z ⟩" := (of_Z z%Z) (at level 0, z at level 200, format "⟨ z ⟩") : num_scope.

(** ** The order laws *)

Class NumLaws (num : Type) `{Num num} : Prop := {
  ncompare_nan (x y : num) : ncompare x x = None → ncompare x y = None;
  ncompare_total (x y : num) :
    ncompare x x ≠ None → ncompare y y ≠ None → ncompare x y ≠ None;
  ncompare_antisym (x y : num) : ncompare y x = CompOpp <$> ncompare x y;
  ncompare_trans c (x y z : num) :
    ncompare x y = Some c → ncompare y z = Some c → ncompare x z = Some c;
  ncompare_eq_l (x y z : num) : ncompare x y = Some Eq → ncompare x z = ncompare y z;
  (** Small integer literals are exact. *)
  of_Z_byte (a b : Z) :
    (0 ≤ a ≤ 255)%Z → (0 ≤ b ≤ 255)%Z →
    ncompare (of_Z a) (of_Z b) = Some (a ?= b)%Z;
  (** [Number.MAX_VALUE] and its opposite are finite and on both sides of zero. *)
  ninf_opp : ncompare (nneg ninf) (nneg nmax_value) = Some Lt;
  nmax_opp : ncompare (nneg nmax_value) (of_Z 0) = Some Lt;
  nmax_pos : ncompare (of_Z 0) nmax_value = Some Lt;
  nmax_inf : ncompare nmax_value ninf = Some Lt;
  (** No number lies outside the infinities. *)
  ninf_top (x : num) : ncompare x x ≠ None → ncompare ninf x ≠ Some Lt;
  ninf_bottom (x : num) : ncompare x x ≠ None → ncompare x (nneg ninf) ≠ Some Lt;
}.

(** ** Integers *)

(** Non-negative integers small enough for exact integer arithmetic, and the
    laws of the operations on them. *)
Definition safe (z : Z) : Prop := (0 ≤ z < 2 ^ 53)%Z.

Class NumInts (num : Type) `{Num num} `{NumText num} : Prop := {
  int_compare (a b : Z) : safe a → safe b → ncompare (of_Z a) (of_Z b) = Some (a ?= b)%Z;
  int_mul (a b : Z) :
    safe a → safe b → safe (a * b) → nmul (of_Z a) (of_Z b) = (of_Z (a * b) : num);
  int_floor_div (a b : Z) :
    safe a → (0 < b)%Z → safe b → ((a / b + 1) * b < 2 ^ 53)%Z →
    nfloor (ndiv (of_Z a) (of_Z b)) = (of_Z (a / b) : num);
  int_floor (a : Z) : safe a → nfloor (of_Z a) = (of_Z a : num);
  int_to_string (a : Z) : safe a → to_string (of_Z a : num) = dec_nat a;
  int_of_decimal (a : Z) : safe a → of_decimal a 0 = (of_Z a : num);
}.

(** ** Order facts *)

Section order.
Context {num : Type} `{NumLaws num}.
Local Open Scope num_scope.
Implicit Types x y z : num.

Lemma ncompare_eq_r x y z : ncompare x y = Some Eq → ncompare z x = ncompare z y.
Proof.
  intros E. rewrite (ncompare_antisym x z), (ncompare_antisym y z).
  by rewrite (ncompare_eq_l x y z E).
Qed.

Lemma ncompare_refl x y c : ncompare x y = Some c → ncompare x x = Some Eq.
Proof.
  intros E. destruct (ncompare x x) as [d|] eqn:Ex.
  - pose proof (ncompare_antisym x x) as A. rewrite Ex in A. by destruct d.
  - by rewrite (ncompare_nan x y Ex) in E.
Qed.

Lemma ncompare_refl_r x y c : ncompare x y = Some c → ncompare y y = Some Eq.
Proof.
  intros E. apply (ncompare_refl y x (CompOpp c)).
  by rewrite (ncompare_antisym x y), E.
Qed.

Lemma nltb_spec x y : (x <? y) = true ↔ ncompare x y = Some Lt.
Proof. unfold nltb. destruct (ncompare x y) as [[]|]; naive_solver. Qed.
Lemma neqb_spec x y : (x =? y) = true ↔ ncompare x y = Some Eq.
Proof. unfold neqb. destruct (ncompare x y) as [[]|]; naive_solver. Qed.
Lemma nleb_spec x y : (x <=? y) = true ↔ ncompare x y = Some Lt ∨ ncompare x y = Some Eq.
Proof. unfold nleb. destruct (ncompare x y) as [[]|]; naive_solver. Qed.

Lemma nis_nan_spec x : nis_nan x = true ↔ ncompare x x = None.
Proof. unfold nis_nan. destruct (ncompare x x); naive_solver. Qed.
Lemma nis_nan_false x : nis_nan x = false ↔ ncompare x x ≠ None.
Proof. unfold nis_nan. destruct (ncompare x x); naive_solver. Qed.

Lemma nltb_irrefl x : (x <? x) = false.
Proof.
  unfold nltb. pose proof (ncompare_antisym x x) as A.
  destruct (ncompare x x) as [[]|]; simpl in A; congruence.
Qed.

Lemma nleb_refl x : nis_nan x = false → (x <=? x) = true.
Proof.
  intros Hx%nis_nan_false. unfold nleb.
  destruct (ncompare x x) as [c|] eqn:E; [|done].
  rewrite (ncompare_refl x x c E) in E. by simplify_eq.
Qed.

Lemma neqb_refl x : nis_nan x = false → (x =? x) = true.
Proof.
  intros Hx%nis_nan_false. unfold neqb.
  destruct (ncompare x x) as [c|] eqn:E; [|done].
  rewrite (ncompare_refl x x c E) in E. by simplify_eq.
Qed.

Lemma nltb_trans x y z : (x <? y) = true → (y <? z) = true → (x <? z) = true.
Proof. rewrite !nltb_spec. apply ncompare_trans. Qed.

Lemma nleb_trans x y z : (x <=? y) = true → (y <=? z) = true → (x <=? z) = true.
Proof.
  rewrite !nleb_spec. intros [A|A] [B|B].
  - left. by eapply ncompare_trans.
  - left. by rewrite <- (ncompare_eq_r y z x B).
  - left. by rewrite (ncompare_eq_l x y z A).
  - right. by rewrite (ncompare_eq_l x y z A).
Qed.

Lemma nltb_leb_trans x y z : (x <? y) = true → (y <=? z) = true → (x <? z) = true.
Proof.
  rewrite !nltb_spec, nleb_spec. intros A [B|B].
  - by eapply ncompare_trans.
  - by rewrite <- (ncompare_eq_r y z x B).
Qed.

Lemma nleb_ltb_trans x y z : (x <=? y) = true → (y <? z) = true → (x <? z) = true.
Proof.
  rewrite !nltb_spec, nleb_spec. intros [A|A] B.
  - by eapply ncompare_trans.
  - by rewrite (ncompare_eq_l x y z A).
Qed.

Lemma nltb_leb x y : (x <? y) = true → (x <=? y) = true.
Proof. rewrite nltb_spec, nleb_spec. auto. Qed.

Lemma neqb_leb x y : (x =? y) = true → (x <=? y) = true.
Proof. rewrite neqb_spec, nleb_spec. auto. Qed.

Lemma neqb_sym x y : (x =? y) = true → (y =? x) = true.
Proof. rewrite !neqb_spec. intros E. by rewrite (ncompare_antisym x y), E. Qed.

(** On numbers the order is total. *)
Lemma nltb_false x y :
  nis_nan x = false → nis_nan y = false → (x <? y) = false → (y <=? x) = true.
Proof.
  intros Hx%nis_nan_false Hy%nis_nan_false. unfold nltb, nleb.
  rewrite (ncompare_antisym x y).
  pose proof (ncompare_total x y Hx Hy). by destruct (ncompare x y) as [[]|].
Qed.

Lemma nleb_false x y :
  nis_nan x = false → nis_nan y = false → (x <=? y) = false → (y <? x) = true.
Proof.
  intros Hx%nis_nan_false Hy%nis_nan_false. unfold nltb, nleb.
  rewrite (ncompare_antisym x y).
  pose proof (ncompare_total x y Hx Hy). by destruct (ncompare x y) as [[]|].
Qed.

Lemma nltb_not_leb x y : (x <? y) = true → (y <=? x) = false.
Proof.
  rewrite nltb_spec. unfold nleb. intros E. by rewrite (ncompare_antisym x y), E.
Qed.

Lemma nleb_not_ltb x y : (x <=? y) = true → (y <? x) = false.
Proof.
  rewrite nleb_spec. unfold nltb. intros [E|E]; by rewrite (ncompare_antisym x y), E.
Qed.

Lemma nltb_num_l x y : (x <? y) = true → nis_nan x = false.
Proof. rewrite nltb_spec, nis_nan_false. intros E. by rewrite (ncompare_refl x y _ E). Qed.
Lemma nltb_num_r x y : (x <? y) = true → nis_nan y = false.
Proof. rewrite nltb_spec, nis_nan_false. intros E. by rewrite (ncompare_refl_r x y _ E). Qed.
Lemma nleb_num_l x y : (x <=? y) = true → nis_nan x = false.
Proof.
  rewrite nleb_spec, nis_nan_false. intros [E|E]; by rewrite (ncompare_refl x y _ E).
Qed.
Lemma nleb_num_r x y : (x <=? y) = true → nis_nan y = false.
Proof.
  rewrite nleb_spec, nis_nan_false. intros [E|E]; by rewrite (ncompare_refl_r x y _ E).
Qed.

Lemma nleb_antisym x y : (x <=? y) = true → (y <=? x) = true → (x =? y) = true.
Proof.
  rewrite !nleb_spec, neqb_spec, (ncompare_antisym x y).
  intros [-> | ->] [|]; naive_solver.
Qed.

(** Equal numbers are interchangeable in comparisons. *)
Lemma nltb_eq_l x y z : (x =? y) = true → (x <? z) = (y <? z).
Proof. rewrite neqb_spec. intros E. unfold nltb. by rewrite (ncompare_eq_l x y z E). Qed.
Lemma nltb_eq_r x y z : (x =? y) = true → (z <? x) = (z <? y).
Proof. rewrite neqb_spec. intros E. unfold nltb. by rewrite (ncompare_eq_r x y z E). Qed.

(** ** Math.min and Math.max *)

Lemma nmax_cases x y : nmax x y = x ∨ nmax x y = y.
Proof. unfold nmax. repeat case_match; auto. Qed.
Lemma nmin_cases x y : nmin x y = x ∨ nmin x y = y.
Proof. unfold nmin. repeat case_match; auto. Qed.

Lemma nmax_l x y : nis_nan x = false → nis_nan y = false → (x <=? nmax x y) = true.
Proof.
  intros Hx Hy. unfold nmax. rewrite Hx, Hy.
  case_match; [by apply nltb_leb|by apply nleb_refl].
Qed.
Lemma nmax_r x y : nis_nan x = false → nis_nan y = false → (y <=? nmax x y) = true.
Proof.
  intros Hx Hy. unfold nmax. rewrite Hx, Hy.
  case_match; [by apply nleb_refl|by apply nltb_false].
Qed.
Lemma nmin_l x y : nis_nan x = false → nis_nan y = false → (nmin x y <=? x) = true.
Proof.
  intros Hx Hy. unfold nmin. rewrite Hx, Hy.
  case_match; [by apply nltb_leb|by apply nleb_refl].
Qed.
Lemma nmin_r x y : nis_nan x = false → nis_nan y = false → (nmin x y <=? y) = true.
Proof.
  intros Hx Hy. unfold nmin. rewrite Hx, Hy.
  case_match; [by apply nleb_refl|by apply nltb_false].
Qed.

(** [Math.max(lo, Math.min(v, hi))] lies in the interval. *)
Lemma nclamp_bounds lo v hi :
  nis_nan v = false → (lo <=? hi) = true →
  (lo <=? nmax lo (nmin v hi)) = true ∧ (nmax lo (nmin v hi) <=? hi) = true.
Proof.
  intros Hv Hle. assert (nis_nan lo = false) by by eapply nleb_num_l.
  assert (nis_nan hi = false) by by eapply nleb_num_r.
  assert (nis_nan (nmin v hi) = false) by by destruct (nmin_cases v hi) as [->| ->].
  split; [by apply nmax_l|].
  destruct (nmax_cases lo (nmin v hi)) as [->| ->]; [done|by apply nmin_r].
Qed.

(** Byte literals compare as integers. *)
Lemma of_Z_byte_leb a b :
  (0 ≤ a ≤ 255)%Z → (0 ≤ b ≤ 255)%Z → (⟨a⟩ : num) <=? ⟨b⟩ = (a <=? b)%Z.
Proof. intros Ha Hb. unfold nleb, Z.leb. rewrite (of_Z_byte a b Ha Hb). by destruct (a ?= b)%Z. Qed.
Lemma of_Z_byte_ltb a b :
  (0 ≤ a ≤ 255)%Z → (0 ≤ b ≤ 255)%Z → (⟨a⟩ : num) <? ⟨b⟩ = (a <? b)%Z.
Proof. intros Ha Hb. unfold nltb, Z.ltb. rewrite (of_Z_byte a b Ha Hb). by destruct (a ?= b)%Z. Qed.
Lemma of_Z_byte_num a : (0 ≤ a ≤ 255)%Z → nis_nan (⟨a⟩ : num) = false.
Proof. intros Ha. apply nis_nan_false. by rewrite (of_Z_byte a a Ha Ha). Qed.
End order.

#[export] Hint Resolve nltb_leb neqb_leb nltb_num_l nltb_num_r nleb_num_l nleb_num_r
  nltb_trans nleb_trans nltb_leb_trans nleb_ltb_trans nleb_refl : jsdb.
