(* ===== verification/Float64.v ===== *)
(** IEEE 754 binary64, the number type of the language, as an instance of
    [Num]: arithmetic is the correctly rounded one of [SpecFloat] at
    precision 53 and maximal exponent 1024.  Also the conversions between
    numbers and strings. *)

From S2P Require Import Prelude Numbers JsText.
From Stdlib Require Import Ascii SpecFloat.

#[local] Open Scope Z_scope.

Notation f64 := spec_float.

Module F64.

Definition prec : Z := 53.
Definition emax : Z := 1024.

(** Exact product of the significand by a power of two, as a fraction. *)
Definition frac (m : positive) (e : Z) : Z * positive :=
  if 0 <=? e then (Zpos m * 2 ^ e, 1%positive) else (Zpos m, Z.to_pos (2 ^ (- e))).

Definition of_ratio (z : Z) (p : positive) : f64 :=
  if Pos.eqb p 1 then binary_normalize prec emax z 0 false
  else match z with
  | Z0 => S754_zero false
  | Zpos n => SFdiv prec emax (S754_finite false n 0) (S754_finite false p 0)
  | Zneg n => SFdiv prec emax (S754_finite true n 0) (S754_finite false p 0)
  end.

Definition floor (x : f64) : f64 :=
  match x with
  | S754_finite s m e =>
      if 0 <=? e then x
      else binary_normalize prec emax (cond_Zopp s (Zpos m) / 2 ^ (- e)) 0 s
  | _ => x
  end.

Definition to_integer (x : f64) : option Z :=
  match x with
  | S754_zero _ => Some 0
  | S754_finite s m e =>
      let v := if 0 <=? e then Zpos m * 2 ^ e else Zpos m / 2 ^ (- e) in
      Some (if s then - v else v)
  | _ => None
  end.

#[export] Instance f64_num : Num f64 := {
  ncompare := SFcompare;
  nadd := SFadd prec emax;
  nsub := SFsub prec emax;
  nmul := SFmul prec emax;
  ndiv := SFdiv prec emax;
  nneg := SFopp;
  nabs := SFabs;
  nfloor := floor;
  Numbers.to_integer := to_integer;
  Numbers.of_ratio := of_ratio;
  nnan := S754_nan;
  ninf := S754_infinity false;
  nmax_value := SFmax_float prec emax;
}.

(** The remainder is exact: both significands are brought to the least
    exponent. *)
#[export] Instance f64_rem : NumRem f64 := λ x y,
  match x, y with
  | S754_finite s m e, S754_finite _ n f =>
      let k := Z.min e f in
      let r := Z.rem (Zpos m * 2 ^ (e - k)) (Zpos n * 2 ^ (f - k)) in
      if r =? 0 then S754_zero s else binary_normalize prec emax (cond_Zopp s r) k s
  | S754_zero s, S754_finite _ _ _ => x
  | (S754_finite _ _ _ | S754_zero _), S754_infinity _ => x
  | _, _ => S754_nan
  end.

(** ** Number::toString *)

(** Number of decimal digits before the point: [10^(n-1) <= a/b < 10^n]. *)
Definition dec_exponent (a b : Z) : Z :=
  let guess := (Z.log2 a - Z.log2 b) * 30103 / 100000 in
  let ge n := if 0 <=? n then b * 10 ^ n <=? a else b <=? a * 10 ^ (- n) in
  if ge (guess + 1) then guess + 2 else if ge guess then guess + 1 else guess.

(** The nearest [k]-digit decimal significand of [a/b] at exponent [n]. *)
Definition dec_significand (a b k n : Z) : Z :=
  let e := n - k in
  let '(a, b) := if 0 <=? e then (a, b * 10 ^ e) else (a * 10 ^ (- e), b) in
  (2 * a + b) / (2 * b).

Definition of_decimal (m e : Z) : f64 :=
  if 0 <=? e then of_ratio (m * 10 ^ e) 1 else of_ratio m (Z.to_pos (10 ^ (- e))).

(** The shortest decimal significand that reads back as the number. *)
Fixpoint shortest (fuel : nat) (k : Z) (m : positive) (e : Z) (n : Z) : Z * Z * Z :=
  let '(a, b) := frac m e in
  let s := dec_significand a (Zpos b) k n in
  let '(s, n') := if s =? 10 ^ k then (10 ^ (k - 1), n + 1) else (s, n) in
  match fuel with
  | O => (s, k, n')
  | S fuel =>
      if SFeqb (of_decimal s (n' - k)) (S754_finite false m e) then (s, k, n')
      else shortest fuel (k + 1) m e n
  end.

Fixpoint zeros (n : nat) : string := match n with O => "" | S n => String "0" (zeros n) end.

Fixpoint string_take (n : nat) (s : string) : string :=
  match n, s with S n, String c s => String c (string_take n s) | _, _ => "" end.
Fixpoint string_drop (n : nat) (s : string) : string :=
  match n, s with S n, String _ s => string_drop n s | _, _ => s end.

(** Digits [s] (of length [k]) with the decimal point after the [n]-th. *)
Definition format_decimal (s k n : Z) : string :=
  let d := dec_nat s in
  if (k <=? n) && (n <=? 21) then d +:+ zeros (Z.to_nat (n - k))
  else if (0 <? n) && (n <=? 21) then
    string_take (Z.to_nat n) d +:+ "." +:+ string_drop (Z.to_nat n) d
  else if (-6 <? n) && (n <=? 0) then "0." +:+ zeros (Z.to_nat (- n)) +:+ d
  else
    let e := n - 1 in
    let es := (if e <? 0 then "-" else "+") +:+ dec_nat (Z.abs e) in
    if k =? 1 then d +:+ "e" +:+ es
    else string_take 1 d +:+ "." +:+ string_drop 1 d +:+ "e" +:+ es.

(** The value of a finite number when it is an integer below [2^53]. *)
Definition small_integer (m : positive) (e : Z) : option Z :=
  let '(a, b) := frac m e in
  if (a mod Zpos b =? 0) && (a / Zpos b <? 2 ^ 53) then Some (a / Zpos b) else None.

Definition to_string (x : f64) : string :=
  match x with
  | S754_nan => "NaN"
  | S754_infinity false => "Infinity"
  | S754_infinity true => "-Infinity"
  | S754_zero _ => "0"
  | S754_finite s m e =>
      let '(a, b) := frac m e in
      (if s then "-" else "") +:+
      match small_integer m e with
      | Some i => dec_nat i
      | None =>
          let '(ds, k, n) := shortest 17 1 m e (dec_exponent a (Zpos b)) in
          format_decimal ds k n
      end
  end.

(** [x.toFixed(f)]: the digits of the integer nearest to [x * 10^f], ties upwards. *)
Definition to_fixed (x : f64) (f : Z) : string :=
  match x with
  | S754_finite s m e =>
      let '(a, b) := frac m e in
      if 10 ^ 21 * Zpos b <=? a then to_string x
      else
        let n := (2 * (a * 10 ^ f) + Zpos b) / (2 * Zpos b) in
        let d := dec_nat n in
        let d := zeros (Z.to_nat (f + 1) - String.length d) +:+ d in
        let i := (String.length d - Z.to_nat f)%nat in
        (if s then "-" else "") +:+
        (if f =? 0 then d else string_take i d +:+ "." +:+ string_drop i d)
  | S754_zero _ => if f =? 0 then "0" else "0." +:+ zeros (Z.to_nat f)
  | _ => to_string x
  end.

#[export] Instance f64_text : NumText f64 := {
  Numbers.to_string := to_string;
  Numbers.to_fixed := to_fixed;
  Numbers.of_decimal := of_decimal;
}.

(** ** Order laws *)

Lemma pos_compare_cont m n : Pos.compare_cont Eq m n = (Z.pos m ?= Z.pos n).
Proof. done. Qed.

(** Finite numbers are ordered lexicographically by sign, exponent and significand. *)
Lemma compare_trans c x y z :
  SFcompare x y = Some c → SFcompare y z = Some c → SFcompare x z = Some c.
Proof.
  destruct x as [sx|sx| |sx mx ex], y as [sy|sy| |sy my ey], z as [sz|sz| |sz mz ez];
    try destruct sx; try destruct sy; try destruct sz; simpl; try done; try congruence;
    rewrite ?pos_compare_cont;
    destruct (Z.compare_spec ex ey), (Z.compare_spec ey ez), (Z.compare_spec ex ez);
    try lia;
    destruct (Z.compare_spec (Z.pos mx) (Z.pos my)), (Z.compare_spec (Z.pos my) (Z.pos mz)),
      (Z.compare_spec (Z.pos mx) (Z.pos mz)); simpl; try lia; try congruence.
Qed.

Lemma compare_antisym x y : SFcompare y x = CompOpp <$> SFcompare x y.
Proof.
  destruct x as [sx|sx| |sx mx ex], y as [sy|sy| |sy my ey];
    try destruct sx; try destruct sy; simpl; try done;
    rewrite (Z.compare_antisym ex ey), ?pos_compare_cont,
      (Z.compare_antisym (Z.pos mx) (Z.pos my));
    destruct (ex ?= ey), (Z.pos mx ?= Z.pos my); done.
Qed.

Lemma compare_eq_l x y z : SFcompare x y = Some Eq → SFcompare x z = SFcompare y z.
Proof.
  destruct x as [sx|sx| |sx mx ex], y as [sy|sy| |sy my ey];
    try destruct sx; try destruct sy; simpl; try done;
    rewrite ?pos_compare_cont;
    destruct (Z.compare_spec ex ey), (Z.compare_spec (Z.pos mx) (Z.pos my)); simplify_eq; done.
Qed.

(** ** Integers *)

(** Number of binary digits. *)
Definition digits (n : positive) : Z := Zpos (digits2_pos n).

Lemma digits_spec n : 2 ^ (digits n - 1) ≤ Zpos n < 2 ^ digits n.
Proof.
  unfold digits. induction n as [n IH|n IH|]; cbn [digits2_pos]; [| |done];
    rewrite Pos2Z.inj_succ, Z.pow_succ_r by lia;
    replace (Z.succ (Z.pos (digits2_pos n)) - 1) with (Z.succ (Z.pos (digits2_pos n) - 1)) by lia;
    rewrite Z.pow_succ_r by lia; lia.
Qed.

Lemma digits_le n k : 0 ≤ k → Zpos n < 2 ^ k → digits n ≤ k.
Proof.
  intros Hk Hn. destruct (digits_spec n) as [Hd _].
  destruct (Z.le_gt_cases (digits n) k); [done|].
  assert (2 ^ k ≤ 2 ^ (digits n - 1)) by (apply Z.pow_le_mono_r; lia). lia.
Qed.

Lemma digits_unique n k : 2 ^ (k - 1) ≤ Zpos n < 2 ^ k → 1 ≤ k → digits n = k.
Proof.
  intros [Hl Hu] Hk. apply Z.le_antisymm; [apply digits_le; lia|].
  destruct (digits_spec n) as [_ Hd]. destruct (Z.le_gt_cases k (digits n)); [done|].
  assert (2 ^ digits n ≤ 2 ^ (k - 1)) by (apply Z.pow_le_mono_r; [lia|lia]). lia.
Qed.

(** The binary64 significand of a positive integer below [2^53]. *)
Definition norm (n : positive) : positive := Z.to_pos (Zpos n * 2 ^ (53 - digits n)).

Lemma norm_spec n : Zpos n < 2 ^ 53 → Zpos (norm n) = Zpos n * 2 ^ (53 - digits n).
Proof.
  intros Hn. unfold norm. apply Z2Pos.id.
  pose proof (digits_le n 53 ltac:(lia) Hn). nia.
Qed.

Lemma norm_bounds n : Zpos n < 2 ^ 53 → 2 ^ 52 ≤ Zpos (norm n) < 2 ^ 53.
Proof.
  intros Hn. rewrite norm_spec by done. pose proof (digits_le n 53 ltac:(lia) Hn) as Hd.
  destruct (digits_spec n) as [Hl Hu].
  assert (1 ≤ digits n) by (unfold digits; lia).
  replace (2 ^ 52) with (2 ^ (digits n - 1) * 2 ^ (53 - digits n))
    by (rewrite <- Z.pow_add_r by lia; f_equal; lia).
  replace (2 ^ 53) with (2 ^ digits n * 2 ^ (53 - digits n))
    by (rewrite <- Z.pow_add_r by lia; f_equal; lia).
  assert (0 < 2 ^ (53 - digits n)) by (apply Z.pow_pos_nonneg; lia). nia.
Qed.

Lemma digits_norm n : Zpos n < 2 ^ 53 → digits (norm n) = 53.
Proof. intros Hn. apply digits_unique; [|lia]. by apply norm_bounds. Qed.

(** Rounding leaves a 53-digit significand with a moderate exponent alone. *)
Lemma round_exact s m e :
  digits m = 53 → -1074 ≤ e ≤ 971 →
  binary_round_aux prec emax s (Zpos m) e loc_Exact = S754_finite s m e.
Proof.
  intros Hd He. unfold digits in Hd.
  assert (F : fexp prec emax (Zdigits2 (Z.pos m) + e) - e = 0).
  { unfold fexp, emin, prec, emax, Zdigits2. rewrite Hd. lia. }
  unfold binary_round_aux, shr_fexp. simpl. simpl in F. rewrite !F. simpl. rewrite !F. simpl.
  unfold prec, emax. destruct (Z.leb_spec e (1024 - 53)); [done|lia].
Qed.

Lemma iter_xO k n : Zpos (Pos.iter xO n k) = Zpos n * 2 ^ Zpos k.
Proof.
  induction k as [|k IH] using Pos.peano_ind; [simpl; lia|].
  rewrite Pos.iter_succ, Pos2Z.inj_succ, Z.pow_succ_r by lia.
  rewrite (Pos2Z.inj_xO (Pos.iter xO n k)). lia.
Qed.

(** Integer literals below [2^53] in canonical form. *)
Lemma of_Z_pos n :
  Zpos n < 2 ^ 53 → of_Z (Zpos n) = S754_finite false (norm n) (digits n - 53).
Proof.
  intros Hn. unfold of_Z. cbn [Numbers.of_ratio f64_num]. unfold of_ratio.
  cbn [Pos.eqb]. unfold binary_normalize, binary_round, shl_align.
  pose proof (digits_le n 53 ltac:(lia) Hn) as Hd.
  assert (1 ≤ digits n) by (unfold digits; lia).
  replace (fexp prec emax (Z.pos (digits2_pos n) + 0)) with (digits n - 53)
    by (unfold digits, fexp, emin, prec, emax in *; lia).
  pose proof (norm_spec n Hn) as Hm. rewrite Z.sub_0_r.
  assert (D : digits (norm n) = 53) by by apply digits_norm.
  destruct (digits n - 53) as [|k|k] eqn:E; [|lia|].
  - replace (53 - digits n) with 0 in Hm by lia. rewrite Z.mul_1_r in Hm. injection Hm as Hm.
    rewrite Hm in *. rewrite round_exact by lia. done.
  - assert (Pos.iter xO n k = norm n) as ->.
    { apply Pos2Z.inj. rewrite iter_xO, Hm. do 2 f_equal. lia. }
    by rewrite round_exact by lia.
Qed.

Lemma of_Z_zero : of_Z 0 = S754_zero false.
Proof. done. Qed.

Lemma compare_pos a b :
  Zpos a < 2 ^ 53 → Zpos b < 2 ^ 53 →
  SFcompare (of_Z (Zpos a)) (of_Z (Zpos b)) = Some (Zpos a ?= Zpos b).
Proof.
  intros Ha Hb. rewrite !of_Z_pos by done. unfold SFcompare. f_equal.
  rewrite pos_compare_cont, !norm_spec by done.
  destruct (digits_spec a) as [La Ua], (digits_spec b) as [Lb Ub].
  pose proof (digits_le a 53 ltac:(lia) Ha). pose proof (digits_le b 53 ltac:(lia) Hb).
  destruct (Z.compare_spec (digits a - 53) (digits b - 53)) as [E|L|L].
  - replace (digits b) with (digits a) by lia.
    assert (0 < 2 ^ (53 - digits a)) by (apply Z.pow_pos_nonneg; lia).
    destruct (Z.compare_spec (Zpos a) (Zpos b)); [subst|..];
      [apply Z.compare_eq_iff|apply Z.compare_lt_iff|apply Z.compare_gt_iff]; nia.
  - symmetry. apply Z.compare_lt_iff.
    assert (2 ^ digits a ≤ 2 ^ (digits b - 1)) by (apply Z.pow_le_mono_r; lia). lia.
  - symmetry. apply Z.compare_gt_iff.
    assert (2 ^ digits b ≤ 2 ^ (digits a - 1)) by (apply Z.pow_le_mono_r; lia). lia.
Qed.

Lemma compare_int a b :
  safe a → safe b → ncompare (of_Z a : f64) (of_Z b) = Some (a ?= b).
Proof.
  intros [Ha Ha'] [Hb Hb']. destruct a as [|a|a], b as [|b|b]; try lia.
  - done.
  - rewrite of_Z_zero, of_Z_pos by done. done.
  - rewrite of_Z_zero, of_Z_pos by done. done.
  - by apply compare_pos.
Qed.

#[export] Instance f64_laws : NumLaws f64.
Proof.
  split.
  - intros [s|s| |s m e] y; try destruct s; simpl; try done;
      by rewrite Z.compare_refl, pos_compare_cont, Z.compare_refl.
  - intros [sx|sx| |sx mx ex] [sy|sy| |sy my ey] Hx Hy; simpl in *; done.
  - apply compare_antisym.
  - apply compare_trans.
  - apply compare_eq_l.
  - intros a b Ha Hb. apply compare_int; unfold safe; lia.
  - done.
  - done.
  - done.
  - done.
  - by intros [s|[]| |[] m e].
  - by intros [s|[]| |[] m e].
Qed.

End F64.
Export (hints) F64.
