(* ===== verification/Float64Int.v ===== *)
(** Integer arithmetic on binary64: products, floored quotients and decimal
    printing of non-negative integers below [2^53] are exact. *)

From S2P Require Import Prelude JsText Numbers Float64.
From Stdlib Require Import SpecFloat.

#[local] Open Scope Z_scope.

Module F64Int.
Import F64.

(** ** Shifting significands *)

Lemma iter_pos_nat {A} (f : A → A) k x : iter_pos f k x = Nat.iter (Pos.to_nat k) f x.
Proof.
  revert x. induction k as [k IH|k IH|]; intros x; simpl iter_pos.
  - rewrite !IH, <- Nat.iter_add, Pos2Nat.inj_xI.
    replace (S (2 * Pos.to_nat k)) with ((Pos.to_nat k + Pos.to_nat k) + 1)%nat by lia.
    by rewrite (Nat.iter_add _ 1).
  - rewrite !IH, <- Nat.iter_add, Pos2Nat.inj_xO. f_equal. lia.
  - done.
Qed.

Lemma shr_1_double x : 0 < x → shr_1 (Build_shr_record (2 * x) false false) = Build_shr_record x false false.
Proof. by destruct x. Qed.

Lemma shr_exact x k :
  0 < x → iter_pos shr_1 k (Build_shr_record (x * 2 ^ Zpos k) false false)
          = Build_shr_record x false false.
Proof.
  intros Hx. rewrite iter_pos_nat, <- (positive_nat_Z k).
  induction (Pos.to_nat k) as [|n IH].
  { change (2 ^ Z.of_nat 0) with 1. by rewrite Z.mul_1_r. }
  rewrite Nat.iter_succ_r, Nat2Z.inj_succ, Z.pow_succ_r by lia.
  replace (x * (2 * 2 ^ Z.of_nat n)) with (2 * (x * 2 ^ Z.of_nat n)) by lia.
  rewrite shr_1_double; [done|]. assert (0 < 2 ^ Z.of_nat n) by (apply Z.pow_pos_nonneg; lia). nia.
Qed.

Lemma digits_shift m k n :
  0 ≤ k → Zpos n = Zpos m * 2 ^ k → digits n = digits m + k.
Proof.
  intros Hk Hn. destruct (digits_spec m) as [Hl Hu].
  assert (1 ≤ digits m) by (unfold digits; lia).
  assert (0 < 2 ^ k) by (apply Z.pow_pos_nonneg; lia).
  apply digits_unique; [|lia]. rewrite Hn.
  replace (digits m + k - 1) with ((digits m - 1) + k) by lia.
  rewrite !Z.pow_add_r by lia. nia.
Qed.

(** Rounding a value that has a 53-digit significand gives that value. *)
Lemma round_shift s m n k e :
  digits m = 53 → 0 ≤ k → Zpos n = Zpos m * 2 ^ k → -1074 ≤ e + k ≤ 971 →
  binary_round_aux prec emax s (Zpos n) e loc_Exact = S754_finite s m (e + k).
Proof.
  intros Hm Hk Hn He. destruct k as [|k|k]; [|..]; [|clear Hk|lia].
  - replace n with m by (apply Pos2Z.inj; lia). rewrite Z.add_0_r in *. by apply round_exact.
  - pose proof (digits_shift m (Zpos k) n ltac:(lia) Hn) as Hd.
    unfold binary_round_aux, shr_fexp, Zdigits2 at 1. fold (digits n).
    replace (fexp prec emax (digits n + e) - e) with (Zpos k)
      by (unfold fexp, emin, prec, emax; lia).
    cbn [shr_record_of_loc]. rewrite Hn.
    replace (shr _ e (Z.pos k)) with (Build_shr_record (Z.pos m) false false, e + Z.pos k)
      by (unfold shr; by rewrite shr_exact by lia).
    cbn [shr_m loc_of_shr_record round_nearest_even].
    unfold Zdigits2. fold (digits m).
    replace (fexp prec emax (digits m + (e + Z.pos k)) - (e + Z.pos k)) with 0
      by (unfold fexp, emin, prec, emax; lia).
    cbn [shr shr_record_of_loc shr_m].
    unfold prec, emax. destruct (Z.leb_spec (e + Z.pos k) (1024 - 53)); [done|lia].
Qed.

(** ** Products *)

Lemma mul_int a b :
  safe a → safe b → safe (a * b) → nmul (of_Z a) (of_Z b) = (of_Z (a * b) : f64).
Proof.
  intros [Ha Ha'] [Hb Hb'] [Hab Hab']. destruct a as [|a|a], b as [|b|b]; try lia; try done.
  - by rewrite of_Z_zero, of_Z_pos by done.
  - by rewrite of_Z_zero, of_Z_pos by done.
  - change (Zpos a * Zpos b) with (Zpos (a * b)) in *. rewrite !of_Z_pos by done.
    cbn [nmul f64_num SFmul xorb].
    set (k := 53 + digits (a * b) - digits a - digits b).
    assert (Hk : 0 ≤ k).
    { unfold k. destruct (digits_spec a), (digits_spec b).
      pose proof (digits_le a 53 ltac:(lia) Ha'). pose proof (digits_le b 53 ltac:(lia) Hb').
      assert (1 ≤ digits (a * b)) by (unfold digits; lia).
      assert (digits a + digits b - 1 ≤ digits (a * b)); [|lia].
      apply Z.nlt_ge. intros L. destruct (digits_spec (a * b)) as [_ U].
      assert (2 ^ digits (a * b) ≤ 2 ^ ((digits a - 1) + (digits b - 1)))
        by (apply Z.pow_le_mono_r; lia).
      assert (1 ≤ digits a ∧ 1 ≤ digits b) by (unfold digits; lia).
      rewrite Z.pow_add_r in * by lia. nia. }
    pose proof (digits_le a 53 ltac:(lia) Ha'). pose proof (digits_le b 53 ltac:(lia) Hb').
    pose proof (digits_le (a * b) 53 ltac:(lia) Hab').
    rewrite (round_shift _ (norm (a * b)) _ (106 - digits a - digits b - (53 - digits (a * b)))).
    + f_equal. lia.
    + by apply digits_norm.
    + lia.
    + rewrite Pos2Z.inj_mul, !norm_spec, Pos2Z.inj_mul by done.
      rewrite <- (Z.mul_assoc (Zpos a * Zpos b)), <- Z.pow_add_r by lia.
      replace (53 - digits (a * b) + _) with ((53 - digits a) + (53 - digits b)) by lia.
      rewrite Z.pow_add_r by lia. ring.
    + unfold digits in *. lia.
Qed.

(** ** Floors, printing and scanning *)

Lemma norm_div n :
  Zpos n < 2 ^ 53 → Zpos (norm n) / 2 ^ (53 - digits n) = Zpos n ∧
                    Zpos (norm n) mod 2 ^ (53 - digits n) = 0.
Proof.
  intros Hn. pose proof (digits_le n 53 ltac:(lia) Hn).
  assert (0 < 2 ^ (53 - digits n)) by (apply Z.pow_pos_nonneg; lia).
  rewrite norm_spec by done. split; [apply Z.div_mul; lia|apply Z.mod_mul; lia].
Qed.

Lemma floor_int a : safe a → nfloor (of_Z a) = (of_Z a : f64).
Proof.
  intros [Ha Ha']. destruct a as [|a|a]; [done| |lia].
  rewrite of_Z_pos by done. cbn [nfloor f64_num floor].
  destruct (Z.leb_spec 0 (digits a - 53)); [done|].
  cbn [cond_Zopp]. replace (- (digits a - 53)) with (53 - digits a) by lia.
  rewrite (proj1 (norm_div a Ha')). rewrite <- of_Z_pos by done. done.
Qed.

Lemma to_string_int a : safe a → Numbers.to_string (of_Z a : f64) = dec_nat a.
Proof.
  intros [Ha Ha']. destruct a as [|a|a]; [done| |lia].
  rewrite of_Z_pos by done. cbn [Numbers.to_string f64_text]. unfold to_string, small_integer, frac.
  pose proof (digits_le a 53 ltac:(lia) Ha') as Hd.
  destruct (norm_div a Ha') as [Hq Hr]. pose proof (norm_spec a Ha') as Hn.
  destruct (Z.leb_spec 0 (digits a - 53)) as [L|L].
  - assert (digits a = 53) as E by lia. rewrite E in *.
    change (2 ^ (53 - 53)) with 1 in *. change (2 ^ 0) with 1.
    rewrite Z.mul_1_r in *. rewrite Z.mod_1_r, Z.div_1_r, Hn.
    by rewrite (proj2 (Z.ltb_lt _ _) Ha').
  - replace (- (digits a - 53)) with (53 - digits a) by lia.
    rewrite Z2Pos.id by (apply Z.pow_pos_nonneg; lia).
    by rewrite Hr, Hq, (proj2 (Z.ltb_lt _ _) Ha').
Qed.

Lemma of_decimal_int a : safe a → Numbers.of_decimal a 0 = (of_Z a : f64).
Proof. intros _. cbn. unfold of_decimal, of_Z. simpl. by rewrite Z.mul_1_r. Qed.

(** ** Quotients *)

Lemma new_location_spec n r :
  0 < n → 0 ≤ r → new_location n r = (if r =? 0 then loc_Exact else loc_Inexact (2 * r ?= n)).
Proof.
  intros Hn Hr. unfold new_location, new_location_even, new_location_odd.
  destruct r as [|r|r]; [by destruct (Z.even n)| |lia]. cbn [Z.eqb].
  destruct (Z.even n) eqn:E; [done|]. cbn. f_equal.
  rewrite <- Z.negb_odd in E. apply negb_false_iff in E.
  apply Z.odd_spec in E as [k ->].
  destruct (Z.compare_spec (2 * Zpos r + 1) (2 * k + 1)),
    (Z.compare_spec (2 * Zpos r) (2 * k + 1)); done || lia.
Qed.

(** The second normalisation of a rounded significand. *)
Lemma renormalize m e :
  2 ^ 52 ≤ m ≤ 2 ^ 53 → -1000 ≤ e ≤ 900 →
  ∃ R k, shr_fexp prec emax m e loc_Exact = (Build_shr_record (Zpos R) false false, e + k) ∧
         digits R = 53 ∧ 0 ≤ k ≤ 1 ∧ Zpos R * 2 ^ k = m.
Proof.
  intros Hm He. destruct m as [|m|m]; [lia| |lia].
  assert (0 < 2 ^ 52) by done. unfold shr_fexp. cbn [Zdigits2]. fold (digits m).
  destruct (decide (Zpos m = 2 ^ 53)) as [E|E].
  - assert (Hd : digits m = 54) by (apply digits_unique; lia).
    exists (2 ^ 52)%positive, 1. replace (fexp prec emax (digits m + e) - e) with 1
      by (unfold fexp, emin, prec, emax; lia).
    rewrite E. split; [|done]. done.
  - assert (Hd : digits m = 53) by (apply digits_unique; lia).
    exists m, 0. replace (fexp prec emax (digits m + e) - e) with 0
      by (unfold fexp, emin, prec, emax; lia).
    rewrite Z.add_0_r. split; [done|]. split; [done|]. lia.
Qed.

(** The first shift keeps [q] or halves it; when the kept part is rounded
    up, the discarded part was at least one half. *)
Lemma first_shift (q : positive) (j e : Z) (l : location) :
  (j = 0 ∨ j = 1) → digits q = 53 + j → -1000 ≤ e ≤ 800 →
  let '(mrs, e') := shr_fexp prec emax (Zpos q) e l in
  e' = e + j ∧ shr_m mrs = Zpos q / 2 ^ j ∧
  ∃ ε, round_nearest_even (shr_m mrs) (loc_of_shr_record mrs) = Zpos q / 2 ^ j + ε ∧
       (ε = 0 ∨ ε = 1 ∧ (j = 0 → l = loc_Inexact Eq ∨ l = loc_Inexact Gt)
                     ∧ (j = 1 → Zpos q = 2 * (Zpos q / 2) + 1)).
Proof.
  intros Hj Hd He. unfold shr_fexp. cbn [Zdigits2]. fold (digits q).
  replace (fexp prec emax (digits q + e) - e) with j by (unfold fexp, emin, prec, emax; lia).
  destruct Hj as [-> | ->].
  - cbn [shr]. rewrite Z.add_0_r. change (2 ^ 0) with 1. rewrite Z.div_1_r.
    destruct l as [|[]]; cbn [shr_record_of_loc shr_m loc_of_shr_record round_nearest_even];
      (split; [done|]); (split; [done|]).
    + exists 0. lia.
    + destruct (Z.even (Zpos q)); [exists 0; lia|exists 1; naive_solver lia].
    + exists 0. lia.
    + exists 1. naive_solver lia.
  - change (2 ^ 1) with 2. cbn [shr].
    assert (Hq : ∃ x (bit : bool), Zpos q = 2 * x + (if bit then 1 else 0) ∧ Zpos q / 2 = x ∧
                   ∀ r s, iter_pos shr_1 1 (Build_shr_record (Zpos q) r s)
                          = Build_shr_record x bit (r || s)).
    { destruct q as [q|q|]; [exists (Zpos q), true|exists (Zpos q), false|exists 0, true];
        (split; [lia|]); (split; [zdm|]); done. }
    destruct Hq as (x & bit & Hx & Hdiv & Hs). rewrite Hdiv.
    assert (Hr : iter_pos shr_1 1 (shr_record_of_loc (Zpos q) l) =
                 Build_shr_record x bit match l with loc_Exact => false | _ => true end).
    { by destruct l as [|[]]; cbn [shr_record_of_loc]; rewrite Hs. }
    rewrite Hr. cbn [shr_m]. split; [done|]. split; [done|].
    destruct bit; cbn [loc_of_shr_record].
    + destruct l as [|c]; cbn [round_nearest_even].
      * destruct (Z.even x); [exists 0|exists 1]; naive_solver lia.
      * exists 1. naive_solver lia.
    + exists 0. split; [|lia]. destruct l; cbn [round_nearest_even]; lia.
Qed.

Lemma round_quotient q j e l :
  (j = 0 ∨ j = 1) → digits q = 53 + j → -1000 ≤ e ≤ 800 →
  ∃ R k ε, binary_round_aux prec emax false (Zpos q) e l = S754_finite false R (e + j + k) ∧
    digits R = 53 ∧ 0 ≤ k ≤ 1 ∧ Zpos R * 2 ^ k = Zpos q / 2 ^ j + ε ∧
    (ε = 0 ∨ ε = 1 ∧ (j = 0 → l = loc_Inexact Eq ∨ l = loc_Inexact Gt)
                  ∧ (j = 1 → Zpos q = 2 * (Zpos q / 2) + 1)).
Proof.
  intros Hj Hd He. unfold binary_round_aux.
  pose proof (first_shift q j e l Hj Hd He) as F.
  destruct (shr_fexp prec emax (Zpos q) e l) as [mrs e'].
  destruct F as (-> & Hm & ε & Hr & Hε). rewrite Hr.
  assert (Hb : 2 ^ 52 ≤ Zpos q / 2 ^ j < 2 ^ 53).
  { destruct (digits_spec q) as [Hl Hu]. rewrite Hd in *.
    destruct Hj as [-> | ->]; [rewrite Z.div_1_r|]; [split; [apply Hl|apply Hu]|].
    split; [apply Z.div_le_lower_bound; [lia|apply Hl]|apply Z.div_lt_upper_bound; [lia|apply Hu]]. }
  destruct (renormalize (Zpos q / 2 ^ j + ε) (e + j)) as (R & k & -> & HdR & Hk & HR); [lia|lia|].
  exists R, k, ε. cbn [shr_m]. unfold prec, emax.
  destruct (Z.leb_spec (e + j + k) (1024 - 53)); [|lia]. done.
Qed.

(** The rounded quotient, in units of [2^(-p)], stays between the integer
    quotient and its successor. *)
Lemma rounded_quotient_bounds a b p q r j V ε :
  0 < a → 0 < b → 0 ≤ p → j ≤ p → (j = 0 ∨ j = 1) →
  a * 2 ^ p = q * b + r → 0 ≤ r < b → 2 ^ (52 + j) ≤ q →
  (a / b + 1) * b < 2 ^ 53 →
  V = (q / 2 ^ j + ε) * 2 ^ j →
  (ε = 0 ∨ ε = 1 ∧ (j = 0 → 2 * r >= b) ∧ (j = 1 → q = 2 * (q / 2) + 1)) →
  a / b * 2 ^ p ≤ V < (a / b + 1) * 2 ^ p.
Proof.
  intros Ha Hb Hp Hjp Hj HN Hr Hq Hsafe HV Hε.
  assert (HP : 0 < 2 ^ p) by (apply Z.pow_pos_nonneg; lia).
  pose proof (Z.div_mod a b ltac:(lia)) as Hdm. pose proof (Z.mod_pos_bound a b Hb) as Hmod.
  set (Q := a / b) in *. clearbody Q.
  assert (HP' : ∃ P, 2 ^ p = P * 2 ^ j).
  { exists (2 ^ (p - j)). rewrite <- Z.pow_add_r by lia. f_equal. lia. }
  destruct HP' as [P HP'].
  assert (Hlow : Q * 2 ^ p ≤ q) by nia.
  assert (Hup : q < (Q + 1) * 2 ^ p) by nia.
  assert (Hsz : 2 ^ (52 + j) * b < 2 ^ 53 * 2 ^ p) by nia.
  assert (Hgap : q * b + r ≤ ((Q + 1) * b - 1) * 2 ^ p) by nia.
  destruct Hj as [-> | ->].
  - change (2 ^ 0) with 1 in *. rewrite Z.div_1_r, Z.mul_1_r in *. subst V.
    destruct Hε as [-> | (-> & Hr2 & _)]; [lia|]. specialize (Hr2 eq_refl).
    change (2 ^ (52 + 0)) with (2 ^ 52) in *. split; [lia|].
    assert (q + 1 ≠ (Q + 1) * 2 ^ p); [|lia]. intros E. nia.
  - change (2 ^ 1) with 2 in *. change (2 ^ (52 + 1)) with (2 ^ 53) in *. subst V.
    assert (Hd : q - 1 ≤ 2 * (q / 2) ≤ q) by zdm.
    destruct Hε as [-> | (-> & _ & Hq2)].
    + split; [|lia]. assert (Q * P ≤ q / 2) by (apply Z.div_le_lower_bound; lia). nia.
    + specialize (Hq2 eq_refl). split; [lia|].
      assert (2 * (q / 2 + 1) ≠ (Q + 1) * 2 ^ p); [|rewrite HP' in *; lia].
      intros E. nia.
Qed.

(** Division of the significands, scaled back to the integers. *)
Lemma div_core a b :
  Zpos a < 2 ^ 53 → Zpos b < 2 ^ 53 →
  ∃ q r l, SFdiv_core_binary prec emax (Zpos (norm a)) (digits a - 53) (Zpos (norm b)) (digits b - 53)
         = (Zpos q, digits a - digits b - 53, l) ∧
    Zpos a * 2 ^ (53 - digits a + digits b) = Zpos q * Zpos b + r ∧ 0 ≤ r < Zpos b ∧
    2 ^ 52 ≤ Zpos q < 2 ^ 54 ∧ (l = loc_Inexact Eq ∨ l = loc_Inexact Gt → 2 * r >= Zpos b).
Proof.
  intros Ha Hb. unfold SFdiv_core_binary. cbn [Zdigits2]. fold (digits (norm a)) (digits (norm b)).
  rewrite !digits_norm by done.
  pose proof (digits_le a 53 ltac:(lia) Ha) as Da. pose proof (digits_le b 53 ltac:(lia) Hb) as Db.
  assert (1 ≤ digits a ∧ 1 ≤ digits b) as [Da1 Db1] by (unfold digits; lia).
  replace (Z.min _ _) with (digits a - digits b - 53) by (unfold fexp, emin, prec, emax; lia).
  replace (digits a - 53 - (digits b - 53) - (digits a - digits b - 53)) with 53 by lia.
  rewrite Z.shiftl_mul_pow2 by lia. destruct (norm_bounds a Ha) as [La Ua], (norm_bounds b Hb) as [Lb Ub].
  set (A := Zpos (norm a)) in *. set (B := Zpos (norm b)) in *.
  pose proof (Z_div_mod (A * 2 ^ 53) B ltac:(lia)) as Hdm.
  destruct (Z.div_eucl (A * 2 ^ 53) B) as [q r]. destruct Hdm as [Hq Hr].
  assert (Hq1 : 2 ^ 52 ≤ q) by nia. assert (Hq2 : q < 2 ^ 54) by nia.
  destruct q as [|q|q]; [lia| |lia].
  set (T := 2 ^ (53 - digits b)). assert (HT : 0 < T) by (apply Z.pow_pos_nonneg; lia).
  assert (HB : B = Zpos b * T) by (by apply norm_spec).
  assert (HA : A * 2 ^ 53 = Zpos a * 2 ^ (53 - digits a + digits b) * T).
  { unfold A, T. rewrite norm_spec by done. rewrite <- !Z.mul_assoc, <- !Z.pow_add_r by lia.
    do 2 f_equal. lia. }
  exists q, (Zpos a * 2 ^ (53 - digits a + digits b) - Zpos q * Zpos b), (new_location B r).
  assert (Hr' : r = (Zpos a * 2 ^ (53 - digits a + digits b) - Zpos q * Zpos b) * T) by lia.
  set (r' := Zpos a * 2 ^ (53 - digits a + digits b) - Zpos q * Zpos b) in *.
  split; [done|]. split; [unfold r'; lia|]. split; [nia|]. split; [done|].
  rewrite new_location_spec by lia. destruct (r =? 0); [naive_solver|].
  destruct (Z.compare_spec (2 * r) B); [nia|naive_solver|nia].
Qed.

Lemma of_Z_digits53 R : digits R = 53 → of_Z (Zpos R) = S754_finite false R 0.
Proof.
  intros HR. destruct (digits_spec R) as [_ Hu]. rewrite HR in Hu.
  rewrite of_Z_pos by done. rewrite HR. f_equal.
  apply Pos2Z.inj. rewrite norm_spec by done. rewrite HR. lia.
Qed.

(** Flooring a value known to lie between two consecutive integers. *)
Lemma floor_between R E Q p V :
  digits R = 53 → 0 ≤ Q < 2 ^ 53 → 0 ≤ p → 0 ≤ E + p → V = Zpos R * 2 ^ (E + p) →
  Q * 2 ^ p ≤ V < (Q + 1) * 2 ^ p →
  floor (S754_finite false R E) = of_Z Q.
Proof.
  intros HR HQ Hp HE HV [Hl Hu]. destruct (digits_spec R) as [RL RU]. rewrite HR in RL, RU.
  unfold floor. destruct (Z.leb_spec 0 E) as [LE|LE].
  - rewrite Z.pow_add_r in HV by lia. assert (0 < 2 ^ p) by (apply Z.pow_pos_nonneg; lia).
    assert (HQR : Q = Zpos R * 2 ^ E) by nia. destruct (decide (E = 0)) as [->|].
    + rewrite HQR, Z.pow_0_r, Z.mul_1_r. by rewrite of_Z_digits53.
    + assert (2 ^ 1 ≤ 2 ^ E) by (apply Z.pow_le_mono_r; lia). change (2 ^ 1) with 2 in *.
      change (2 ^ (53 - 1)) with (2 ^ 52) in *. change (2 ^ 53) with (2 * 2 ^ 52) in *. nia.
  - cbn [cond_Zopp]. assert (0 < 2 ^ (- E)) by (apply Z.pow_pos_nonneg; lia).
    assert (0 < 2 ^ (E + p)) by (apply Z.pow_pos_nonneg; lia).
    assert (Hpp : 2 ^ p = 2 ^ (- E) * 2 ^ (E + p)) by (rewrite <- Z.pow_add_r by lia; f_equal; lia).
    assert (Zpos R / 2 ^ (- E) = Q) as ->; [|done].
    symmetry. apply (Z.div_unique_pos _ _ _ (Zpos R - Q * 2 ^ (- E))); nia.
Qed.

Lemma floor_div_int a b :
  safe a → 0 < b → safe b → (a / b + 1) * b < 2 ^ 53 →
  nfloor (ndiv (of_Z a) (of_Z b)) = (of_Z (a / b) : f64).
Proof.
  intros [Ha Ha'] Hb0 [_ Hb'] Hs. destruct b as [|b|b]; try lia. destruct a as [|a|a]; try lia.
  { rewrite of_Z_zero, of_Z_pos by done. done. }
  rewrite (of_Z_pos a), (of_Z_pos b) by done. cbn [ndiv nfloor f64_num SFdiv xorb].
  destruct (div_core a b Ha' Hb') as (q & r & l & -> & HN & Hr & Hq & Hl).
  pose proof (digits_le a 53 ltac:(lia) Ha'). pose proof (digits_le b 53 ltac:(lia) Hb').
  assert (1 ≤ digits a ∧ 1 ≤ digits b) as [Da1 Db1] by (unfold digits; lia).
  set (p := 53 - digits a + digits b) in *.
  replace (digits a - digits b - 53) with (- p) by (unfold p; lia).
  assert (Hp1 : 1 ≤ p ≤ 106) by (unfold p; lia).
  assert (Hj : ∃ j, (j = 0 ∨ j = 1) ∧ digits q = 53 + j).
  { destruct (decide (Zpos q < 2 ^ 53)); [exists 0|exists 1];
      (split; [lia|]); apply digits_unique; simpl; lia. }
  destruct Hj as (j & Hj & Hdq).
  destruct (round_quotient q j (- p) l Hj Hdq ltac:(lia)) as (R & k & ε & -> & HR & Hk & HV & Hε).
  assert (HQ : 0 ≤ Zpos a / Zpos b) by (apply Z.div_pos; lia).
  apply (floor_between R _ _ p ((Zpos q / 2 ^ j + ε) * 2 ^ j)); [done|nia|lia|lia| |].
  - rewrite <- HV. replace (- p + j + k + p) with (k + j) by lia.
    rewrite Z.pow_add_r by lia. lia.
  - apply (rounded_quotient_bounds (Zpos a) (Zpos b) p (Zpos q) r j _ ε); try done; try lia.
    + destruct (digits_spec q) as [L _]. rewrite Hdq in L.
      by replace (52 + j) with (53 + j - 1) by lia.
    + destruct Hε as [|(? & Hε0 & Hε1)]; [by left|right]. naive_solver.
Qed.

#[export] Instance f64_ints : NumInts f64.
Proof.
  split; [apply compare_int|apply mul_int|apply floor_div_int|apply floor_int
         |apply to_string_int|apply of_decimal_int].
Qed.

End F64Int.
Export (hints) F64Int.
