(* ===== verification/ExactNum.v ===== *)
(** Exact numbers: the rationals extended with the infinities and NaN, as
    an instance of [Num].  Comparison, infinities and NaN behave as in the
    language; finite arithmetic does not round.  The geometric theorems of
    the development are stated for this instance. *)

From S2P Require Import Prelude JsText Numbers.
From Stdlib Require Import QArith Qround Lqa.

#[local] Open Scope Q_scope.

Inductive xq : Type := XFin (q : Q) | XInf (s : bool) | XNaN.

Module Exact.

Definition compare (x y : xq) : option comparison :=
  match x, y with
  | XNaN, _ | _, XNaN => None
  | XInf s, XInf t => Some (match s, t with true, false => Lt | false, true => Gt | _, _ => Eq end)
  | XInf s, XFin _ => Some (if s then Lt else Gt)
  | XFin _, XInf t => Some (if t then Gt else Lt)
  | XFin a, XFin b => Some (a ?= b)
  end.

Definition neg (x : xq) : xq :=
  match x with XFin a => XFin (- a) | XInf s => XInf (negb s) | XNaN => XNaN end.

Definition add (x y : xq) : xq :=
  match x, y with
  | XNaN, _ | _, XNaN => XNaN
  | XInf s, XInf t => if Bool.eqb s t then XInf s else XNaN
  | XInf s, _ => XInf s
  | _, XInf t => XInf t
  | XFin a, XFin b => XFin (a + b)
  end.

Definition sub (x y : xq) : xq :=
  match x, y with
  | XFin a, XFin b => XFin (a - b)
  | _, _ => add x (neg y)
  end.

Definition sign (a : Q) : comparison := a ?= 0.

Definition mul (x y : xq) : xq :=
  match x, y with
  | XNaN, _ | _, XNaN => XNaN
  | XFin a, XFin b => XFin (a * b)
  | XInf s, XInf t => XInf (xorb s t)
  | XInf s, XFin a | XFin a, XInf s =>
      match sign a with Eq => XNaN | Gt => XInf s | Lt => XInf (negb s) end
  end.

Definition div (x y : xq) : xq :=
  match x, y with
  | XNaN, _ | _, XNaN => XNaN
  | XInf _, XInf _ => XNaN
  | XInf s, XFin b => match sign b with Lt => XInf (negb s) | _ => XInf s end
  | XFin _, XInf _ => XFin 0
  | XFin a, XFin b =>
      match sign b with
      | Eq => match sign a with Eq => XNaN | Gt => XInf false | Lt => XInf true end
      | _ => XFin (a / b)
      end
  end.

Definition abs (x : xq) : xq :=
  match x with
  | XFin a => XFin (match sign a with Lt => - a | _ => a end)
  | XInf _ => XInf false
  | XNaN => XNaN
  end.

Definition floor (x : xq) : xq :=
  match x with XFin a => XFin (inject_Z (Qfloor a)) | _ => x end.

Definition to_integer (x : xq) : option Z :=
  match x with XFin a => Some (Z.quot (Qnum a) (Zpos (Qden a))) | _ => None end.

#[export] Instance xq_num : Num xq := {
  ncompare := compare;
  nadd := add; nsub := sub; nmul := mul; ndiv := div;
  nneg := neg; nabs := abs; nfloor := floor;
  Numbers.to_integer := to_integer;
  of_ratio z p := XFin (z # p);
  nnan := XNaN;
  ninf := XInf false;
  nmax_value := XFin (inject_Z ((2 ^ 53 - 1) * 2 ^ 971));
}.

(** The remainder has the sign of the dividend. *)
#[export] Instance xq_rem : NumRem xq := λ x y,
  match x, y with
  | XFin a, XFin b =>
      match sign b with
      | Eq => XNaN
      | _ => let t := a / b in XFin (a - b * inject_Z (Z.quot (Qnum t) (Zpos (Qden t))))
      end
  | XFin a, XInf _ => XFin a
  | _, _ => XNaN
  end.

(** ** Order laws *)

Lemma Qcompare_antisym_opp a b : (b ?= a) = CompOpp (a ?= b).
Proof. symmetry. apply Qcompare_antisym. Qed.

Lemma Qcompare_cases a b :
  ((a ?= b) = Eq ∧ a == b) ∨ ((a ?= b) = Lt ∧ a < b) ∨ ((a ?= b) = Gt ∧ b < a).
Proof. destruct (Qcompare_spec a b); auto. Qed.

#[export] Instance xq_laws : NumLaws xq.
Proof.
  split.
  - intros [a|s|] y; simpl; try done; by destruct s.
  - intros [a|s|] [b|t|]; simpl; done.
  - intros [a|[]|] [b|[]|]; simpl; try done. by rewrite Qcompare_antisym_opp.
  - intros c [a|[]|] [b|[]|] [d|[]|]; simpl; try done; try congruence.
    destruct (Qcompare_cases a b) as [[-> ?]|[[-> ?]|[-> ?]]],
      (Qcompare_cases b d) as [[-> ?]|[[-> ?]|[-> ?]]],
      (Qcompare_cases a d) as [[-> ?]|[[-> ?]|[-> ?]]]; try congruence; exfalso; lra.
  - intros [a|[]|] [b|[]|] [d|[]|]; simpl; try done.
    intros [= E%Qeq_alt]. f_equal. by rewrite E.
  - intros a b _ _. unfold of_Z. simpl. unfold Qcompare. simpl. by rewrite !Z.mul_1_r.
  - done.
  - done.
  - done.
  - done.
  - by intros [a|[]|].
  - by intros [a|[]|].
Qed.

(** ** Computation on finite numbers *)

Lemma ltb_fin a b : nltb (XFin a) (XFin b) = true ↔ a < b.
Proof. rewrite nltb_spec. simpl. rewrite Qlt_alt. split; congruence. Qed.
Lemma ltb_fin_false a b : nltb (XFin a) (XFin b) = false ↔ b <= a.
Proof.
  destruct (nltb (XFin a) (XFin b)) eqn:E; [apply ltb_fin in E|]; split; try done; [lra|].
  intros _. destruct (Qlt_le_dec a b) as [L|]; [|done]. apply ltb_fin in L. congruence.
Qed.
Lemma eqb_fin a b : neqb (XFin a) (XFin b) = true ↔ a == b.
Proof. rewrite neqb_spec. simpl. rewrite Qeq_alt. split; congruence. Qed.
Lemma eqb_fin_false a b : neqb (XFin a) (XFin b) = false ↔ ¬ a == b.
Proof. rewrite <- not_true_iff_false, eqb_fin. done. Qed.
Lemma leb_fin a b : nleb (XFin a) (XFin b) = true ↔ a <= b.
Proof. rewrite nleb_spec. simpl. rewrite Qle_lteq, Qlt_alt, Qeq_alt.
  split; (intros [E|E]; [left|right]); congruence. Qed.
Lemma leb_fin_false a b : nleb (XFin a) (XFin b) = false ↔ b < a.
Proof. rewrite <- not_true_iff_false, leb_fin. split; [apply Qnot_le_lt|apply Qlt_not_le]. Qed.

Lemma div_fin a b : ¬ b == 0 → ndiv (XFin a) (XFin b) = XFin (a / b).
Proof.
  intros Hb. simpl. unfold sign.
  destruct (Qcompare_cases b 0) as [[-> ?]|[[-> ?]|[-> ?]]]; done.
Qed.

Lemma nis_nan_fin a : nis_nan (XFin a) = false.
Proof. apply nis_nan_false. done. Qed.

Lemma abs_fin a : nabs (XFin a) = XFin (if nltb (XFin a) (XFin 0) then - a else a).
Proof. simpl. unfold sign, nltb. simpl. by destruct (a ?= 0). Qed.

(** Text conversions for exact numbers: reading is exact and printing keeps
    the integer part.  The theorems on exact numbers hold for any conversions;
    this instance serves their examples. *)
Definition exact_text : NumText xq := {|
  to_string x := match to_integer x with Some z => dec_string z | None => "NaN" end;
  to_fixed x _ := match to_integer x with Some z => dec_string z | None => "NaN" end;
  Numbers.of_decimal m e := XFin (inject_Z m * (if (e <? 0)%Z then 1 / inject_Z (10 ^ (- e)) else inject_Z (10 ^ e)));
|}.

(** Rough [Math] functions, for examples: the logarithm of the magnitude of
    a number of at least one, integer powers, integer square roots. *)
Definition on_fin (f : Q → Q) (x : xq) : xq := match x with XFin q => XFin (f q) | _ => XNaN end.

Definition exact_math : MathLib xq := {|
  math_log := on_fin (λ q, (2302585092994046 # 1000000000000000) *
                           inject_Z (Z.of_nat (String.length (dec_nat (Qfloor q))) - 1));
  math_pow x y := match x, y with XFin a, XFin e => XFin (Qpower a (Qfloor e)) | _, _ => XNaN end;
  math_sqrt := on_fin (λ q, inject_Z (Z.sqrt (Qfloor q)));
  math_sin := on_fin (λ q, q - q * q * q / 6);
  math_cos := on_fin (λ q, 1 - q * q / 2);
|}.

End Exact.
Export (hints) Exact.

(** Turns boolean comparisons of finite exact numbers into rational (in)equalities. *)
Ltac xq_hyps :=
  repeat match goal with
  | H : nltb (XFin _) (XFin _) = true |- _ => apply Exact.ltb_fin in H
  | H : nltb (XFin _) (XFin _) = false |- _ => apply Exact.ltb_fin_false in H
  | H : nleb (XFin _) (XFin _) = true |- _ => apply Exact.leb_fin in H
  | H : nleb (XFin _) (XFin _) = false |- _ => apply Exact.leb_fin_false in H
  | H : neqb (XFin _) (XFin _) = true |- _ => apply Exact.eqb_fin in H
  | H : neqb (XFin _) (XFin _) = false |- _ => apply Exact.eqb_fin_false in H
  end.

Ltac xq_goal :=
  match goal with
  | |- nltb (XFin _) (XFin _) = true => apply Exact.ltb_fin
  | |- nltb (XFin _) (XFin _) = false => apply Exact.ltb_fin_false
  | |- nleb (XFin _) (XFin _) = true => apply Exact.leb_fin
  | |- nleb (XFin _) (XFin _) = false => apply Exact.leb_fin_false
  | |- neqb (XFin _) (XFin _) = true => apply Exact.eqb_fin
  | |- neqb (XFin _) (XFin _) = false => apply Exact.eqb_fin_false
  | |- _ => idtac
  end.

Ltac xq := bools; xq_hyps; xq_goal.
