(* ===== verification/JsValue.v ===== *)
(** Dynamic values: the primitives that flow through the point arrays of the
    graphs (numbers, strings, booleans, null, undefined) and opaque object
    references, with the coercions of the language, and arrays of them. *)

From S2P Require Import Prelude Numbers JsText.
From Stdlib Require Import Ascii.

Inductive jsv (num : Type) : Type :=
  | Undef
  | Null
  | Number (x : num)
  | Str (s : string)
  | Boolean (b : bool)
  | Ref (id : nat).
Arguments Undef {num}. Arguments Null {num}. Arguments Number {num} _.
Arguments Str {num} _. Arguments Boolean {num} _. Arguments Ref {num} _.

(** ** Numeric text *)

Section text.
Context {num : Type} `{Num num} `{NumText num}.
Local Open Scope Z_scope.

(** An optional sign. *)
Definition scan_sign (s : string) : bool * string :=
  match s with
  | String "-" t => (true, t)
  | String "+" t => (false, t)
  | _ => (false, s)
  end.

(** Unsigned decimal literal at the head of [s]: significand, decimal
    exponent and rest; [None] when there is no digit. *)
Definition scan_decimal (s : string) : option (Z * Z * string) :=
  let '(ip, r) := span is_digit s in
  let '(fp, r) := match r with
                  | String "." t => let '(fp, r') := span is_digit t in
                      if (String.length ip + String.length fp =? 0)%nat then ("", r) else (fp, r')
                  | _ => ("", r)
                  end in
  if (String.length ip + String.length fp =? 0)%nat then None
  else
    let m := digits_val 0 (ip +:+ fp) in
    let e0 := - Z.of_nat (String.length fp) in
    match r with
    | String c t =>
        if (Ascii.eqb (lower_char c) "e") then
          let '(neg, t) := scan_sign t in
          let '(ep, r') := span is_digit t in
          match ep with
          | "" => Some (m, e0, r)
          | _ => let e := digits_val 0 ep in Some (m, e0 + (if neg then - e else e), r')
          end
        else Some (m, e0, r)
    | "" => Some (m, e0, r)
    end.

Definition signed (neg : bool) (x : num) : num := if neg then nneg x else x.

Fixpoint starts_with (p s : string) : option string :=
  match p, s with
  | "", _ => Some s
  | String a p, String b s => if (a =? b)%char then starts_with p s else None
  | _, _ => None
  end.

(** [parseFloat(s)] *)
Definition parse_float (s : string) : num :=
  let '(neg, t) := scan_sign (skip_spaces s) in
  match starts_with "Infinity" t with
  | Some _ => signed neg ninf
  | None =>
      match scan_decimal t with
      | Some (m, e, _) => signed neg (of_decimal m e)
      | None => nnan
      end
  end.

Fixpoint hex_digits (acc : Z) (s : string) : Z * string :=
  match s with
  | String c s' => match hex_val c with
                   | Some d => hex_digits (acc * 16 + d) s'
                   | None => (acc, s)
                   end
  | "" => (acc, "")
  end.

(** [parseInt(s)]: decimal, or hexadecimal after the prefix [0x]. *)
Definition parse_int (s : string) : num :=
  let '(neg, t) := scan_sign (skip_spaces s) in
  match t with
  | String "0" (String x r) =>
      if (Ascii.eqb (lower_char x) "x") then
        match r with
        | String c _ => match hex_val c with
                        | Some _ => signed neg (of_decimal (fst (hex_digits 0 r)) 0)
                        | None => nnan
                        end
        | "" => nnan
        end
      else signed neg (of_decimal (digits_val 0 (fst (span is_digit t))) 0)
  | _ =>
      match fst (span is_digit t) with
      | "" => nnan
      | d => signed neg (of_decimal (digits_val 0 d) 0)
      end
  end.

(** [parseInt] of a number goes through its decimal representation. *)
Definition parse_int_num (x : num) : num := parse_int (to_string x).

(** ToNumber of a string. *)
Definition string_to_num (s : string) : num :=
  match trim s with
  | "" => ⟨0⟩%num
  | t =>
      match starts_with "0x" (to_lower t) with
      | Some r => match hex_digits 0 r with
                  | (v, "") => if (String.length r =? 0)%nat then nnan else of_decimal v 0
                  | _ => nnan
                  end
      | None =>
          let '(neg, u) := scan_sign t in
          match u with
          | "Infinity" => signed neg ninf
          | _ => match scan_decimal u with
                 | Some (m, e, "") => signed neg (of_decimal m e)
                 | _ => nnan
                 end
          end
      end
  end.
End text.

(** ** Coercions *)

Section values.
Context {num : Type} `{Num num} `{NumText num}.

Definition is_null (v : jsv num) : bool :=
  match v with Undef | Null => true | _ => false end.

Definition truthy (v : jsv num) : bool :=
  match v with
  | Undef | Null => false
  | Number x => ntruthy x
  | Str s => negb (String.eqb s "")
  | Boolean b => b
  | Ref _ => true
  end.

(** ToNumber; an opaque object has no numeric value. *)
Definition to_num (v : jsv num) : num :=
  match v with
  | Undef => nnan
  | Null => ⟨0⟩%num
  | Number x => x
  | Str s => string_to_num s
  | Boolean b => (if b then ⟨1⟩ else ⟨0⟩)%num
  | Ref _ => nnan
  end.

(** [a == b] *)
Definition loose_eq (a b : jsv num) : bool :=
  match a, b with
  | (Undef | Null), (Undef | Null) => true
  | (Undef | Null), _ | _, (Undef | Null) => false
  | Str s, Str t => String.eqb s t
  | Ref i, Ref j => Nat.eqb i j
  | Ref _, _ | _, Ref _ => false
  | _, _ => neqb (to_num a) (to_num b)
  end.

(** [a < b]: texts compare by character code, other values as numbers. *)
Definition js_ltb (a b : jsv num) : bool :=
  match a, b with
  | Str s, Str t => String.ltb s t
  | _, _ => nltb (to_num a) (to_num b)
  end.

(** ToString of a value; an opaque object is a plain object. *)
Definition to_text (v : jsv num) : string :=
  match v with
  | Undef => "undefined"
  | Null => "null"
  | Number x => to_string x
  | Str s => s
  | Boolean b => if b then "true" else "false"
  | Ref _ => "[object Object]"
  end.

(** [a + b]: concatenation as soon as an operand is a text or an object. *)
Definition js_add (a b : jsv num) : jsv num :=
  match a, b with
  | (Str _ | Ref _), _ | _, (Str _ | Ref _) => Str (to_text a +:+ to_text b)
  | _, _ => Number (to_num a + to_num b)%num
  end.

(** ** Arrays *)

(** [a[i]] *)
Definition aget (a : list (jsv num)) (i : Z) : jsv num :=
  if (i <? 0)%Z then Undef else default Undef (a !! Z.to_nat i).

(** [a[i] = v], extending the array when needed. *)
Definition aset (a : list (jsv num)) (i : nat) (v : jsv num) : list (jsv num) :=
  if (i <? length a)%nat then <[i := v]> a
  else a ++ replicate (i - length a) Undef ++ [v].

(** [a[i + m]] for [m] from 0 to [n - 1]. *)
Definition aslice (a : list (jsv num)) (i n : nat) : list (jsv num) :=
  map (λ m, aget a (Z.of_nat (i + m))) (seq 0 n).
End values.

(** ** Lemmas *)

Section value_lemmas.
Context {num : Type} `{NumLaws num} `{NumText num}.
Implicit Types a : list (jsv num).

Lemma aget_lookup a (i : nat) : aget a (Z.of_nat i) = default Undef (a !! i).
Proof. unfold aget. destruct (Z.ltb_spec (Z.of_nat i) 0); [lia|]. by rewrite Nat2Z.id. Qed.

Lemma aget_ge a (i : Z) : (Z.of_nat (length a) ≤ i)%Z → aget a i = Undef.
Proof.
  intros Hi. unfold aget. case_match; [done|].
  by rewrite lookup_ge_None_2 by lia.
Qed.

Lemma aget_neg a i : (i < 0)%Z → aget a i = Undef.
Proof. intros Hi. unfold aget. by rewrite (proj2 (Z.ltb_lt i 0) Hi). Qed.

Lemma length_aslice a i n : length (aslice a i n) = n.
Proof. unfold aslice. by rewrite length_map, length_seq. Qed.

Lemma aslice_app_r a b n : length b = n → aslice (a ++ b) (length a) n = b.
Proof.
  intros Hn. apply list_eq. intros i. unfold aslice.
  rewrite list_lookup_fmap. destruct (decide (i < n)) as [Hi|Hi].
  - rewrite lookup_seq_lt by done. simpl.
    rewrite aget_lookup, lookup_app_r by lia.
    replace (length a + i - length a) with i by lia.
    destruct (lookup_lt_is_Some_2 b i) as [v ->]; [lia|done].
  - rewrite lookup_seq_ge, (lookup_ge_None_2 b) by lia. done.
Qed.

Lemma aset_ge a i v : i = length a → aset a i v = a ++ [v].
Proof.
  intros ->. unfold aset. destruct (Nat.ltb_spec (length a) (length a)); [lia|].
  by rewrite Nat.sub_diag.
Qed.

Lemma aset_middle a x b v : aset (a ++ x :: b) (length a) v = a ++ v :: b.
Proof.
  unfold aset. rewrite length_app. simpl.
  destruct (Nat.ltb_spec (length a) (length a + S (length b))); [|lia].
  rewrite insert_app_r_alt by lia. by rewrite Nat.sub_diag.
Qed.

Lemma aget_app_r a b (i : nat) : aget (a ++ b) (Z.of_nat (length a + i)) = aget b (Z.of_nat i).
Proof.
  rewrite !aget_lookup, lookup_app_r by lia. by replace (length a + i - length a) with i by lia.
Qed.

Lemma aget_app_l a b (i : nat) : i < length a → aget (a ++ b) (Z.of_nat i) = aget a (Z.of_nat i).
Proof. intros Hi. by rewrite !aget_lookup, lookup_app_l. Qed.

(** Component [j] of group [k]. *)
Lemma aget_concat ps (gs : list (list (jsv num))) k g j :
  Forall (λ g, length g = ps) gs → gs !! k = Some g → j < ps →
  aget (concat gs) (Z.of_nat (k * ps + j)) = aget g (Z.of_nat j).
Proof.
  intros Hgs Hk Hj. revert k Hk. induction Hgs as [|g' gs Hg' Hgs IH]; intros [|k] Hk; simplify_eq/=.
  - by apply aget_app_l.
  - rewrite <- (IH k Hk). replace (length g' + k * length g' + j) with (length g' + (k * length g' + j)) by lia.
    apply aget_app_r.
Qed.

Lemma loose_eq_null_l v : loose_eq Null v = is_null v.
Proof. by destruct v. Qed.
End value_lemmas.

#[export] Hint Rewrite @length_aslice @aget_lookup : jsrw.

(** ** Scanning decimal integers *)

Lemma digit_not_space c : is_digit c = true → is_space c = false.
Proof. by destruct c as [[] [] [] [] [] [] [] []]. Qed.

Lemma digit_not_x c : is_digit c = true → Ascii.eqb (lower_char c) "x" = false.
Proof. by destruct c as [[] [] [] [] [] [] [] []]. Qed.

Lemma digit_no_sign c s : is_digit c = true → scan_sign (String c s) = (false, String c s).
Proof. by destruct c as [[] [] [] [] [] [] [] []]. Qed.

Section scan_lemmas.
Context {num : Type} `{Num num} `{NumText num}.

(** [parseInt] of a non-empty digit string is its value. *)
Lemma parse_int_digits c s :
  all_chars is_digit (String c s) = true →
  parse_int (String c s) = of_decimal (digits_val 0 (String c s)) 0.
Proof.
  intros Hall. pose proof Hall as [Hc Hs]%andb_true_iff.
  assert (Hsp : fst (span is_digit (String c s)) = String c s).
  { rewrite <- (string_app_nil_r (String c s)) at 1. by rewrite span_all. }
  unfold parse_int. cbn [skip_spaces]. rewrite digit_not_space, digit_no_sign by done.
  assert (G : match fst (span is_digit (String c s)) with
              | "" => nnan
              | d => signed false (of_decimal (digits_val 0 d) 0)
              end = of_decimal (digits_val 0 (String c s)) 0 :> num) by by rewrite Hsp.
  destruct s as [|x r].
  - destruct c as [[] [] [] [] [] [] [] []]; try exact G; done.
  - destruct (andb_prop _ _ Hs) as [Hx _].
    assert (Ax : Ascii.eqb (lower_char x) "x" = false) by by apply digit_not_x.
    destruct (decide (c = "0"%char)) as [-> |Hne].
    + rewrite Ax, Hsp. done.
    + destruct c as [[] [] [] [] [] [] [] []]; try exact G. done.
Qed.
End scan_lemmas.
