(* ===== verification/JsObject.v ===== *)
(** Objects and arrays of the language as trees, and the deep copy that builds
    the options of a plot from them, [$.extend] of [static/flot/jquery.js].
    A tree has no shared part: the copies the code makes of options never
    share an object with what they were made of. *)

From S2P Require Import Prelude Numbers JsText JsValue.

(** A primitive or an opaque object (a function, a date, an element of the
    page); an array; the properties of a plain object in their order. *)
Inductive js (num : Type) : Type :=
  | Prim (v : jsv num)
  | Arr (l : list (js num))
  | Obj (kvs : list (string * js num)).
Arguments Prim {num} _. Arguments Arr {num} _. Arguments Obj {num} _.

Section objects.
Context {num : Type}.
Implicit Types (o t c v : js num) (kvs : list (string * js num)).

Definition undef : js num := Prim Undef.

(** ** Properties *)

Fixpoint find_key (k : string) kvs : option (js num) :=
  match kvs with
  | [] => None
  | (k', v) :: kvs => if String.eqb k k' then Some v else find_key k kvs
  end.

Fixpoint set_key (k : string) v kvs : list (string * js num) :=
  match kvs with
  | [] => [(k, v)]
  | (k', v') :: kvs => if String.eqb k k' then (k', v) :: kvs else (k', v') :: set_key k v kvs
  end.

(** [o[k]] of an object and [l[i]] of an array. *)
Definition get (k : string) o : js num :=
  match o with Obj kvs => default undef (find_key k kvs) | _ => undef end.

Definition get_index (i : nat) o : js num :=
  match o with
  | Arr l => default undef (l !! i)
  | Obj kvs => default undef (find_key (dec_nat (Z.of_nat i)) kvs)
  | Prim _ => undef
  end.

(** [l[i] = v]: an array grows, and what it skips is undefined. *)
Fixpoint set_at (i : nat) v (l : list (js num)) : list (js num) :=
  match i, l with
  | 0, [] => [v]
  | 0, _ :: l => v :: l
  | S i, [] => undef :: set_at i v []
  | S i, x :: l => x :: set_at i v l
  end.

(** [o[k] = v] and [o[i] = v]; a primitive ignores it. *)
Definition put (k : string) v o : js num :=
  match o with Obj kvs => Obj (set_key k v kvs) | _ => o end.

Definition put_index (i : nat) v o : js num :=
  match o with
  | Arr l => Arr (set_at i v l)
  | Obj kvs => Obj (set_key (dec_nat (Z.of_nat i)) v kvs)
  | Prim _ => o
  end.

(** [delete o[k]] *)
Definition delete_key (k : string) o : js num :=
  match o with Obj kvs => Obj (filter (λ p, p.1 ≠ k) kvs) | _ => o end.

(** What a property keeps when it is assigned a value that may be undefined. *)
Definition defined v : bool := match v with Prim Undef => false | _ => true end.

(** ** [$.extend(true, target, options)] *)

(** The object that the copy of [c] is merged into, given the property [src]
    that the target has. *)
Definition clone_of src c : js num :=
  match c, src with
  | Arr _, Arr _ => src
  | Arr _, _ => Arr []
  | Obj _, Obj _ => src
  | _, _ => Obj []
  end.

Fixpoint extend (target options : js num) {struct options} : js num :=
  match options with
  | Obj kvs =>
      (fix go kvs target :=
         match kvs with
         | [] => target
         | (k, c) :: kvs =>
             let src := get k target in
             go kvs match c with
                    | Prim Undef => target
                    | Prim _ => put k c target
                    | _ => put k (extend (clone_of src c) c) target
                    end
         end) kvs target
  | Arr l =>
      (fix go i l target :=
         match l with
         | [] => target
         | c :: l =>
             let src := get_index i target in
             go (S i) l match c with
                        | Prim Undef => target
                        | Prim _ => put_index i c target
                        | _ => put_index i (extend (clone_of src c) c) target
                        end
         end) 0 l target
  | Prim _ => target
  end.

(** The value that a property gets from [src] in the target and [c] in the options. *)
Definition merged src c : js num :=
  match c with Prim Undef => src | Prim _ => c | _ => extend (clone_of src c) c end.

(** ** Equations of the merge *)

Lemma extend_obj kvs t : extend t (Obj kvs) =
  foldl (λ t kc, if defined kc.2 then put kc.1 (merged (get kc.1 t) kc.2) t else t) t kvs.
Proof.
  revert t. induction kvs as [|[k c] kvs IH]; intros t; [done|]. simpl. rewrite <- IH. by destruct c as [[]| |].
Qed.

Lemma extend_arr_from l t i :
  (fix go i (l : list (js num)) target :=
     match l with
     | [] => target
     | c :: l =>
         let src := get_index i target in
         go (S i) l match c with
                    | Prim Undef => target
                    | Prim _ => put_index i c target
                    | _ => put_index i (extend (clone_of src c) c) target
                    end
     end) i l t =
  foldl (λ t ic, if defined ic.2 then put_index ic.1 (merged (get_index ic.1 t) ic.2) t else t) t
    (zip (seq i (length l)) l).
Proof.
  revert t i. induction l as [|c l IH]; intros t i; [done|]. simpl. rewrite <- IH. by destruct c as [[]| |].
Qed.

Lemma extend_arr l t : extend t (Arr l) =
  foldl (λ t ic, if defined ic.2 then put_index ic.1 (merged (get_index ic.1 t) ic.2) t else t) t
    (zip (seq 0 (length l)) l).
Proof. apply extend_arr_from. Qed.

(** ** Induction over trees *)

Section induction.
Variable P : js num → Prop.
Hypothesis Hprim : ∀ p : jsv num, P (Prim p).
Hypothesis Harr : ∀ l, Forall P l → P (Arr l).
Hypothesis Hobj : ∀ kvs, Forall (λ kv, P kv.2) kvs → P (Obj kvs).

Fixpoint js_tree_ind o : P o :=
  match o with
  | Prim p => Hprim p
  | Arr l => Harr l ((fix go l : Forall P l :=
      match l with [] => Forall_nil_2 _ | x :: l => Forall_cons_2 _ _ _ (js_tree_ind x) (go l) end) l)
  | Obj kvs => Hobj kvs ((fix go kvs : Forall (λ kv, P kv.2) kvs :=
      match kvs with [] => Forall_nil_2 _ | kv :: kvs => Forall_cons_2 _ _ _ (js_tree_ind kv.2) (go kvs) end) kvs)
  end.
End induction.

(** A tree as the language builds it from literals: no key twice in an object. *)
Fixpoint distinct_keys o : Prop :=
  match o with
  | Prim _ => True
  | Arr l => foldr (λ x P, distinct_keys x ∧ P) True l
  | Obj kvs => NoDup (map fst kvs) ∧ foldr (λ kv P, distinct_keys kv.2 ∧ P) True kvs
  end.

(** Nothing in it is undefined. *)
Fixpoint complete o : Prop :=
  match o with
  | Prim v => v ≠ Undef
  | Arr l => foldr (λ x P, complete x ∧ P) True l
  | Obj kvs => foldr (λ kv P, complete kv.2 ∧ P) True kvs
  end.

Lemma foldr_all {A} (Q : A → Prop) (l : list A) : foldr (λ x P, Q x ∧ P) True l ↔ Forall Q l.
Proof. induction l as [|x l IH]; simpl; [by split|]. by rewrite IH, Forall_cons. Qed.

Lemma complete_defined o : complete o → defined o = true.
Proof. by destruct o as [[]| |]. Qed.

(** ** Reading after writing *)

Lemma find_key_set k k' v kvs : find_key k (set_key k' v kvs) = if String.eqb k k' then Some v else find_key k kvs.
Proof.
  induction kvs as [|[k0 v0] kvs IH]; simpl; [done|]. destruct (String.eqb_spec k' k0) as [-> |Hn]; simpl.
  - by destruct (String.eqb_spec k k0).
  - rewrite IH. destruct (String.eqb_spec k k0) as [-> |]; [|done]. by destruct (String.eqb_spec k0 k').
Qed.

Lemma find_key_none k kvs : k ∉ map fst kvs → find_key k kvs = None.
Proof.
  induction kvs as [|[k0 v0] kvs IH]; simpl; [done|]. intros [Hk Hkvs]%not_elem_of_cons.
  destruct (String.eqb_spec k k0); [done|]. by apply IH.
Qed.

Lemma find_key_in k v kvs : find_key k kvs = Some v → k ∈ map fst kvs ∧ (k, v) ∈ kvs.
Proof.
  induction kvs as [|[k0 v0] kvs IH]; simpl; [done|]. destruct (String.eqb_spec k k0) as [-> |].
  - intros [= ->]. split; constructor.
  - intros [H1 H2]%IH. split; by constructor.
Qed.

Lemma get_put k k' v kvs : get k (put k' v (Obj kvs)) = if String.eqb k k' then v else get k (Obj kvs).
Proof. simpl. rewrite find_key_set. by destruct (String.eqb k k'). Qed.

Lemma set_key_new k v kvs : k ∉ map fst kvs → set_key k v kvs = kvs ++ [(k, v)].
Proof.
  induction kvs as [|[k0 v0] kvs IH]; simpl; [done|]. intros [Hk Hkvs]%not_elem_of_cons.
  destruct (String.eqb_spec k k0); [done|]. by rewrite IH.
Qed.

Lemma set_at_end v (l : list (js num)) : set_at (length l) v l = l ++ [v].
Proof. induction l as [|x l IH]; simpl; [done|]. by rewrite IH. Qed.

Lemma set_at_lookup i v (l : list (js num)) : i < length l → set_at i v l = <[i := v]> l.
Proof.
  revert i. induction l as [|x l IH]; intros i Hi; simpl in Hi; [lia|]. destruct i as [|i]; [done|].
  simpl. f_equal. apply IH. lia.
Qed.

(** ** Merging into an object, key by key *)

Lemma extend_is_obj kvs old : ∃ kvs', extend (Obj old) (Obj kvs) = Obj kvs'.
Proof.
  rewrite extend_obj. revert old. induction kvs as [|[k c] kvs IH]; intros old; simpl; [by eexists|].
  destruct (defined c); apply IH.
Qed.

Lemma get_extend k old kvs : NoDup (map fst kvs) →
  get k (extend (Obj old) (Obj kvs)) = merged (get k (Obj old)) (get k (Obj kvs)).
Proof.
  rewrite extend_obj. revert old. induction kvs as [|[k0 c] kvs IH]; intros old HN; [done|].
  cbn [map fst] in HN. apply NoDup_cons in HN as [Hk0 HN]. cbn [foldl fst snd].
  assert (Hk : k0 = k → find_key k kvs = None) by (intros <-; by apply find_key_none).
  destruct (defined c) eqn:Ed; cbn [put]; rewrite IH by done.
  - cbn [get find_key]. rewrite find_key_set. destruct (String.eqb_spec k k0) as [-> |]; [|done].
    by rewrite (Hk eq_refl).
  - cbn [get find_key]. destruct (String.eqb_spec k k0) as [-> |]; [|done].
    rewrite (Hk eq_refl). by destruct c as [[]| |].
Qed.

(** ** A copy *)

Lemma copy_fields acc kvs : NoDup (map fst acc ++ map fst kvs) →
  Forall (λ kv, defined kv.2 = true ∧ merged undef kv.2 = kv.2) kvs →
  foldl (λ t kc, if defined kc.2 then put kc.1 (merged (get kc.1 t) kc.2) t else t) (Obj acc) kvs = Obj (acc ++ kvs).
Proof.
  intros HN HF. revert acc HN. induction HF as [|[k c] kvs [Hd Hc] HF IH]; intros acc HN; simpl in *; [by rewrite app_nil_r|].
  assert (Hk : k ∉ map fst acc). { apply NoDup_app in HN as (_ & Hd' & _). intros Hin. apply (Hd' _ Hin). constructor. }
  rewrite Hd, find_key_none by done. simpl. rewrite Hc, set_key_new by done. rewrite IH; [by rewrite <- app_assoc|].
  by rewrite map_app, <- app_assoc.
Qed.

Lemma copy_elements acc (l : list (js num)) : Forall (λ x, defined x = true ∧ merged undef x = x) l →
  foldl (λ t ic, if defined ic.2 then put_index ic.1 (merged (get_index ic.1 t) ic.2) t else t) (Arr acc)
    (zip (seq (length acc) (length l)) l) = Arr (acc ++ l).
Proof.
  intros HF. revert acc. induction HF as [|x l [Hd Hx] HF IH]; intros acc; simpl; [by rewrite app_nil_r|].
  rewrite Hd, lookup_ge_None_2 by lia. simpl. rewrite Hx, set_at_end.
  replace (S (length acc)) with (length (acc ++ [x])) by (rewrite length_app; simpl; lia).
  by rewrite IH, <- app_assoc.
Qed.

Lemma merged_copy c : distinct_keys c → complete c → merged undef c = c.
Proof.
  induction c as [p|l IH|kvs IH] using js_tree_ind; intros HD HC.
  - destruct p; done.
  - cbn [merged clone_of undef distinct_keys complete] in *. apply foldr_all in HD, HC. rewrite extend_arr.
    apply (copy_elements []). rewrite Forall_forall in *. intros x Hx. split; [by apply complete_defined, HC|].
    apply IH; auto.
  - cbn [merged clone_of undef distinct_keys complete] in *. destruct HD as [HN HD].
    apply (foldr_all (λ kv, distinct_keys kv.2)) in HD. apply (foldr_all (λ kv, complete kv.2)) in HC.
    rewrite extend_obj. apply (copy_fields []); [done|]. rewrite Forall_forall in *. intros kv Hkv.
    split; [by apply complete_defined, HC|]. apply IH; auto.
Qed.
End objects.

(** ** What a merge gives *)

Section merging.
Context {num : Type}.
Implicit Types (o c : js num) (kvs old : list (string * js num)).

Fixpoint at_path (p : list string) o : js num :=
  match p with [] => o | k :: p => at_path p (get k o) end.

(** The options [c] say nothing of the path [p]: an object of them that lies
    on the path is merged into an object, until there is nothing. *)
Fixpoint silent (p : list string) o c : Prop :=
  match p with
  | [] => False
  | k :: p => get k c = undef ∨
      ∃ a b, get k o = Obj a ∧ get k c = Obj b ∧ silent p (Obj a) (Obj b)
  end.

Lemma at_path_undef p v : at_path p (Prim v) = Prim v ∨ at_path p (Prim v) = @undef num.
Proof. destruct p as [|k p]; [by left|]. right. simpl. induction p as [|k' p IH]; [done|]. exact IH. Qed.

Lemma at_path_none p : at_path p undef = @undef num.
Proof. by destruct (at_path_undef p Undef). Qed.

Lemma distinct_field k kvs : distinct_keys (Obj kvs) → distinct_keys (get k (Obj kvs)).
Proof.
  cbn [distinct_keys get]. intros [_ HD%(foldr_all (λ kv, distinct_keys kv.2))].
  destruct (find_key k kvs) as [v|] eqn:E; [|done]. apply find_key_in in E as [_ E].
  by apply (proj1 (Forall_forall _ _) HD (k, v)).
Qed.

Lemma extend_path_given p v old kvs : p ≠ [] → v ≠ Undef → distinct_keys (Obj kvs) →
  at_path p (Obj kvs) = Prim v → at_path p (extend (Obj old) (Obj kvs)) = Prim v.
Proof.
  intros Hp Hv. revert old kvs. induction p as [|k p IH]; intros old kvs HD E; [done|]. clear Hp.
  cbn [at_path] in *. rewrite get_extend by apply HD. pose proof (distinct_field k kvs HD) as HDk.
  destruct (get k (Obj kvs)) as [u|l|b] eqn:Ek.
  - destruct (at_path_undef p u) as [E'|E']; rewrite E' in E; [|by destruct Hv; injection E].
    assert (u = v) as -> by congruence. by destruct v.
  - destruct p as [|k' p]; [done|]. cbn [at_path get] in E. rewrite at_path_none in E. by injection E as <-.
  - destruct p as [|k' p]; [done|]. cbn [merged clone_of].
    destruct (get k (Obj old)) as [|l|a]; by apply IH.
Qed.

Lemma extend_path_silent p old kvs : distinct_keys (Obj kvs) → silent p (Obj old) (Obj kvs) →
  at_path p (extend (Obj old) (Obj kvs)) = at_path p (Obj old).
Proof.
  revert old kvs. induction p as [|k p IH]; intros old kvs HD HS; [done|]. cbn [at_path].
  pose proof (distinct_field k kvs HD) as HDk. rewrite get_extend by apply HD.
  destruct HS as [-> |(a & b & Ea & Eb & HS)]; [done|]. rewrite Ea, Eb in *. by apply IH.
Qed.

Lemma extend_elements (a l : list (js num)) : Forall (λ x, ∃ v, x = Prim v ∧ v ≠ Undef) l →
  extend (Arr a) (Arr l) = Arr (l ++ drop (length l) a).
Proof.
  intros HF. rewrite extend_arr. change a with ([] ++ a) at 1. change 0 with (length (@nil (js num))).
  change (l ++ drop (length l) a) with ([] ++ (l ++ drop (length l) a)). generalize (@nil (js num)) as done_.
  revert a. induction HF as [|x l (v & -> & Hv) HF IH]; intros a acc; [done|]. cbn [length seq zip zip_with foldl fst snd].
  replace (defined (Prim v)) with true by (by destruct v).
  replace (merged _ (Prim v)) with (@Prim num v) by (by destruct v).
  assert (E : put_index (length acc) (Prim v) (Arr (acc ++ a)) = Arr ((acc ++ [Prim v]) ++ drop 1 a)).
  { cbn [put_index]. f_equal. rewrite <- app_assoc. clear. induction acc as [|y acc IH]; simpl; [by destruct a|]. by rewrite IH. }
  rewrite E. replace (S (length acc)) with (length (acc ++ [@Prim num v])) by (rewrite length_app; simpl; lia).
  rewrite IH, <- app_assoc. by rewrite drop_drop.
Qed.

(** A deep copy is the tree itself: copying options that have no key
    twice and nothing undefined into an empty object, or into nothing, gives
    the same options. *)
Theorem extend_copy kvs : distinct_keys (Obj kvs) → complete (Obj kvs) → extend (Obj []) (Obj kvs) = Obj kvs.
Proof. exact (merged_copy (Obj kvs)). Qed.

(** C25: merging options into defaults: a value that the options give at some
    path is in the result, whatever the defaults have there; where the options
    are silent the result is the default. *)
Theorem extend_paths old kvs : distinct_keys (Obj kvs) →
  (∀ p v, p ≠ [] → v ≠ Undef → at_path p (Obj kvs) = Prim v → at_path p (extend (Obj old) (Obj kvs)) = Prim v) ∧
  (∀ p, silent p (Obj old) (Obj kvs) → at_path p (extend (Obj old) (Obj kvs)) = at_path p (Obj old)).
Proof. intros HD. split; [intros; by apply extend_path_given|intros; by apply extend_path_silent]. Qed.
End merging.

(** Checks that a concrete tree has no key twice. *)
Ltac keys_tac := cbn; repeat split; apply (bool_decide_unpack _); vm_compute; exact I.

(** ** Examples *)

Definition sample_defaults : list (string * js Z) :=
  [("show", Prim (Boolean true)); ("grid", Obj [("color", Prim (Str "black")); ("width", Prim (Number 2%Z))])].
Definition sample_given : list (string * js Z) :=
  [("grid", Obj [("color", Prim (Str "red"))]); ("title", Prim (Str "load"))].

Lemma sample_given_distinct : distinct_keys (Obj sample_given).
Proof. keys_tac. Qed.

Lemma extend_copy_witness : extend (Obj []) (Obj sample_given) = Obj sample_given.
Proof. apply extend_copy; [apply sample_given_distinct|done]. Defined.

Lemma extend_paths_witness :
  (∀ p v, p ≠ [] → v ≠ Undef → at_path p (Obj sample_given) = Prim v →
     at_path p (extend (Obj sample_defaults) (Obj sample_given)) = Prim v) ∧
  (∀ p, silent p (Obj sample_defaults) (Obj sample_given) →
     at_path p (extend (Obj sample_defaults) (Obj sample_given)) = at_path p (Obj sample_defaults)) ∧
  at_path ["grid"; "color"] (Obj sample_given) = Prim (Str "red") ∧
  silent ["grid"; "width"] (Obj sample_defaults) (Obj sample_given).
Proof.
  destruct (extend_paths sample_defaults sample_given sample_given_distinct) as [H1 H2].
  split; [exact H1|]. split; [exact H2|]. split; [done|]. right. do 2 eexists. split; [done|]. split; [done|]. by left.
Defined.
