(* ===== verification/StoreClient.v ===== *)
(** The client library of the store, [static/openinstrument.js]: the AJAX
    transport, the duration notation and the variable notation.

    The protocol-buffer runtime ([PROTO], [openinstrument.proto]) is not
    part of the repository: messages are the parameters of
    [Section transport]. *)

From S2P Require Import Prelude Numbers JsText Float64 Float64Int JsValue.
From Stdlib Require Import Ascii SpecFloat.
From stdpp Require Import gmap.

(** ** The transport: StoreClient.prototype.SendRequest, Add, Get, List *)

(** The settings passed to [$.ajax]. *)
Record ajax_request := AjaxRequest {
  url : string;
  ajax_type : string;
  ajax_data : string;
  data_type : string;
}.

(** How the browser completes an AJAX request: the body of a successful
    reply, or the status and the exception of a failed one. *)
Inductive ajax_outcome :=
  | AjaxSuccess (text : string)
  | AjaxError (textStatus errorThrown : string).

Section transport.
(** Message classes of the generated protocol-buffer code. *)
Context {request response : Type}.
(** [request.SerializeToStream] on a Base64 stream, then [getString]. *)
Variable serialize : request → string.
(** [response.ParseFromStream] updates the response message. *)
Variable parse_from : response → string → response.
(** The [success] flag of a response. *)
Variable succeeded : response → bool.
(** [response.success = false; response.errormessage = m]. *)
Variable set_failed : response → string → response.

(** What completing a request does besides updating the response. *)
Inductive completion :=
  | CallSuccess (r : response)
  | CallError (r : response)
  | ConsoleLog (msg : string)
  | NoCallback.

Definition newline : ascii := "010".

Definition SendRequest (path : string) (req : request) : ajax_request :=
  AjaxRequest path "POST" (remove_first newline (serialize req)) "text".

(** The two callbacks handed to [$.ajax]; [error] tells whether the
    caller passed an error callback.  Returns the response object as the
    callback leaves it. *)
Definition SendRequest_done (path : string) (resp : response) (error : bool)
    (out : ajax_outcome) : response * completion :=
  match out with
  | AjaxSuccess text =>
      let resp := parse_from resp text in
      if succeeded resp then (resp, CallSuccess resp)
      else if error then (resp, CallError resp)
      else (resp, NoCallback)
  | AjaxError textStatus errorThrown =>
      let resp := set_failed resp
        ("Error in " +:+ path +:+ " request: " +:+ textStatus +:+ errorThrown) in
      if error then (resp, CallError resp)
      else (resp, ConsoleLog ("Error in " +:+ path +:+ " request: " +:+ errorThrown))
  end.

Definition Add (req : request) : ajax_request := SendRequest "/add" req.
Definition Get (req : request) : ajax_request := SendRequest "/get" req.
Definition List (req : request) : ajax_request := SendRequest "/list" req.
End transport.
Arguments completion : clear implicits.
Arguments CallSuccess {response} _. Arguments CallError {response} _.
Arguments ConsoleLog {response} _. Arguments NoCallback {response}.

(** ** Durations *)

Section durations.
Context {num : Type} `{Num num} `{NumText num}.
Local Open Scope num_scope.

(** The match of [/^(\d+)u$/]: the digits before the unit letter. *)
Definition match_unit (u : ascii) (s : string) : option string :=
  match span is_digit s with
  | ("", _) => None
  | (d, String c "") => if (c =? u)%char then Some d else None
  | _ => None
  end.

(** The match of [/^(\d+)s?$/]. *)
Definition match_seconds (s : string) : option string :=
  match span is_digit s with
  | ("", _) => None
  | (d, "") => Some d
  | (d, String "s" "") => Some d
  | _ => None
  end.

Definition ParseDuration (str : string) : num :=
  match match_unit "y" str with
  | Some d => parse_int d * ⟨60⟩ * ⟨60⟩ * ⟨24⟩ * ⟨365⟩
  | None =>
  match match_unit "w" str with
  | Some d => parse_int d * ⟨60⟩ * ⟨60⟩ * ⟨24⟩ * ⟨7⟩
  | None =>
  match match_unit "d" str with
  | Some d => parse_int d * ⟨60⟩ * ⟨60⟩ * ⟨24⟩
  | None =>
  match match_unit "h" str with
  | Some d => parse_int d * ⟨60⟩ * ⟨60⟩
  | None =>
  match match_unit "m" str with
  | Some d => parse_int d * ⟨60⟩
  | None =>
  match match_seconds str with
  | Some d => parse_int d
  | None => parse_int str
  end end end end end end.

(** [None] is the undefined result of a call that falls through. *)
Definition NiceDuration (duration : num) : option string :=
  if duration >? ⟨60⟩ * ⟨60⟩ * ⟨24⟩ * ⟨365⟩ then
    Some (to_string (nfloor (duration / (⟨60⟩ * ⟨60⟩ * ⟨24⟩ * ⟨365⟩))) +:+ "y")
  else if duration >=? ⟨60⟩ * ⟨60⟩ * ⟨24⟩ * ⟨7⟩ then
    Some (to_string (nfloor (duration / (⟨60⟩ * ⟨60⟩ * ⟨24⟩ * ⟨7⟩))) +:+ "w")
  else if duration >=? ⟨60⟩ * ⟨60⟩ * ⟨24⟩ then
    Some (to_string (nfloor (duration / (⟨60⟩ * ⟨60⟩ * ⟨24⟩))) +:+ "d")
  else if duration >=? ⟨60⟩ * ⟨60⟩ then
    Some (to_string (nfloor (duration / (⟨60⟩ * ⟨60⟩))) +:+ "h")
  else if duration >=? ⟨60⟩ then
    Some (to_string (nfloor (duration / ⟨60⟩)) +:+ "m")
  else if duration >? ⟨0⟩ then
    Some (to_string (nfloor duration) +:+ "s")
  else None.
End durations.

(** ** Variables: a name and a map of labels *)

(** A label without a value is undefined ([None]). *)
Record variable_obj := Variable_ {
  variable : string;
  labels : gmap string (option string);
}.

Definition is_line_end (c : ascii) : bool := (c =? "010")%char || (c =? "013")%char.

(** The text before the last occurrence of [c], if any. *)
Fixpoint before_last (c : ascii) (s : string) : option string :=
  match s with
  | "" => None
  | String d s =>
      match before_last c s with
      | Some t => Some (String d t)
      | None => if (d =? c)%char then Some "" else None
      end
  end.

(** The groups of [/^([^{]+){(.+)}/]: the text before the first brace, and
    the text from there to the last closing brace of the line. *)
Definition match_variable (str : string) : option (string * string) :=
  match span (λ c, negb (c =? "{")%char) str with
  | ("", _) => None
  | (name, String _ rest) =>
      match before_last "}" (fst (span (λ c, negb (is_line_end c)) rest)) with
      | None | Some "" => None
      | Some body => Some (name, body)
      end
  | _ => None
  end.

(** [variable.labels[tmp[0]] = tmp[1]] for one comma-separated piece. *)
Definition add_label (ls : gmap string (option string)) (piece : string)
    : gmap string (option string) :=
  let tmp := split_limit "=" 2 piece in
  <[ default "" (tmp !! 0) := tmp !! 1 ]> ls.

Definition FromString (str : string) : option variable_obj :=
  match match_variable str with
  | None => None
  | Some (name, body) =>
      Some (Variable_ name (foldl add_label ∅ (split_char "," body)))
  end.

(** The label list between braces, and the notation of a variable as the
    pages build it. *)
Definition show_label (l : string * string) : string := l.1 +:+ "=" +:+ l.2.
Definition show_variable (name : string) (ls : list (string * string)) : string :=
  name +:+ "{" +:+ str_join "," (map show_label ls) +:+ "}".

(** ** Durations: printing then reading *)

Section duration_lemmas.
Context {num : Type} `{NumInts num}.
Local Open Scope Z_scope.

(** The unit [NiceDuration] chooses, in seconds. *)
Definition duration_unit (d : Z) : Z :=
  if 31536000 <? d then 31536000
  else if 604800 <=? d then 604800
  else if 86400 <=? d then 86400
  else if 3600 <=? d then 3600
  else if 60 <=? d then 60
  else 1.

Lemma duration_unit_cases d :
  let u := duration_unit d in
  (u = 31536000 ∧ 31536000 < d) ∨ (u = 604800 ∧ 604800 <= d <= 31536000) ∨
  (u = 86400 ∧ 86400 <= d < 604800) ∨ (u = 3600 ∧ 3600 <= d < 86400) ∨
  (u = 60 ∧ 60 <= d < 3600) ∨ (u = 1 ∧ d < 60).
Proof.
  unfold duration_unit.
  destruct (Z.ltb_spec 31536000 d), (Z.leb_spec 604800 d), (Z.leb_spec 86400 d),
    (Z.leb_spec 3600 d), (Z.leb_spec 60 d); lia.
Qed.

Lemma int_ltb a b : safe a → safe b → nltb (of_Z a : num) (of_Z b) = (a <? b).
Proof.
  intros Ha Hb. unfold nltb, Z.ltb. rewrite int_compare by done. by destruct (a ?= b).
Qed.
Lemma int_leb a b : safe a → safe b → nleb (of_Z a : num) (of_Z b) = (a <=? b).
Proof.
  intros Ha Hb. unfold nleb, Z.leb. rewrite int_compare by done. by destruct (a ?= b).
Qed.

Lemma parse_int_dec z : safe z → parse_int (dec_nat z) = (of_Z z : num).
Proof.
  intros Hz. destruct (dec_nat_spec z ltac:(apply Hz)) as [Ha Hv].
  destruct (dec_nat_nonempty z) as (c & s & E & _). rewrite E in *.
  rewrite parse_int_digits, Hv by done. by apply int_of_decimal.
Qed.

Lemma match_unit_dec u c z :
  0 ≤ z → is_digit c = false →
  match_unit u (dec_nat z +:+ String c "") = if (c =? u)%char then Some (dec_nat z) else None.
Proof.
  intros Hz Hc. unfold match_unit. rewrite span_dec_nat; [|done|simpl; by rewrite Hc].
  destruct (dec_nat_nonempty z) as (d & s & -> & _). done.
Qed.

Lemma match_seconds_dec z : 0 ≤ z → match_seconds (dec_nat z +:+ "s") = Some (dec_nat z).
Proof.
  intros Hz. unfold match_seconds. rewrite span_dec_nat by done.
  destruct (dec_nat_nonempty z) as (d & s & -> & _). done.
Qed.

(** Reading a count with a unit letter. *)
Lemma parse_unit z c u :
  safe z → safe (z * u) →
  In (c, u) [("y"%char, 31536000); ("w"%char, 604800); ("d"%char, 86400);
             ("h"%char, 3600); ("m"%char, 60); ("s"%char, 1)] →
  ParseDuration (dec_nat z +:+ String c "") = (of_Z (z * u) : num).
Proof.
  intros Hz Hzu Hin. assert (H0z : 0 ≤ z) by apply Hz. unfold ParseDuration, safe in *.
  repeat (destruct Hin as [[= <- <-]|Hin]; [|]); try done;
    rewrite !match_unit_dec by done; cbn [Ascii.eqb Bool.eqb];
    rewrite ?match_seconds_dec by done; rewrite parse_int_dec by done;
    rewrite ?int_mul by (unfold safe; lia); f_equal; lia.
Qed.
End duration_lemmas.

(** C29: the duration notation loses at most the remainder of the unit shown:
    for every positive integer duration (all intermediate values below
    [2^53]), [NiceDuration] produces a text, and [ParseDuration] reads it
    back as the largest multiple of the chosen unit that does not exceed it. *)
Theorem duration_roundtrip {num : Type} `{NumInts num} (d : Z) :
  (0 < d)%Z → (d + 31536000 < 2 ^ 53)%Z →
  ∃ s, NiceDuration (of_Z d : num) = Some s ∧
       ParseDuration s = (of_Z (d / duration_unit d * duration_unit d) : num).
Proof.
  intros Hd Hs. pose proof (duration_unit_cases d) as C. cbv zeta in C.
  assert (Hu : (0 < duration_unit d)%Z) by lia.
  assert (Hm : (d - duration_unit d < d / duration_unit d * duration_unit d <= d)%Z).
  { pose proof (Z.div_mod d (duration_unit d)). pose proof (Z.mod_pos_bound d (duration_unit d)). lia. }
  assert (Hq : (0 <= d / duration_unit d <= d)%Z)
    by (split; [apply Z.div_pos|apply Z.div_le_upper_bound]; nia).
  unfold NiceDuration. rewrite !int_mul by (unfold safe; lia).
  change (60 * 60 * 24 * 365)%Z with 31536000%Z. change (60 * 60 * 24 * 7)%Z with 604800%Z.
  change (60 * 60 * 24)%Z with 86400%Z. change (60 * 60)%Z with 3600%Z.
  rewrite !int_ltb, !int_leb by (unfold safe; lia).
  assert (Hsafe : safe (d / duration_unit d) ∧ safe (d / duration_unit d * duration_unit d))
    by (unfold safe; lia).
  assert (Hfd : nfloor (ndiv (of_Z d) (of_Z (duration_unit d))) = (of_Z (d / duration_unit d) : num)).
  { apply int_floor_div; unfold safe; lia. }
  unfold duration_unit in *.
  repeat match goal with |- context [if ?b then Some _ else _] => destruct b eqn:? end;
    try (rewrite Hfd, int_to_string by apply Hsafe;
         eexists; split; [done|]; apply parse_unit; [apply Hsafe..|simpl; tauto]).
  - rewrite int_floor, int_to_string by (unfold safe; lia). eexists. split; [done|].
    rewrite Z.div_1_r in *. apply parse_unit; [apply Hsafe..|simpl; tauto].
  - apply Z.ltb_ge in Heqb4. lia.
Qed.

Lemma duration_roundtrip_witness :
  ∃ s, NiceDuration (of_Z 43200 : spec_float) = Some s ∧
       ParseDuration s = (of_Z (43200 / duration_unit 43200 * duration_unit 43200) : spec_float).
Proof. apply (duration_roundtrip 43200); lia. Defined.

(** ** Variables: printing then reading *)

Lemma before_last_app c s : before_last c (s +:+ String c "") = Some s.
Proof.
  induction s as [|d s IH]; simpl; [by rewrite Ascii.eqb_refl|by rewrite IH].
Qed.

Definition no_char (c : ascii) (s : string) : bool := all_chars (λ d, negb (d =? c)%char) s.
Definition one_line (s : string) : bool := all_chars (λ c, negb (is_line_end c)) s.

(** Texts that can stand for a label key or value. *)
Definition label_text (s : string) : bool := no_char "," s && no_char "=" s && one_line s.
Definition label_ok (l : string * string) : bool := label_text l.1 && label_text l.2.

Lemma add_label_show ls k v :
  label_ok (k, v) = true → add_label ls (show_label (k, v)) = <[k := Some v]> ls.
Proof.
  unfold label_ok, label_text. simpl. intros H. bools. unfold add_label, split_limit, show_label.
  simpl. rewrite split_char_app, split_char_none by done. done.
Qed.

Lemma foldl_add_label ls m :
  Forall (λ l, label_ok l = true) ls →
  foldl add_label m (map show_label ls) = foldl (λ m l, <[l.1 := Some l.2]> m) m ls.
Proof.
  intros Hls. revert m. induction Hls as [|[k v] ls Hl Hls IH]; intros m; simpl; [done|].
  rewrite add_label_show by done. apply IH.
Qed.

Lemma all_chars_join p sep ls :
  all_chars p sep = true → Forall (λ s, all_chars p s = true) ls →
  all_chars p (str_join sep ls) = true.
Proof.
  intros Hsep. induction 1 as [|s ls Hs Hls IH]; [done|].
  destruct ls as [|t ls]; [done|].
  change (str_join sep (s :: t :: ls)) with (s +:+ (sep +:+ str_join sep (t :: ls))).
  by rewrite !all_chars_app, Hs, Hsep, IH.
Qed.

Lemma show_label_chars l :
  label_ok l = true → no_char "," (show_label l) = true ∧ one_line (show_label l) = true.
Proof.
  unfold label_ok, label_text, show_label, no_char, one_line. intros H. bools.
  rewrite !all_chars_app. simpl. split; by repeat (apply andb_true_intro; split).
Qed.

Lemma match_show_variable name body :
  name ≠ "" → no_char "{" name = true → body ≠ "" → one_line body = true →
  match_variable (name +:+ "{" +:+ body +:+ "}") = Some (name, body).
Proof.
  intros Hn Hname Hb Hline. unfold match_variable.
  rewrite span_all by done. destruct name as [|c name]; [done|]. simpl.
  assert (span (λ c, negb (is_line_end c)) (body +:+ "}") = (body +:+ "}", "")) as ->.
  { rewrite <- (string_app_nil_r (body +:+ "}")) at 1. apply span_all; [|done].
    rewrite all_chars_app. unfold one_line in Hline. by rewrite Hline. }
  simpl. rewrite before_last_app. by destruct body.
Qed.

(** The variable notation round-trips: a name without an opening brace
    and a non-empty list of labels whose keys and values hold no comma,
    equals sign or line end are read back from the text the pages build from
    them, with every label bound to its value (closing braces inside values
    are kept). *)
Theorem FromString_show name ls :
  name ≠ "" → no_char "{" name = true → ls ≠ [] → Forall (λ l, label_ok l = true) ls →
  FromString (show_variable name ls)
  = Some (Variable_ name (foldl (λ m l, <[l.1 := Some l.2]> m) ∅ ls)).
Proof.
  intros Hn Hname Hls Hok. unfold FromString, show_variable.
  assert (Hall : Forall (λ s, no_char "," s = true ∧ one_line s = true) (map show_label ls)).
  { rewrite Forall_map. eapply Forall_impl; [done|]. apply show_label_chars. }
  rewrite match_show_variable; [|done|done| |].
  - rewrite split_join; [by rewrite foldl_add_label|by destruct ls|].
    eapply Forall_impl; [done|]. simpl. intros s [? _]. done.
  - destruct ls as [|[k v] ls]; [done|]. destruct k, ls; done.
  - apply all_chars_join; [done|]. eapply Forall_impl; [done|]. by intros s [_ ?].
Qed.

Lemma FromString_show_witness :
  FromString (show_variable "/network/ifInOctets" [("hostname", "gw{1}"); ("interface", "Dialer0")])
  = Some (Variable_ "/network/ifInOctets"
            (foldl (λ m l, <[l.1 := Some l.2]> m) ∅ [("hostname", "gw{1}"); ("interface", "Dialer0")])).
Proof. apply FromString_show; [done|done|done|repeat constructor]. Defined.

(** ** The transport *)

(** Completing a request invokes exactly one callback: the success
    callback exactly when the reply arrived and the parsed response reports
    success; otherwise the error callback when there is one, and without one
    a failed request is logged while an unsuccessful response is dropped
    silently.  The callback receives the response object as returned. *)
Theorem SendRequest_callbacks {response : Type} parse_from succeeded set_failed
    path (resp : response) error out :
  let '(resp', c) := SendRequest_done parse_from succeeded set_failed path resp error out in
  (c = CallSuccess resp' ↔
     ∃ text, out = AjaxSuccess text ∧ succeeded (parse_from resp text) = true) ∧
  (error = true → c = CallSuccess resp' ∨ c = CallError resp') ∧
  (error = false → c = CallSuccess resp' ∨
     (∃ status thrown, out = AjaxError status thrown ∧
        c = ConsoleLog ("Error in " +:+ path +:+ " request: " +:+ thrown)) ∨
     (c = NoCallback ∧ ∃ text, out = AjaxSuccess text ∧ resp' = parse_from resp text ∧
        succeeded resp' = false)) ∧
  (∀ status thrown, out = AjaxError status thrown →
     resp' = set_failed resp ("Error in " +:+ path +:+ " request: " +:+ status +:+ thrown)).
Proof.
  destruct out as [text|status thrown]; simpl;
    [destruct (succeeded (parse_from resp text)) eqn:E|]; destruct error;
    (split; [split; [intros ?; simplify_eq; eauto|intros (t & ? & ?); simplify_eq; congruence]|]);
    split_and!; intros; simplify_eq; eauto 10.
Qed.

(** The body of a request is the serialized message with its first line
    feed removed, and only that one: each further line feed of a serialization
    that spans several lines is sent. *)
Theorem SendRequest_body {request : Type} (serialize : request → string) path req :
  count_char newline (ajax_data (SendRequest serialize path req))
  = Nat.pred (count_char newline (serialize req)).
Proof. apply count_remove_first. Qed.
