(* ===== verification/Dashboard.v ===== *)
(** The graph page, [static/test.js]: the page state (selections, zoom
    stack, refresh timer, requests in flight) and one handler per event. *)

From S2P Require Import Prelude Numbers JsText Float64 JsValue StoreClient.
From Stdlib Require Import Ascii SpecFloat.
From stdpp Require Import gmap.

(** ** Messages *)

(** A stream of a reply: its variable and its (timestamp, value) points. *)
Record stream (num : Type) := Stream { st_variable : string; st_value : list (num * num) }.
Arguments Stream {num} _ _. Arguments st_variable {num} _. Arguments st_value {num} _.

(** The request messages the page builds; the data request keeps the three
    fields it sets. *)
Inductive request (num : Type) :=
  | SelectorsRequest (prefix : string)
  | InterfacesRequest (prefix : string)
  | GetRequest (variable : string) (min_timestamp : num) (sample_type : num).
Arguments SelectorsRequest {num} _. Arguments InterfacesRequest {num} _.
Arguments GetRequest {num} _ _ _.

(** A reply as the callbacks see it: [None] is the error path of the
    transport (failed request or unsuccessful response). *)
Definition reply (num : Type) : Type := option (list (stream num)).

(** A plotted series: label and points. *)
Record record (num : Type) := Record_ { label : string; data : list (num * num) }.
Arguments Record_ {num} _ _. Arguments label {num} _. Arguments data {num} _.

(** ** Page state *)

Record page (num : Type) := Page {
  graphdata : option (list (record num));
  zoomstack : list (num * num);           (* top of the stack first *)
  xaxis_min : option num;                 (* graph_options.xaxis.min *)
  xaxis_max : option num;
  zoomout_disabled : bool;
  graph_variable : option string;
  graph_interface : option string;
  graph_host : option string;
  fetch_timeout : option nat;             (* last timer id *)
  graph_duration : num;
  nice_duration : string;                 (* the text field *)
  value_type_field : string;              (* the value_type selector *)
  dom_variable : list string;             (* option elements of the selectors *)
  dom_interface : list string;
  dom_host : list string;
  timers : list nat;                      (* timers that are set *)
  next_timer : nat;
  inflight : list (request num);          (* requests not answered yet *)
  plots : nat;                            (* calls of $.plot that returned *)
}.
Arguments Page {num}.
Arguments graphdata {num} _. Arguments zoomstack {num} _. Arguments xaxis_min {num} _.
Arguments xaxis_max {num} _. Arguments zoomout_disabled {num} _.
Arguments graph_variable {num} _. Arguments graph_interface {num} _.
Arguments graph_host {num} _. Arguments fetch_timeout {num} _.
Arguments graph_duration {num} _. Arguments nice_duration {num} _.
Arguments value_type_field {num} _. Arguments dom_variable {num} _.
Arguments dom_interface {num} _. Arguments dom_host {num} _.
Arguments timers {num} _. Arguments next_timer {num} _.
Arguments inflight {num} _. Arguments plots {num} _.

(** Field updates, one per group of variables the handlers assign. *)
Section updates.
Context {num : Type}.
Implicit Types p : page num.

Definition with_zoom p (z : list (num * num)) (mn mx : option num) (dis : bool) : page num :=
  Page (graphdata p) z mn mx dis (graph_variable p) (graph_interface p) (graph_host p)
    (fetch_timeout p) (graph_duration p) (nice_duration p) (value_type_field p)
    (dom_variable p) (dom_interface p) (dom_host p) (timers p) (next_timer p)
    (inflight p) (plots p).
Definition with_selection p (v i h : option string) : page num :=
  Page (graphdata p) (zoomstack p) (xaxis_min p) (xaxis_max p) (zoomout_disabled p) v i h
    (fetch_timeout p) (graph_duration p) (nice_duration p) (value_type_field p)
    (dom_variable p) (dom_interface p) (dom_host p) (timers p) (next_timer p)
    (inflight p) (plots p).
Definition with_duration p (d : num) (s : string) : page num :=
  Page (graphdata p) (zoomstack p) (xaxis_min p) (xaxis_max p) (zoomout_disabled p)
    (graph_variable p) (graph_interface p) (graph_host p)
    (fetch_timeout p) d s (value_type_field p)
    (dom_variable p) (dom_interface p) (dom_host p) (timers p) (next_timer p)
    (inflight p) (plots p).
Definition with_value_type p (s : string) : page num :=
  Page (graphdata p) (zoomstack p) (xaxis_min p) (xaxis_max p) (zoomout_disabled p)
    (graph_variable p) (graph_interface p) (graph_host p)
    (fetch_timeout p) (graph_duration p) (nice_duration p) s
    (dom_variable p) (dom_interface p) (dom_host p) (timers p) (next_timer p)
    (inflight p) (plots p).
Definition with_dom p (v i h : list string) : page num :=
  Page (graphdata p) (zoomstack p) (xaxis_min p) (xaxis_max p) (zoomout_disabled p)
    (graph_variable p) (graph_interface p) (graph_host p)
    (fetch_timeout p) (graph_duration p) (nice_duration p) (value_type_field p)
    v i h (timers p) (next_timer p) (inflight p) (plots p).
Definition with_timers p (ft : option nat) (ts : list nat) (n : nat) : page num :=
  Page (graphdata p) (zoomstack p) (xaxis_min p) (xaxis_max p) (zoomout_disabled p)
    (graph_variable p) (graph_interface p) (graph_host p)
    ft (graph_duration p) (nice_duration p) (value_type_field p)
    (dom_variable p) (dom_interface p) (dom_host p) ts n (inflight p) (plots p).
Definition with_inflight p (rs : list (request num)) : page num :=
  Page (graphdata p) (zoomstack p) (xaxis_min p) (xaxis_max p) (zoomout_disabled p)
    (graph_variable p) (graph_interface p) (graph_host p)
    (fetch_timeout p) (graph_duration p) (nice_duration p) (value_type_field p)
    (dom_variable p) (dom_interface p) (dom_host p) (timers p) (next_timer p) rs (plots p).
Definition with_data p (g : option (list (record num))) : page num :=
  Page g (zoomstack p) (xaxis_min p) (xaxis_max p) (zoomout_disabled p)
    (graph_variable p) (graph_interface p) (graph_host p)
    (fetch_timeout p) (graph_duration p) (nice_duration p) (value_type_field p)
    (dom_variable p) (dom_interface p) (dom_host p) (timers p) (next_timer p)
    (inflight p) (plots p).

(** [$.plot(...)], which draws the graph or throws (the options and the data
    of the page may have no plot: [Invalid dimensions], say). *)
Definition plotted p (drawn : bool) : page num :=
  Page (graphdata p) (zoomstack p) (xaxis_min p) (xaxis_max p) (zoomout_disabled p)
    (graph_variable p) (graph_interface p) (graph_host p)
    (fetch_timeout p) (graph_duration p) (nice_duration p) (value_type_field p)
    (dom_variable p) (dom_interface p) (dom_host p) (timers p) (next_timer p)
    (inflight p) (if drawn then S (plots p) else plots p).
End updates.

Section dashboard.
Context {num : Type} `{Num num} `{MathLib num} `{NumText num}.
Local Open Scope num_scope.
Implicit Types p : page num.

(** ** Formatting *)

Definition round (val decimals : num) : num :=
  let mul := math_pow ⟨10⟩ decimals in nround (val * mul) / mul.

(** [graph_options.yaxis.tickFormatter] *)
Definition tickFormatter (v : num) : string :=
  let val := v * ⟨8⟩ in
  if val >? ⟨1024⟩ * ⟨1024⟩ * ⟨1024⟩ then
    to_string (round (val / ⟨1024⟩ / ⟨1024⟩ / ⟨1024⟩) ⟨1⟩) +:+ "Gbps"
  else if val >? ⟨1024⟩ * ⟨1024⟩ then
    to_string (round (val / ⟨1024⟩ / ⟨1024⟩) ⟨1⟩) +:+ "Mbps"
  else if val >? ⟨1024⟩ then to_string (round (val / ⟨1024⟩) ⟨1⟩) +:+ "Kbps"
  else to_string val +:+ "bps".

(** ** Zooming *)

Definition ResetZoom p : page num := with_zoom p (zoomstack p) None None true.

Definition ShowDuration p : page num :=
  with_duration p (graph_duration p) (default "" (NiceDuration (graph_duration p))).

(** The [plotselected] handler: a non-zero current minimum is saved. The
    call of [$.plot] is its last statement. *)
Definition plotselected p (from to : num) (drawn : bool) : page num :=
  let z := match xaxis_min p, xaxis_max p with
           | Some mn, Some mx => if ntruthy mn then (mn, mx) :: zoomstack p else zoomstack p
           | _, _ => zoomstack p
           end in
  plotted (with_zoom p z (Some from) (Some to) false) drawn.

(** The click handler of the zoom-out button. *)
Definition zoomout p (drawn : bool) : page num :=
  let p := match zoomstack p with
           | el :: rest => with_zoom p rest (Some el.1) (Some el.2) false
           | [] => ResetZoom p
           end in
  plotted p drawn.

(** ** Fetching *)

(** A selection variable that is null, undefined or empty is falsy. *)
Definition selected (o : option string) : bool :=
  match o with Some s => negb (String.eqb s "") | None => false end.

Definition text_of (o : option string) : string := default "null" o.

(** The message [FetchData] sends. *)
Definition data_request (now : num) p : request num :=
  GetRequest
    (text_of (graph_variable p) +:+ "{hostname=" +:+ text_of (graph_host p) +:+
       ",interface=" +:+ text_of (graph_interface p) +:+ "}")
    (now - graph_duration p * ⟨1000⟩)
    (parse_int (value_type_field p)).

Definition FetchData (now : num) p : page num :=
  if negb (selected (graph_interface p)) || negb (selected (graph_host p))
     || negb (selected (graph_variable p)) then p
  else
    let p := match fetch_timeout p with
             | Some t => with_timers p (fetch_timeout p)
                           (List.filter (λ u, negb (Nat.eqb u t)) (timers p)) (next_timer p)
             | None => p
             end in
    with_inflight p (inflight p ++ [data_request now p]).

(** [fetch_timeout = setTimeout(FetchData, 30000)] *)
Definition set_refresh p : page num :=
  with_timers p (Some (next_timer p)) (timers p ++ [next_timer p]) (S (next_timer p)).

(** The two callbacks of the data request. A [$.plot] that throws leaves the
    first one before it sets the timer. *)
Definition FetchData_reply p (r : reply num) (drawn : bool) : page num :=
  match r with
  | Some streams =>
      let p := with_data p (Some (map (λ s, Record_ (st_variable s) (st_value s)) streams)) in
      let p := plotted p drawn in
      if drawn then set_refresh p else p
  | None => set_refresh p
  end.

Definition option_html (i selected : string) : string :=
  "<option value='" +:+ i +:+ "' " +:+ selected +:+ ">" +:+ i +:+ "</option>".

Definition BuildInterfaceList p : page num :=
  let msg := InterfacesRequest
    (text_of (graph_variable p) +:+ "{hostname=" +:+ text_of (graph_host p) +:+ ",interface=*}") in
  with_inflight p (inflight p ++ [msg]).

(** The loop of the interface-list callback; [false] when it throws
    because a stream has no label list. *)
Fixpoint interface_loop p (streams : list (stream num)) : page num * bool :=
  match streams with
  | [] => (p, true)
  | s :: rest =>
      match FromString (st_variable s) with
      | None => (p, false)
      | Some v =>
          let interface := mjoin (labels v !! "interface") in
          let p := if selected (graph_interface p) then p
                   else with_selection p (graph_variable p) interface (graph_host p) in
          let sel := if decide (graph_interface p = interface) then "selected='1'" else "" in
          let p := with_dom p (dom_variable p)
            (dom_interface p ++ [option_html (default "undefined" interface) sel]) (dom_host p) in
          interface_loop p rest
      end
  end.

Definition BuildInterfaceList_reply (now : num) p (r : reply num) : page num :=
  match r with
  | None => p
  | Some streams =>
      let p := with_dom p (dom_variable p) [] (dom_host p) in
      let '(p, ok) := interface_loop p streams in
      if ok then FetchData now p else p
  end.

Definition BuildSelectors p : page num :=
  with_inflight p
    (inflight p ++ [SelectorsRequest "/network/interface/stats/*{hostname=*,interface=*}"]).

(** [o[k] = 1] on an object used as an ordered set of keys. *)
Definition add_key (k : string) (l : list string) : list string :=
  if decide (k ∈ l) then l else l ++ [k].

(** First loop of the selector callback: the variables and hosts seen. *)
Fixpoint collect_selectors (streams : list (stream num)) (variables hosts : list string)
    : option (list string * list string) :=
  match streams with
  | [] => Some (variables, hosts)
  | s :: rest =>
      match FromString (st_variable s) with
      | None => None
      | Some v =>
          collect_selectors rest (add_key (variable v) variables)
            (add_key (default "undefined" (mjoin (labels v !! "hostname"))) hosts)
      end
  end.

(** The loop over a set of keys that fills one selector: the current
    choice (set to the first key when there is none) and the options. *)
Fixpoint fill_selector (choice : option string) (keys : list string)
    : option string * list string :=
  match keys with
  | [] => (choice, [])
  | i :: rest =>
      let choice := if selected choice then choice else Some i in
      let sel := if decide (choice = Some i) then "selected='1'" else "" in
      let '(c, opts) := fill_selector choice rest in
      (c, option_html i sel :: opts)
  end.

Definition BuildSelectors_reply p (r : reply num) : page num :=
  match r with
  | None => p
  | Some streams =>
      let p := with_dom p [] [] [] in
      match collect_selectors streams [] [] with
      | None => p
      | Some (variables, hosts) =>
          let '(v, vopts) := fill_selector (graph_variable p) variables in
          let '(h, hopts) := fill_selector None hosts in
          BuildInterfaceList
            (with_dom (with_selection p v (graph_interface p) h) vopts [] hopts)
      end
  end.

(** ** Event handlers *)

Definition increase_duration (now : num) p : page num :=
  let p := with_duration p (ParseDuration (nice_duration p) * ⟨2⟩) (nice_duration p) in
  FetchData now (ResetZoom (ShowDuration p)).

Definition decrease_duration (now : num) p : page num :=
  let p := with_duration p (ParseDuration (nice_duration p) / ⟨2⟩) (nice_duration p) in
  FetchData now (ResetZoom (ShowDuration p)).

(** The handler reads [el.val()] of the event object, which has no such
    method: it throws before any assignment. *)
Definition nice_duration_change p : page num := p.

Definition value_type_change (now : num) p : page num := FetchData now p.

Definition host_change p (h : string) : page num :=
  BuildInterfaceList (with_selection p (graph_variable p) None (Some h)).

Definition variable_change (now : num) p (v : string) : page num :=
  FetchData now (with_selection p (Some v) (graph_interface p) (graph_host p)).

Definition interface_change (now : num) p (i : string) : page num :=
  FetchData now (with_selection p (graph_variable p) (Some i) (graph_host p)).

(** The document-ready function. *)
Definition ready (now : num) p : page num :=
  FetchData now (ShowDuration (BuildSelectors p)).

(** The globals and the page before the document is ready. *)
Definition initial_page : page num :=
  Page None [] None None true (Some "/network/interface/stats/ifInOctets") (Some "Dialer0")
    (Some "") None (⟨3600⟩ * ⟨12⟩) "" "4" [] [] [] [] 0 [] 0.

(** ** Events and steps *)

(** [drawn] tells whether the [$.plot] of a handler returns; replies to the
    two list requests draw nothing. *)
Inductive event :=
  | Ready (now : num)
  | Reply (i : nat) (now : num) (r : reply num) (drawn : bool)
  | Timer (id : nat) (now : num)
  | Increase (now : num)
  | Decrease (now : num)
  | TypeDuration (s : string)
  | ValueType (v : string) (now : num)
  | Host (h : string)
  | ChooseVariable (v : string) (now : num)
  | ChooseInterface (i : string) (now : num)
  | Select (from to : num) (drawn : bool)
  | ZoomOut (drawn : bool).

Definition handle_reply (q : request num) (now : num) p (r : reply num) (drawn : bool) : page num :=
  match q with
  | SelectorsRequest _ => BuildSelectors_reply p r
  | InterfacesRequest _ => BuildInterfaceList_reply now p r
  | GetRequest _ _ _ => FetchData_reply p r drawn
  end.

(** [None]: the event cannot happen in this state (no such request in
    flight, timer not set). *)
Definition step p (e : event) : option (page num) :=
  match e with
  | Ready now => Some (ready now p)
  | Reply i now r drawn =>
      q ← inflight p !! i;
      Some (handle_reply q now (with_inflight p (delete i (inflight p))) r drawn)
  | Timer id now =>
      if decide (id ∈ timers p) then
        Some (FetchData now (with_timers p (fetch_timeout p)
                (List.filter (λ u, negb (Nat.eqb u id)) (timers p)) (next_timer p)))
      else None
  | Increase now => Some (increase_duration now p)
  | Decrease now => Some (decrease_duration now p)
  | TypeDuration s => Some (nice_duration_change (with_duration p (graph_duration p) s))
  | ValueType v now => Some (value_type_change now (with_value_type p v))
  | Host h => Some (host_change p h)
  | ChooseVariable v now => Some (variable_change now p v)
  | ChooseInterface i now => Some (interface_change now p i)
  | Select from to drawn => Some (plotselected p from to drawn)
  | ZoomOut drawn => Some (zoomout p drawn)
  end.

Fixpoint run p (es : list event) : option (page num) :=
  match es with
  | [] => Some p
  | e :: es => p ← step p e; run p es
  end.
End dashboard.

(** ** Zooming *)

Section zoom_lemmas.
Context {num : Type} `{Num num} `{NumText num}.
Implicit Types p q : page num.

Definition zoom_state p : list (num * num) * option num * option num :=
  (zoomstack p, xaxis_min p, xaxis_max p).

(** A window that a further selection saves. *)
Definition zoomed p : bool :=
  match xaxis_min p, xaxis_max p with Some mn, Some _ => ntruthy mn | _, _ => false end.

(** What an event does to the zoom: a selection, a press of the zoom-out
    button, or nothing. *)
Definition zoom_kind (e : @event num) : option (option (num * num)) :=
  match e with
  | Select from to _ => Some (Some (from, to))
  | ZoomOut _ => Some None
  | _ => None
  end.

(** The events that change the duration also reset the window. *)
Definition resets_zoom (e : @event num) : bool :=
  match e with Increase _ | Decrease _ => true | _ => false end.

Definition zoom_move p (m : option (num * num)) : page num :=
  match m with
  | Some w => plotselected p w.1 w.2 true
  | None => zoomout p true
  end.

Lemma FetchData_frame now p :
  zoom_state (FetchData now p) = zoom_state p ∧
  zoomout_disabled (FetchData now p) = zoomout_disabled p.
Proof. unfold FetchData. repeat case_match; done. Qed.

Lemma interface_loop_zoom p ss : zoom_state (fst (interface_loop p ss)) = zoom_state p.
Proof.
  revert p. induction ss as [|s ss IH]; intros p; simpl; [done|].
  destruct (FromString (st_variable s)) as [v|]; [|done].
  rewrite IH. by destruct (selected (graph_interface p)).
Qed.

Lemma handle_reply_zoom r now p rp drawn :
  zoom_state (handle_reply r now p rp drawn) = zoom_state p.
Proof.
  destruct r; simpl.
  - unfold BuildSelectors_reply. destruct rp as [ss|]; [|done].
    destruct (collect_selectors ss [] []) as [[vs hs]|]; [|done].
    by destruct (fill_selector (graph_variable _) vs), (fill_selector None hs).
  - unfold BuildInterfaceList_reply. destruct rp as [ss|]; [|done].
    pose proof (interface_loop_zoom (with_dom p (dom_variable p) [] (dom_host p)) ss) as F.
    destruct (interface_loop _ ss) as [p2 ok]. simpl in F.
    destruct ok; [by rewrite (proj1 (FetchData_frame _ _))|done].
  - by destruct rp, drawn.
Qed.

Lemma zoomout_ext p q :
  zoomstack p = zoomstack q → zoom_state (zoomout p true) = zoom_state (zoomout q true).
Proof.
  unfold zoomout, zoom_state. intros E. rewrite E.
  destruct (zoomstack q) eqn:Eq; [|done]. simpl. by rewrite E, Eq.
Qed.

(** The zoom follows the selections and the presses alone. *)
Lemma zoom_move_ext p q m :
  zoom_state p = zoom_state q → zoom_state (zoom_move p m) = zoom_state (zoom_move q m).
Proof.
  unfold zoom_state. intros [= E1 E2 E3]. destruct m as [w|]; simpl; [by rewrite E1, E2, E3|].
  by apply zoomout_ext.
Qed.

Lemma zoom_moves_ext p q ms :
  zoom_state p = zoom_state q →
  zoom_state (foldl zoom_move p ms) = zoom_state (foldl zoom_move q ms).
Proof.
  revert p q. induction ms as [|m ms IH]; intros p q E; [done|].
  simpl. by apply IH, zoom_move_ext.
Qed.

Lemma step_zoom p e q :
  step p e = Some q → resets_zoom e = false →
  zoom_state q = match zoom_kind e with
                 | Some m => zoom_state (zoom_move p m)
                 | None => zoom_state p
                 end.
Proof.
  intros Hs He. destruct e; simpl in *; simplify_eq; try done;
    unfold ready, value_type_change, variable_change, interface_change in *;
    try (rewrite (proj1 (FetchData_frame _ _)); done).
  - destruct (inflight p !! i) as [r'|]; simplify_eq/=.
    by rewrite handle_reply_zoom.
  - case_decide; simplify_eq. by rewrite (proj1 (FetchData_frame _ _)).
Qed.

Lemma run_zoom p es q :
  run p es = Some q → forallb (λ e, negb (resets_zoom e)) es = true →
  zoom_state q = zoom_state (foldl zoom_move p (omap zoom_kind es)).
Proof.
  revert p. induction es as [|e es IH]; intros p Hr He; simplify_eq/=; [done|].
  destruct (step p e) as [p'|] eqn:Hs; simplify_eq/=.
  apply andb_true_iff in He as [He Hes]. apply negb_true_iff in He.
  rewrite (IH _ Hr Hes). pose proof (step_zoom _ _ _ Hs He) as Z.
  destruct (zoom_kind e) as [m|]; simpl; by apply zoom_moves_ext.
Qed.

Lemma zoomout_zoomed p p' w :
  zoomed p = true → zoom_state p' = zoom_state (zoom_move p (Some w)) →
  zoom_state (zoomout p' true) = zoom_state p.
Proof.
  unfold zoomed, zoom_state, zoomout. simpl.
  destruct (xaxis_min p) as [mn|], (xaxis_max p) as [mx|]; try done.
  by intros -> [= -> _ _].
Qed.

Lemma zoom_moves_cons p w ws :
  foldl zoom_move p (map Some (w :: ws) ++ replicate (length (w :: ws)) None) =
  zoomout (foldl zoom_move (plotselected p w.1 w.2 true)
             (map Some ws ++ replicate (length ws) None)) true.
Proof.
  simpl. change (None :: replicate (length ws) None)
    with (replicate (S (length ws)) (@None (num * num))).
  by rewrite replicate_S_end, app_assoc, foldl_app.
Qed.

Lemma zoom_moves_zoomed p ws :
  zoomed p = true → Forall (λ w, ntruthy w.1 = true) ws →
  zoom_state (foldl zoom_move p (map Some ws ++ replicate (length ws) None)) = zoom_state p.
Proof.
  revert p. induction ws as [|w ws IH]; intros p Hp Hw; [done|].
  apply Forall_cons in Hw as [Hw Hws].
  rewrite zoom_moves_cons.
  apply (zoomout_zoomed p _ w Hp), IH; [exact Hw|done].
Qed.
End zoom_lemmas.

(** C26: zooming is a stack: while the duration is not changed, selections
    with non-zero left ends followed by as many presses of the zoom-out button,
    whatever other events come in between and whether or not the plots are
    drawn, restore the window and the saved windows of a page that was zoomed;
    a page that was not zoomed ends as if the button had been pressed once:
    unzoomed when no window was saved, and otherwise in the last window saved
    before a change of the duration (see [zoom_stale_after_reset]). *)
Theorem zoom_lifo {num : Type} `{Num num} `{NumText num}
    (p q : page num) (es : list event) (ws : list (num * num)) :
  run p es = Some q → forallb (λ e, negb (resets_zoom e)) es = true →
  omap zoom_kind es = map Some ws ++ replicate (length ws) None →
  ws ≠ [] → Forall (λ w, ntruthy w.1 = true) ws →
  zoom_state q = zoom_state (if zoomed p then p else zoomout p true).
Proof.
  intros Hr He Hk Hn Hw. rewrite (run_zoom _ _ _ Hr He), Hk.
  destruct (zoomed p) eqn:Hp; [by apply zoom_moves_zoomed|].
  destruct ws as [|w ws]; [done|]. apply Forall_cons in Hw as [Hw Hws].
  rewrite zoom_moves_cons.
  transitivity (zoom_state (zoom_move (zoom_move p (Some w)) None)).
  - apply (zoom_move_ext _ _ None), zoom_moves_zoomed; [exact Hw|done].
  - apply zoomout_ext. revert Hp. unfold zoomed. simpl.
    destruct (xaxis_min p), (xaxis_max p); try done. by intros ->.
Qed.

(** Two selections and two presses with a change of the value type between. *)
Lemma zoom_lifo_witness :
  let p := initial_page (num := spec_float) in
  ∃ q, run p [Select (of_Z 1) (of_Z 9) true; Select (of_Z 2) (of_Z 5) false;
              ValueType "5" (of_Z 0); ZoomOut true; ZoomOut true] = Some q ∧
       zoom_state q = zoom_state (if zoomed p then p else zoomout p true).
Proof.
  eexists. split; [reflexivity|].
  eapply (zoom_lifo initial_page _
    [Select (of_Z 1) (of_Z 9) true; Select (of_Z 2) (of_Z 5) false;
     ValueType "5" (of_Z 0); ZoomOut true; ZoomOut true]
    [(of_Z 1, of_Z 9); (of_Z 2, of_Z 5)]); [reflexivity..|done|].
  repeat constructor.
Defined.

(** Changing the duration resets the window but keeps the saved ones, so
    after two selections and a duration change the zoom-out button brings
    back the first selection instead of doing nothing. *)
Theorem zoom_stale_after_reset {num : Type} `{Num num} `{NumText num}
    (p : page num) (a b : num * num) (now : num) :
  zoomstack p = [] → xaxis_min p = None → ntruthy a.1 = true →
  ∃ q q', run p [Select a.1 a.2 true; Select b.1 b.2 true; Increase now] = Some q ∧
          xaxis_min q = None ∧ zoomout_disabled q = true ∧
          step q (ZoomOut true) = Some q' ∧ xaxis_min q' = Some a.1 ∧ xaxis_max q' = Some a.2.
Proof.
  intros E0 E1 Ha.
  set (q0 := plotselected (plotselected p a.1 a.2 true) b.1 b.2 true).
  exists (increase_duration now q0), (zoomout (increase_duration now q0) true).
  split; [done|].
  assert (F : zoom_state (increase_duration now q0) = ([a], None, None)).
  { unfold increase_duration. rewrite (proj1 (FetchData_frame _ _)).
    unfold zoom_state, q0, plotselected. simpl. rewrite E0, E1, Ha. by destruct a. }
  assert (D : zoomout_disabled (increase_duration now q0) = true).
  { unfold increase_duration. by rewrite (proj2 (FetchData_frame _ _)). }
  unfold zoom_state in F. injection F as F1 F2 F3. clearbody q0. unfold zoomout. rewrite F1.
  split_and!; try done. cbn [step]. unfold zoomout. by rewrite F1.
Qed.

Lemma zoom_stale_after_reset_witness :
  let p := initial_page (num := spec_float) in
  ∃ q q', run p [Select (of_Z 3) (of_Z 9) true; Select (of_Z 4) (of_Z 8) true;
                 Increase (of_Z 0)] = Some q ∧
          xaxis_min q = None ∧ zoomout_disabled q = true ∧
          step q (ZoomOut true) = Some q' ∧
          xaxis_min q' = Some (of_Z 3) ∧ xaxis_max q' = Some (of_Z 9).
Proof. by apply (zoom_stale_after_reset initial_page (of_Z 3, of_Z 9) (of_Z 4, of_Z 8) (of_Z 0)). Defined.

(** ** Refreshing *)

Section refresh_lemmas.
Context {num : Type} `{Num num} `{NumText num}.
Implicit Types p q : page num.

Definition is_get (r : request num) : bool :=
  match r with GetRequest _ _ _ => true | _ => false end.

(** Refresh chains: timers that will fetch, and fetches that will set a timer. *)
Definition gets p : nat := length (List.filter is_get (inflight p)).
Definition chains p : nat := length (timers p) + gets p.

(** The three selectors have a value, so that [FetchData] sends a request. *)
Definition complete p : bool :=
  selected (graph_interface p) && selected (graph_host p) && selected (graph_variable p).

(** The events after which nothing replaces the chain that causes them: a
    timer that finds a selector empty, and data that cannot be plotted. *)
Definition ends p (e : @event num) : bool :=
  match e with
  | Timer _ _ => negb (complete p)
  | Reply i _ (Some _) false =>
      match inflight p !! i with Some r => is_get r | None => false end
  | _ => false
  end.

(** The page without its requests, as far as timers are concerned. *)
Definition timer_state p : list nat * option nat := (timers p, fetch_timeout p).

Lemma interface_loop_frame p ss :
  let q := fst (interface_loop p ss) in
  timer_state q = timer_state p ∧ inflight q = inflight p.
Proof.
  revert p. induction ss as [|s ss IH]; intros p; simpl; [done|].
  destruct (FromString (st_variable s)) as [v|]; [|done].
  edestruct IH as [-> ->]. by destruct (selected (graph_interface p)).
Qed.

Lemma BuildSelectors_reply_frame p r :
  let q := BuildSelectors_reply p r in
  timer_state q = timer_state p ∧ gets q = gets p.
Proof.
  unfold BuildSelectors_reply, gets. destruct r as [ss|]; [|done].
  destruct (collect_selectors ss [] []) as [[vs hs]|]; [|done].
  simpl. destruct (fill_selector (graph_variable p) vs), (fill_selector None hs). simpl.
  by rewrite List.filter_app, app_nil_r.
Qed.

(** The reply to the list of interfaces is a fetch, or nothing for the
    timers and the requests. *)
Lemma BuildInterfaceList_reply_frame now p r :
  ∃ p', timer_state p' = timer_state p ∧ inflight p' = inflight p ∧
        (BuildInterfaceList_reply now p r = FetchData now p' ∨
         BuildInterfaceList_reply now p r = p').
Proof.
  unfold BuildInterfaceList_reply. destruct r as [ss|]; [|by exists p; auto].
  pose proof (interface_loop_frame (with_dom p (dom_variable p) [] (dom_host p)) ss) as [F1 F2].
  destruct (interface_loop _ ss) as [p2 ok]. simpl in F1, F2. exists p2.
  destruct ok; auto.
Qed.

Lemma FetchData_complete now p :
  complete p = true → inflight (FetchData now p) = inflight p ++ [data_request now p].
Proof.
  unfold complete, FetchData. intros Hc. bools. rewrite H1, H2, H3. simpl.
  by destruct (fetch_timeout p).
Qed.

Lemma FetchData_incomplete now p : complete p = false → FetchData now p = p.
Proof.
  unfold complete, FetchData. destruct (selected (graph_interface p)),
    (selected (graph_host p)), (selected (graph_variable p)); done.
Qed.

Lemma gets_app p q r : inflight q = inflight p ++ [r] → is_get r = true → gets q = S (gets p).
Proof.
  unfold gets. intros -> Hr. rewrite List.filter_app, length_app. simpl. rewrite Hr. simpl. lia.
Qed.

Lemma chains_complete now p : complete p = true → 0 < chains (FetchData now p).
Proof.
  intros Hc. unfold chains. rewrite (gets_app p _ _ (FetchData_complete now p Hc)); [lia|done].
Qed.

Lemma chains_FetchData now p : 0 < chains p → 0 < chains (FetchData now p).
Proof.
  intros Hc. destruct (complete p) eqn:C; [by apply chains_complete|].
  by rewrite FetchData_incomplete.
Qed.

Lemma chains_frame p q : timer_state p = timer_state q → inflight p = inflight q →
  chains p = chains q.
Proof. unfold timer_state, chains, gets. by intros [= -> _] ->. Qed.

Lemma gets_delete p i r :
  inflight p !! i = Some r →
  gets p = (if is_get r then 1 else 0) + gets (with_inflight p (delete i (inflight p))).
Proof.
  unfold gets. intros Hi. rewrite <- (take_drop_middle _ _ _ Hi) at 1. simpl.
  rewrite delete_take_drop, !List.filter_app, !length_app. simpl.
  destruct (is_get r); simpl; lia.
Qed.

Lemma chains_reply p i r now (rp : reply num) (drawn : bool) :
  inflight p !! i = Some r → 0 < chains p →
  match rp, drawn with Some _, false => is_get r | _, _ => false end = false →
  0 < chains (handle_reply r now (with_inflight p (delete i (inflight p))) rp drawn).
Proof.
  intros Hi Hc He. pose proof (gets_delete p i r Hi) as G.
  set (p' := with_inflight p (delete i (inflight p))) in *.
  assert (chains p' + (if is_get r then 1 else 0) = chains p) as Hp'
    by (unfold chains; simpl; lia).
  destruct r; simpl in *.
  - pose proof (BuildSelectors_reply_frame p' rp) as [[= F1 _] F2].
    unfold chains in *. rewrite F1, F2. lia.
  - destruct (BuildInterfaceList_reply_frame now p' rp) as (p2 & F1 & F2 & E).
    rewrite (chains_frame p' p2) in Hp' by done.
    destruct E as [-> | ->]; [apply chains_FetchData|]; lia.
  - unfold chains. destruct rp as [ss|]; [destruct drawn; [|done]|];
      simpl; rewrite length_app; simpl; lia.
Qed.

(** *** One refresh at a time *)

(** Every pending timer is the one that the next fetch clears. *)
Definition single p : Prop :=
  chains p ≤ 1 ∧ ∀ t, t ∈ timers p → fetch_timeout p = Some t.

(** The pages reached while no data is requested before the last request
    for data has been answered. *)
Inductive calm : page num → Prop :=
  | calm_init : calm initial_page
  | calm_step p e q : calm p → step p e = Some q → gets q ≤ 1 → calm q.

Lemma single_ext p q : timer_state p = timer_state q → gets p = gets q → single p → single q.
Proof. unfold single, chains, timer_state. by intros [= -> ->] ->. Qed.

Lemma cleared (ts : list nat) t :
  (∀ u, u ∈ ts → u = t) → List.filter (λ u, negb (Nat.eqb u t)) ts = [].
Proof.
  induction ts as [|u ts IH]; intros Hts; [done|]. simpl.
  rewrite (Hts u) by apply list_elem_of_here. rewrite Nat.eqb_refl. simpl.
  apply IH. intros v Hv. by apply Hts, list_elem_of_further.
Qed.

(** A fetch clears the pending timer before it sends the request. *)
Lemma FetchData_single now p :
  (∀ t, t ∈ timers p → fetch_timeout p = Some t) → chains p ≤ 1 →
  gets (FetchData now p) ≤ 1 → single (FetchData now p).
Proof.
  intros Ht Hc. destruct (complete p) eqn:C; [|by rewrite FetchData_incomplete].
  intros Hg. assert (timers (FetchData now p) = []) as E.
  { unfold complete, FetchData in *. bools. rewrite H1, H2, H3. simpl.
    destruct (fetch_timeout p) as [t|]; simpl.
    - apply cleared. intros u Hu. apply Ht in Hu. congruence.
    - destruct (timers p) as [|u ts]; [done|]. discriminate (Ht u (list_elem_of_here _ _)). }
  split; [unfold chains; rewrite E; exact Hg|]. rewrite E. intros t Hin. by apply not_elem_of_nil in Hin.
Qed.

Lemma single_FetchData now p : single p → gets (FetchData now p) ≤ 1 → single (FetchData now p).
Proof. intros [Hc Ht]. by apply FetchData_single. Qed.

(** An answered request leaves room for the timer of the answer. *)
Lemma set_refresh_single p : chains p = 0 → single (set_refresh p).
Proof.
  unfold chains. intros Hc. assert (timers p = []) as E by (destruct (timers p); [done|simpl in Hc; lia]).
  split.
  - unfold chains. simpl. change (gets (set_refresh p)) with (gets p). rewrite E in *. simpl in *. lia.
  - simpl. rewrite E. by intros t ->%list_elem_of_singleton.
Qed.

Lemma single_reply p i r now rp drawn :
  single p → inflight p !! i = Some r →
  let q := handle_reply r now (with_inflight p (delete i (inflight p))) rp drawn in
  gets q ≤ 1 → single q.
Proof.
  intros [Hc Ht] Hi. simpl. pose proof (gets_delete p i r Hi) as G.
  set (p' := with_inflight p (delete i (inflight p))) in *.
  assert (chains p' + (if is_get r then 1 else 0) = chains p) as Hp'
    by (unfold chains; simpl; lia).
  assert (single p') as Sp by (split; [lia|exact Ht]). destruct r; simpl in *.
  - intros _. pose proof (BuildSelectors_reply_frame p' rp) as [F1 F2].
    by apply (single_ext p').
  - destruct (BuildInterfaceList_reply_frame now p' rp) as (p2 & F1 & F2 & E).
    assert (single p2) by (by apply (single_ext p'); [|unfold gets; rewrite F2|]).
    destruct E as [-> | ->]; [by apply single_FetchData|done].
  - intros _. assert (chains p' = 0) by lia.
    destruct rp; simpl; [|by apply set_refresh_single].
    destruct drawn; [by apply set_refresh_single|exact Sp].
Qed.

Lemma single_timer p id now :
  single p → id ∈ timers p →
  let q := FetchData now (with_timers p (fetch_timeout p)
             (List.filter (λ u, negb (Nat.eqb u id)) (timers p)) (next_timer p)) in
  gets q ≤ 1 → single q.
Proof.
  intros [Hc Ht] Hid. rewrite cleared.
  - apply FetchData_single; simpl; [by intros t Hin; apply not_elem_of_nil in Hin|].
    unfold chains in *. simpl. change (gets (with_timers _ _ _ _)) with (gets p). lia.
  - intros u Hu. apply Ht in Hu, Hid. congruence.
Qed.

Lemma single_step p e q : single p → step p e = Some q → gets q ≤ 1 → single q.
Proof.
  intros Hp Hs Hq. destruct e; simpl in Hs; simplify_eq; try exact Hp;
    try (apply single_FetchData; [|exact Hq]; exact Hp).
  - apply single_FetchData; [|exact Hq]. apply (single_ext p); [done| |done].
    unfold gets. simpl. by rewrite List.filter_app, app_nil_r.
  - destruct (inflight p !! i) as [r'|] eqn:E; simplify_eq/=. by apply single_reply.
  - case_decide; simplify_eq. by apply single_timer.
  - apply (single_ext p); [done| |done].
    unfold host_change, BuildInterfaceList, gets. simpl. by rewrite List.filter_app, app_nil_r.
  - unfold zoomout. by destruct (zoomstack p).
Qed.
End refresh_lemmas.

(** C27: as long as no data is requested while a request for data is
    unanswered, the page has at most one refresh under way, one pending timer
    or one request, never both; and a pending timer is [fetch_timeout], so that
    the next fetch cancels it. (Requests that overlap multiply the refreshes:
    see [refresh_multiplies].) *)
Theorem refresh_single {num : Type} `{Num num} `{NumText num} (p : page num) :
  calm p → chains p ≤ 1 ∧ ∀ t, t ∈ timers p → fetch_timeout p = Some t.
Proof.
  change (calm p → single p). induction 1 as [|p e q _ IH Hs Hq]; [|by apply (single_step p e)].
  split; [vm_compute; lia|]. by intros t Ht%not_elem_of_nil.
Qed.

(** A run whose states have at most one unanswered request for data. *)
Fixpoint calm_run {num} `{Num num} `{NumText num} (p : page num)
    (es : list (@event num)) : option (page num) :=
  match es with
  | [] => Some p
  | e :: es => q ← step p e; if Nat.leb (gets q) 1 then calm_run q es else None
  end.

Lemma calm_run_calm {num} `{Num num} `{NumText num} (p q : page num) (es : list (@event num)) :
  calm p → calm_run p es = Some q → calm q.
Proof.
  revert p. induction es as [|e es IH]; intros p Hp Hr; simplify_eq/=; [done|].
  destruct (step p e) as [p'|] eqn:Hs; simplify_eq/=.
  destruct (Nat.leb (gets p') 1) eqn:G; [|done].
  apply (IH p'); [|done]. apply (calm_step p e); [done..|]. by apply Nat.leb_le.
Qed.

(** The page loads, its lists arrive, the first fetch is answered and sets a
    timer; then the user changes the value type, the timer is cancelled and
    the new fetch sets its own. *)
Definition sample_stream : stream spec_float :=
  Stream "/network/interface/stats/ifInOctets{hostname=gw,interface=Dialer0}" [].
Definition sample_events : list (@event spec_float) :=
  [Ready (of_Z 0); Reply 0 (of_Z 1) (Some [sample_stream]) true;
   Reply 0 (of_Z 2) (Some [sample_stream]) true; Reply 0 (of_Z 3) (Some [sample_stream]) true].

Lemma refresh_single_witness :
  ∃ p q, calm_run (num := spec_float) initial_page sample_events = Some p ∧ timers p = [0] ∧
    calm_run p [ValueType "5" (of_Z 4); Reply 0 (of_Z 5) None true] = Some q ∧ timers q = [1] ∧
    chains q ≤ 1 ∧ ∀ t, t ∈ timers q → fetch_timeout q = Some t.
Proof.
  eexists _, _. split; [vm_compute; reflexivity|]. split; [reflexivity|].
  split; [vm_compute; reflexivity|]. split; [reflexivity|].
  apply refresh_single.
  eapply (calm_run_calm initial_page _
            (sample_events ++ [ValueType "5" (of_Z 4); Reply 0 (of_Z 5) None true]));
    [constructor|vm_compute; reflexivity].
Defined.

(** C28: refreshing does not die out: on a page with a refresh under way (a
    pending timer or an unanswered request for data) every event leaves one
    under way, except a timer that fires while a selector is empty and data
    that cannot be plotted; and a timer that fires otherwise sends the request
    for what is selected then. *)
Theorem refresh_survives {num : Type} `{Num num} `{NumText num} (p q : page num) (e : event) :
  step p e = Some q → 0 < chains p → ends p e = false →
  0 < chains q ∧
  (∀ id now, e = Timer id now → inflight q = inflight p ++ [data_request now p]).
Proof.
  intros Hs Hc He. split.
  - destruct e; simpl in Hs; simplify_eq;
      try (apply chains_FetchData; done); try exact Hc.
    + apply chains_FetchData. unfold chains, gets in *. simpl.
      rewrite List.filter_app, length_app. lia.
    + simpl in He. destruct (inflight p !! i) as [req|] eqn:E; simplify_eq/=.
      by apply chains_reply with (1 := E).
    + case_decide; simplify_eq. apply chains_complete. simpl in He. by apply negb_false_iff in He.
    + unfold chains, gets in *. simpl. rewrite List.filter_app, length_app. lia.
    + unfold zoomout. destruct (zoomstack p); exact Hc.
  - intros id now ->. simpl in Hs, He. case_decide; simplify_eq.
    apply negb_false_iff in He. by rewrite FetchData_complete.
Qed.

(** A page with a complete selection, before and after its first fetch. *)
Definition sample_page : page spec_float :=
  with_selection initial_page (Some "/network/ifInOctets") (Some "Dialer0") (Some "gw").
Definition sample_fetched : page spec_float := FetchData (of_Z 0) sample_page.
Definition sample_waiting : page spec_float := FetchData_reply (with_inflight sample_fetched []) None true.

Lemma refresh_survives_witness :
  0 < chains sample_waiting ∧
  ∃ q, step sample_waiting (Timer 0 (of_Z 9)) = Some q ∧ 0 < chains q ∧
       (∀ id now, Timer 0 (of_Z 9) = Timer id now →
          inflight q = inflight sample_waiting ++ [data_request now sample_waiting]).
Proof.
  split; [vm_compute; lia|]. eexists. split; [reflexivity|].
  apply (refresh_survives sample_waiting _ (Timer 0 (of_Z 9))); [reflexivity| |reflexivity].
  vm_compute. lia.
Defined.

(** The two ends of a chain of refreshes: a plot that throws leaves the
    callback before the timer is set, although the request succeeded; and the
    timer of a page without an interface sends nothing. *)
Example refresh_stops :
  option_map chains (run sample_fetched [Reply 0 (of_Z 1) (Some []) false]) = Some 0 ∧
  option_map chains (run sample_fetched
    [Reply 0 (of_Z 1) (Some []) true; ChooseInterface "" (of_Z 2); Timer 0 (of_Z 3)]) = Some 0.
Proof. by vm_compute. Qed.

(** The selection of a page may be complete while no refresh is under way:
    between the two lists the page waits for the interfaces, and their reply
    is a fetch. *)
Example refresh_starts :
  let es := [Ready (of_Z 0); Reply 0 (of_Z 1) (Some [sample_stream]) true] in
  option_map (λ p, (complete p, chains p)) (run (num := spec_float) initial_page es) = Some (true, 0) ∧
  option_map chains (run (num := spec_float) initial_page
    (es ++ [Reply 0 (of_Z 2) (Some [sample_stream]) true])) = Some 1.
Proof. by vm_compute. Qed.

Section overlap.
Context {num : Type} `{Num num} `{NumText num}.
Implicit Types p q : page num.

Lemma run_app_some p q es fs : run p es = Some q → run p (es ++ fs) = run q fs.
Proof.
  revert p. induction es as [|e es IH]; intros p; simpl; [by intros [= ->]|].
  destruct (step p e); simpl; [apply IH|done].
Qed.

(** User events only add requests while the replies are outstanding. *)
Lemma value_types_run n v now p :
  complete p = true → timers p = [] →
  ∃ q gs, run p (replicate n (ValueType v now)) = Some q ∧ timers q = [] ∧
    inflight q = inflight p ++ gs ∧ length gs = n ∧ forallb is_get gs = true.
Proof.
  revert p. induction n as [|n IH]; intros p Hc Ht.
  { exists p, []. by rewrite app_nil_r. }
  simpl. unfold value_type_change, FetchData at 1. simpl.
  unfold complete in Hc. bools. rewrite H1, H2, H3. simpl.
  edestruct IH as (q & gs & Hrun & Hq & Hin & Hlen & Hg); cycle 2.
  - exists q, (data_request now (with_value_type p v) :: gs).
    split; [exact Hrun|]. split; [done|]. rewrite Hin.
    destruct (fetch_timeout p); simpl; (split; [by rewrite <- app_assoc|]); simpl; auto.
  - unfold complete. destruct (fetch_timeout p); simpl; by rewrite H1, H2, H3.
  - destruct (fetch_timeout p); simpl; by rewrite Ht.
Qed.

(** Each answered data request sets a timer of its own. *)
Lemma replies_run gs now r p :
  inflight p = gs → forallb is_get gs = true →
  ∃ q, run p (replicate (length gs) (Reply 0 now r true)) = Some q ∧
    length (timers q) = length (timers p) + length gs ∧ inflight q = [].
Proof.
  revert p. induction gs as [|g gs IH]; intros p Hin Hg; simpl.
  { exists p. split; [done|]. split; [lia|done]. }
  simpl in Hg. apply andb_true_iff in Hg as [Hg Hgs]. rewrite Hin. simpl.
  destruct g as [| |vn mt st]; try done. simpl.
  edestruct (IH (FetchData_reply (with_inflight p gs) r true)) as (q & Hrun & Hlen & Hq);
    [by destruct r|done|].
  exists q. split; [exact Hrun|]. split; [|done]. rewrite Hlen.
  destruct r; simpl; rewrite length_app; simpl; lia.
Qed.
End overlap.

(** Overlapping fetches are not merged: from a page with a complete
    selection and nothing pending, [n] quick changes of the value type, once
    answered, leave [n] refresh timers pending although the page only ever
    remembers one of them. *)
Theorem refresh_multiplies {num : Type} `{Num num} `{NumText num}
    (p : page num) (n : nat) (v : string) (now : num) (r : reply num) :
  complete p = true → timers p = [] → inflight p = [] →
  ∃ q, run p (replicate n (ValueType v now) ++ replicate n (Reply 0 now r true)) = Some q ∧
       length (timers q) = n.
Proof.
  intros Hc Ht Hi.
  destruct (value_types_run n v now p Hc Ht) as (q & gs & Hrun & Htq & Hin & Hlen & Hg).
  rewrite Hi in Hin. simpl in Hin. rewrite <- Hlen in *.
  destruct (replies_run gs now r q Hin Hg) as (q' & Hrun' & Hlen' & _).
  exists q'. rewrite (run_app_some _ _ _ _ Hrun), Htq in *. by split.
Qed.

Lemma refresh_multiplies_witness :
  ∃ q, run sample_page (replicate 3 (ValueType "4" (of_Z 0)) ++ replicate 3 (Reply 0 (of_Z 0) None true))
       = Some q ∧ length (timers q) = 3.
Proof. by apply (refresh_multiplies sample_page 3 "4" (of_Z 0) None). Defined.
