(* ===== verification/Color.v ===== *)
(** The color plugin, [static/flot/jquery.colorhelpers.js] (inlined at the
    top of [static/flot/jquery.flot.js]): color objects, their arithmetic,
    their text form and the parser of CSS colors. *)

From S2P Require Import Prelude Numbers JsText JsValue.
From Stdlib Require Import Ascii.

Record color (num : Type) := Color { r : num; g : num; b : num; a : num }.
Arguments Color {num} _ _ _ _. Arguments r {num} _. Arguments g {num} _.
Arguments b {num} _. Arguments a {num} _.

(** The channels named by the characters of a channel string. *)
Inductive channel := R | G | B | A.

Section color.
Context {num : Type} `{Num num} `{NumText num}.
Local Open Scope num_scope.
Implicit Types c : color num.

(** [clamp] of [normalize] *)
Definition clamp (min value max : num) : num :=
  if value <? min then min else if value >? max then max else value.

Definition normalize c : color num :=
  Color (clamp ⟨0⟩ (parse_int_num (r c)) ⟨255⟩)
        (clamp ⟨0⟩ (parse_int_num (g c)) ⟨255⟩)
        (clamp ⟨0⟩ (parse_int_num (b c)) ⟨255⟩)
        (clamp ⟨0⟩ (a c) ⟨1⟩).

(** [x || 0] *)
Definition or_zero (x : num) : num := if ntruthy x then x else ⟨0⟩.

(** [$.color.make]; the optional opacity defaults to 1. *)
Definition make (r g b : num) (a : option num) : color num :=
  normalize (Color (or_zero r) (or_zero g) (or_zero b) (default ⟨1⟩ a)).

Definition on_channel (f : num → num) (ch : channel) c : color num :=
  match ch with
  | R => Color (f (r c)) (g c) (b c) (a c)
  | G => Color (r c) (f (g c)) (b c) (a c)
  | B => Color (r c) (g c) (f (b c)) (a c)
  | A => Color (r c) (g c) (b c) (f (a c))
  end.

(** [o.add(c, d)] and [o.scale(c, f)] *)
Definition add (chs : list channel) (d : num) c : color num :=
  normalize (foldl (λ c ch, on_channel (λ x, x + d) ch c) c chs).
Definition scale (chs : list channel) (f : num) c : color num :=
  normalize (foldl (λ c ch, on_channel (λ x, x * f) ch c) c chs).

Definition toString c : string :=
  if a c >=? ⟨1⟩ then
    "rgb(" +:+ str_join "," [to_string (r c); to_string (g c); to_string (b c)] +:+ ")"
  else
    "rgba(" +:+ str_join "," [to_string (r c); to_string (g c); to_string (b c); to_string (a c)]
    +:+ ")".

(** As written, the copy takes blue for green and green for blue. *)
Definition clone c : color num := make (r c) (b c) (g c) (Some (a c)).

(** ** Parsing: the regular expressions as scanners *)

Definition scanner (A : Type) : Type := string → option (A * string).

Definition lit (p : string) : scanner unit :=
  λ s, match starts_with p s with Some t => Some (tt, t) | None => None end.
(** [\s*] *)
Definition spaces : scanner unit := λ s, Some (tt, skip_spaces s).

(** [[0-9]{1,3}]: greedy; in these expressions a shorter match never helps. *)
Definition byte_digits : scanner string := λ s,
  match span is_digit s with
  | (String c d, t) => if (String.length d <? 3)%nat then Some (String c d, t) else None
  | _ => None
  end.

(** [[0-9]+(?:\.[0-9]+)?] *)
Definition decimal : scanner string := λ s,
  match span is_digit s with
  | ("", _) => None
  | (d, String c t) =>
      if (c =? ".")%char then
        match span is_digit t with
        | ("", _) => Some (d, String c t)
        | (f, t) => Some (d +:+ "." +:+ f, t)
        end
      else Some (d, String c t)
  | (d, "") => Some (d, "")
  end.

Definition bind {A C} (m : scanner A) (k : A → scanner C) : scanner C :=
  λ s, match m s with Some (x, t) => k x t | None => None end.

(** [\s*x\s*] *)
Definition spaced {A} (m : scanner A) : scanner A :=
  bind spaces (λ _, bind m (λ x, bind spaces (λ _ t, Some (x, t)))).

(** A number followed by a percent sign. *)
Definition percent : scanner string :=
  bind decimal (λ d, bind (lit "%") (λ _ t, Some (d, t))).

(** Three components between [open] and commas. *)
Definition three {A} (open : string) (m : scanner A) : scanner (A * A * A) :=
  bind (lit open) (λ _,
  bind (spaced m) (λ x, bind (lit ",") (λ _,
  bind (spaced m) (λ y, bind (lit ",") (λ _,
  bind (spaced m) (λ z t, Some ((x, y, z), t))))))).

Definition close {A} (x : A) : scanner A := bind (lit ")") (λ _ t, Some (x, t)).

Definition rgb_re {A} (m : scanner A) : scanner (A * A * A) :=
  bind (three "rgb(" m) close.
Definition rgba_re {A} (m : scanner A) : scanner (A * A * A * string) :=
  bind (three "rgba(" m) (λ v, bind (lit ",") (λ _, bind (spaced decimal) (λ w, close (v, w)))).

Definition hex1 : scanner Z := λ s,
  match s with String c t => match hex_val c with Some d => Some (d, t) | None => None end | "" => None end.
Definition hex2 : scanner Z := bind hex1 (λ x, bind hex1 (λ y t, Some ((x * 16 + y)%Z, t))).
(** [h+h] read in base 16. *)
Definition hex1_doubled : scanner Z := bind hex1 (λ x t, Some ((x * 16 + x)%Z, t)).
Definition hash {A} (m : scanner A) : scanner (A * A * A) :=
  bind (lit "#") (λ _, bind m (λ x, bind m (λ y, bind m (λ z t, Some ((x, y, z), t))))).

(** [re.exec(s)] of an unanchored expression: the leftmost match. *)
Fixpoint exec {A} (m : scanner A) (s : string) : option A :=
  match m s with
  | Some (x, _) => Some x
  | None => match s with String _ t => exec m t | "" => None end
  end.

Definition lookupColors : list (string * (Z * Z * Z)) :=
  [("aqua",(0,255,255)); ("azure",(240,255,255)); ("beige",(245,245,220)); ("black",(0,0,0));
   ("blue",(0,0,255)); ("brown",(165,42,42)); ("cyan",(0,255,255)); ("darkblue",(0,0,139));
   ("darkcyan",(0,139,139)); ("darkgrey",(169,169,169)); ("darkgreen",(0,100,0));
   ("darkkhaki",(189,183,107)); ("darkmagenta",(139,0,139)); ("darkolivegreen",(85,107,47));
   ("darkorange",(255,140,0)); ("darkorchid",(153,50,204)); ("darkred",(139,0,0));
   ("darksalmon",(233,150,122)); ("darkviolet",(148,0,211)); ("fuchsia",(255,0,255));
   ("gold",(255,215,0)); ("green",(0,128,0)); ("indigo",(75,0,130)); ("khaki",(240,230,140));
   ("lightblue",(173,216,230)); ("lightcyan",(224,255,255)); ("lightgreen",(144,238,144));
   ("lightgrey",(211,211,211)); ("lightpink",(255,182,193)); ("lightyellow",(255,255,224));
   ("lime",(0,255,0)); ("magenta",(255,0,255)); ("maroon",(128,0,0)); ("navy",(0,0,128));
   ("olive",(128,128,0)); ("orange",(255,165,0)); ("pink",(255,192,203));
   ("purple",(128,0,128)); ("violet",(128,0,128)); ("red",(255,0,0)); ("silver",(192,192,192));
   ("white",(255,255,255)); ("yellow",(255,255,0))]%Z.

Fixpoint assoc {V} (k : string) (l : list (string * V)) : option V :=
  match l with
  | [] => None
  | (k', v) :: l => if String.eqb k k' then Some v else assoc k l
  end.

(** [parseInt(d, 10)] and [parseFloat(d)] of matched digits. *)
Definition int10 (d : string) : num := of_decimal (digits_val 0 d) 0.
Definition pct (d : string) : num := parse_float d * of_ratio 255 100.

Definition parse (str : string) : color num :=
  match exec (rgb_re byte_digits) str with
  | Some (x, y, z) => make (int10 x) (int10 y) (int10 z) None
  | None =>
  match exec (rgba_re byte_digits) str with
  | Some (x, y, z, w) => make (int10 x) (int10 y) (int10 z) (Some (parse_float w))
  | None =>
  match exec (rgb_re percent) str with
  | Some (x, y, z) => make (pct x) (pct y) (pct z) None
  | None =>
  match exec (rgba_re percent) str with
  | Some (x, y, z, w) => make (pct x) (pct y) (pct z) (Some (parse_float w))
  | None =>
  match exec (hash hex2) str with
  | Some (x, y, z) => make (of_decimal x 0) (of_decimal y 0) (of_decimal z 0) None
  | None =>
  match exec (hash hex1_doubled) str with
  | Some (x, y, z) => make (of_decimal x 0) (of_decimal y 0) (of_decimal z 0) None
  | None =>
      let name := to_lower (trim str) in
      if String.eqb name "transparent" then make ⟨255⟩ ⟨255⟩ ⟨255⟩ (Some ⟨0⟩)
      else let '(x, y, z) := default (0, 0, 0)%Z (assoc name lookupColors) in
           make ⟨x⟩ ⟨y⟩ ⟨z⟩ None
  end end end end end end.

(** [$.color.extract]: the property of the element or of its nearest
    ancestor that has one; [styles] lists the property values from the
    element upwards, the body excluded ([$.css], [parent] and [nodeName]
    are the page's). *)
Fixpoint extract_css (styles : list string) (c : string) : string :=
  match styles with
  | [] => c
  | s :: rest =>
      let c := to_lower s in
      if negb (String.eqb c "") && negb (String.eqb c "transparent") then c
      else extract_css rest c
  end.
Definition extract (styles : list string) : color num :=
  let c := extract_css styles "" in
  parse (if String.eqb c "rgba(0, 0, 0, 0)" then "transparent" else c).
End color.
