(* ===== verification/JsDate.v ===== *)
(** Dates of the language in UTC: a valid date is its time value, the
    milliseconds since 1970; [None] is the invalid date.  Field access and
    the setters the graphs use, over the proleptic Gregorian calendar. *)

From S2P Require Import Prelude Numbers.

#[local] Open Scope Z_scope.

(** ** Calendar *)

(** Days from 1970-01-01 to the given day; [m] from 1 to 12. *)
Definition days_from_civil (y m d : Z) : Z :=
  let y := if m <=? 2 then y - 1 else y in
  let era := y / 400 in
  let yoe := y mod 400 in
  let doy := (153 * (if 2 <? m then m - 3 else m + 9) + 2) / 5 + d - 1 in
  era * 146097 + (yoe * 365 + yoe / 4 - yoe / 100 + doy) - 719468.

(** The date of a day of an era of 400 years: year of era, month, day. *)
Definition civil_of_era (doe : Z) : Z * Z * Z :=
  let yoe := (doe - doe / 1460 + doe / 36524 - doe / 146096) / 365 in
  let doy := doe - (365 * yoe + yoe / 4 - yoe / 100) in
  let mp := (5 * doy + 2) / 153 in
  (yoe, if mp <? 10 then mp + 3 else mp - 9, doy - (153 * mp + 2) / 5 + 1).

Definition civil_from_days (z : Z) : Z * Z * Z :=
  let z := z + 719468 in
  let '(yoe, m, d) := civil_of_era (z mod 146097) in
  (yoe + z / 146097 * 400 + (if m <=? 2 then 1 else 0), m, d).

Definition day_ms : Z := 86400000.

(** ** Fields of a time value *)

Section fields.
Variable t : Z.
Definition getUTCFullYear : Z := let '(y, _, _) := civil_from_days (t / day_ms) in y.
(** 0 to 11 *)
Definition getUTCMonth : Z := let '(_, m, _) := civil_from_days (t / day_ms) in m - 1.
Definition getUTCDate : Z := let '(_, _, d) := civil_from_days (t / day_ms) in d.
Definition getUTCHours : Z := t mod day_ms / 3600000.
Definition getUTCMinutes : Z := t mod 3600000 / 60000.
Definition getUTCSeconds : Z := t mod 60000 / 1000.
Definition getUTCMilliseconds : Z := t mod 1000.

(** MakeDate of a year, a month (any integer, 0 is January), a day of
    month and the time of day. *)
Definition make_date (y mon d time : Z) : Z :=
  (days_from_civil (y + mon / 12) (mon mod 12 + 1) 1 + (d - 1)) * day_ms + time.

Definition setUTCMilliseconds (v : Z) : Z := t - getUTCMilliseconds + v.
Definition setUTCSeconds (v : Z) : Z := t + (v - getUTCSeconds) * 1000.
Definition setUTCMinutes (v : Z) : Z := t + (v - getUTCMinutes) * 60000.
Definition setUTCHours (v : Z) : Z := t + (v - getUTCHours) * 3600000.
Definition setUTCDate (v : Z) : Z := t + (v - getUTCDate) * day_ms.
Definition setUTCMonth (v : Z) : Z := make_date getUTCFullYear v getUTCDate (t mod day_ms).
Definition setUTCFullYear (v : Z) : Z := make_date v getUTCMonth getUTCDate (t mod day_ms).
End fields.

(** ** Dates and numbers *)

Section dates.
Context {num : Type} `{Num num}.

Definition max_time : Z := 8640000000000000.

Definition time_clip (t : Z) : option Z := if Z.abs t <=? max_time then Some t else None.

(** [new Date(v)], [d.setTime(v)] *)
Definition date_of (v : num) : option Z :=
  match to_integer v with Some t => time_clip t | None => None end.

(** [d.getTime()] *)
Definition getTime (d : option Z) : num :=
  match d with Some t => of_Z t | None => nnan end.

(** A setter applied to a number argument. *)
Definition set_field (f : Z → Z → Z) (d : option Z) (v : num) : option Z :=
  match d, to_integer v with
  | Some t, Some z => time_clip (f t z)
  | _, _ => None
  end.

(** A field as a number. *)
Definition get_field (f : Z → Z) (d : option Z) : num :=
  match d with Some t => of_Z (f t) | None => nnan end.
End dates.

(** ** Calendar facts *)

(** The year-of-era and day-of-year decomposition of a day of an era. *)
Lemma era_year doe :
  0 ≤ doe < 146097 →
  let yoe := (doe - doe / 1460 + doe / 36524 - doe / 146096) / 365 in
  0 ≤ yoe < 400 ∧ 0 ≤ doe - (365 * yoe + yoe / 4 - yoe / 100) ≤ 365.
Proof. intros H yoe. unfold yoe. clear yoe. zdm. Qed.

Lemma civil_of_era_spec z :
  0 ≤ z < 146097 →
  let '(yoe, m, d) := civil_of_era z in
  days_from_civil (yoe + (if m <=? 2 then 1 else 0)) m d + 719468 = z ∧
  0 ≤ yoe < 400 ∧ 1 ≤ m ≤ 12 ∧ 1 ≤ d ≤ 31.
Proof.
  intros Hz. unfold civil_of_era. pose proof (era_year z Hz) as E. cbv zeta in *.
  set (yoe := (z - z / 1460 + z / 36524 - z / 146096) / 365) in *.
  set (doy := z - (365 * yoe + yoe / 4 - yoe / 100)) in *.
  set (mp := (5 * doy + 2) / 153). destruct E as [Hy Hd].
  assert (Hmp : 0 ≤ mp ≤ 11) by (unfold mp; zdm).
  assert (Hday : 1 ≤ doy - (153 * mp + 2) / 5 + 1 ≤ 31) by (unfold mp; zdm).
  assert (Hm : 1 ≤ (if mp <? 10 then mp + 3 else mp - 9) ≤ 12)
    by (destruct (Z.ltb_spec mp 10); lia).
  split; [|done]. unfold days_from_civil.
  replace (if _ <=? 2 then yoe + _ - 1 else yoe + _) with yoe
    by (destruct (Z.leb_spec (if mp <? 10 then mp + 3 else mp - 9) 2); lia).
  replace (if 2 <? _ then _ - 3 else _ + 9) with mp
    by (destruct (Z.ltb_spec mp 10); destruct (Z.ltb_spec 2 (mp + 3));
        destruct (Z.ltb_spec 2 (mp - 9)); lia).
  rewrite (Z.div_small yoe 400), (Z.mod_small yoe 400) by lia. unfold doy. lia.
Qed.

Lemma days_from_civil_era y k m d :
  days_from_civil (y + k * 400) m d = days_from_civil y m d + k * 146097.
Proof.
  unfold days_from_civil.
  replace (if m <=? 2 then y + k * 400 - 1 else y + k * 400)
    with ((if m <=? 2 then y - 1 else y) + k * 400) by (destruct (m <=? 2); lia).
  rewrite Z.div_add, Z.mod_add by lia. lia.
Qed.

(** The calendar date of a day number names that day, and is in range. *)
Lemma civil_from_days_spec z :
  let '(y, m, d) := civil_from_days z in
  days_from_civil y m d = z ∧ 1 ≤ m ≤ 12 ∧ 1 ≤ d ≤ 31.
Proof.
  unfold civil_from_days.
  pose proof (civil_of_era_spec _ (Z.mod_pos_bound (z + 719468) 146097 eq_refl)) as E.
  destruct (civil_of_era _) as [[yoe m] d]. destruct E as (E & _ & Hm & Hd).
  split; [|done].
  replace (yoe + (z + 719468) / 146097 * 400 + (if m <=? 2 then 1 else 0))
    with (yoe + (if m <=? 2 then 1 else 0) + (z + 719468) / 146097 * 400) by lia.
  rewrite days_from_civil_era. pose proof (Z.div_mod (z + 719468) 146097 ltac:(done)). lia.
Qed.

Lemma getUTCMonth_range t : 0 ≤ getUTCMonth t ≤ 11.
Proof.
  unfold getUTCMonth. pose proof (civil_from_days_spec (t / day_ms)).
  destruct (civil_from_days _) as [[y m] d]. lia.
Qed.
Lemma getUTCDate_range t : 1 ≤ getUTCDate t ≤ 31.
Proof.
  unfold getUTCDate. pose proof (civil_from_days_spec (t / day_ms)).
  destruct (civil_from_days _) as [[y m] d]. lia.
Qed.
Lemma getUTCHours_range t : 0 ≤ getUTCHours t ≤ 23.
Proof. unfold getUTCHours, day_ms. zdm. Qed.
Lemma getUTCMinutes_range t : 0 ≤ getUTCMinutes t ≤ 59.
Proof. unfold getUTCMinutes. zdm. Qed.
Lemma getUTCSeconds_range t : 0 ≤ getUTCSeconds t ≤ 59.
Proof. unfold getUTCSeconds. zdm. Qed.

(** A time value is determined by its fields. *)
Lemma time_fields t :
  t = make_date (getUTCFullYear t) (getUTCMonth t) (getUTCDate t) 0
      + getUTCHours t * 3600000 + getUTCMinutes t * 60000
      + getUTCSeconds t * 1000 + getUTCMilliseconds t.
Proof.
  unfold make_date, getUTCFullYear, getUTCMonth, getUTCDate.
  pose proof (civil_from_days_spec (t / day_ms)) as C.
  destruct (civil_from_days _) as [[y m] d]. destruct C as (C & Hm & Hd).
  rewrite (Z.div_small (m - 1) 12), (Z.mod_small (m - 1) 12) by lia.
  assert (days_from_civil (y + 0) (m - 1 + 1) 1 + (d - 1) = t / day_ms) as ->.
  { rewrite <- C. unfold days_from_civil. replace (m - 1 + 1) with m by lia.
    replace (y + 0) with y by lia. lia. }
  unfold getUTCHours, getUTCMinutes, getUTCSeconds, getUTCMilliseconds, day_ms. zdm.
Qed.
