(* ===== verification/FlotFormat.v ===== *)
(** [$.plot.formatDate] and [floorInBase] of [static/flot/jquery.flot.js]. *)

From S2P Require Import Prelude Numbers JsText JsDate.
From Stdlib Require Import Ascii.

#[local] Open Scope Z_scope.

(** ** Definitions *)

(** Round to the nearby lower multiple of a base. *)
Definition floorInBase {num} `{Num num} (n base : num) : num :=
  (base * nfloor (n / base))%num.

Definition leftPad (n : string) : string :=
  if (String.length n =? 1)%nat then "0" +:+ n else n.

Definition default_months : list string :=
  ["Jan"; "Feb"; "Mar"; "Apr"; "May"; "Jun"; "Jul"; "Aug"; "Sep"; "Oct"; "Nov"; "Dec"].

(** [fmt.search(/%p|%P/) != -1] *)
Fixpoint has_meridian (fmt : string) : bool :=
  match fmt with
  | "" => false
  | String c rest =>
      (c =? "%")%char && match rest with
                         | String d _ => (d =? "p")%char || (d =? "P")%char
                         | "" => false
                         end || has_meridian rest
  end.

(** The text of a field: the fields of the invalid date are NaN. *)
Definition field_str (x : option Z) : string :=
  match x with Some z => dec_string z | None => "NaN" end.

Section format.
(** The date ([None] for the invalid one), and its hours on the clock in use. *)
Variable d : option Z.
Variable names : list string.
Variable hours : option Z.
Variable isAM : bool.

(** The switch on the character after a percent sign: the replacement
    text and whether the next directive is padded. *)
Definition directive (c : ascii) (padNext : bool) : string * bool :=
  if (c =? "h")%char then (field_str hours, padNext)
  else if (c =? "H")%char then (leftPad (field_str hours), padNext)
  else if (c =? "M")%char then (leftPad (field_str (getUTCMinutes <$> d)), padNext)
  else if (c =? "S")%char then (leftPad (field_str (getUTCSeconds <$> d)), padNext)
  else if (c =? "d")%char then (field_str (getUTCDate <$> d), padNext)
  else if (c =? "m")%char then (field_str ((λ d, getUTCMonth d + 1) <$> d), padNext)
  else if (c =? "y")%char then (field_str (getUTCFullYear <$> d), padNext)
  else if (c =? "b")%char then
    (default "undefined" (d ≫= λ d, names !! Z.to_nat (getUTCMonth d)), padNext)
  else if (c =? "p")%char then (if isAM then "am" else "pm", padNext)
  else if (c =? "P")%char then (if isAM then "AM" else "PM", padNext)
  else if (c =? "0")%char then ("", true)
  else (String c "", padNext).

(** The loop over the characters of the format. *)
Fixpoint format_loop (fmt : string) (escape padNext : bool) : string :=
  match fmt with
  | "" => ""
  | String c rest =>
      if escape then
        let '(t, padNext) := directive c padNext in
        let '(t, padNext) := if negb (String.eqb t "") && padNext then (leftPad t, false)
                             else (t, padNext) in
        t +:+ format_loop rest padNext padNext
      else if (c =? "%")%char then format_loop rest true padNext
      else String c (format_loop rest false padNext)
  end.
End format.

Definition formatDate (d : option Z) (fmt : string) (monthNames : option (list string)) : string :=
  let hours := getUTCHours <$> d in
  let isAM := match hours with Some hours => hours <? 12 | None => false end in
  let names := default default_months monthNames in
  let hours := if has_meridian fmt then
                 (λ hours, if 12 <? hours then hours - 12 else if hours =? 0 then 12 else hours)
                   <$> hours
               else hours in
  format_loop d names hours isAM fmt false false.

(** ** Specification: formats as token lists *)

(** A directive of the format language. *)
Inductive field := Fh | FH | FM | FS | Fd | Fm | Fy | Fb | Fp | FP.

(** A literal character other than the percent sign, or a directive,
    possibly padded. *)
Inductive token := Lit (c : ascii) | Field (pad : bool) (f : field).

Definition field_char (f : field) : ascii :=
  match f with
  | Fh => "h" | FH => "H" | FM => "M" | FS => "S" | Fd => "d"
  | Fm => "m" | Fy => "y" | Fb => "b" | Fp => "p" | FP => "P"
  end.

Definition show_token (t : token) : string :=
  match t with
  | Lit c => String c ""
  | Field pad f => "%" +:+ (if pad then "0" else "") +:+ String (field_char f) ""
  end.

Fixpoint show_tokens (ts : list token) : string :=
  match ts with [] => "" | t :: ts => show_token t +:+ show_tokens ts end.

(** The text of a directive. *)
Definition field_text (d : Z) (names : list string) (hours : Z) (f : field) : string :=
  match f with
  | Fh => dec_string hours
  | FH => leftPad (dec_string hours)
  | FM => leftPad (dec_string (getUTCMinutes d))
  | FS => leftPad (dec_string (getUTCSeconds d))
  | Fd => dec_string (getUTCDate d)
  | Fm => dec_string (getUTCMonth d + 1)
  | Fy => dec_string (getUTCFullYear d)
  | Fb => default "undefined" (names !! Z.to_nat (getUTCMonth d))
  | Fp => if getUTCHours d <? 12 then "am" else "pm"
  | FP => if getUTCHours d <? 12 then "AM" else "PM"
  end.

Definition token_text (d : Z) (names : list string) (hours : Z) (t : token) : string :=
  match t with
  | Lit c => String c ""
  | Field pad f =>
      let s := field_text d names hours f in if pad then leftPad s else s
  end.

Definition token_ok (t : token) : bool :=
  match t with Lit c => negb (c =? "%")%char | _ => true end.

(** The 12-hour clock is used when an unpadded meridian directive occurs. *)
Definition meridian_token (t : token) : bool :=
  match t with Field false (Fp | FP) => true | _ => false end.

(** The hour on the 12-hour clock. *)
Definition clock12 (h : Z) : Z := if h mod 12 =? 0 then 12 else h mod 12.

Fixpoint concat_text (l : list string) : string :=
  match l with [] => "" | s :: l => s +:+ concat_text l end.

(** ** Lemmas *)

Lemma dec_string_nonempty z : dec_string z ≠ "".
Proof.
  unfold dec_string. destruct (z <? 0); [done|].
  by destruct (dec_nat_nonempty z) as (c & s & -> & _).
Qed.

Lemma leftPad_nonempty s : s ≠ "" → leftPad s ≠ "".
Proof. unfold leftPad. by destruct s as [|c [|]]. Qed.

Lemma leftPad_idem s : leftPad (leftPad s) = leftPad s.
Proof. unfold leftPad. by destruct s as [|c [|]]. Qed.

Lemma field_text_nonempty d names hours f :
  Forall (λ s, s ≠ "") names → field_text d names hours f ≠ "".
Proof.
  intros Hn. destruct f; simpl; try apply leftPad_nonempty; try apply dec_string_nonempty.
  - destruct (names !! _) as [s|] eqn:E; [|done].
    rewrite Forall_lookup in Hn. by eapply Hn.
  - by destruct (getUTCHours d <? 12).
  - by destruct (getUTCHours d <? 12).
Qed.

Lemma eqb_empty s : s ≠ "" → String.eqb s "" = false.
Proof. by destruct s. Qed.

Lemma directive_field d names hours f pad :
  directive (Some d) names (Some hours) (getUTCHours d <? 12) (field_char f) pad
  = (field_text d names hours f, pad).
Proof. by destruct f. Qed.

(** The loop consumes one token at a time. *)
Lemma format_loop_token d names hours t rest :
  Forall (λ s, s ≠ "") names → token_ok t = true →
  format_loop (Some d) names (Some hours) (getUTCHours d <? 12) (show_token t +:+ rest) false false
  = token_text d names hours t +:+
    format_loop (Some d) names (Some hours) (getUTCHours d <? 12) rest false false.
Proof.
  intros Hn Ht. destruct t as [c|pad f].
  - simpl in *. apply negb_true_iff in Ht. by rewrite Ht.
  - pose proof (field_text_nonempty d names hours f Hn) as Hf.
    destruct pad; simpl; rewrite directive_field, (eqb_empty _ Hf); done.
Qed.

Lemma has_meridian_lit c rest : (c =? "%")%char = false → has_meridian (String c rest) = has_meridian rest.
Proof. intros Hc. simpl. by rewrite Hc. Qed.

Lemma has_meridian_tokens ts :
  forallb token_ok ts = true → has_meridian (show_tokens ts) = existsb meridian_token ts.
Proof.
  induction ts as [|t ts IH]; [done|]. simpl. intros [Ht Hts]%andb_true_iff.
  destruct t as [c|pad f].
  - simpl in *. apply negb_true_iff in Ht. rewrite Ht. by rewrite IH.
  - destruct pad, f; simpl; rewrite ?IH by done; done.
Qed.

Lemma clock12_spec h :
  0 ≤ h ≤ 23 → (if 12 <? h then h - 12 else if h =? 0 then 12 else h) = clock12 h.
Proof.
  intros Hh. unfold clock12.
  destruct (Z.ltb_spec 12 h).
  - replace (h mod 12) with (h - 12) by (apply (Z.mod_unique h 12 1); lia).
    destruct (Z.eqb_spec (h - 12) 0); lia.
  - destruct (decide (h = 12)) as [->|]; [done|].
    rewrite Z.mod_small by lia. by destruct (h =? 0).
Qed.

(** The character loop of [formatDate] computes the token semantics: for
    every format built from literal characters and directives, the output is
    the concatenation of the literals and of the field texts (left-padded
    after a zero), hours being on the 12-hour clock exactly when an unpadded
    meridian directive occurs. *)
Theorem formatDate_tokens (d : Z) (ts : list token) (monthNames : option (list string)) :
  forallb token_ok ts = true →
  Forall (λ s, s ≠ "") (default default_months monthNames) →
  formatDate (Some d) (show_tokens ts) monthNames
  = concat_text (map (token_text d (default default_months monthNames)
      (if existsb meridian_token ts then clock12 (getUTCHours d) else getUTCHours d)) ts).
Proof.
  intros Hts Hn. unfold formatDate. rewrite has_meridian_tokens by done.
  cbn [fmap option_fmap option_map]. rewrite clock12_spec by apply getUTCHours_range.
  replace (if existsb meridian_token ts then Some (clock12 (getUTCHours d)) else Some (getUTCHours d))
    with (Some (if existsb meridian_token ts then clock12 (getUTCHours d) else getUTCHours d))
    by by destruct (existsb meridian_token ts).
  set (hours := if existsb meridian_token ts then _ else _). clearbody hours.
  induction ts as [|t ts IH]; [done|]. simpl in Hts. apply andb_true_iff in Hts as [Ht Hts].
  cbn [show_tokens map concat_text]. rewrite format_loop_token by done. by rewrite IH.
Qed.

Definition sample_tokens : list token :=
  [Field false Fb; Lit " "; Field true Fd; Lit ","; Field false Fh; Lit ":"; Field false FM; Field false Fp].

Lemma formatDate_tokens_witness :
  formatDate (Some 1361640689000) (show_tokens sample_tokens) None
  = concat_text (map (token_text 1361640689000 default_months (clock12 (getUTCHours 1361640689000)))
      sample_tokens).
Proof.
  apply (formatDate_tokens 1361640689000 sample_tokens None); [reflexivity|].
  simpl. repeat constructor; discriminate.
Defined.

(** The 12-hour clock reading and the meridian determine the hour. *)
Lemma clock12_range h : 1 ≤ clock12 h ≤ 12.
Proof. unfold clock12. destruct (Z.eqb_spec (h mod 12) 0); zdm. Qed.

Lemma clock12_meridian h h' :
  0 ≤ h ≤ 23 → 0 ≤ h' ≤ 23 → clock12 h = clock12 h' → (h <? 12) = (h' <? 12) → h = h'.
Proof.
  intros Hh Hh'. unfold clock12.
  destruct (Z.eqb_spec (h mod 12) 0), (Z.eqb_spec (h' mod 12) 0), (Z.ltb_spec h 12),
    (Z.ltb_spec h' 12); intros E ?; try done; zdm.
Qed.
