(* ===== verification/FlotModel.v ===== *)
(** The data of a plot in [static/flot/jquery.flot.js]: series, datapoints
    and axes, with the options that the computations read. *)

From S2P Require Import Prelude Numbers JsValue.

(** ** Series *)

(** The [fill] option of a series style: false, true or an opacity. *)
Inductive fill_option (num : Type) := FillOff | FillOn | FillOpacity (x : num).
Arguments FillOff {num}. Arguments FillOn {num}. Arguments FillOpacity {num} _.

(** A color option: absent, a color text, or a gradient specification (each
    stop a text, or an optional brightness and opacity relative to the
    series color). *)
Inductive stop (num : Type) := StopText (s : string) | StopVary (brightness opacity : option num).
Arguments StopText {num} _. Arguments StopVary {num} _ _.
Inductive color_spec (num : Type) := ColorText (s : string) | Gradient (stops : list (stop num)).
Arguments ColorText {num} _. Arguments Gradient {num} _.

(** How one component of a point is read: which axes it extends, whether it
    is converted to a number, required, and its default. *)
Record format_entry (num : Type) := FormatEntry {
  f_x : bool; f_y : bool; f_number : bool; f_required : bool; f_default : option num;
}.
Arguments FormatEntry {num} _ _ _ _ _. Arguments f_x {num} _. Arguments f_y {num} _.
Arguments f_number {num} _. Arguments f_required {num} _. Arguments f_default {num} _.

Record lines_options (num : Type) := Lines {
  lines_show : bool; lines_lineWidth : num; lines_fill : fill_option num;
  lines_fillColor : option (color_spec num); lines_steps : bool;
}.
Arguments Lines {num} _ _ _ _ _. Arguments lines_show {num} _. Arguments lines_lineWidth {num} _.
Arguments lines_fill {num} _. Arguments lines_fillColor {num} _. Arguments lines_steps {num} _.

Record points_options (num : Type) := Points {
  points_show : bool; points_radius : num; points_lineWidth : num;
  points_fill : fill_option num; points_fillColor : option (color_spec num);
  points_symbol : string;
}.
Arguments Points {num} _ _ _ _ _ _. Arguments points_show {num} _. Arguments points_radius {num} _.
Arguments points_lineWidth {num} _. Arguments points_fill {num} _.
Arguments points_fillColor {num} _. Arguments points_symbol {num} _.

Record bars_options (num : Type) := Bars {
  bars_show : bool; bars_lineWidth : num; bars_barWidth : num; bars_fill : fill_option num;
  bars_fillColor : option (color_spec num); bars_align : string; bars_horizontal : bool;
}.
Arguments Bars {num} _ _ _ _ _ _ _. Arguments bars_show {num} _. Arguments bars_lineWidth {num} _.
Arguments bars_barWidth {num} _. Arguments bars_fill {num} _. Arguments bars_fillColor {num} _.
Arguments bars_align {num} _. Arguments bars_horizontal {num} _.

(** Options read by the data plugins: the stacking key, the series (by
    identifier or index) to fill towards, and the threshold with its color. *)
Record plugin_options (num : Type) := Plugin {
  stack : jsv num; fillBetween : jsv num; threshold : option (num * string);
}.
Arguments Plugin {num} _ _ _. Arguments stack {num} _. Arguments fillBetween {num} _.
Arguments threshold {num} _.

(** A raw data point: null, or an array of values. *)
Definition raw_point (num : Type) : Type := option (list (jsv num)).

(** The processed points: a flat array of groups of [pointsize] values. *)
Record datapoints (num : Type) := Datapoints {
  dp_points : list (jsv num);
  dp_pointsize : option nat;
  dp_format : option (list (format_entry num));
}.
Arguments Datapoints {num} _ _ _. Arguments dp_points {num} _.
Arguments dp_pointsize {num} _. Arguments dp_format {num} _.

Record series (num : Type) := Series {
  s_id : jsv num;
  s_label : option string;
  s_color : string;
  s_lines : lines_options num;
  s_points : points_options num;
  s_bars : bars_options num;
  s_shadowSize : num;
  s_plugin : plugin_options num;
  s_data : list (raw_point num);
  s_datapoints : datapoints num;
  s_xaxis : nat;          (* number of its x axis, from 1 *)
  s_yaxis : nat;
  s_hoverable : bool;     (* [s.hoverable != false] *)
  s_clickable : bool;
  s_origin : option nat;  (* index of the series a threshold split it from *)
}.
Arguments Series {num}.
Arguments s_id {num} _. Arguments s_label {num} _. Arguments s_color {num} _.
Arguments s_lines {num} _. Arguments s_points {num} _. Arguments s_bars {num} _.
Arguments s_shadowSize {num} _. Arguments s_plugin {num} _. Arguments s_data {num} _.
Arguments s_datapoints {num} _. Arguments s_xaxis {num} _. Arguments s_yaxis {num} _.
Arguments s_hoverable {num} _. Arguments s_clickable {num} _. Arguments s_origin {num} _.

Definition with_datapoints {num} (s : series num) (d : datapoints num) : series num :=
  Series (s_id s) (s_label s) (s_color s) (s_lines s) (s_points s) (s_bars s) (s_shadowSize s)
    (s_plugin s) (s_data s) d (s_xaxis s) (s_yaxis s) (s_hoverable s) (s_clickable s) (s_origin s).

Definition with_points {num} (s : series num) (ps : list (jsv num)) : series num :=
  with_datapoints s (Datapoints ps (dp_pointsize (s_datapoints s)) (dp_format (s_datapoints s))).

(** The indices [0, ps, 2 ps, ...] below [n] of the loops over groups. *)
Definition group_indices (ps n : nat) : list nat :=
  map (λ k, k * ps) (seq 0 ((n + ps - 1) / ps)).

Lemma group_indices_concat {A} ps (gs : list (list A)) : 0 < ps →
  Forall (λ g, length g = ps) gs →
  group_indices ps (length (concat gs)) = map (λ k, k * ps) (seq 0 (length gs)).
Proof.
  intros Hps Hgs. unfold group_indices. do 2 f_equal.
  assert (E : length (concat gs) = length gs * ps).
  { induction Hgs as [|g gs Hg Hgs IH]; [done|]. simpl. rewrite length_app, IH. lia. }
  rewrite E. replace (length gs * ps + ps - 1) with (ps - 1 + length gs * ps) by lia.
  rewrite Nat.div_add, Nat.div_small by lia. done.
Qed.

(** [s.datapoints.pointsize], once the data has been processed. *)
Definition pointsize {num} (s : series num) : nat := default 0 (dp_pointsize (s_datapoints s)).

(** ** Axes *)

Inductive direction := DirX | DirY.

#[export] Instance direction_eq_dec : EqDecision direction.
Proof. solve_decision. Defined.

(** A tick size option: a number, or a count with a unit of time. *)
Inductive tick_size (num : Type) := TickNumber (x : num) | TickUnit (count : num) (unit : string).
Arguments TickNumber {num} _. Arguments TickUnit {num} _ _.

Inductive tick_length (num : Type) := TickFull | TickPixels (x : num).
Arguments TickFull {num}. Arguments TickPixels {num} _.

(** The [ticks] option: absent, a number, false, given ticks (a value with an
    optional label), or a function of the axis range. *)
Inductive ticks_option (num : Type) :=
  | TicksAuto
  | TicksNumber (n : num)
  | TicksOff
  | TicksGiven (ts : list (jsv num * option string))
  | TicksFun (f : num → num → list (jsv num * option string)).
Arguments TicksAuto {num}. Arguments TicksNumber {num} _. Arguments TicksOff {num}.
Arguments TicksGiven {num} _. Arguments TicksFun {num} _.

(** A [zoomRange] or [panRange] option: absent, false, or two optional bounds. *)
Inductive range_option (num : Type) := RangeNone | RangeFalse | Range (lo hi : option num).
Arguments RangeNone {num}. Arguments RangeFalse {num}. Arguments Range {num} _ _.

Record axis_options (num : Type) := AxisOptions {
  o_show : option bool;
  o_position : string;
  o_time : bool;                          (* mode == "time" *)
  o_color : string;
  o_tickColor : option string;
  o_transform : option (num → num);
  o_inverseTransform : option (num → num);
  o_min : jsv num;                        (* null when absent *)
  o_max : jsv num;
  o_autoscaleMargin : option num;
  o_ticks : ticks_option num;
  o_tickFormatter : option (num → string);
  o_labelWidth : option num;
  o_labelHeight : option num;
  o_reserveSpace : bool;
  o_tickLength : option (tick_length num);
  o_alignTicksWithAxis : option nat;
  o_tickDecimals : option num;
  o_tickSize : option (tick_size num);
  o_minTickSize : option (tick_size num);
  o_monthNames : option (list string);
  o_timeformat : option string;
  o_twelveHourClock : bool;
  o_zoomRange : range_option num;
  o_panRange : range_option num;
}.
Arguments AxisOptions {num}.
Arguments o_show {num} _. Arguments o_position {num} _. Arguments o_time {num} _.
Arguments o_color {num} _. Arguments o_tickColor {num} _. Arguments o_transform {num} _.
Arguments o_inverseTransform {num} _. Arguments o_min {num} _. Arguments o_max {num} _.
Arguments o_autoscaleMargin {num} _. Arguments o_ticks {num} _. Arguments o_tickFormatter {num} _.
Arguments o_labelWidth {num} _. Arguments o_labelHeight {num} _. Arguments o_reserveSpace {num} _.
Arguments o_tickLength {num} _. Arguments o_alignTicksWithAxis {num} _.
Arguments o_tickDecimals {num} _. Arguments o_tickSize {num} _. Arguments o_minTickSize {num} _.
Arguments o_monthNames {num} _. Arguments o_timeformat {num} _. Arguments o_twelveHourClock {num} _.
Arguments o_zoomRange {num} _. Arguments o_panRange {num} _.

Definition with_min_max {num} (o : axis_options num) (mn mx : jsv num) : axis_options num :=
  AxisOptions (o_show o) (o_position o) (o_time o) (o_color o) (o_tickColor o) (o_transform o)
    (o_inverseTransform o) mn mx (o_autoscaleMargin o) (o_ticks o) (o_tickFormatter o)
    (o_labelWidth o) (o_labelHeight o) (o_reserveSpace o) (o_tickLength o)
    (o_alignTicksWithAxis o) (o_tickDecimals o) (o_tickSize o) (o_minTickSize o)
    (o_monthNames o) (o_timeformat o) (o_twelveHourClock o) (o_zoomRange o) (o_panRange o).

(** What the data says about an axis. *)
Record axis_data (num : Type) := AxisData {
  datamin : jsv num; datamax : jsv num; used : bool;
}.
Arguments AxisData {num} _ _ _. Arguments datamin {num} _. Arguments datamax {num} _.
Arguments used {num} _.

(** The range shown, and the variables [s] and [m] that the closures
    [axis.p2c] and [axis.c2p] capture, with the public [axis.scale]. *)
Record axis_view (num : Type) := AxisView {
  v_min : num; v_max : num; v_s : num; v_m : num; v_scale : num;
}.
Arguments AxisView {num} _ _ _ _ _. Arguments v_min {num} _. Arguments v_max {num} _.
Arguments v_s {num} _. Arguments v_m {num} _. Arguments v_scale {num} _.

(** The ticks of an axis and how they were generated; [axis.ticks] is
    undefined until they are set. *)
Record axis_ticks (num : Type) := AxisTicks {
  t_tickSize : tick_size num; t_tickDecimals : num; t_ticks : option (list (num * string));
}.
Arguments AxisTicks {num} _ _ _. Arguments t_tickSize {num} _. Arguments t_tickDecimals {num} _.
Arguments t_ticks {num} _.

(** The place of an axis around the plot. *)
Record axis_box (num : Type) := AxisBox {
  b_show : bool; b_reserveSpace : bool;
  b_labelWidth : num; b_labelHeight : num;
  b_left : num; b_top : num; b_width : num; b_height : num; b_padding : num;
  b_tickLength : tick_length num; b_innermost : bool; b_position : string;
}.
Arguments AxisBox {num}. Arguments b_show {num} _. Arguments b_reserveSpace {num} _.
Arguments b_labelWidth {num} _. Arguments b_labelHeight {num} _. Arguments b_left {num} _.
Arguments b_top {num} _. Arguments b_width {num} _. Arguments b_height {num} _.
Arguments b_padding {num} _. Arguments b_tickLength {num} _. Arguments b_innermost {num} _.
Arguments b_position {num} _.

Record axis (num : Type) := Axis {
  ax_n : nat;
  ax_direction : direction;
  ax_options : axis_options num;
  ax_data : axis_data num;
  ax_view : axis_view num;
  ax_ticks : axis_ticks num;
  ax_box : axis_box num;
}.
Arguments Axis {num} _ _ _ _ _ _ _.
Arguments ax_n {num} _. Arguments ax_direction {num} _. Arguments ax_options {num} _.
Arguments ax_data {num} _. Arguments ax_view {num} _. Arguments ax_ticks {num} _.
Arguments ax_box {num} _.

Section axis_updates.
Context {num : Type}.
Implicit Types ax : axis num.
Definition with_options ax o := Axis (ax_n ax) (ax_direction ax) o (ax_data ax) (ax_view ax) (ax_ticks ax) (ax_box ax).
Definition with_data ax d := Axis (ax_n ax) (ax_direction ax) (ax_options ax) d (ax_view ax) (ax_ticks ax) (ax_box ax).
Definition with_view ax v := Axis (ax_n ax) (ax_direction ax) (ax_options ax) (ax_data ax) v (ax_ticks ax) (ax_box ax).
Definition with_ticks ax t := Axis (ax_n ax) (ax_direction ax) (ax_options ax) (ax_data ax) (ax_view ax) t (ax_box ax).
Definition with_box ax b := Axis (ax_n ax) (ax_direction ax) (ax_options ax) (ax_data ax) (ax_view ax) (ax_ticks ax) b.

(** [axis.min = mn; axis.max = mx] *)
Definition with_range ax (mn mx : num) : axis num :=
  let v := ax_view ax in with_view ax (AxisView mn mx (v_s v) (v_m v) (v_scale v)).

Definition ax_min ax : num := v_min (ax_view ax).
Definition ax_max ax : num := v_max (ax_view ax).
Definition ax_used ax : bool := used (ax_data ax).
End axis_updates.

(** The axis arrays may have holes: [xaxes[1]] can exist without [xaxes[0]]'s
    neighbours being set. *)
Definition axes (num : Type) : Type := list (option (axis num)).

Section axes.
Context {num : Type}.

(** [axes[n - 1]] *)
Definition get_axis (axs : axes num) (n : nat) : option (axis num) := mjoin (axs !! (n - 1)).

Definition update_axis (axs : axes num) (n : nat) (f : axis num → axis num) : axes num :=
  alter (fmap f) (n - 1) axs.

(** [allAxes()]: the axes without the holes. *)
Definition flat_axes (axs : axes num) : list (axis num) := omap id axs.

Lemma get_update_axis axs n m f :
  get_axis (update_axis axs n f) m
  = if decide (n - 1 = m - 1) then f <$> get_axis axs m else get_axis axs m.
Proof.
  unfold get_axis, update_axis, axes in *. rewrite list_lookup_alter.
  destruct (decide (n - 1 = m - 1)) as [->|]; [|done].
  by destruct (axs !! (m - 1)) as [[ax|]|].
Qed.

Lemma get_map_axes axs n f : get_axis (map (fmap f) axs) n = f <$> get_axis axs n.
Proof.
  unfold get_axis, axes in *. rewrite list_lookup_fmap. by destruct (axs !! (n - 1)) as [[ax|]|].
Qed.
End axes.

(** ** The plot *)

Record plot (num : Type) := Plot {
  p_series : list (series num);
  p_xaxes : axes num;
  p_yaxes : axes num;
}.
Arguments Plot {num} _ _ _. Arguments p_series {num} _. Arguments p_xaxes {num} _.
Arguments p_yaxes {num} _.

(** The dimensions of the canvas and of the plot area in it. *)
Record geometry (num : Type) := Geometry {
  canvasWidth : num; canvasHeight : num;
  off_left : num; off_right : num; off_top : num; off_bottom : num;   (* plotOffset *)
  plotWidth : num; plotHeight : num;
}.
Arguments Geometry {num} _ _ _ _ _ _ _ _. Arguments canvasWidth {num} _.
Arguments canvasHeight {num} _. Arguments off_left {num} _. Arguments off_right {num} _.
Arguments off_top {num} _. Arguments off_bottom {num} _. Arguments plotWidth {num} _.
Arguments plotHeight {num} _.

(** ** The default options *)

Section defaults.
Context {num : Type} `{Num num}.

Definition default_lines : lines_options num := Lines false ⟨2⟩%num FillOff None false.
Definition default_points : points_options num :=
  Points false ⟨3⟩%num ⟨2⟩%num FillOn (Some (ColorText "#ffffff")) "circle".
Definition default_bars : bars_options num := Bars false ⟨2⟩%num ⟨1⟩%num FillOn None "left" false.

Definition grid_color : string := "#545454".

Definition default_xaxis : axis_options num :=
  AxisOptions None "bottom" false grid_color None None None Undef Undef None TicksAuto None
    None None false None None None None None None None false RangeNone RangeNone.
Definition default_yaxis : axis_options num :=
  AxisOptions None "left" false grid_color None None None Undef Undef (Some (of_ratio 2 100))
    TicksAuto None None None false None None None None None None None false RangeNone RangeNone.

(** A series of the given data with the default style, and lines. *)
Definition default_series (data : list (raw_point num)) : series num :=
  Series Undef None "#edc240" (Lines true ⟨2⟩%num FillOff None false) default_points default_bars
    ⟨3⟩%num (Plugin Undef Undef None) data (Datapoints [] None None) 1 1 true true None.

(** An axis before any computation, as [getOrCreateAxis] makes it. *)
Definition new_axis (n : nat) (dir : direction) (o : axis_options num) : axis num :=
  Axis n dir o (AxisData Undef Undef false) (AxisView nnan nnan nnan nnan nnan)
    (AxisTicks (TickNumber nnan) nnan None)
    (AxisBox false false nnan nnan nnan nnan nnan nnan nnan TickFull false "").

Definition with_lines (s : series num) (l : lines_options num) : series num :=
  Series (s_id s) (s_label s) (s_color s) l (s_points s) (s_bars s) (s_shadowSize s)
    (s_plugin s) (s_data s) (s_datapoints s) (s_xaxis s) (s_yaxis s) (s_hoverable s)
    (s_clickable s) (s_origin s).
Definition with_bars (s : series num) (b : bars_options num) : series num :=
  Series (s_id s) (s_label s) (s_color s) (s_lines s) (s_points s) b (s_shadowSize s)
    (s_plugin s) (s_data s) (s_datapoints s) (s_xaxis s) (s_yaxis s) (s_hoverable s)
    (s_clickable s) (s_origin s).

(** A plot with one axis in each direction. *)
Definition default_plot (ss : list (series num)) : plot num :=
  Plot ss [Some (new_axis 1 DirX default_xaxis)] [Some (new_axis 1 DirY default_yaxis)].
End defaults.
