(* ===== verification/FlotOptions.v ===== *)
(** The options of a plot in [static/flot/jquery.flot.js]: the defaults, what
    [parseOptions] makes of the user's options, the series of [parseData] and
    the colors, lines and axes that [fillInSeriesOptions] gives them. *)

From S2P Require Import Prelude Numbers JsText JsValue JsObject Color FlotModel.

(** An object property that holds the options of an axis: an element of
    [options.xaxes] or [options.yaxes], which the axis shares, or an object of
    its own. *)
Inductive axis_options_ref (num : Type) := Listed (i : nat) | OwnOptions (o : js num).
Arguments Listed {num} _. Arguments OwnOptions {num} _.

Record axis_obj (num : Type) := AxisObj { a_n : num; a_direction : direction; a_options : axis_options_ref num }.
Arguments AxisObj {num} _ _ _. Arguments a_n {num} _. Arguments a_direction {num} _. Arguments a_options {num} _.

(** [xaxes] or [yaxes]: the elements, some missing, and the axes stored under
    a property that is not an index. *)
Record axis_array (num : Type) := AxisArray { elements : list (option (axis_obj num)); others : list (string * axis_obj num) }.
Arguments AxisArray {num} _ _. Arguments elements {num} _. Arguments others {num} _.

(** The variables of the plot that the options determine. *)
Record setup (num : Type) := Setup {
  su_options : js num; su_xaxes : axis_array num; su_yaxes : axis_array num; su_hooks : list (string * list (js num));
}.
Arguments Setup {num} _ _ _ _. Arguments su_options {num} _. Arguments su_xaxes {num} _.
Arguments su_yaxes {num} _. Arguments su_hooks {num} _.

Section options.
Context {num : Type} `{Num num} `{NumText num}.
Implicit Types (o v : js num).
Local Open Scope num_scope.

Definition text (s : string) : js num := Prim (Str s).
Definition number (x : num) : js num := Prim (Number x).
Definition bool_ (b : bool) : js num := Prim (Boolean b).
Definition null : js num := Prim Null.

(** ** The defaults *)

Definition default_options : js num := Obj [
  ("colors", Arr [text "#edc240"; text "#afd8f8"; text "#cb4b4b"; text "#4da74d"; text "#9440ed"]);
  ("legend", Obj [("show", bool_ true); ("noColumns", number ⟨1⟩); ("labelFormatter", null);
     ("labelBoxBorderColor", text "#ccc"); ("container", null); ("position", text "ne"); ("margin", number ⟨5⟩);
     ("backgroundColor", null); ("backgroundOpacity", number (of_ratio 85 100))]);
  ("xaxis", Obj [("show", null); ("position", text "bottom"); ("mode", null); ("color", null); ("tickColor", null);
     ("transform", null); ("inverseTransform", null); ("min", null); ("max", null); ("autoscaleMargin", null);
     ("ticks", null); ("tickFormatter", null); ("labelWidth", null); ("labelHeight", null); ("reserveSpace", null);
     ("tickLength", null); ("alignTicksWithAxis", null); ("tickDecimals", null); ("tickSize", null);
     ("minTickSize", null); ("monthNames", null); ("timeformat", null); ("twelveHourClock", bool_ false)]);
  ("yaxis", Obj [("autoscaleMargin", number (of_ratio 2 100)); ("position", text "left")]);
  ("xaxes", Arr []); ("yaxes", Arr []);
  ("series", Obj [
     ("points", Obj [("show", bool_ false); ("radius", number ⟨3⟩); ("lineWidth", number ⟨2⟩); ("fill", bool_ true);
        ("fillColor", text "#ffffff"); ("symbol", text "circle")]);
     ("lines", Obj [("lineWidth", number ⟨2⟩); ("fill", bool_ false); ("fillColor", null); ("steps", bool_ false)]);
     ("bars", Obj [("show", bool_ false); ("lineWidth", number ⟨2⟩); ("barWidth", number ⟨1⟩); ("fill", bool_ true);
        ("fillColor", null); ("align", text "left"); ("horizontal", bool_ false)]);
     ("shadowSize", number ⟨3⟩)]);
  ("grid", Obj [("show", bool_ true); ("aboveData", bool_ false); ("color", text "#545454"); ("backgroundColor", null);
     ("borderColor", null); ("tickColor", null); ("labelMargin", number ⟨5⟩); ("axisMargin", number ⟨8⟩);
     ("borderWidth", number ⟨2⟩); ("minBorderMargin", null); ("markings", null); ("markingsColor", text "#f4f4f4");
     ("markingsLineWidth", number ⟨2⟩); ("clickable", bool_ false); ("hoverable", bool_ false);
     ("autoHighlight", bool_ true); ("mouseActiveRadius", number ⟨10⟩)]);
  ("hooks", Obj [])].

Definition hook_names : list string :=
  ["processOptions"; "processRawData"; "processDatapoints"; "drawSeries"; "draw"; "bindEvents"; "drawOverlay"; "shutdown"].

Definition setup0 : setup num :=
  Setup default_options (AxisArray [] []) (AxisArray [] []) (map (λ n, (n, [])) hook_names).

(** ** Values *)

(** [v == null] and whether a condition holds of [v]. *)
Definition nullish v : bool := match v with Prim p => is_null p | _ => false end.
Definition holds v : bool := match v with Prim p => truthy p | _ => true end.

(** The text of a value, as its use for a color makes it. *)
Fixpoint text_of v : string :=
  match v with
  | Prim p => to_text p
  | Arr l => String.concat "," (map (λ x, match x with Prim (Undef | Null) => "" | _ => text_of x end) l)
  | Obj _ => "[object Object]"
  end.

(** [o[k]] where [o] may be null. *)
Definition field (k : string) o : result (js num) :=
  if nullish o then Throw "TypeError" else Ok (get k o).

Fixpoint read (path : list string) o : result (js num) :=
  match path with [] => Ok o | k :: path => v ← field k o; read path v end.

Fixpoint assign (path : list string) v o : result (js num) :=
  match path with
  | [] => Ok v
  | k :: path => old ← field k o; new ← assign path v old; Ok (put k new o)
  end.

(** ** Parsing the options *)

(** An option that is null takes the value of another one. *)
Definition inherit (path source : list string) o : result (js num) :=
  v ← read path o;
  if nullish v then w ← read source o; assign path w o else Ok o.

Definition grid_tickColor o : result (js num) :=
  v ← read ["grid"; "tickColor"] o;
  if nullish v then
    c ← read ["grid"; "color"] o;
    assign ["grid"; "tickColor"] (text (Color.toString (Color.scale [A] (of_ratio 22 100) (Color.parse (text_of c))))) o
  else Ok o.

(** The options of the axes: at least one, each on top of the common ones. *)
Definition axes_options (base : js num) (l : list (js num)) : list (js num) :=
  map (λ x, extend (extend (Obj []) base) x) (match l with [] => [undef] | _ => l end).

Definition fill_axes (base axes : string) o : result (js num) :=
  b ← read [base] o;
  l ← read [axes] o;
  if nullish l then Throw "TypeError"
  else match l with Arr l => assign [axes] (Arr (axes_options b l)) o | _ => Ok o end.

Definition noTicks (axis : string) o : result (js num) :=
  n ← read [axis; "noTicks"] o;
  t ← read [axis; "ticks"] o;
  if holds n && nullish t then assign [axis; "ticks"] n o else Ok o.

(** [x2axis] and [y2axis] *)
Definition second_axis (old base axes position : string) o : result (js num) :=
  v ← read [old] o;
  if holds v then
    b ← read [base] o;
    l ← read [axes] o;
    match l with
    | Prim (Str s) => if (2 <=? String.length s)%nat then Ok o else Throw "TypeError"
    | Prim _ => Throw "TypeError"
    | _ => assign [axes] (put_index 1 (put "position" (text position) (extend (extend (Obj []) b) v)) l) o
    end
  else Ok o.

(** An old option moved to its new place when it is set. *)
Definition move_old (old new : list string) o : result (js num) :=
  v ← read old o; if holds v then assign new v o else Ok o.

(** [options.lines] and the like are merged into [options.series]. *)
Definition merge_style (style : string) o : result (js num) :=
  v ← read [style] o;
  if holds v then
    old ← read ["series"; style] o;
    match old with Prim _ => Ok o | _ => assign ["series"; style] (extend old v) o end
  else Ok o.

Definition old_shadowSize o : result (js num) :=
  v ← read ["shadowSize"] o;
  if nullish v then Ok o else assign ["series"; "shadowSize"] v o.

(** The colors that come from others. *)
Definition inherit_options o : result (js num) :=
  o ← inherit ["xaxis"; "color"] ["grid"; "color"] o;
  o ← inherit ["yaxis"; "color"] ["grid"; "color"] o;
  o ← inherit ["xaxis"; "tickColor"] ["grid"; "tickColor"] o;
  o ← inherit ["yaxis"; "tickColor"] ["grid"; "tickColor"] o;
  o ← inherit ["grid"; "borderColor"] ["grid"; "color"] o;
  grid_tickColor o.

(** The options of earlier versions. *)
Definition old_options o : result (js num) :=
  o ← noTicks "xaxis" o;
  o ← noTicks "yaxis" o;
  o ← second_axis "x2axis" "xaxis" "xaxes" "top" o;
  o ← second_axis "y2axis" "yaxis" "yaxes" "right" o;
  o ← move_old ["grid"; "coloredAreas"] ["grid"; "markings"] o;
  o ← move_old ["grid"; "coloredAreasColor"] ["grid"; "markingsColor"] o;
  o ← merge_style "lines" o;
  o ← merge_style "points" o;
  o ← merge_style "bars" o;
  old_shadowSize o.

Definition normalize_options (opts : js num) o : result (js num) :=
  o ← inherit_options (extend o opts);
  o ← fill_axes "xaxis" "xaxes" o;
  o ← fill_axes "yaxis" "yaxes" o;
  old_options o.

(** ** The axes *)

(** The element of an array that a number stands for. *)
Definition element_index (x : num) : option nat :=
  match to_integer x with
  | Some z => if (0 <=? z)%Z && (of_Z z =? x) then Some (Z.to_nat z) else None
  | None => None
  end.

Fixpoint set_axis (i : nat) (ax : axis_obj num) (l : list (option (axis_obj num))) : list (option (axis_obj num)) :=
  match i, l with
  | 0%nat, [] => [Some ax]
  | 0%nat, _ :: l => Some ax :: l
  | S i, [] => None :: set_axis i ax []
  | S i, x :: l => x :: set_axis i ax l
  end.

(** The property of the array that any other number stands for. *)
Definition other_key (x : num) : string := to_string (x - ⟨1⟩).

Definition getOrCreateAxis (dir : direction) (base : js num) (axs : axis_array num) (n : num)
    : axis_array num * axis_obj num :=
  let new := AxisObj n dir (OwnOptions (extend (Obj []) base)) in
  match element_index (n - ⟨1⟩) with
  | Some i =>
      match mjoin (elements axs !! i) with
      | Some ax => (axs, ax)
      | None => (AxisArray (set_axis i new (elements axs)) (others axs), new)
      end
  | None =>
      match Color.assoc (other_key n) (others axs) with
      | Some ax => (axs, ax)
      | None => (AxisArray (elements axs) (others axs ++ [(other_key n, new)]), new)
      end
  end.

(** The axes take their options from the list, from the [i]-th on. *)
Fixpoint save_options (dir : direction) (base : js num) (i n : nat) (axs : axis_array num) : axis_array num :=
  match n with
  | 0%nat => axs
  | S n =>
      let '(axs, ax) := getOrCreateAxis dir base axs (of_Z (Z.of_nat (S i))) in
      let axs := AxisArray (set_axis i (AxisObj (a_n ax) (a_direction ax) (Listed i)) (elements axs)) (others axs) in
      save_options dir base (S i) n axs
  end.

(** ** Hooks *)

(** [length] of an opaque object, the number of parameters of a function. *)
Variable ref_length : nat → nat.

Definition hook_functions v : list (js num) :=
  match v with
  | Arr l => l
  | Prim (Ref f) => if (ref_length f =? 0)%nat then [] else [v]
  | Prim (Str s) => if String.eqb s "" then [] else [v]
  | _ => []
  end.

Definition add_hooks (given : js num) (hooks : list (string * list (js num))) : list (string * list (js num)) :=
  map (λ nh, (nh.1, nh.2 ++ hook_functions (get nh.1 given))) hooks.

(** The hooks of a name, run on the plot one after the other. *)
Fixpoint executeHooks (run : js num → setup num → result (setup num)) (hs : list (js num)) (su : setup num)
    : result (setup num) :=
  match hs with [] => Ok su | h :: hs => su ← run h su; executeHooks run hs su end.

Definition hooks_of (name : string) (su : setup num) : list (js num) :=
  default [] (Color.assoc name (su_hooks su)).

(** [length] of an array or a text; other values have none. *)
Definition length_of v : option nat :=
  match v with Arr l => Some (length l) | Prim (Str s) => Some (String.length s) | _ => None end.

Definition parseOptions (run : js num → setup num → result (setup num)) (opts : js num) (su : setup num)
    : result (setup num) :=
  o ← normalize_options opts (su_options su);
  xs ← read ["xaxes"] o; ys ← read ["yaxes"] o;
  if nullish xs || nullish ys then Throw "TypeError" else
  let xaxes := save_options DirX (get "xaxis" o) 0 (default 0%nat (length_of xs)) (su_xaxes su) in
  let yaxes := save_options DirY (get "yaxis" o) 0 (default 0%nat (length_of ys)) (su_yaxes su) in
  given ← read ["hooks"] o;
  if nullish given then Throw "TypeError" else
  let su := Setup o xaxes yaxes (add_hooks given (su_hooks su)) in
  executeHooks run (hooks_of "processOptions" su) su.

(** A plugin: what its [init] does to the hooks, and its options. *)
Definition initPlugins (plugins : list ((setup num → setup num) * js num)) (su : setup num) : setup num :=
  foldl (λ su p, let su := p.1 su in
    if holds p.2 then Setup (extend (su_options su) p.2) (su_xaxes su) (su_yaxes su) (su_hooks su) else su) su plugins.

(** ** The series *)

(** [parseData]: the series, and the data that was passed with what happened
    to it: its data is taken away while the rest is copied. *)
Definition parse_item (opts : js num) (d : js num) : result (js num * js num) :=
  let s := extend (Obj []) (get "series" opts) in
  data ← field "data" d;
  if nullish data then Ok (put "data" d s, d)
  else
    let d := delete_key "data" d in
    let s := extend (put "data" data s) d in
    Ok (s, put "data" (get "data" s) d).

Fixpoint parseData (opts : js num) (ds : list (js num)) : result (list (js num) * list (js num)) :=
  match ds with
  | [] => Ok ([], [])
  | d :: ds =>
      '(s, d) ← parse_item opts d;
      '(ss, ds) ← parseData opts ds;
      Ok (s :: ss, d :: ds)
  end.

(** [axisNumber] *)
Definition axisNumber (obj : js num) (coord : string) : result num :=
  let a := get (coord +:+ "axis") obj in
  a ← match a with Prim Null => Throw "TypeError" | Obj _ | Arr _ => Ok (get "n" a) | _ => Ok a end;
  Ok match a with Prim (Number x) => x | _ => ⟨1⟩ end.

(** ** Colors *)

(** The colors that are assigned by number, and how many others are missing. *)
Definition assigned_colors (ss : list (js num)) : list num :=
  omap (λ s, match get "color" s with Prim (Number x) => Some x | _ => None end) ss.

Definition missing_colors (ss : list (js num)) : nat := length (filter (λ s, nullish (get "color" s)) ss).

Definition neededColors (ss : list (js num)) : num :=
  foldl (λ needed x, nmax needed (x + ⟨1⟩)) (of_Z (Z.of_nat (missing_colors ss))) (assigned_colors ss).

(** The color of the theme at [i], varied. *)
Definition theme_color (theme : js num) (i variation : nat) : color num :=
  let c := if bool_decide (length_of theme = Some i) then Color.make ⟨100⟩ ⟨100⟩ ⟨100⟩ None
           else match theme with
                | Prim (Str s) => Color.parse (default "undefined" ((λ c, String c "") <$> String.get i s))
                | _ => Color.parse (text_of (get_index i theme))
                end in
  let sign : num := if Nat.odd variation then ⟨-1⟩ else ⟨1⟩ in
  Color.scale [R; G; B] (⟨1⟩ + sign * nceil (of_Z (Z.of_nat variation) / ⟨2⟩) * of_ratio 2 10) c.

(** Where the loop goes next in the theme. *)
Definition theme_next (theme : js num) (i variation : nat) : nat * nat :=
  match length_of theme with
  | Some n => if (n <=? S i)%nat then (0%nat, S variation) else (S i, variation)
  | None => (S i, variation)
  end.

Fixpoint produce_colors (fuel : nat) (theme : js num) (needed : num) (i variation : nat) (colors : list (color num))
    : result (list (color num)) :=
  if of_Z (Z.of_nat (length colors)) <? needed then
    match fuel with
    | 0%nat => NoFuel
    | S fuel =>
        let '(i', variation') := theme_next theme i variation in
        produce_colors fuel theme needed i' variation' (colors ++ [theme_color theme i variation])
    end
  else Ok colors.

(** Enough steps for every finite number of colors. *)
Definition color_fuel (needed : num) : nat := match to_integer needed with Some z => S (Z.to_nat z) | None => 0 end.

Definition generate_colors (theme : js num) (ss : list (js num)) : result (list (color num)) :=
  if nullish theme && (⟨0⟩ <? neededColors ss) then Throw "TypeError"
  else produce_colors (color_fuel (neededColors ss)) theme (neededColors ss) 0 0 [].

(** The element of an array at a number. *)
Definition nth_color (colors : list (color num)) (x : num) : option (color num) :=
  i ← element_index x; colors !! i.

(** The color of a series, when [colori] of the colors were given out. *)
Definition color_series (colors : list (color num)) (colori : nat) (s : js num) : result (js num * nat) :=
  match get "color" s with
  | Prim (Undef | Null) =>
      match colors !! colori with
      | Some c => Ok (put "color" (text (Color.toString c)) s, S colori)
      | None => Throw "TypeError"
      end
  | Prim (Number x) =>
      match nth_color colors x with
      | Some c => Ok (put "color" (text (Color.toString c)) s, colori)
      | None => Throw "TypeError"
      end
  | _ => Ok (s, colori)
  end.

(** Lines are shown when nothing else is. *)
Definition shows_something (s : js num) : bool :=
  match s with Obj kvs => existsb (λ kv, holds kv.2 && holds (get "show" kv.2)) kvs | _ => false end.

Definition show_lines (s : js num) : result (js num) :=
  v ← read ["lines"; "show"] s;
  if nullish v && negb (shows_something s) then assign ["lines"; "show"] (bool_ true) s else Ok s.

(** ** The series, with their axes by number *)

Record filled := Filled { f_series : js num; f_xaxis : num; f_yaxis : num }.

Definition fill_series (opts : js num) (colors : list (color num)) (st : nat * (axis_array num * axis_array num)) (s : js num)
    : result (filled * (nat * (axis_array num * axis_array num))) :=
  let '(colori, (xaxes, yaxes)) := st in
  '(s, colori) ← color_series colors colori s;
  s ← show_lines s;
  nx ← axisNumber s "x";
  let '(xaxes, _) := getOrCreateAxis DirX (get "xaxis" opts) xaxes nx in
  ny ← axisNumber s "y";
  let '(yaxes, _) := getOrCreateAxis DirY (get "yaxis" opts) yaxes ny in
  Ok (Filled s nx ny, (colori, (xaxes, yaxes))).

Fixpoint fill_all (opts : js num) (colors : list (color num)) (st : nat * (axis_array num * axis_array num)) (ss : list (js num))
    : result (list filled * (axis_array num * axis_array num)) :=
  match ss with
  | [] => Ok ([], st.2)
  | s :: ss =>
      '(f, st) ← fill_series opts colors st s;
      '(fs, axs) ← fill_all opts colors st ss;
      Ok (f :: fs, axs)
  end.

Definition fillInSeriesOptions (opts : js num) (axs : axis_array num * axis_array num) (ss : list (js num))
    : result (list filled * (axis_array num * axis_array num)) :=
  colors ← generate_colors (get "colors" opts) ss;
  fill_all opts colors (0%nat, axs) ss.

(** The first two steps of [setData]. *)
Definition read_data (su : setup num) (ds : list (js num)) : result (list filled * setup num * list (js num)) :=
  '(ss, ds) ← parseData (su_options su) ds;
  '(fs, (xs, ys)) ← fillInSeriesOptions (su_options su) (su_xaxes su, su_yaxes su) ss;
  Ok (fs, Setup (su_options su) xs ys (su_hooks su), ds).
End options.
