(* ===== verification/FlotOptionsSpec.v ===== *)
(** What the options of a plot become: the options of every axis, and the
    colors and axes of the series. *)

From Stdlib Require Import QArith.
From stdpp Require Import sets.
From S2P Require Import Prelude Numbers ExactNum JsText JsValue JsObject Color FlotModel FlotOptions.

#[local] Open Scope nat_scope.

(** Case analysis on a test of the code. *)
Ltac split_if := match goal with |- context [if ?b then _ else _] => destruct b end.

(** ** Reading and writing options *)

Section options.
Context {num : Type} `{Num num} `{NumText num}.
Implicit Types (o v : js num).

(** The first of two values that is not undefined. *)
Definition pick v o : js num := if defined v then v else o.
Definition is_prim v : Prop := match v with Prim _ => True | _ => False end.

Lemma merged_prim src c : is_prim c → merged src c = pick c src.
Proof. by destruct c as [[]| |]. Qed.

Definition keys_nodup o : Prop := match o with Obj kvs => NoDup (map fst kvs) | _ => True end.

Lemma set_key_keys k v (kvs : list (string * js num)) x : x ∈ map fst (set_key k v kvs) → x = k ∨ x ∈ map fst kvs.
Proof.
  induction kvs as [|[k0 v0] kvs IH]; simpl; [set_solver|]. destruct (String.eqb_spec k k0) as [-> |]; simpl; set_solver.
Qed.

Lemma put_nodup k v o : keys_nodup o → keys_nodup (put k v o).
Proof.
  destruct o as [p|l|kvs]; [done|done|]. cbn [put keys_nodup]. induction kvs as [|[k0 v0] kvs IH]; intros HN.
  { simpl. apply NoDup_singleton. }
  simpl in HN. apply NoDup_cons in HN as [H1 H2]. simpl. destruct (String.eqb_spec k k0) as [-> |Hk]; simpl.
  - by apply NoDup_cons.
  - apply NoDup_cons. split; [|by apply IH]. intros [-> |]%set_key_keys; done.
Qed.

Lemma extend_nodup old kvs : NoDup (map fst old) → keys_nodup (extend (Obj old) (Obj (num := num) kvs)).
Proof.
  rewrite extend_obj. intros HN. change (keys_nodup (Obj old)) in HN. revert HN. generalize (Obj old) as o.
  induction kvs as [|[k c] kvs IH]; intros o HN; simpl; [done|]. apply IH. destruct (defined c); [|done]. by apply put_nodup.
Qed.

(** The options where the code reads and writes them: objects of options, and lists of axes. *)
Definition groups : list string := ["xaxis"; "yaxis"; "grid"; "series"; "hooks"].
Record shaped o : Prop := Shaped {
  sh_obj : ∃ kvs, o = Obj kvs;
  sh_group : ∀ k, k ∈ groups → ∃ kvs, get k o = Obj kvs;
  sh_axes : ∀ k, k ∈ ["xaxes"; "yaxes"] → ∃ l, get k o = Arr l;
}.

Lemma get_put_other k k' v o : k ≠ k' → get k (put k' v o) = get k o.
Proof. intros Hk. destruct o as [| |kvs]; [done..|]. rewrite get_put. by destruct (String.eqb_spec k k'). Qed.

Lemma get_put_same k v o : (∃ kvs, o = Obj kvs) → get k (put k v o) = v.
Proof. intros [kvs ->]. by rewrite get_put, String.eqb_refl. Qed.

Lemma field_obj k o : (∃ kvs, o = Obj kvs) → field k o = Ok (get k o).
Proof. by intros [kvs ->]. Qed.

Lemma read1 k o : shaped o → read [k] o = Ok (get k o).
Proof. intros HS. cbn [read]. by rewrite field_obj by apply HS. Qed.

Lemma read2 a k o : shaped o → a ∈ groups → read [a; k] o = Ok (get k (get a o)).
Proof. intros HS Ha. cbn [read]. rewrite field_obj by apply HS. cbn [mbind result_bind]. by rewrite field_obj by by apply HS. Qed.

Lemma put_is_obj k v o : (∃ kvs, o = Obj kvs) → ∃ kvs, put k v o = Obj (num := num) kvs.
Proof. intros [kvs ->]. by eexists. Qed.

Lemma assign2 a k v o : shaped o → a ∈ groups →
  let o' := put a (put k v (get a o)) o in assign [a; k] v o = Ok o' ∧ shaped o'.
Proof.
  intros HS Ha. cbv zeta. cbn [assign]. rewrite field_obj by apply HS. cbn [mbind result_bind].
  rewrite field_obj by by apply HS. split; [done|]. destruct HS as [HO HG HX]. split.
  - by apply put_is_obj.
  - intros k' Hk'. destruct (decide (k' = a)) as [-> |]; [rewrite get_put_same by done|rewrite get_put_other by done].
    + by apply put_is_obj, HG.
    + by apply HG.
  - intros k' Hk'. assert (k' ≠ a) by (intros ->; revert Ha Hk'; unfold groups; set_solver).
    rewrite get_put_other by done. by apply HX.
Qed.

Lemma assign_axes a l o : shaped o → a ∈ ["xaxes"; "yaxes"] →
  assign [a] (Arr l) o = Ok (put a (Arr l) o) ∧ shaped (put a (Arr l) o).
Proof.
  intros HS Ha. cbn [assign]. rewrite field_obj by apply HS. split; [done|]. destruct HS as [HO HG HX]. split.
  - by apply put_is_obj.
  - intros k' Hk'. assert (k' ≠ a) by (intros ->; revert Ha Hk'; unfold groups; set_solver).
    rewrite get_put_other by done. by apply HG.
  - intros k' Hk'. destruct (decide (k' = a)) as [-> |]; [rewrite get_put_same by done; by eexists|].
    rewrite get_put_other by done. by apply HX.
Qed.

(** ** The steps of the normalisation *)

(** What a step may do: write some keys of some groups. *)
Definition writes (ws : list (string * string)) o o' : Prop :=
  (∀ a, a ∉ map fst ws → get a o' = get a o) ∧
  (∀ a k, (a, k) ∉ ws → a ∈ groups → get k (get a o') = get k (get a o)) ∧
  (∀ a, a ∈ groups → keys_nodup (get a o) → keys_nodup (get a o')).

Definition step (ws : list (string * string)) (f : js num → result (js num)) : Prop :=
  ∀ o, shaped o → ∃ o', f o = Ok o' ∧ shaped o' ∧ writes ws o o'.

Lemma writes_refl ws o : writes ws o o.
Proof. by split_and!. Qed.

Lemma assign2_writes a k v o : shaped o → a ∈ groups →
  ∃ o', assign [a; k] v o = Ok o' ∧ shaped o' ∧ writes [(a, k)] o o'.
Proof.
  intros HS Ha. destruct (assign2 a k v o HS Ha) as [E HS']. eexists. split; [exact E|]. split; [exact HS'|].
  split_and!.
  - intros b Hb. apply get_put_other. set_solver.
  - intros b k' Hbk Hb. destruct (decide (b = a)) as [-> |]; [|by rewrite get_put_other].
    rewrite get_put_same by apply HS. apply get_put_other. set_solver.
  - intros b Hb HN. destruct (decide (b = a)) as [-> |]; [|by rewrite get_put_other].
    rewrite get_put_same by apply HS. by apply put_nodup.
Qed.

Lemma inherit_step a k b k' : a ∈ groups → b ∈ groups → step [(a, k)] (inherit [a; k] [b; k']).
Proof.
  intros Ha Hb o HS. unfold inherit. rewrite (read2 a k) by done. cbn [mbind result_bind].
  split_if; [|exists o; split_and!; [done|done|apply writes_refl..]].
  rewrite read2 by done. cbn [mbind result_bind]. by apply assign2_writes.
Qed.

Lemma grid_tickColor_step : step [("grid", "tickColor")] grid_tickColor.
Proof.
  intros o HS. unfold grid_tickColor. rewrite (read2 "grid" "tickColor") by (done || set_solver). cbn [mbind result_bind].
  split_if; [|exists o; split_and!; [done|done|apply writes_refl..]].
  rewrite read2 by (done || set_solver). cbn [mbind result_bind]. apply assign2_writes; [done|set_solver].
Qed.

Lemma noTicks_step a : a ∈ groups → step [(a, "ticks")] (noTicks a).
Proof.
  intros Ha o HS. unfold noTicks. rewrite (read2 a "noTicks"), (read2 a "ticks") by done. cbn [mbind result_bind].
  split_if; [|exists o; split_and!; [done|done|apply writes_refl..]]. by apply assign2_writes.
Qed.

Lemma move_old_step k k' : step [("grid", k')] (move_old ["grid"; k] ["grid"; k']).
Proof.
  intros o HS. unfold move_old. rewrite read2 by (done || set_solver). cbn [mbind result_bind].
  split_if; [|exists o; split_and!; [done|done|apply writes_refl..]]. apply assign2_writes; [done|set_solver].
Qed.

Lemma merge_style_step s : step [("series", s)] (merge_style s).
Proof.
  intros o HS. unfold merge_style. rewrite read1 by done. cbn [mbind result_bind].
  split_if; [|exists o; split_and!; [done|done|apply writes_refl..]].
  rewrite read2 by (done || set_solver). cbn [mbind result_bind].
  destruct (get s (get "series" o)); [exists o; split_and!; [done|done|apply writes_refl..]|..];
    (apply assign2_writes; [done|set_solver]).
Qed.

Lemma shadowSize_step : step [("series", "shadowSize")] old_shadowSize.
Proof.
  intros o HS. unfold old_shadowSize. rewrite read1 by done. cbn [mbind result_bind].
  split_if; [exists o; split_and!; [done|done|apply writes_refl..]|]. apply assign2_writes; [done|set_solver].
Qed.

Lemma writes_trans ws ws' o1 o2 o3 : writes ws o1 o2 → writes ws' o2 o3 → writes (ws ++ ws') o1 o3.
Proof.
  intros (A1 & A2 & A3) (B1 & B2 & B3). split_and!.
  - intros a Ha. rewrite map_app in Ha. rewrite B1, A1; [done|set_solver..].
  - intros a k Hk Ha. rewrite B2, A2; [done|set_solver..].
  - auto.
Qed.

Lemma fill_axes_spec base axes l o : shaped o → base ∈ groups → axes ∈ ["xaxes"; "yaxes"] → get axes o = Arr l →
  ∃ o', fill_axes base axes o = Ok o' ∧ shaped o' ∧ writes [(axes, "")] o o' ∧
    get axes o' = Arr (axes_options (get base o) l).
Proof.
  intros HS Hb Ha E. unfold fill_axes. rewrite (read1 base), (read1 axes), E by done. cbn [mbind result_bind nullish].
  destruct (assign_axes axes (axes_options (get base o) l) o HS Ha) as [E' HS'].
  assert (Hg : axes ∉ groups) by (intros Hg; revert Ha Hg; unfold groups; set_solver).
  eexists. split; [exact E'|]. split; [exact HS'|]. split; [split_and!|].
  - intros a Hx. apply get_put_other. set_solver.
  - intros a k _ Hx. rewrite get_put_other; [done|by intros ->].
  - intros a Hx. rewrite get_put_other; [done|by intros ->].
  - apply get_put_same, HS.
Qed.

Lemma second_axis_absent old base axes position o : shaped o → holds (get old o) = false →
  second_axis old base axes position o = Ok o.
Proof. intros HS E. unfold second_axis. rewrite (read1 old) by done. cbn [mbind result_bind]. by rewrite E. Qed.

(** What the steps before and after the axes are filled in may write. *)
Definition inherited : list (string * string) :=
  [("xaxis", "color"); ("yaxis", "color"); ("xaxis", "tickColor"); ("yaxis", "tickColor");
   ("grid", "borderColor"); ("grid", "tickColor")].

Ltac take_step lem HS W :=
  let o' := fresh "o" in let E := fresh "E" in let HS' := fresh "HS" in let W' := fresh "W" in
  destruct lem as (o' & E & HS' & W'); rewrite E; cbn [mbind result_bind]; clear E HS; rename HS' into HS;
  pose proof (writes_trans _ _ _ _ _ W W') as W''; clear W W'; rename W'' into W.

Lemma inherit_all o : shaped o → ∃ o', inherit_options o = Ok o' ∧ shaped o' ∧ writes inherited o o'.
Proof.
  intros HS. unfold inherit_options. pose proof (writes_refl [] o) as W.
  take_step (inherit_step "xaxis" "color" "grid" "color" ltac:(set_solver) ltac:(set_solver) o HS) HS W.
  take_step (inherit_step "yaxis" "color" "grid" "color" ltac:(set_solver) ltac:(set_solver) _ HS) HS W.
  take_step (inherit_step "xaxis" "tickColor" "grid" "tickColor" ltac:(set_solver) ltac:(set_solver) _ HS) HS W.
  take_step (inherit_step "yaxis" "tickColor" "grid" "tickColor" ltac:(set_solver) ltac:(set_solver) _ HS) HS W.
  take_step (inherit_step "grid" "borderColor" "grid" "color" ltac:(set_solver) ltac:(set_solver) _ HS) HS W.
  destruct (grid_tickColor_step _ HS) as (o' & E & HS' & W'). exists o'. split; [exact E|]. split; [exact HS'|].
  exact (writes_trans _ _ _ _ _ W W').
Qed.

(** The options of earlier versions, where there is no second axis among them. *)
Lemma old_options_spec o : shaped o → holds (get "x2axis" o) = false → holds (get "y2axis" o) = false →
  ∃ o', old_options o = Ok o' ∧ shaped o' ∧ ∀ k, k ∉ groups → get k o' = get k o.
Proof.
  intros HS Hx Hy. unfold old_options. pose proof (writes_refl [] o) as W.
  take_step (noTicks_step "xaxis" ltac:(set_solver) _ HS) HS W.
  take_step (noTicks_step "yaxis" ltac:(set_solver) _ HS) HS W.
  match type of HS with shaped ?o' =>
    assert (Hold : holds (get "x2axis" o') = false ∧ holds (get "y2axis" o') = false) end.
  { destruct W as [W _]. rewrite !W by (simpl; set_solver). done. }
  destruct Hold as [Hx' Hy'].
  rewrite second_axis_absent by done. cbn [mbind result_bind].
  rewrite second_axis_absent by done. cbn [mbind result_bind].
  take_step (move_old_step "coloredAreas" "markings" _ HS) HS W.
  take_step (move_old_step "coloredAreasColor" "markingsColor" _ HS) HS W.
  take_step (merge_style_step "lines" _ HS) HS W.
  take_step (merge_style_step "points" _ HS) HS W.
  take_step (merge_style_step "bars" _ HS) HS W.
  destruct (shadowSize_step _ HS) as (o' & E & HS' & W'). pose proof (writes_trans _ _ _ _ _ W W') as WW.
  clear W. rename WW into W. exists o'. split; [exact E|]. split; [done|]. intros k Hk. apply W. simpl. unfold groups in Hk. set_solver.
Qed.

Lemma normalize_axes opts o lx ly : let M := extend o opts in
  shaped M → get "xaxes" M = Arr lx → get "yaxes" M = Arr ly →
  holds (get "x2axis" M) = false → holds (get "y2axis" M) = false →
  ∃ o1 o', normalize_options opts o = Ok o' ∧ shaped o' ∧ shaped o1 ∧ writes inherited M o1 ∧
    get "xaxes" o' = Arr (axes_options (get "xaxis" o1) lx) ∧ get "yaxes" o' = Arr (axes_options (get "yaxis" o1) ly).
Proof.
  intros M HS Ex Ey Hx Hy. unfold normalize_options. fold M.
  destruct (inherit_all M HS) as (o1 & -> & HS1 & W1). cbn [mbind result_bind].
  assert (Hsame : ∀ k, k ∉ groups → get k o1 = get k M) by (intros k Hk; apply W1; simpl; unfold groups in Hk; set_solver).
  rewrite <- (Hsame "xaxes") in Ex by (unfold groups; set_solver).
  destruct (fill_axes_spec "xaxis" "xaxes" lx o1 HS1 ltac:(set_solver) ltac:(set_solver) Ex) as (o2 & E2 & HS2 & W2 & Ex2).
  rewrite E2; cbn [mbind result_bind].
  rewrite <- (Hsame "yaxes") in Ey by (unfold groups; set_solver).
  assert (Ey2 : get "yaxes" o2 = Arr ly) by (by rewrite <- Ey; apply W2; simpl; set_solver).
  destruct (fill_axes_spec "yaxis" "yaxes" ly o2 HS2 ltac:(set_solver) ltac:(set_solver) Ey2) as (o3 & E3 & HS3 & W3 & Ey3).
  rewrite E3; cbn [mbind result_bind].
  assert (Hsame3 : ∀ k, k ∉ ["xaxes"; "yaxes"] → get k o3 = get k o1).
  { intros k Hk. destruct W3 as [W3 _], W2 as [W2 _]. rewrite W3, W2; [done|simpl; set_solver..]. }
  destruct (old_options_spec o3 HS3) as (o' & -> & HS' & Hold).
  1-2: rewrite Hsame3, Hsame; [done|unfold groups; set_solver..].
  exists o1, o'. split; [done|]. split; [done|]. split; [done|]. split; [done|].
  destruct W3 as [W3 _], W2 as [W2 _].
  rewrite !Hold, Ey3 by (unfold groups; set_solver). rewrite W3, Ex2, W2 by (simpl; set_solver). done.
Qed.
End options.

(** ** The axes *)

Definition nat_num (n : nat) : xq := of_Z (Z.of_nat n).

Lemma element_nat n : element_index (nat_num n) = Some n.
Proof.
  unfold element_index, nat_num. change (to_integer (of_Z (Z.of_nat n))) with (Some (Z.quot (Z.of_nat n) 1)).
  rewrite Z.quot_1_r. cbv iota. rewrite (proj2 (Z.leb_le 0 _)) by lia.
  assert (E : neqb (of_Z (Z.of_nat n) : xq) (of_Z (Z.of_nat n)) = true) by (by apply Exact.eqb_fin).
  rewrite E. cbn [andb]. by rewrite Nat2Z.id.
Qed.

Lemma nat_num_pred n : (nat_num (S n) - ⟨1⟩)%num = nat_num n.
Proof.
  unfold nat_num. change (of_Z (Z.of_nat (S n)) - ⟨1⟩)%num with (XFin ((Z.of_nat (S n) * 1 + -1 * 1) # 1)).
  change (of_Z (Z.of_nat n)) with (XFin (Z.of_nat n # 1)). do 2 f_equal. lia.
Qed.

Section axes.
Context `{NumText xq}.
Implicit Types (o v : js xq).

(** The axes of a list of options, from the [i]-th on. *)
Definition listed (dir : direction) (i n : nat) : list (option (axis_obj xq)) :=
  map (λ j, Some (AxisObj (nat_num (S j)) dir (Listed j))) (seq i n).

Lemma set_axis_end (ax : axis_obj xq) l : set_axis (length l) ax l = l ++ [Some ax].
Proof. induction l as [|x l IH]; simpl; [done|]. by rewrite IH. Qed.

Lemma set_axis_last (ax ax' : axis_obj xq) l : set_axis (length l) ax (l ++ [Some ax']) = l ++ [Some ax].
Proof. induction l as [|x l IH]; simpl; [done|]. by rewrite IH. Qed.

Lemma save_options_listed dir base n l : save_options dir base (length l) n (AxisArray l []) = AxisArray (l ++ listed dir (length l) n) [].
Proof.
  revert l. induction n as [|n IH]; intros l; [by rewrite app_nil_r|].
  cbn [save_options]. change (of_Z (Z.of_nat (S (length l)))) with (nat_num (S (length l))).
  unfold getOrCreateAxis. rewrite nat_num_pred, element_nat. cbn [elements others].
  rewrite lookup_ge_None_2 by lia. cbn [mjoin option_join]. rewrite set_axis_end. cbn [elements others a_n a_direction].
  rewrite set_axis_last.
  specialize (IH (l ++ [Some (AxisObj (nat_num (S (length l))) dir (Listed (length l)))])).
  rewrite length_app in IH. cbn [length] in IH. replace (length l + 1) with (S (length l)) in IH by lia.
  by rewrite IH, <- app_assoc.
Qed.

(** The options an axis may be given: nothing, or an object. *)
Definition axis_like v : Prop := match v with Arr _ => False | _ => keys_nodup v end.

Lemma axes_options_lookup base (l : list (js xq)) i x : axes_options base l !! i = Some x →
  x = extend (extend (Obj []) base) (default undef (l !! i)).
Proof.
  unfold axes_options. intros (y & -> & Hy)%list_lookup_fmap_Some.
  destruct l as [|z l]; [|by rewrite Hy]. destruct i; [by injection Hy as <-|done].
Qed.

Lemma axis_option k b user : NoDup (map fst b) → axis_like user → is_prim (get k (Obj b)) → is_prim (get k user) →
  get k (extend (extend (Obj []) (Obj b)) user) = pick (get k user) (get k (Obj b)).
Proof.
  intros HN Hu Hb Hk. destruct (extend_is_obj b []) as [e He].
  assert (Eb : get k (extend (Obj []) (Obj b)) = get k (Obj b)).
  { rewrite get_extend, merged_prim by done. by destruct (get k (Obj b)) as [[]| |]. }
  destruct user as [p|l|u]; [|done|]; [by destruct p|].
  rewrite He in *. by rewrite get_extend, merged_prim, Eb.
Qed.

(** The axes that the merged options [M] give. *)
Definition axes_given (M : js xq) (base axes : string) (dir : direction) (o : js xq) (axs : axis_array xq) : Prop :=
  ∃ l l', get axes M = Arr l ∧ get axes o = Arr l' ∧ length l' = max 1 (length l) ∧
    axs = AxisArray (listed dir 0 (length l')) [] ∧
    ∀ i x, l' !! i = Some x → ∀ k, k ∉ ["color"; "tickColor"] → let user := default undef (l !! i) in
      axis_like user → is_prim (get k user) → is_prim (get k (get base M)) →
      get k x = pick (get k user) (get k (get base M)).

Lemma axes_given_intro M base axes dir o1 o l : shaped M → shaped o1 → writes inherited M o1 →
  base ∈ ["xaxis"; "yaxis"] → keys_nodup (get base M) → get axes M = Arr l → get axes o = Arr (axes_options (get base o1) l) →
  axes_given M base axes dir o (AxisArray (listed dir 0 (length (axes_options (get base o1) l))) []).
Proof.
  intros HS HS1 (W1 & W2 & W3) Hb HN El Eo. exists l, (axes_options (get base o1) l). split; [done|]. split; [done|].
  split; [unfold axes_options; rewrite length_map; by destruct l|]. split; [done|].
  intros i x ->%axes_options_lookup k Hk user Hu Hpu Hpb.
  assert (Hg : base ∈ groups) by (unfold groups; set_solver).
  assert (Ek : get k (get base o1) = get k (get base M)) by (apply W2; [unfold inherited; set_solver|done]).
  specialize (W3 base Hg HN). destruct (sh_group o1 HS1 base Hg) as [b Eb]. rewrite Eb in *.
  rewrite <- Ek in *. by apply axis_option.
Qed.

(** C7: the options of the axes: with options merged into defaults that have
    their usual groups, there is at least one axis in each direction, the axes
    are numbered from one and share their options with the list, and but for
    the colors an option of an axis is the one given for that axis, else the
    one given for all of them, else the default.  In particular [noTicks], read
    after the axes were filled in, reaches none of them. *)
Theorem parseOptions_axes ref_length run (opts : js xq) (su : setup xq) :
  let M := extend (su_options su) opts in
  shaped M → keys_nodup (get "xaxis" M) → keys_nodup (get "yaxis" M) →
  holds (get "x2axis" M) = false → holds (get "y2axis" M) = false →
  su_xaxes su = AxisArray [] [] → su_yaxes su = AxisArray [] [] →
  ∃ su', parseOptions ref_length run opts su = executeHooks run (hooks_of "processOptions" su') su' ∧
    axes_given M "xaxis" "xaxes" DirX (su_options su') (su_xaxes su') ∧
    axes_given M "yaxis" "yaxes" DirY (su_options su') (su_yaxes su').
Proof.
  intros M HS HNx HNy Hx Hy Ex0 Ey0.
  destruct (sh_axes M HS "xaxes") as [lx Ex]; [set_solver|]. destruct (sh_axes M HS "yaxes") as [ly Ey]; [set_solver|].
  destruct (normalize_axes opts (su_options su) lx ly HS Ex Ey Hx Hy) as (o1 & o' & E & HS' & HS1 & W & Ex' & Ey').
  unfold parseOptions. rewrite E. cbn [mbind result_bind]. rewrite (read1 "xaxes"), (read1 "yaxes"), (read1 "hooks") by done.
  cbn [mbind result_bind]. destruct (sh_group o' HS' "hooks") as [h Eh]; [unfold groups; set_solver|].
  rewrite Ex', Ey', Eh, Ex0, Ey0. cbn [nullish orb length_of default].
  rewrite (save_options_listed DirX _ _ []), (save_options_listed DirY _ _ []). cbn [app length].
  eexists. split; [done|]. cbn [su_options su_xaxes su_yaxes].
  split; [apply (axes_given_intro M "xaxis" "xaxes" DirX o1)|apply (axes_given_intro M "yaxis" "yaxes" DirY o1)];
    (done || set_solver).
Qed.
End axes.

Definition sample_options : list (string * js xq) :=
  [("xaxis", Obj [("noTicks", number (XFin 3)); ("min", number (XFin 0)); ("position", text "top")]);
   ("yaxes", Arr [Obj [("position", text "right")]; Obj [("min", number (XFin 5)); ("ticks", number (XFin 4))]]);
   ("grid", Obj [("color", text "#999")])].

(** A test that a concrete tree of options has the usual groups. *)
Definition shapedb (o : js xq) : bool :=
  match o with Obj _ => true | _ => false end &&
  forallb (λ k, match get k o with Obj _ => true | _ => false end) groups &&
  forallb (λ k, match get k o with Arr _ => true | _ => false end) ["xaxes"; "yaxes"].

Lemma shapedb_shaped o : shapedb o = true → shaped o.
Proof.
  unfold shapedb. rewrite !andb_true_iff, !forallb_forall. intros [[HO HG] HA]. split.
  - destruct o; try done. by eexists.
  - intros k Hk%list_elem_of_In%HG. destruct (get k o); try done. by eexists.
  - intros k Hk%list_elem_of_In%HA. destruct (get k o); try done. by eexists.
Qed.

Definition nodupb (o : js xq) : bool := match o with Obj kvs => bool_decide (NoDup (map fst kvs)) | _ => true end.

Lemma nodupb_nodup o : nodupb o = true → keys_nodup o.
Proof. destruct o; [done|done|]. apply bool_decide_eq_true_1. Qed.

Lemma parseOptions_axes_witness :
  let _ := Exact.exact_text in
  let M := extend (su_options setup0) (Obj sample_options) in
  ∃ su', parseOptions (λ _, 0) (λ _, Ok) (Obj sample_options) setup0 =
           executeHooks (λ _, Ok) (hooks_of "processOptions" su') su' ∧
    axes_given M "xaxis" "xaxes" DirX (su_options su') (su_xaxes su') ∧
    axes_given M "yaxis" "yaxes" DirY (su_options su') (su_yaxes su').
Proof.
  intros text M. subst M. apply (parseOptions_axes (λ _, 0) (λ _, Ok) (Obj sample_options) setup0).
  - apply shapedb_shaped. vm_compute. reflexivity.
  - apply nodupb_nodup. vm_compute. reflexivity.
  - apply nodupb_nodup. vm_compute. reflexivity.
  - vm_compute. reflexivity.
  - vm_compute. reflexivity.
  - reflexivity.
  - reflexivity.
Defined.

(** The first horizontal axis gets its place, and no ticks. *)
Example sample_first_axis :
  let _ := Exact.exact_text in
  match parseOptions (λ _, 0) (λ _, Ok) (Obj sample_options) setup0 with
  | Ok su' => let ax := get_index 0 (get "xaxes" (su_options su')) in
              (get "position" ax, get "ticks" ax, get "ticks" (get "xaxis" (su_options su')))
  | _ => (undef, undef, undef)
  end = (text "top", null, number (XFin 3)).
Proof. vm_compute. reflexivity. Qed.
