(* ===== verification/FlotSeriesSpec.v ===== *)
(** What the series of a plot become: the data they are given, and the colors
    and axes that are filled in. *)

From Stdlib Require Import QArith.
From stdpp Require Import sets.
From S2P Require Import Prelude Numbers ExactNum JsText JsValue JsObject Color FlotModel FlotOptions FlotOptionsSpec.

#[local] Open Scope nat_scope.

(** ** Reading the data *)

Section data.
Context {num : Type} `{Num num} `{NumText num}.
Implicit Types (kvs : list (string * js num)).

Lemma find_key_filter k k' kvs : find_key k (filter (λ p, p.1 ≠ k') kvs) = if String.eqb k k' then None else find_key k kvs.
Proof.
  induction kvs as [|[k0 v0] kvs IH]; [by destruct (String.eqb k k')|]. rewrite filter_cons. cbn [fst find_key].
  destruct (decide (k0 ≠ k')) as [Hn|Hn%dec_stable]; cbn [find_key]; rewrite IH.
  - destruct (String.eqb_spec k k') as [-> |]; [|done]. by destruct (String.eqb_spec k' k0).
  - subst. by destruct (String.eqb k k').
Qed.

Lemma filter_nodup k kvs : NoDup (map fst kvs) → NoDup (map fst (filter (λ p, p.1 ≠ k) kvs)).
Proof.
  induction kvs as [|[k0 v0] kvs IH]; [done|]. cbn [map fst]. intros [H1 H2]%NoDup_cons. rewrite filter_cons.
  destruct (decide _); [|by apply IH]. cbn [map fst]. apply NoDup_cons. split; [|by apply IH].
  intros ([k1 v1] & -> & [_ Hin]%list_elem_of_filter)%list_elem_of_fmap. apply H1.
  apply list_elem_of_fmap. by exists (k1, v1).
Qed.

(** Reading one element of the data: its data is shared with the series,
    every other property of the series is the one given, merged into the
    default of the options, and the element itself ends up as it was. *)
Theorem parse_item_data (opts : js num) sdef kvs data :
  get "series" opts = Obj sdef → NoDup (map fst sdef) → NoDup (map fst kvs) →
  get "data" (Obj kvs) = data → nullish data = false →
  ∃ s d, parse_item opts (Obj kvs) = Ok (s, d) ∧ get "data" s = data ∧ (∀ k, get k d = get k (Obj kvs)) ∧
    ∀ k, k ≠ "data" → get k s = merged (merged undef (get k (Obj sdef))) (get k (Obj kvs)).
Proof.
  intros Es HNs HN Ed Hd. unfold parse_item. rewrite Es. cbn [field nullish mbind result_bind]. rewrite Ed, Hd.
  destruct (extend_is_obj sdef []) as [e He]. rewrite He. cbn [put delete_key].
  set (rest := filter _ kvs). destruct (extend_is_obj rest (set_key "data" data e)) as [s Hs].
  assert (HNr : NoDup (map fst rest)) by (by apply filter_nodup).
  assert (Hget : ∀ k, get k (Obj s) = merged (get k (Obj (set_key "data" data e))) (get k (Obj rest))).
  { intros k. rewrite <- Hs. by apply get_extend. }
  assert (Hrest : ∀ k, get k (Obj rest) = if String.eqb k "data" then undef else get k (Obj kvs)).
  { intros k. cbn [get]. unfold rest. rewrite find_key_filter. by destruct (String.eqb k "data"). }
  assert (Hdata : get "data" (Obj s) = data).
  { rewrite Hget, Hrest. change (merged (get "data" (put "data" data (Obj e))) undef = data).
    rewrite get_put. cbn [String.eqb]. done. }
  rewrite Hs. eexists _, _. split; [done|]. split; [done|]. split.
  - intros k. rewrite Hdata. change (get k (put "data" data (Obj rest)) = get k (Obj kvs)). rewrite get_put, Hrest.
    by destruct (String.eqb_spec k "data") as [-> |].
  - intros k Hk. rewrite Hget, Hrest. destruct (String.eqb_spec k "data"); [done|].
    change (get k (Obj (set_key "data" data e))) with (get k (put "data" data (Obj e))). rewrite get_put.
    destruct (String.eqb_spec k "data"); [done|]. rewrite <- He. by rewrite get_extend.
Qed.
End data.

(** ** The theme *)

(** The colors that the user gives replace the first of the default theme
    and leave the rest of it in place. *)
Lemma theme_keeps_defaults {num} `{Num num} `{NumText num} (opts : list (string * js num)) l :
  NoDup (map fst opts) → get "colors" (Obj opts) = Arr l → Forall (λ x, ∃ v, x = Prim v ∧ v ≠ Undef) l →
  get "colors" (extend default_options (Obj opts)) =
    Arr (l ++ drop (length l) (map text ["#edc240"; "#afd8f8"; "#cb4b4b"; "#4da74d"; "#9440ed"])).
Proof.
  intros HN E HF. unfold default_options. rewrite get_extend, E by done. by apply extend_elements.
Qed.

(** ** Colors *)

Section colors.
Context `{NumText xq}.
Implicit Types (l ss : list (js xq)) (s : js xq).
Local Open Scope nat_scope.

(** The [k]-th color that a theme gives: round and round, varied each time. *)
Definition palette l (k : nat) : color xq := theme_color (Arr l) (k `mod` length l) (k / length l).

Lemma theme_next_pos l k : l ≠ [] →
  theme_next (Arr l) (k `mod` length l) (k / length l) = (S k `mod` length l, S k / length l).
Proof.
  intros Hl. assert (Hn : length l ≠ 0) by (by destruct l). unfold theme_next. cbn [length_of].
  set (n := length l) in *. pose proof (Nat.div_mod k n Hn) as Ek. pose proof (Nat.mod_upper_bound k n Hn).
  destruct (Nat.leb_spec n (S (k mod n))).
  - rewrite (Nat.div_unique (S k) n (S (k / n)) 0), (Nat.mod_unique (S k) n (S (k / n)) 0); [done|lia|nia|lia|nia].
  - rewrite (Nat.div_unique (S k) n (k / n) (S (k mod n))), (Nat.mod_unique (S k) n (k / n) (S (k mod n)));
      [done|lia|nia|lia|nia].
Qed.

Lemma nat_num_lt m n : (nat_num m <? nat_num n)%num = (m <? n)%nat.
Proof.
  apply eq_iff_eq_true. unfold nat_num. change (of_Z (Z.of_nat m)) with (XFin (inject_Z (Z.of_nat m))).
  change (of_Z (Z.of_nat n)) with (XFin (inject_Z (Z.of_nat n))). rewrite Exact.ltb_fin, <- Zlt_Qlt, Nat.ltb_lt. lia.
Qed.

Lemma produce_palette l m fuel k : l ≠ [] → k <= m → m <= fuel + k →
  produce_colors fuel (Arr l) (nat_num m) (k `mod` length l) (k / length l) (map (palette l) (seq 0 k))
  = Ok (map (palette l) (seq 0 m)).
Proof.
  intros Hl. revert k. induction fuel as [|fuel IH]; intros k Hk Hf; cbn [produce_colors];
    rewrite length_map, length_seq; change (of_Z (Z.of_nat k)) with (nat_num k); rewrite nat_num_lt;
    destruct (Nat.ltb_spec k m).
  - lia.
  - by replace m with k by lia.
  - rewrite theme_next_pos by done.
    change (map (palette l) (seq 0 k) ++ [theme_color (Arr l) (k `mod` length l) (k / length l)])
      with (map (palette l) (seq 0 k) ++ map (palette l) [k]).
    replace (map (palette l) (seq 0 k) ++ map (palette l) [k]) with (map (palette l) (seq 0 (S k)))
      by (by rewrite seq_S, map_app). apply IH; lia.
  - by replace m with k by lia.
Qed.
End colors.

Section filling.
Context `{NumText xq}.
Implicit Types (l ss : list (js xq)) (s : js xq).
Local Open Scope nat_scope.

(** A color that can be filled in: a number of a color, or no number. *)
Definition color_index s : option nat :=
  match get "color" s with Prim (Number x) => element_index x | _ => None end.
Definition color_ok s : Prop := match get "color" s with Prim (Number x) => ∃ n, x = nat_num n | _ => True end.

Definition needed ss : nat := foldl (λ m s, match color_index s with Some n => max m (S n) | None => m end) (missing_colors ss) ss.

Lemma nat_num_not_nan n : nis_nan (nat_num n) = false.
Proof. apply Exact.nis_nan_fin. Qed.

Lemma nat_num_max a b : nmax (nat_num a) (nat_num b) = nat_num (max a b).
Proof.
  unfold nmax. rewrite !nat_num_not_nan, nat_num_lt. destruct (Nat.ltb_spec a b); f_equal; lia.
Qed.

Lemma nat_num_succ n : (nat_num n + ⟨1⟩)%num = nat_num (S n).
Proof.
  unfold nat_num. change (of_Z (Z.of_nat n) + ⟨1⟩)%num with (XFin ((Z.of_nat n * 1 + 1 * 1) # 1)).
  change (of_Z (Z.of_nat (S n))) with (XFin (Z.of_nat (S n) # 1)). do 2 f_equal. lia.
Qed.

Lemma color_index_ok s x : color_ok s → get "color" s = Prim (Number x) → ∃ n, color_index s = Some n ∧ x = nat_num n.
Proof. unfold color_ok, color_index. intros Hs E. rewrite E in *. destruct Hs as [n ->]. exists n. by rewrite element_nat. Qed.

Lemma color_index_none s : (∀ x, get "color" s ≠ Prim (Number x)) → color_index s = None.
Proof. unfold color_index. intros E. destruct (get "color" s) as [[]| |]; try done. by destruct (E x). Qed.

Lemma neededColors_fold ss m : Forall color_ok ss →
  foldl (λ needed x, nmax needed (x + ⟨1⟩)%num) (nat_num m) (assigned_colors ss)
  = nat_num (foldl (λ m s, match color_index s with Some n => max m (S n) | None => m end) m ss).
Proof.
  intros HF. revert m. induction HF as [|s ss Hs HF IH]; intros m; [done|]. unfold assigned_colors. cbn [omap list_omap foldl].
  fold (assigned_colors ss). unfold color_ok in Hs. unfold color_index at 2.
  destruct (get "color" s) as [[| |x| | |]| |]; cbn [foldl]; try apply IH.
  destruct Hs as [n ->]. rewrite element_nat, nat_num_succ, nat_num_max. apply IH.
Qed.

Lemma neededColors_nat ss : Forall color_ok ss → neededColors ss = nat_num (needed ss).
Proof. apply neededColors_fold. Qed.

Lemma generate_palette l ss : l ≠ [] → Forall color_ok ss →
  generate_colors (Arr l) ss = Ok (map (palette l) (seq 0 (needed ss))).
Proof.
  intros Hl HF. unfold generate_colors. cbn [nullish andb]. rewrite neededColors_nat by done.
  assert (Ef : color_fuel (nat_num (needed ss)) = S (needed ss)).
  { unfold color_fuel, nat_num. change (to_integer (of_Z (Z.of_nat (needed ss)))) with (Some (Z.quot (Z.of_nat (needed ss)) 1)).
    by rewrite Z.quot_1_r, Nat2Z.id. }
  rewrite Ef. pose proof (produce_palette l (needed ss) (S (needed ss)) 0 Hl ltac:(lia) ltac:(lia)) as P.
  by rewrite Nat.Div0.mod_0_l, Nat.Div0.div_0_l in P.
Qed.

(** Every color that is asked for is among them. *)
Lemma needed_from ss m : 
  m <= foldl (λ m s, match color_index s with Some n => max m (S n) | None => m end) m ss ∧
  Forall (λ s, ∀ n, color_index s = Some n → n < foldl (λ m s, match color_index s with Some n => max m (S n) | None => m end) m ss) ss.
Proof.
  revert m. induction ss as [|s ss IH]; intros m; [by split|]. cbn [foldl].
  destruct (IH (match color_index s with Some n => max m (S n) | None => m end)) as [H1 H2].
  destruct (color_index s) as [n|] eqn:E; (split; [lia|]); (constructor; [|done]); intros n' E'; [|congruence].
  assert (n' = n) as -> by congruence. lia.
Qed.

(** ** The axes *)

(** The axis of a number, and axes that only grow. *)
Definition axis_at (axs : axis_array xq) (n : xq) : option (axis_obj xq) :=
  match element_index (n - ⟨1⟩)%num with
  | Some i => mjoin (elements axs !! i)
  | None => Color.assoc (other_key n) (others axs)
  end.
Definition grown (axs axs' : axis_array xq) : Prop :=
  (∀ i ax, elements axs !! i = Some (Some ax) → elements axs' !! i = Some (Some ax)) ∧
  (∀ k ax, Color.assoc k (others axs) = Some ax → Color.assoc k (others axs') = Some ax).

Lemma set_axis_get i (ax : axis_obj xq) (l : list (option (axis_obj xq))) : set_axis i ax l !! i = Some (Some ax).
Proof. revert l. induction i as [|i IH]; intros [|x l]; simpl; [done|done|apply IH..]. Qed.

Lemma set_axis_other i j (ax ax' : axis_obj xq) (l : list (option (axis_obj xq))) : i ≠ j → l !! j = Some (Some ax') → set_axis i ax l !! j = Some (Some ax').
Proof.
  revert j l. induction i as [|i IH]; intros [|j] [|x l] Hij E; simpl in *; try done. by apply IH; [lia|].
Qed.

Lemma assoc_app {A} k k' (v : A) (l : list (string * A)) : Color.assoc k (l ++ [(k', v)]) =
  match Color.assoc k l with Some v' => Some v' | None => if String.eqb k k' then Some v else None end.
Proof. induction l as [|[k0 v0] l IH]; simpl; [done|]. by destruct (String.eqb k k0). Qed.

Lemma getOrCreateAxis_spec dir base axs n :
  let r := getOrCreateAxis dir base axs n in axis_at r.1 n = Some r.2 ∧ grown axs r.1.
Proof.
  cbv zeta. unfold getOrCreateAxis, axis_at. destruct (element_index _) as [i|] eqn:Ei.
  - destruct (mjoin (elements axs !! i)) as [ax|] eqn:Ea; cbn [fst snd elements others]; [by split|].
    rewrite set_axis_get. split; [done|]. split; [|done]. intros j ax E. destruct (decide (i = j)) as [-> |].
    + by rewrite E in Ea.
    + by apply set_axis_other.
  - destruct (Color.assoc (other_key n) (others axs)) as [ax|] eqn:Ea; cbn [fst snd elements others]; [by split|].
    rewrite assoc_app, Ea, String.eqb_refl. split; [done|]. split; [done|]. intros k ax E. cbn [others]. by rewrite assoc_app, E.
Qed.

Lemma grown_trans a b c : grown a b → grown b c → grown a c.
Proof. intros [A1 A2] [B1 B2]. split; auto. Qed.

Lemma grown_at a b n ax : grown a b → axis_at a n = Some ax → axis_at b n = Some ax.
Proof.
  intros [A1 A2]. unfold axis_at. destruct (element_index _) as [i|]; [|apply A2].
  destruct (elements a !! i) as [[ax'|]|] eqn:E; cbn [mjoin option_join]; try done. intros [= ->]. by rewrite (A1 _ _ E).
Qed.

(** ** The series *)

(** A series as [parseData] makes it from the usual data. *)
Definition series_ok s : Prop :=
  (∃ kvs, s = Obj kvs) ∧ color_ok s ∧ (∃ b, get "lines" s = Obj b) ∧
  get "xaxis" s ≠ Prim Null ∧ get "yaxis" s ≠ Prim Null.

(** The color a series ends up with, when [k] of those before have none. *)
Definition color_given l (k : nat) s : js xq :=
  match get "color" s with
  | Prim (Undef | Null) => text (Color.toString (palette l k))
  | Prim (Number _) => text (Color.toString (palette l (default 0 (color_index s))))
  | c => c
  end.

Lemma palette_lookup l m k : k < m → map (palette l) (seq 0 m) !! k = Some (palette l k).
Proof. intros Hk. apply list_lookup_fmap_Some. exists k. split; [done|]. by apply lookup_seq. Qed.

Lemma color_series_spec l m k s : series_ok s →
  (nullish (get "color" s) = true → k < m) → (∀ n, color_index s = Some n → n < m) →
  ∃ s', color_series (map (palette l) (seq 0 m)) k s = Ok (s', if nullish (get "color" s) then S k else k) ∧
    (∃ kvs, s' = Obj kvs) ∧ get "color" s' = color_given l k s ∧ (∀ j, j ≠ "color" → get j s' = get j s).
Proof.
  intros ([kvs Es] & Hc & _) Hk Hn. unfold color_series, color_given.
  assert (Hput : ∀ v, ∃ s', put "color" v s = s' ∧ (∃ kvs, s' = Obj kvs) ∧ get "color" s' = v ∧
    (∀ j, j ≠ "color" → get j s' = get j s)).
  { intros v. eexists. split; [done|]. split; [by apply put_is_obj; exists kvs|].
    split; [apply get_put_same; by exists kvs|]. intros j Hj. by apply get_put_other. }
  destruct (get "color" s) as [[| |x|t|b|r]|c|c] eqn:E; cbn [nullish is_null] in *;
    try (exists s; split; [done|]; split; [by exists kvs|]; by split).
  - rewrite palette_lookup by by apply Hk. destruct (Hput (text (Color.toString (palette l k)))) as (s' & -> & Hs'). by exists s'.
  - rewrite palette_lookup by by apply Hk. destruct (Hput (text (Color.toString (palette l k)))) as (s' & -> & Hs'). by exists s'.
  - destruct (color_index_ok s x Hc E) as (n & En & ->). unfold nth_color. rewrite element_nat. cbn [mbind option_bind].
    rewrite palette_lookup by by apply Hn. rewrite En. cbn [default].
    destruct (Hput (text (Color.toString (palette l n)))) as (s' & -> & Hs'). by exists s'.
Qed.

Lemma show_lines_spec s b : (∃ kvs, s = Obj kvs) → get "lines" s = Obj b →
  ∃ s', show_lines s = Ok s' ∧ ∀ j, j ≠ "lines" → get j s' = get j s.
Proof.
  intros Hs Hb. unfold show_lines. cbn [read]. rewrite field_obj by done. cbn [mbind result_bind].
  rewrite Hb. cbn [field nullish mbind result_bind]. split_if; [|by exists s].
  cbn [assign]. rewrite field_obj by done. cbn [mbind result_bind]. rewrite Hb. cbn [field nullish mbind result_bind assign].
  eexists. split; [done|]. intros j Hj. by apply get_put_other.
Qed.

Lemma axisNumber_ok s coord : get (coord +:+ "axis") s ≠ Prim Null → ∃ n, axisNumber s coord = Ok n.
Proof. intros Hs. unfold axisNumber. destruct (get _ s) as [[]|l|kvs]; try done; by eexists. Qed.

(** What is filled into a series, when [k] of those before it have no color. *)
Definition filled_as l (k : nat) s (f : filled (num := xq)) (xs ys : axis_array xq) : Prop :=
  get "color" (f_series f) = color_given l k s ∧
  (∃ ax, axis_at xs (f_xaxis f) = Some ax) ∧ (∃ ax, axis_at ys (f_yaxis f) = Some ax).

Lemma fill_series_spec opts l m k s xs ys : series_ok s →
  (nullish (get "color" s) = true → k < m) → (∀ n, color_index s = Some n → n < m) →
  ∃ f xs' ys', fill_series opts (map (palette l) (seq 0 m)) (k, (xs, ys)) s
      = Ok (f, (if nullish (get "color" s) then S k else k, (xs', ys'))) ∧
    grown xs xs' ∧ grown ys ys' ∧ filled_as l k s f xs' ys'.
Proof.
  intros Hs Hk Hn. destruct (color_series_spec l m k s Hs Hk Hn) as (s1 & E1 & Ho1 & Hc1 & Hg1).
  destruct Hs as (_ & _ & [b Hb] & Hx & Hy). rewrite <- Hg1 in Hb by done.
  destruct (show_lines_spec s1 b Ho1 Hb) as (s2 & E2 & Hg2).
  rewrite <- Hg1, <- Hg2 in Hx, Hy by done.
  destruct (axisNumber_ok s2 "x" Hx) as [nx Ex]. destruct (axisNumber_ok s2 "y" Hy) as [ny Ey].
  unfold fill_series. rewrite E1. cbn [mbind result_bind]. rewrite E2. cbn [mbind result_bind].
  rewrite Ex. cbn [mbind result_bind].
  pose proof (getOrCreateAxis_spec DirX (get "xaxis" opts) xs nx) as [Ax Gx].
  destruct (getOrCreateAxis DirX (get "xaxis" opts) xs nx) as [xs' ax]. rewrite Ey. cbn [mbind result_bind].
  pose proof (getOrCreateAxis_spec DirY (get "yaxis" opts) ys ny) as [Ay Gy].
  destruct (getOrCreateAxis DirY (get "yaxis" opts) ys ny) as [ys' ay].
  exists (Filled s2 nx ny), xs', ys'. split; [done|]. split; [done|]. split; [done|].
  split; [by cbn [f_series]; rewrite Hg2|]. split; by eexists.
Qed.

Lemma filled_grown l k s f xs ys xs' ys' : grown xs xs' → grown ys ys' → filled_as l k s f xs ys → filled_as l k s f xs' ys'.
Proof.
  intros Gx Gy (Hc & [ax Hx] & [ay Hy]). split; [done|].
  split; eexists; [by apply (grown_at xs)|by apply (grown_at ys)].
Qed.

Lemma missing_cons s ss : missing_colors (s :: ss) = (if nullish (get "color" s) then 1 else 0) + missing_colors ss.
Proof. unfold missing_colors. rewrite filter_cons. destruct (nullish (get "color" s)); by case_decide. Qed.

Lemma fill_all_spec opts l m ss k xs ys : Forall series_ok ss → k + missing_colors ss <= m →
  Forall (λ s, ∀ n, color_index s = Some n → n < m) ss →
  ∃ fs xs' ys', fill_all opts (map (palette l) (seq 0 m)) (k, (xs, ys)) ss = Ok (fs, (xs', ys')) ∧
    length fs = length ss ∧ grown xs xs' ∧ grown ys ys' ∧
    ∀ i s f, ss !! i = Some s → fs !! i = Some f → filled_as l (k + missing_colors (take i ss)) s f xs' ys'.
Proof.
  intros HF. revert k xs ys. induction HF as [|s ss Hs HF IH]; intros k xs ys Hm HN.
  { by exists [], xs, ys. }
  apply Forall_cons in HN as [Hn HN]. rewrite missing_cons in Hm.
  destruct (fill_series_spec opts l m k s xs ys Hs) as (f & xs1 & ys1 & E1 & Gx1 & Gy1 & F1); [|done|].
  { intros E. rewrite E in Hm. lia. }
  destruct (IH (if nullish (get "color" s) then S k else k) xs1 ys1) as (fs & xs2 & ys2 & E2 & Hl & Gx2 & Gy2 & F2); [|done|].
  { destruct (nullish (get "color" s)); lia. }
  cbn [fill_all]. rewrite E1. cbn [mbind result_bind]. rewrite E2. cbn [mbind result_bind].
  exists (f :: fs), xs2, ys2. split; [done|]. split; [cbn [length]; by rewrite Hl|].
  split; [by apply (grown_trans xs xs1)|]. split; [by apply (grown_trans ys ys1)|].
  intros [|i] s' f' Es Ef; cbn [lookup list_lookup] in Es, Ef.
  - injection Es as <-. injection Ef as <-. rewrite Nat.add_0_r. by apply (filled_grown _ _ _ _ xs1 ys1).
  - rewrite firstn_cons, missing_cons. specialize (F2 i s' f' Es Ef).
    replace (k + _) with ((if nullish (get "color" s) then S k else k) + missing_colors (take i ss)); [done|].
    destruct (nullish (get "color" s)); lia.
Qed.

(** C6: filling in the series: for the usual series and a theme that is not
    empty, exactly the colors that are needed are generated, the theme taken
    round and round and varied each time; the series without a color get the
    first of them in order, a series with the number of a color gets that one,
    and a color that is a text stays.  Every series has its axes, and the axes
    there were are kept. *)
Theorem fillInSeriesOptions_colors (opts : js xq) l ss xs ys :
  get "colors" opts = Arr l → l ≠ [] → Forall series_ok ss →
  ∃ fs xs' ys', fillInSeriesOptions opts (xs, ys) ss = Ok (fs, (xs', ys')) ∧
    generate_colors (Arr l) ss = Ok (map (palette l) (seq 0 (needed ss))) ∧
    length fs = length ss ∧ grown xs xs' ∧ grown ys ys' ∧
    ∀ i s f, ss !! i = Some s → fs !! i = Some f → filled_as l (missing_colors (take i ss)) s f xs' ys'.
Proof.
  intros El Hl HF. assert (HC : Forall color_ok ss) by (eapply Forall_impl; [exact HF|]; by intros s (_ & Hs & _)).
  pose proof (generate_palette l ss Hl HC) as EG. destruct (needed_from ss (missing_colors ss)) as [Hm HN].
  destruct (fill_all_spec opts l (needed ss) ss 0 xs ys HF Hm HN) as (fs & xs' & ys' & E & Hlen & Gx & Gy & F).
  exists fs, xs', ys'. unfold fillInSeriesOptions. rewrite El, EG. cbn [mbind result_bind]. by rewrite E.
Qed.
End filling.

(** ** Examples *)

(** Three series on two axes: one without a color, one with the sixth, one red. *)
Definition sample_series : list (js xq) :=
  [Obj [("lines", Obj []); ("data", Prim (Ref 1))];
   Obj [("lines", Obj []); ("color", number (XFin 5)); ("yaxis", number (XFin 2))];
   Obj [("lines", Obj []); ("color", text "red")]].

Definition sample_theme : js xq := Obj [("colors", Arr [text "#edc240"; text "#afd8f8"])].

Lemma sample_series_ok : Forall series_ok sample_series.
Proof.
  repeat constructor; try (by eexists); try done; unfold color_ok; cbn; try done. by exists 5%nat.
Qed.

Lemma fillInSeriesOptions_colors_witness :
  let _ := Exact.exact_text in
  let none := AxisArray (num := xq) [] [] in
  ∃ fs xs' ys', fillInSeriesOptions sample_theme (none, none) sample_series = Ok (fs, (xs', ys')) ∧
    generate_colors (Arr [text "#edc240"; text "#afd8f8"]) sample_series =
      Ok (map (palette [text "#edc240"; text "#afd8f8"]) (seq 0 (needed sample_series))) ∧
    length fs = 3%nat ∧ grown none xs' ∧ grown none ys' ∧
    ∀ i s f, sample_series !! i = Some s → fs !! i = Some f →
      filled_as [text "#edc240"; text "#afd8f8"] (missing_colors (take i sample_series)) s f xs' ys'.
Proof.
  intros text none.
  by apply (fillInSeriesOptions_colors sample_theme [FlotOptions.text "#edc240"; FlotOptions.text "#afd8f8"]
    sample_series none none); [|done|apply sample_series_ok].
Defined.

Lemma parse_item_data_witness :
  let opts := Obj [("series", Obj [("lines", Obj [("fill", bool_ (num := xq) false)]); ("shadowSize", number (XFin 3))])] in
  let item := [("label", text "load"); ("data", Prim (Ref 1)); ("lines", Obj [("show", bool_ true)])] in
  ∃ s d, parse_item opts (Obj item) = Ok (s, d) ∧ get "data" s = Prim (Ref 1) ∧ (∀ k, get k d = get k (Obj item)) ∧
    ∀ k, k ≠ "data" → get k s = merged (merged undef (get k (get "series" opts))) (get k (Obj item)).
Proof.
  intros opts item.
  apply (parse_item_data opts [("lines", Obj [("fill", bool_ false)]); ("shadowSize", number (XFin 3))] item (Prim (Ref 1)));
    [done|by apply (bool_decide_unpack _)|by apply (bool_decide_unpack _)|done|done].
Defined.
