(* ===== verification/FlotData.v ===== *)
(** Data processing in [static/flot/jquery.flot.js] ([processData]): the raw
    points of each series are copied, by their format, in a flat array of
    groups; missing values turn a group to nulls, steps are inserted, the data
    plugins run, and the range of the data is recorded on the axes. *)

From S2P Require Import Prelude Numbers Float64 JsText JsValue FlotModel.

(** ** Definitions *)

Section data.
Context {num : Type} `{Num num} `{NumText num}.
Implicit Types (s : series num) (f : format_entry num) (v : jsv num).
Implicit Types (points : list (jsv num)) (d : axis_data num).

Definition fakeInfinity : num := nmax_value.

Definition updateAxis d (min max : jsv num) : axis_data num :=
  let d :=
    if js_ltb min (datamin d) && negb (loose_eq min (Number (nneg fakeInfinity)))
    then AxisData min (datamax d) (used d) else d in
  if js_ltb (datamax d) max && negb (loose_eq max (Number fakeInfinity))
  then AxisData (datamin d) max (used d) else d.

Definition no_data : axis_data num := AxisData (Number ninf) (Number nninf) false.
Definition init_axes (axs : axes num) : axes num := map (fmap (λ ax, with_data ax no_data)) axs.

(** [axis.datamin], ..., of axis [n]. *)
Definition data_of (axs : axes num) (n : nat) : axis_data num :=
  default no_data (ax_data <$> get_axis axs n).
Definition set_data (axs : axes num) (n : nat) d : axes num :=
  update_axis axs n (λ ax, with_data ax d).

(** Truthiness of a [fill] option. *)
Definition fills (o : fill_option num) : bool :=
  match o with FillOff => false | FillOn => true | FillOpacity x => ntruthy x end.

(** The format of a series to which no plugin gave one. *)
Definition default_format s : list (format_entry num) :=
  [FormatEntry true false true true None; FormatEntry false true true true None] ++
  if bars_show (s_bars s) || lines_show (s_lines s) && fills (lines_fill (s_lines s)) then
    if bars_horizontal (s_bars s)
    then [FormatEntry true false true false (Some (of_Z 0))]
    else [FormatEntry false true true false (Some (of_Z 0))]
  else [].

(** Conversion to a number. *)
Definition convert f v : jsv num :=
  if f_number f && negb (is_null v) then
    let x := to_num v in
    if nis_nan x then Null
    else if neqb x ninf then Number fakeInfinity
    else if neqb x nninf then Number (nneg fakeInfinity)
    else Number x
  else v.

(** The value stored for a component and whether it nullifies the point. *)
Definition clean_value f v : jsv num * bool :=
  let v := convert f v in
  if is_null v then (match f_default f with Some x => Number x | None => v end, f_required f)
  else (v, false).

(** The copy of the components of a point at index [k]. *)
Fixpoint copy_point (format : list (format_entry num)) (p points : list (jsv num)) (k m : nat)
    (nullify : bool) : list (jsv num) * bool :=
  match format with
  | [] => (points, nullify)
  | f :: format =>
      let '(v, missing) := clean_value f (aget p (Z.of_nat m)) in
      copy_point format p (aset points (k + m) v) k (S m) (nullify || missing)
  end.

(** The point at index [k] turned to nulls, after the axes of the series
    have taken its values into account. *)
Fixpoint nullify_point (format : list (format_entry num)) points (k m : nat)
    (xd yd : axis_data num) : list (jsv num) * axis_data num * axis_data num :=
  match format with
  | [] => (points, xd, yd)
  | f :: format =>
      let v := aget points (Z.of_nat (k + m)) in
      let xd := if negb (is_null v) && f_x f then updateAxis xd v v else xd in
      let yd := if negb (is_null v) && f_y f then updateAxis yd v v else yd in
      nullify_point format (aset points (k + m) Null) k (S m) xd yd
  end.

(** The middle point of a step: the point at [k] moves up, and its place
    takes the y value of the previous point. *)
Definition insert_step points (k ps : nat) : list (jsv num) * nat :=
  let at_ i := aget points (Z.of_nat i) in
  if (0 <? k) && negb (is_null (at_ (k - ps)))
     && negb (loose_eq (at_ (k - ps)) (at_ k))
     && negb (loose_eq (at_ (k - ps + 1)) (at_ (k + 1)))
  then
    let points := foldl (λ pts m, aset pts (k + ps + m) (aget pts (Z.of_nat (k + m)))) points
                    (seq 0 ps) in
    (aset points (k + 1) (aget points (Z.of_nat (k - ps + 1))), k + ps)
  else (points, k).

(** The loop over the raw data of a series. *)
Fixpoint copy_data (format : list (format_entry num)) (insertSteps : bool)
    (data : list (raw_point num)) points (k : nat) (xd yd : axis_data num)
    : list (jsv num) * axis_data num * axis_data num :=
  let ps := length format in
  match data with
  | [] => (points, xd, yd)
  | p :: data =>
      let '(points, nullify) :=
        match p with
        | None => (points, true)
        | Some p => copy_point format p points k 0 false
        end in
      if nullify then
        let '(points, xd, yd) := nullify_point format points k 0 xd yd in
        copy_data format insertSteps data points (k + ps) xd yd
      else
        let '(points, k) := if insertSteps then insert_step points k ps else (points, k) in
        copy_data format insertSteps data points (k + ps) xd yd
  end.

Definition format_of s : list (format_entry num) :=
  default (default_format s) (dp_format (s_datapoints s)).

(** One turn of the first pass: the series and the axes. *)
Definition fill_points (xs ys : axes num) s : axes num * axes num * series num :=
  let format := format_of s in
  match dp_pointsize (s_datapoints s) with
  | Some ps =>
      (xs, ys, with_datapoints s (Datapoints (dp_points (s_datapoints s)) (Some ps) (Some format)))
  | None =>
      let insertSteps := lines_show (s_lines s) && lines_steps (s_lines s) in
      let use d := AxisData (datamin d) (datamax d) true in
      let '(points, xd, yd) :=
        copy_data format insertSteps (s_data s) (dp_points (s_datapoints s)) 0
          (use (data_of xs (s_xaxis s))) (use (data_of ys (s_yaxis s))) in
      (set_data xs (s_xaxis s) xd, set_data ys (s_yaxis s) yd,
       with_datapoints s (Datapoints points (Some (length format)) (Some format)))
  end.

Fixpoint first_pass (xs ys : axes num) (ss : list (series num))
    : axes num * axes num * list (series num) :=
  match ss with
  | [] => (xs, ys, [])
  | s :: ss =>
      let '(xs, ys, s) := fill_points xs ys s in
      let '(xs, ys, ss) := first_pass xs ys ss in
      (xs, ys, s :: ss)
  end.

(** The variable [format] after the first pass: that of the last series. *)
Definition last_format (ss : list (series num)) : list (format_entry num) :=
  default [] (format_of <$> last ss).

(** ** Second pass: the range of the data *)

(** [xmin] and [xmax], [ymin] and [ymax]. *)
Record extent := Extent { ext_x : jsv num * jsv num; ext_y : jsv num * jsv num }.

Definition no_range : jsv num * jsv num := (Number ninf, Number nninf).
Definition empty_extent : extent := Extent no_range no_range.

Definition widen v (r : jsv num * jsv num) : jsv num * jsv num :=
  (if js_ltb v r.1 then v else r.1, if js_ltb r.2 v then v else r.2).

Definition extend f v (e : extent) : extent :=
  Extent (if f_x f then widen v (ext_x e) else ext_x e)
         (if f_y f then widen v (ext_y e) else ext_y e).

(** The components of one group. *)
Fixpoint extend_group (format : list (format_entry num)) (g : list (jsv num)) (e : extent) : extent :=
  match g, format with
  | v :: g, f :: format =>
      extend_group format g
        (if loose_eq v (Number fakeInfinity) || loose_eq v (Number (nneg fakeInfinity))
         then e else extend f v e)
  | _, _ => e
  end.

(** The loop over the groups of a series (the point size is positive). *)
Definition series_extent (format : list (format_entry num)) s : extent :=
  foldl (λ e g, if is_null (aget g 0) then e else extend_group format g e) empty_extent
    (chunk (pointsize s) (dp_points (s_datapoints s))).

(** Room for the bars. *)
Definition bar_room s (e : extent) : extent :=
  let b := s_bars s in
  if bars_show b then
    let delta := if String.eqb (bars_align b) "left" then of_Z 0
                 else (- bars_barWidth b / ⟨2⟩)%num in
    let high := Number (delta + bars_barWidth b)%num in
    let shift r := (js_add r.1 (Number delta), js_add r.2 high) in
    if bars_horizontal b then Extent (ext_x e) (shift (ext_y e))
    else Extent (shift (ext_x e)) (ext_y e)
  else e.

Definition range_series (format : list (format_entry num)) (a : axes num * axes num) s
    : axes num * axes num :=
  let e := bar_room s (series_extent format s) in
  let '(xs, ys) := a in
  (set_data xs (s_xaxis s) (updateAxis (data_of xs (s_xaxis s)) (ext_x e).1 (ext_x e).2),
   set_data ys (s_yaxis s) (updateAxis (data_of ys (s_yaxis s)) (ext_y e).1 (ext_y e).2)).

Definition second_pass (format : list (format_entry num)) (a : axes num * axes num)
    (ss : list (series num)) : axes num * axes num :=
  foldl (range_series format) a ss.

(** The sentries that no data replaced become null. *)
Definition close_data d : axis_data num :=
  AxisData (if loose_eq (datamin d) (Number ninf) then Null else datamin d)
           (if loose_eq (datamax d) (Number nninf) then Null else datamax d) (used d).
Definition close_axes (axs : axes num) : axes num :=
  map (fmap (λ ax, with_data ax (close_data (ax_data ax)))) axs.

(** ** Hooks *)

(** A data hook: it receives all the series and the index of the one to
    process, may change any of them or add series at the end, and may throw. *)
Definition hook : Type := list (series num) → nat → result (list (series num)).

Fixpoint executeHooks (hs : list hook) (ss : list (series num)) (i : nat)
    : result (list (series num)) :=
  match hs with
  | [] => Ok ss
  | h :: hs => ss ← h ss i; executeHooks hs ss i
  end.

(** The loop over the series; its bound grows with the series added, so it
    takes fuel. *)
Fixpoint run_hooks (fuel i : nat) (hs : list hook) (ss : list (series num))
    : result (list (series num)) :=
  if i <? length ss then
    match fuel with
    | O => NoFuel
    | S fuel => ss ← executeHooks hs ss i; run_hooks fuel (S i) hs ss
    end
  else Ok ss.

Fixpoint reset_points (fuel i : nat) (hs : list hook) (ss : list (series num))
    : result (list (series num)) :=
  if i <? length ss then
    match fuel with
    | O => NoFuel
    | S fuel =>
        ss ← executeHooks hs (alter (λ s, with_datapoints s (Datapoints [] None None)) i ss) i;
        reset_points fuel (S i) hs ss
    end
  else Ok ss.

Definition processData (fuel : nat) (processRawData processDatapoints : list hook) (p : plot num)
    : result (plot num) :=
  let xs := init_axes (p_xaxes p) in
  let ys := init_axes (p_yaxes p) in
  ss ← reset_points fuel 0 processRawData (p_series p);
  let format := last_format ss in
  let '(xs, ys, ss) := first_pass xs ys ss in
  ss ← run_hooks fuel 0 processDatapoints ss;
  let '(xs, ys) := second_pass format (xs, ys) ss in
  Ok (Plot ss (close_axes xs) (close_axes ys)).
End data.
Arguments hook : clear implicits.
Arguments extent : clear implicits.
