(* ===== verification/FlotDataSpec.v ===== *)
(** What [processData] leaves in the arrays of points: the groups of a
    reference definition, clean values, steps without slanted lines. *)

From S2P Require Import Prelude Numbers Float64 JsText JsValue FlotModel FlotData.

(** ** Reference definition of the first pass *)

Section reference.
Context {num : Type} `{Num num} `{NumText num}.
Implicit Types (f : format_entry num) (v : jsv num) (g : list (jsv num)).

Fixpoint clean_from (format : list (format_entry num)) (p : list (jsv num)) (m : nat)
    : list (jsv num) :=
  match format with
  | [] => []
  | f :: format => (clean_value f (aget p (Z.of_nat m))).1 :: clean_from format p (S m)
  end.

Fixpoint missing_from (format : list (format_entry num)) (p : list (jsv num)) (m : nat) : bool :=
  match format with
  | [] => false
  | f :: format => (clean_value f (aget p (Z.of_nat m))).2 || missing_from format p (S m)
  end.

(** The values of a raw point, unless a required one is missing. *)
Definition clean_group (format : list (format_entry num)) (r : raw_point num)
    : option (list (jsv num)) :=
  p ← r; if missing_from format p 0 then None else Some (clean_from format p 0).

(** A step is needed between two groups that differ in both coordinates. *)
Definition step_needed (prev g : list (jsv num)) : bool :=
  negb (is_null (aget prev 0)) && negb (loose_eq (aget prev 0) (aget g 0))
  && negb (loose_eq (aget prev 1) (aget g 1)).

Definition middle (prev g : list (jsv num)) : list (jsv num) := aset g 1 (aget prev 1).

Definition nulls (ps : nat) : list (jsv num) := replicate ps Null.

(** The groups of a series, with the inserted steps. *)
Fixpoint expand (ps : nat) (insertSteps : bool) (prev : list (jsv num))
    (gs : list (option (list (jsv num)))) : list (list (jsv num)) :=
  match gs with
  | [] => []
  | None :: gs => nulls ps :: expand ps insertSteps (nulls ps) gs
  | Some g :: gs =>
      (if insertSteps && step_needed prev g then [middle prev g] else []) ++
      g :: expand ps insertSteps g gs
  end.
End reference.

(** ** Lemmas: the first pass computes the reference groups *)

Section first_pass_lemmas.
Context {num : Type} `{NumLaws num} `{NumText num}.
Implicit Types (f : format_entry num) (v : jsv num) (g points : list (jsv num)).
Implicit Types (format : list (format_entry num)) (d : axis_data num).

Lemma length_clean_from format p m : length (clean_from format p m) = length format.
Proof. revert m. induction format as [|f format IH]; intros m; simpl; [done|by rewrite IH]. Qed.

Lemma copy_point_spec format p points k m nl :
  length points = k + m →
  copy_point format p points k m nl
  = (points ++ clean_from format p m, nl || missing_from format p m).
Proof.
  revert points m nl. induction format as [|f format IH]; intros points m nl Hl; simpl.
  { by rewrite app_nil_r, orb_false_r. }
  destruct (clean_value f _) as [v b] eqn:E. rewrite aset_ge by done.
  rewrite IH by (rewrite length_app; simpl; lia).
  by rewrite <- app_assoc, orb_assoc.
Qed.

Lemma nullify_point_spec format pre rest k m xd yd :
  length pre = k + m → length rest = length format ∨ rest = [] →
  (nullify_point format (pre ++ rest) k m xd yd).1.1 = pre ++ nulls (length format).
Proof.
  revert pre rest m xd yd. induction format as [|f format IH]; intros pre rest m xd yd Hp Hr.
  { destruct rest; [done|]. by destruct Hr. }
  cbn [nullify_point length]. unfold nulls. cbn [replicate].
  rewrite cons_middle, app_assoc, <- Hp.
  destruct rest as [|x rest].
  - rewrite app_nil_r, aset_ge by done. rewrite <- (app_nil_r (pre ++ [Null])).
    rewrite IH; [by rewrite app_nil_r| |by right]. rewrite length_app. simpl. lia.
  - rewrite aset_middle, cons_middle, app_assoc. apply IH.
    + rewrite length_app. simpl. lia.
    + left. destruct Hr as [[= ?]|]; done.
Qed.

(** Values that are null or numbers, and what number updates preserve. *)
Definition plain v : bool := match v with Undef | Null | Number _ => true | _ => false end.

Definition update_closed (P : axis_data num → Prop) : Prop :=
  ∀ d x, P d → P (updateAxis d (Number x) (Number x)).

Lemma clean_from_plain format p m :
  forallb f_number format = true → forallb plain (clean_from format p m) = true.
Proof.
  revert m. induction format as [|f format IH]; intros m; simpl; [done|].
  intros [Hf Hs]%andb_true_iff. rewrite IH by done. rewrite andb_true_r.
  unfold clean_value, convert. rewrite Hf. destruct (aget p _) as [| |x|t|b|i]; simpl;
    try (by destruct (f_default f)); repeat case_match; simplify_eq/=; try done; by destruct (f_default f).
Qed.

Lemma nullify_point_axes P format pre rest k m xd yd :
  update_closed P → length pre = k + m → length rest = length format ∨ rest = [] →
  forallb plain rest = true → P xd → P yd →
  P (nullify_point format (pre ++ rest) k m xd yd).1.2 ∧
  P (nullify_point format (pre ++ rest) k m xd yd).2.
Proof.
  intros HP. revert pre rest m xd yd.
  induction format as [|f format IH]; intros pre rest m xd yd Hp Hr Hpl Hx Hy; [done|].
  cbn [nullify_point]. rewrite <- Hp.
  pose proof (aget_app_r pre rest 0) as E. rewrite Nat.add_0_r in E. rewrite E.
  assert (Hu : ∀ d c, P d →
    P (if negb (is_null (aget rest (Z.of_nat 0))) && c
       then updateAxis d (aget rest (Z.of_nat 0)) (aget rest (Z.of_nat 0)) else d)).
  { intros d c Hd. destruct rest as [|v rest]; [done|]. simpl in Hpl.
    change (aget (v :: rest) (Z.of_nat 0)) with v.
    destruct v; try done; simpl; destruct c; auto. }
  destruct rest as [|v rest].
  - rewrite app_nil_r, aset_ge by done.
    specialize (IH (pre ++ [Null]) [] (S m)). rewrite app_nil_r in IH.
    apply IH; [rewrite length_app; simpl; lia|by right|done|by apply Hu..].
  - rewrite aset_middle, cons_middle, app_assoc. apply andb_true_iff in Hpl as [_ Hpl].
    apply IH; [rewrite length_app; simpl; lia| |done|by apply Hu..].
    left. destruct Hr as [[= ?]|]; done.
Qed.

Lemma copy_group_spec points g k ps n :
  length points = k → length g = ps → n ≤ ps →
  foldl (λ pts m, aset pts (k + ps + m) (aget pts (Z.of_nat (k + m)))) (points ++ g) (seq 0 n)
  = points ++ g ++ take n g.
Proof.
  intros Hk Hg Hn. induction n as [|n IH]; [by rewrite take_0, app_nil_r|].
  rewrite seq_S, foldl_app, IH by lia. simpl.
  destruct (lookup_lt_is_Some_2 g n) as [v Hv]; [lia|].
  rewrite (take_S_r g n v Hv).
  rewrite aset_ge by (rewrite !length_app, length_take; lia).
  rewrite <- Hk, aget_app_r, aget_app_l, aget_lookup, Hv by lia.
  by rewrite <- !app_assoc.
Qed.

Lemma insert_step_spec pre prev g ps :
  2 ≤ ps → length g = ps → length prev = ps ∨ (prev = [] ∧ pre = []) →
  insert_step ((pre ++ prev) ++ g) (length (pre ++ prev)) ps
  = if step_needed prev g
    then ((pre ++ prev) ++ middle prev g ++ g, length (pre ++ prev) + ps)
    else ((pre ++ prev) ++ g, length (pre ++ prev)).
Proof.
  intros Hps Hg Hprev. unfold insert_step, step_needed.
  rewrite (copy_group_spec (pre ++ prev) g _ ps ps) by lia.
  destruct Hprev as [Hprev|[-> ->]]; [|done].
  assert (Hk : (0 <? length (pre ++ prev)) = true)
    by (apply Nat.ltb_lt; rewrite length_app; lia).
  rewrite Hk. cbn [andb].
  assert (Hat : ∀ l i, i < ps →
    aget ((pre ++ prev) ++ l) (Z.of_nat (length (pre ++ prev) - ps + i)) = aget prev (Z.of_nat i)).
  { intros l i Hi. rewrite <- app_assoc.
    replace (length (pre ++ prev) - ps + i) with (length pre + i) by (rewrite length_app; lia).
    by rewrite aget_app_r, aget_app_l by lia. }
  pose proof (Hat g 0 ltac:(lia)) as E0. rewrite Nat.add_0_r in E0.
  rewrite E0, (Hat g 1), (Hat (g ++ take ps g) 1) by lia.
  pose proof (aget_app_r (pre ++ prev) g 0) as E1. rewrite Nat.add_0_r in E1.
  rewrite E1, aget_app_r. change (Z.of_nat 0) with 0%Z. change (Z.of_nat 1) with 1%Z.
  case_match; [|done]. rewrite <- Hg, firstn_all. f_equal.
  destruct g as [|x [|y g]]; [simpl in *; lia..|]. unfold middle.
  change (aset (x :: y :: g) 1 (aget prev 1)) with (aset ([x] ++ y :: g) (length [x]) (aget prev 1)).
  rewrite aset_middle. replace (length (pre ++ prev) + 1) with (length ((pre ++ prev) ++ [x]))
    by (rewrite (length_app (pre ++ prev) [x]); done).
  change ((x :: y :: g) ++ x :: y :: g) with ([x] ++ y :: g ++ x :: y :: g).
  rewrite (app_assoc (pre ++ prev) [x]), aset_middle. by rewrite <- !app_assoc.
Qed.

(** The loop over the raw data appends the reference groups, and changes the
    axes by numbers only. *)
Lemma copy_data_spec P format steps data pre prev xd yd :
  2 ≤ length format → length prev = length format ∨ (prev = [] ∧ pre = []) →
  let res := copy_data format steps data (pre ++ prev) (length (pre ++ prev)) xd yd in
  res.1.1 = (pre ++ prev) ++
    concat (expand (length format) steps prev (clean_group format <$> data)) ∧
  (update_closed P → forallb f_number format = true → P xd → P yd → P res.1.2 ∧ P res.2).
Proof.
  intros Hf. revert pre prev xd yd.
  induction data as [|p data IH]; intros pre prev xd yd Hprev; cbn [copy_data].
  { simpl. rewrite app_nil_r. auto. }
  set (q := pre ++ prev) in *.
  assert (Hnull : ∀ rest, length rest = length format ∨ rest = [] →
    (forallb f_number format = true → forallb plain rest = true) →
    let res := let '(points, xd, yd) := nullify_point format (q ++ rest) (length q) 0 xd yd in
               copy_data format steps data points (length q + length format) xd yd in
    res.1.1 = q ++ nulls (length format) ++
      concat (expand (length format) steps (nulls (length format)) (clean_group format <$> data)) ∧
    (update_closed P → forallb f_number format = true → P xd → P yd → P res.1.2 ∧ P res.2)).
  { intros rest Hr Hpl.
    pose proof (nullify_point_spec format q rest (length q) 0 xd yd ltac:(lia) Hr) as E.
    pose proof (nullify_point_axes P format q rest (length q) 0 xd yd) as E2.
    destruct (nullify_point _ _ _ _ _ _) as [[pts xd''] yd'']. simpl in E, E2. subst pts.
    replace (length q + length format) with (length (q ++ nulls (length format)))
      by (rewrite length_app; unfold nulls; by rewrite length_replicate).
    destruct (IH q (nulls (length format)) xd'' yd'') as [I1 I2]; [left; apply length_replicate|].
    simpl. rewrite I1. split; [by rewrite <- app_assoc|].
    intros HP Hn Hx Hy. destruct E2 as [Px Py]; auto. }
  destruct p as [p|]; cbn [clean_group mbind option_bind fmap list_fmap].
  2: { specialize (Hnull [] (or_intror eq_refl) (λ _, eq_refl)). by rewrite app_nil_r in Hnull. }
  rewrite copy_point_spec by lia. cbn [orb].
  destruct (missing_from format p 0).
  { apply Hnull; [left; apply length_clean_from|intros; by apply clean_from_plain]. }
  set (g := clean_from format p 0).
  assert (Hg : length g = length format) by apply length_clean_from.
  assert (Hlen : length q + length format = length (q ++ g)) by (rewrite length_app; lia).
  destruct steps; cbn [andb expand].
  - pose proof (insert_step_spec pre prev g (length format) Hf Hg Hprev) as E. fold q in E.
    rewrite E. clear E.
    destruct (step_needed prev g).
    + replace (length q + length format + length format)
        with (length ((q ++ middle prev g) ++ g)).
      2: { rewrite !length_app. unfold middle. rewrite Hg.
           assert (length (aset g 1 (aget prev 1)) = length format) as ->; [|lia].
           unfold aset. destruct (Nat.ltb_spec 1 (length g)); [|lia]. by rewrite length_insert. }
      rewrite app_assoc. destruct (IH (q ++ middle prev g) g xd yd) as [I1 I2]; [by left|].
      split; [|done]. rewrite I1. simpl. by rewrite <- !app_assoc.
    + rewrite Hlen. destruct (IH q g xd yd) as [I1 I2]; [by left|].
      split; [|done]. rewrite I1. simpl. by rewrite <- app_assoc.
  - rewrite Hlen. destruct (IH q g xd yd) as [I1 I2]; [by left|].
    split; [|done]. rewrite I1. simpl. by rewrite <- app_assoc.
Qed.
End first_pass_lemmas.

(** ** Lemmas: cleaned values *)

Section clean_lemmas.
Context {num : Type} `{NumLaws num} `{NumText num}.
Implicit Types (f : format_entry num) (v : jsv num) (g : list (jsv num)).
Implicit Types (format : list (format_entry num)).

(** A number other than NaN and the infinities. *)
Definition finite (x : num) : bool := nltb nninf x && nltb x ninf.

Definition value_ok v : bool := match v with Number x => finite x | _ => false end.

(** All null, or all finite numbers. *)
Definition group_ok g : bool := forallb is_null g || forallb value_ok g.

(** Entries read as numbers that are required or have a finite default. *)
Definition entry_strict f : bool :=
  f_number f && (f_required f || match f_default f with Some x => finite x | None => false end).

Lemma finite_max : finite nmax_value = true.
Proof.
  unfold finite. rewrite andb_true_iff, !nltb_spec. split; [|apply nmax_inf].
  eapply ncompare_trans; [apply ninf_opp|]. eapply ncompare_trans; [apply nmax_opp|apply nmax_pos].
Qed.
Lemma finite_min : finite (nneg nmax_value) = true.
Proof.
  unfold finite. rewrite andb_true_iff, !nltb_spec. split; [apply ninf_opp|].
  eapply ncompare_trans; [apply nmax_opp|]. eapply ncompare_trans; [apply nmax_pos|apply nmax_inf].
Qed.
Lemma finite_zero : finite (of_Z 0) = true.
Proof.
  unfold finite. rewrite andb_true_iff, !nltb_spec. split.
  - eapply ncompare_trans; [apply ninf_opp|apply nmax_opp].
  - eapply ncompare_trans; [apply nmax_pos|apply nmax_inf].
Qed.

Lemma finite_num x : finite x = true → nis_nan x = false.
Proof. intros [_ E]%andb_true_iff. eauto with jsdb. Qed.

(** The tests of the code exclude exactly NaN and the infinities. *)
Lemma finite_tests x :
  nis_nan x = false → neqb x ninf = false → neqb x nninf = false → finite x = true.
Proof.
  intros Hx Hi Hm. pose proof (proj1 (nis_nan_false x) Hx) as Hx'.
  pose proof (ninf_top x Hx') as Ht. pose proof (ninf_bottom x Hx') as Hb.
  assert (Hinf : ncompare (ninf : num) ninf ≠ None).
  { rewrite (ncompare_refl_r _ _ _ nmax_inf). done. }
  assert (Hninf : ncompare (nninf : num) nninf ≠ None).
  { unfold nninf. rewrite (ncompare_refl _ _ _ ninf_opp). done. }
  unfold finite, nltb, neqb, nninf in *.
  rewrite (ncompare_antisym x (nneg ninf)). rewrite (ncompare_antisym x ninf) in Ht.
  pose proof (ncompare_total x ninf Hx' Hinf). pose proof (ncompare_total x (nneg ninf) Hx' Hninf).
  destruct (ncompare x ninf) as [[]|], (ncompare x (nneg ninf)) as [[]|]; simpl in *; congruence.
Qed.

Lemma clean_value_ok f v :
  entry_strict f = true → (clean_value f v).2 = false → value_ok (clean_value f v).1 = true.
Proof.
  intros [Hn Hd]%andb_true_iff. unfold clean_value.
  assert (C : is_null (convert f v) = true ∨ value_ok (convert f v) = true).
  { unfold convert. rewrite Hn. destruct (is_null v) eqn:Ev; simpl; [by left|].
    destruct (nis_nan (to_num v)) eqn:E1; [by left|right].
    destruct (neqb (to_num v) ninf) eqn:E2; [apply finite_max|].
    destruct (neqb (to_num v) nninf) eqn:E3; [apply finite_min|]. by apply finite_tests. }
  destruct (is_null (convert f v)) eqn:En; simpl; intros Hr.
  - rewrite Hr in Hd. simpl in Hd. by destruct (f_default f).
  - by destruct C.
Qed.

Lemma clean_from_ok format p m :
  forallb entry_strict format = true → missing_from format p m = false →
  forallb value_ok (clean_from format p m) = true.
Proof.
  revert m. induction format as [|f format IH]; intros m; simpl; [done|].
  intros [Hf Hs]%andb_true_iff [Hm Hr]%orb_false_iff.
  by rewrite clean_value_ok, IH by done.
Qed.

Lemma clean_group_ok format r g :
  forallb entry_strict format = true → clean_group format r = Some g →
  length g = length format ∧ forallb value_ok g = true.
Proof.
  intros Hs. unfold clean_group. destruct r as [p|]; simpl; [|done].
  destruct (missing_from format p 0) eqn:E; [done|]. intros [= <-].
  split; [apply length_clean_from|by apply clean_from_ok].
Qed.

Lemma default_format_strict s : forallb entry_strict (default_format s) = true.
Proof.
  unfold default_format. rewrite forallb_app. simpl.
  repeat case_match; simpl; unfold entry_strict; simpl; rewrite ?finite_zero; done.
Qed.

Lemma default_format_number s : forallb f_number (default_format s) = true.
Proof. unfold default_format. rewrite forallb_app. simpl. by repeat case_match. Qed.

Lemma default_format_length s : 2 ≤ length (default_format s).
Proof. unfold default_format. rewrite length_app. simpl. lia. Qed.

Lemma nulls_ok n : forallb is_null (nulls n : list (jsv num)) = true.
Proof. induction n; [done|]. unfold nulls in *. by simpl. Qed.

Lemma forallb_aget {p : jsv num → bool} g (i : nat) :
  forallb p g = true → i < length g → p (aget g (Z.of_nat i)) = true.
Proof.
  intros Hg Hi. rewrite aget_lookup. destruct (lookup_lt_is_Some_2 g i Hi) as [v Hv].
  rewrite Hv. simpl. rewrite forallb_forall in Hg. apply Hg, list_elem_of_In.
  by eapply list_elem_of_lookup_2.
Qed.

(** A group whose first component is not null is made of finite numbers. *)
Lemma group_ok_live g :
  group_ok g = true → is_null (aget g 0) = false → forallb value_ok g = true.
Proof.
  intros [Hn|Hv]%orb_true_iff E; [|done]. exfalso.
  destruct g as [|v g]; [done|]. simpl in Hn. apply andb_true_iff in Hn as [Hn _].
  change (is_null v = false) in E. congruence.
Qed.

Lemma middle_ok prev g n :
  2 ≤ n → length prev = n → length g = n → forallb value_ok prev = true →
  forallb value_ok g = true → length (middle prev g) = n ∧ forallb value_ok (middle prev g) = true.
Proof.
  intros Hn Hp Hg Vp Vg. unfold middle.
  destruct g as [|x [|y g]]; [simpl in *; lia..|].
  change (aset (x :: y :: g) 1 (aget prev 1)) with (aset ([x] ++ y :: g) (length [x]) (aget prev 1)).
  rewrite aset_middle. split; [done|]. simpl in *.
  pose proof (forallb_aget prev 1 Vp ltac:(lia)) as E. change (Z.of_nat 1) with 1%Z in E.
  rewrite E. apply andb_true_iff in Vg as [-> Vg]. by apply andb_true_iff in Vg as [_ ->].
Qed.

Definition groups_ok (n : nat) (gs : list (list (jsv num))) : Prop :=
  Forall (λ g, length g = n ∧ group_ok g = true) gs.

Lemma expand_ok n steps prev gs :
  2 ≤ n →
  (∀ g, Some g ∈ gs → length g = n ∧ forallb value_ok g = true) →
  (is_null (aget prev 0) = true ∨ (length prev = n ∧ forallb value_ok prev = true)) →
  groups_ok n (expand n steps prev gs).
Proof.
  intros Hn. revert prev. induction gs as [|[g|] gs IH]; intros prev Hgs Hprev; simpl.
  - constructor.
  - destruct (Hgs g) as [Hg Vg]; [by left|].
    assert (Hrest : groups_ok n (g :: expand n steps g gs)).
    { constructor; [split; [done|]; unfold group_ok; by rewrite Vg, orb_true_r|].
      apply IH; [|by right]. intros h Hh. apply Hgs. by right. }
    destruct (steps && step_needed prev g) eqn:E; [|done]. constructor; [|done].
    unfold step_needed in E. bools. destruct Hprev as [Hprev|[Hp Vp]]; [congruence|].
    destruct (middle_ok prev g n Hn Hp Hg Vp Vg) as [-> Vm].
    split; [done|]. unfold group_ok. by rewrite Vm, orb_true_r.
  - constructor.
    + unfold nulls at 1. rewrite length_replicate. split; [done|].
      unfold group_ok. by rewrite nulls_ok.
    + apply IH; [|left]. { intros h Hh. apply Hgs. by right. }
      destruct n; [lia|done].
Qed.
End clean_lemmas.

(** ** Lemmas: the whole of processData *)

Section process_lemmas.
Context {num : Type} `{NumLaws num} `{NumText num}.
Implicit Types (s : series num) (ss : list (series num)).

Definition reset_series s : series num := with_datapoints s (Datapoints [] None None).

Definition steps_on s : bool := lines_show (s_lines s) && lines_steps (s_lines s).

(** The groups a series gets when no plugin intervenes. *)
Definition reference_groups s : list (list (jsv num)) :=
  expand (length (default_format s)) (steps_on s) []
    (clean_group (default_format s) <$> s_data s).

Definition filled s : series num :=
  with_datapoints s
    (Datapoints (concat (reference_groups s)) (Some (length (default_format s)))
       (Some (default_format s))).

(** The loops end as soon as the hooks no longer add series. *)
Lemma reset_points_nohooks fuel pre rest :
  length rest ≤ fuel →
  reset_points fuel (length pre) [] (pre ++ rest) = Ok (pre ++ map reset_series rest).
Proof.
  revert pre rest. induction fuel as [|fuel IH]; intros pre rest Hf; cbn [reset_points];
    rewrite length_app.
  - destruct rest; [|simpl in *; lia]. simpl. by rewrite Nat.add_0_r, Nat.ltb_irrefl.
  - destruct rest as [|s rest]; simpl length.
    { by rewrite Nat.add_0_r, Nat.ltb_irrefl. }
    destruct (Nat.ltb_spec (length pre) (length pre + S (length rest))); [|lia].
    cbn [executeHooks mbind result_bind]. rewrite alter_middle.
    change (pre ++ _ :: rest) with (pre ++ [reset_series s] ++ rest).
    replace (S (length pre)) with (length (pre ++ [reset_series s])) by (rewrite length_app; simpl; lia).
    rewrite (app_assoc pre), IH by (simpl in Hf; lia). by rewrite <- app_assoc.
Qed.

(** Hooks that keep the number of series and do not throw: fuel for every
    series is enough. *)
Lemma run_hooks_total fuel i hs ss :
  (∀ ss i, ∃ ss', executeHooks hs ss i = Ok ss' ∧ length ss' = length ss) → length ss - i ≤ fuel →
  ∃ ss', run_hooks fuel i hs ss = Ok ss' ∧ length ss' = length ss.
Proof.
  intros Hh. revert i ss. induction fuel as [|fuel IH]; intros i ss Hf; simpl;
    destruct (Nat.ltb_spec i (length ss)); try by eexists.
  { lia. }
  destruct (Hh ss i) as (ss' & -> & Hl). simpl.
  destruct (IH (S i) ss') as (ss'' & -> & ?); [lia|]. exists ss''. split; [done|lia].
Qed.

Lemma run_hooks_nil fuel i ss : length ss - i ≤ fuel → run_hooks fuel i [] ss = Ok ss.
Proof.
  revert i. induction fuel as [|fuel IH]; intros i Hf; simpl;
    destruct (Nat.ltb_spec i (length ss)); try done; [lia|apply IH; lia].
Qed.

Lemma fill_points_reset xs ys s : (fill_points xs ys (reset_series s)).2 = filled s.
Proof.
  unfold fill_points, filled, reference_groups. cbn [s_datapoints reset_series with_datapoints dp_pointsize].
  change (format_of (reset_series s)) with (default_format s).
  pose proof (copy_data_spec (λ _, True) (default_format s) (steps_on s) (s_data s) [] []) as E.
  cbn [app length] in E. cbn [dp_points s_data s_xaxis s_yaxis s_lines reset_series with_datapoints].
  change (lines_show (s_lines s) && lines_steps (s_lines s)) with (steps_on s).
  match goal with |- context [copy_data _ _ _ _ _ ?a ?b] => specialize (E a b) end.
  destruct E as [E _]; [apply default_format_length|by right|].
  destruct (copy_data _ _ _ _ _ _ _) as [[pts xd] yd]. simpl in E. simpl. by rewrite E.
Qed.

Lemma first_pass_reset xs ys ss : (first_pass xs ys (map reset_series ss)).2 = map filled ss.
Proof.
  revert xs ys. induction ss as [|s ss IH]; intros xs ys; [done|]. cbn [map first_pass].
  pose proof (fill_points_reset xs ys s) as E.
  destruct (fill_points xs ys (reset_series s)) as [[xs' ys'] s']. simpl in E. subst s'.
  pose proof (IH xs' ys') as E. destruct (first_pass _ _ _) as [[xs'' ys''] ss']. simpl in *. by subst.
Qed.

(** Without data plugins, processing succeeds and fills every series. *)
Lemma processData_filled fuel p :
  length (p_series p) ≤ fuel →
  ∃ p', processData fuel [] [] p = Ok p' ∧ p_series p' = map filled (p_series p).
Proof.
  intros Hf. unfold processData.
  pose proof (reset_points_nohooks fuel [] (p_series p) Hf) as E. cbn [app length] in E.
  rewrite E. cbn [mbind result_bind].
  match goal with |- context [first_pass ?a ?b _] => pose proof (first_pass_reset a b (p_series p)) as F end.
  destruct (first_pass _ _ _) as [[xs ys] ss]. simpl in F. subst ss.
  rewrite run_hooks_nil by (rewrite length_map; lia). simpl.
  destruct (second_pass _ _ _) as [xs' ys']. by eexists.
Qed.

Lemma reference_groups_ok s : groups_ok (length (default_format s)) (reference_groups s).
Proof.
  apply expand_ok; [apply default_format_length| |by left].
  intros g (r & Er & _)%list_elem_of_fmap.
  apply (clean_group_ok (default_format s) r); [apply default_format_strict|done].
Qed.

Lemma filled_chunks s :
  pointsize (filled s) = length (default_format s) ∧
  chunk (pointsize (filled s)) (dp_points (s_datapoints (filled s))) = reference_groups s.
Proof.
  split; [done|]. change (pointsize (filled s)) with (length (default_format s)).
  apply chunk_concat; [pose proof (default_format_length s); lia|].
  eapply Forall_impl; [apply reference_groups_ok|]. by intros g [].
Qed.

Definition live (g : list (jsv num)) : bool := negb (is_null (aget g 0)).

(** Two groups joined by a horizontal or vertical segment. *)
Definition aligned (a b : list (jsv num)) : bool :=
  loose_eq (aget a 0) (aget b 0) || loose_eq (aget a 1) (aget b 1).

Lemma value_ok_eq_refl (v : jsv num) : value_ok v = true → loose_eq v v = true.
Proof. destruct v; simpl; try done. intros Hx%finite_num. by apply neqb_refl. Qed.

(** Consecutive live groups of a list, and the one before it. *)
Fixpoint all_aligned (prev : list (jsv num)) (gs : list (list (jsv num))) : bool :=
  match gs with
  | [] => true
  | g :: gs => (negb (live prev && live g) || aligned prev g) && all_aligned g gs
  end.

Lemma expand_aligned n prev gs :
  2 ≤ n →
  (∀ g, Some g ∈ gs → length g = n ∧ forallb value_ok g = true) →
  (is_null (aget prev 0) = true ∨ (length prev = n ∧ forallb value_ok prev = true)) →
  all_aligned prev (expand n true prev gs) = true.
Proof.
  intros Hn. revert prev. induction gs as [|[g|] gs IH]; intros prev Hgs Hprev; simpl; [done| |].
  - destruct (Hgs g) as [Hg Vg]; [by left|].
    assert (Hrest : all_aligned g (expand n true g gs) = true).
    { apply IH; [|by right]. intros h Hh. apply Hgs. by right. }
    destruct (step_needed prev g) eqn:E; simpl; rewrite Hrest.
    + unfold step_needed in E. bools. destruct Hprev as [Hprev|[Hp Vp]]; [congruence|].
      assert (M : aget (middle prev g) 0 = aget g 0 ∧ aget (middle prev g) 1 = aget prev 1).
      { destruct g as [|x [|y g]]; [simpl in *; lia..|]. done. }
      destruct M as [M0 M1]. unfold aligned. rewrite M0, M1.
      pose proof (value_ok_eq_refl _ (forallb_aget prev 1 Vp ltac:(lia))) as E1.
      pose proof (value_ok_eq_refl _ (forallb_aget g 0 Vg ltac:(lia))) as E0.
      change (Z.of_nat 1) with 1%Z in E1. change (Z.of_nat 0) with 0%Z in E0.
      by rewrite E0, E1, !orb_true_r.
    + unfold step_needed in E. unfold live, aligned.
      destruct (is_null (aget prev 0)); [done|]. simpl in E. rewrite andb_true_r.
      apply andb_false_iff in E as [E|E]; apply negb_false_iff in E; rewrite E, ?orb_true_r; done.
  - rewrite IH; [| |left].
    + unfold live at 2. destruct n; [lia|]. simpl. by rewrite andb_false_r.
    + intros h Hh. apply Hgs. by right.
    + destruct n; [lia|done].
Qed.
End process_lemmas.

(** ** Samples *)

Definition sample_line : series f64 :=
  default_series [Some [Number (of_Z 1); Number (of_Z 6)]; None; Some [Number (of_Z 3); Str "8"]].

Definition sample_steps : series f64 :=
  with_lines (default_series [Some [Number (of_Z 1); Number (of_Z 6)]; Some [Number (of_Z 3); Number (of_Z 8)]])
    (Lines true (of_Z 2) FillOff None true).

(** Bars at 5 and 7, with the base line 0 as third component of their points. *)
Definition sample_bars : series f64 :=
  with_bars (default_series [Some [Number (of_Z 1); Number (of_Z 5)]; Some [Number (of_Z 2); Number (of_Z 7)]])
    (Bars true (of_Z 2) (of_Z 1) FillOn None "left" false).
Definition sample_over : series f64 := default_series [Some [Number (of_Z 1); Number (of_Z 6)]].

(** ** Properties *)

(** C1: without data plugins, [processData] succeeds and the flat point array
    of every series, cut in groups of [pointsize], is the list of reference
    groups of its data: the values cleaned by the format, nulls for a missing
    point, and one more group wherever a step is inserted. *)
Theorem processData_groups {num : Type} `{NumLaws num} `{NumText num} (p : plot num) :
  ∃ p', processData (length (p_series p)) [] [] p = Ok p' ∧
    Forall2 (λ s s', pointsize s' = length (default_format s) ∧
      chunk (pointsize s') (dp_points (s_datapoints s'))
      = expand (length (default_format s)) (steps_on s) []
          (clean_group (default_format s) <$> s_data s)) (p_series p) (p_series p').
Proof.
  destruct (processData_filled (length (p_series p)) p) as (p' & E & Es); [done|].
  exists p'. split; [done|]. rewrite Es. apply Forall2_fmap_r, Forall_Forall2_diag, Forall_true.
  apply filled_chunks.
Qed.

Lemma processData_groups_witness :
  ∃ p', processData 2 [] [] (default_plot [sample_line; sample_bars]) = Ok p' ∧
    Forall2 (λ s s', pointsize s' = length (default_format s) ∧
      chunk (pointsize s') (dp_points (s_datapoints s'))
      = expand (length (default_format s)) (steps_on s) []
          (clean_group (default_format s) <$> s_data s)) [sample_line; sample_bars] (p_series p').
Proof. exact (processData_groups (default_plot [sample_line; sample_bars])). Defined.

(** C24: whatever values the raw data hold, the processed groups of every
    series have exactly [pointsize] components and are either all null or made
    of numbers that are neither NaN nor infinite. *)
Theorem processData_clean {num : Type} `{NumLaws num} `{NumText num} (p : plot num) :
  ∃ p', processData (length (p_series p)) [] [] p = Ok p' ∧
    Forall (λ s', groups_ok (pointsize s') (chunk (pointsize s') (dp_points (s_datapoints s'))))
      (p_series p').
Proof.
  destruct (processData_filled (length (p_series p)) p) as (p' & E & Es); [done|].
  exists p'. split; [done|]. rewrite Es. apply Forall_fmap, Forall_true. intros s. cbv beta delta [compose].
  rewrite (proj2 (filled_chunks s)), (proj1 (filled_chunks s)). apply reference_groups_ok.
Qed.

Lemma processData_clean_witness :
  ∃ p', processData 2 [] [] (default_plot [sample_line; sample_bars]) = Ok p' ∧
    Forall (λ s', groups_ok (pointsize s') (chunk (pointsize s') (dp_points (s_datapoints s'))))
      (p_series p').
Proof. exact (processData_clean (default_plot [sample_line; sample_bars])). Defined.

(** For a series drawn with steps, any two consecutive points of the
    processed data that are both present share a coordinate: the line between
    them is horizontal or vertical. *)
Theorem processData_steps {num : Type} `{NumLaws num} `{NumText num} (p : plot num) :
  ∃ p', processData (length (p_series p)) [] [] p = Ok p' ∧
    Forall (λ s', steps_on s' = true →
      all_aligned [] (chunk (pointsize s') (dp_points (s_datapoints s'))) = true) (p_series p').
Proof.
  destruct (processData_filled (length (p_series p)) p) as (p' & E & Es); [done|].
  exists p'. split; [done|]. rewrite Es. apply Forall_fmap, Forall_true. intros s. cbv beta delta [compose].
  intros Hs. change (steps_on (filled s)) with (steps_on s) in Hs.
  rewrite (proj2 (filled_chunks s)). unfold reference_groups. rewrite Hs.
  apply expand_aligned; [apply default_format_length| |by left].
  intros g (r & Er & _)%list_elem_of_fmap.
  apply (clean_group_ok (default_format s) r); [apply default_format_strict|done].
Qed.

Lemma processData_steps_witness :
  ∃ p', processData 1 [] [] (default_plot [sample_steps]) = Ok p' ∧
    Forall (λ s', steps_on s' = true →
      all_aligned [] (chunk (pointsize s') (dp_points (s_datapoints s'))) = true) (p_series p').
Proof. exact (processData_steps (default_plot [sample_steps])). Defined.
