(* ===== verification/FlotDataRange.v ===== *)
(** What [processData] leaves on the axes: a range that contains the data, read
    with the format of the last series. *)

From S2P Require Import Prelude Numbers Float64 JsText JsValue FlotModel FlotData FlotDataSpec.

(** ** Lemmas: the range of the data *)

Section range_lemmas.
Context {num : Type} `{NumLaws num} `{NumText num}.
Implicit Types (f : format_entry num) (v : jsv num) (g : list (jsv num)).
Implicit Types (d : axis_data num) (r : jsv num * jsv num) (x y lo hi : num).

Definition is_number v : Prop := ∃ x, v = Number x.

(** [r] is an interval of numbers containing [y]. *)
Definition within y r : Prop :=
  ∃ lo hi, r = (Number lo, Number hi) ∧ nleb lo y = true ∧ nleb y hi = true.

(** Neither of the sentries of the clamped infinities. *)
Definition unclamped x : bool := negb (neqb x nmax_value) && negb (neqb x (nneg nmax_value)).

(** Intervals the second pass computes. *)
Definition ranged r : Prop :=
  ∃ lo hi, r = (Number lo, Number hi) ∧ nis_nan lo = false ∧ nis_nan hi = false ∧
           unclamped lo = true ∧ unclamped hi = true.

Definition data_range d : jsv num * jsv num := (datamin d, datamax d).

Definition num_data d : Prop :=
  ∃ lo hi, data_range d = (Number lo, Number hi) ∧ nis_nan lo = false ∧ nis_nan hi = false.

Lemma neqb_lt x y : ncompare x y = Some Lt → neqb x y = false ∧ neqb y x = false.
Proof. intros E. unfold neqb. by rewrite (ncompare_antisym x y), E. Qed.

Lemma min_lt_max : ncompare (nneg nmax_value) (nmax_value : num) = Some Lt.
Proof. eapply ncompare_trans; [apply nmax_opp|apply nmax_pos]. Qed.
Lemma min_lt_inf : ncompare (nneg nmax_value) (ninf : num) = Some Lt.
Proof. eapply ncompare_trans; [apply min_lt_max|apply nmax_inf]. Qed.
Lemma ninf_lt_max : ncompare (nneg ninf) (nmax_value : num) = Some Lt.
Proof. eapply ncompare_trans; [apply ninf_opp|apply min_lt_max]. Qed.

Lemma inf_numbers :
  nis_nan (ninf : num) = false ∧ nis_nan (nninf : num) = false ∧
  unclamped ninf = true ∧ unclamped nninf = true.
Proof.
  unfold unclamped, nninf. repeat split.
  - rewrite nis_nan_false. by rewrite (ncompare_refl_r _ _ _ nmax_inf).
  - rewrite nis_nan_false. by rewrite (ncompare_refl _ _ _ ninf_opp).
  - destruct (neqb_lt _ _ nmax_inf) as [_ ->], (neqb_lt _ _ min_lt_inf) as [_ ->]. done.
  - destruct (neqb_lt _ _ ninf_lt_max) as [-> _], (neqb_lt _ _ ninf_opp) as [-> _]. done.
Qed.

Lemma ranged_empty : ranged no_range.
Proof.
  destruct inf_numbers as (? & ? & ? & ?). exists ninf, nninf. auto.
Qed.

Lemma widen_number x lo hi :
  widen (Number x) (Number lo, Number hi)
  = (Number (if nltb x lo then x else lo), Number (if nltb hi x then x else hi)).
Proof. unfold widen. simpl. by destruct (nltb x lo), (nltb hi x). Qed.

Lemma widen_spec x r :
  nis_nan x = false → unclamped x = true → ranged r →
  ranged (widen (Number x) r) ∧ within x (widen (Number x) r) ∧
  ∀ y, within y r → within y (widen (Number x) r).
Proof.
  intros Hx Ux (lo & hi & -> & Hlo & Hhi & Ulo & Uhi). rewrite widen_number. split; [|split].
  - eexists _, _. split; [done|]. destruct (nltb x lo), (nltb hi x); auto.
  - eexists _, _. split; [done|].
    destruct (nltb x lo) eqn:E1, (nltb hi x) eqn:E2; split; auto using nltb_false with jsdb.
  - intros y (lo' & hi' & [= <- <-] & L & U). eexists _, _. split; [done|].
    destruct (nltb x lo) eqn:E1, (nltb hi x) eqn:E2; split; eauto with jsdb.
Qed.

(** The interval of one direction, and the entries that extend it. *)
Definition dir_range (dir : direction) (e : extent num) : jsv num * jsv num :=
  match dir with DirX => ext_x e | DirY => ext_y e end.
Definition dir_entry (dir : direction) f : bool :=
  match dir with DirX => f_x f | DirY => f_y f end.

Lemma dir_extend dir f v e :
  dir_range dir (extend f v e)
  = if dir_entry dir f then widen v (dir_range dir e) else dir_range dir e.
Proof. by destruct dir, f as [[] []]. Qed.

Lemma extend_group_spec dir format g e :
  forallb value_ok g = true → ranged (dir_range dir e) →
  let r := dir_range dir (extend_group format g e) in
  ranged r ∧
  (∀ y, within y (dir_range dir e) → within y r) ∧
  (∀ m f x, g !! m = Some (Number x) → format !! m = Some f → dir_entry dir f = true →
     unclamped x = true → within x r).
Proof.
  simpl. revert format e. induction g as [|v g IH]; intros format e Hg He.
  { by destruct format. }
  destruct format as [|f format]; simpl; [done|].
  simpl in Hg. apply andb_true_iff in Hg as [Hv Hg].
  destruct v as [| |x|s|b|id]; try done. simpl in Hv. pose proof (finite_num x Hv) as Hx.
  set (e' := if _ || _ then e else extend f (Number x) e).
  assert (S : ranged (dir_range dir e') ∧
    (∀ y, within y (dir_range dir e) → within y (dir_range dir e')) ∧
    (dir_entry dir f = true → unclamped x = true → within x (dir_range dir e'))).
  { unfold e'. simpl. unfold fakeInfinity.
    destruct (neqb x nmax_value || neqb x (nneg nmax_value)) eqn:E.
    - split; [done|]. split; [done|]. unfold unclamped. intros _ [A B]%andb_true_iff.
      apply orb_true_iff in E as [E|E]; rewrite E in *; done.
    - assert (Ux : unclamped x = true) by (unfold unclamped; by rewrite <- negb_orb, E).
      rewrite dir_extend. destruct (dir_entry dir f); [|done].
      destruct (widen_spec x _ Hx Ux He) as (? & ? & ?). auto. }
  destruct S as (S1 & S2 & S3). destruct (IH format e' Hg S1) as (I1 & I2 & I3).
  split; [done|]. split; [by auto|].
  intros [|m] f' x' Hl Hf Hd Hu; simpl in *; [|by eapply I3].
  simplify_eq. auto.
Qed.

Lemma series_extent_spec dir format s :
  Forall (λ g, group_ok g = true) (chunk (pointsize s) (dp_points (s_datapoints s))) →
  let r := dir_range dir (series_extent format s) in
  ranged r ∧
  (∀ g m f x, g ∈ chunk (pointsize s) (dp_points (s_datapoints s)) → live g = true →
     g !! m = Some (Number x) → format !! m = Some f → dir_entry dir f = true →
     unclamped x = true → within x r).
Proof.
  unfold series_extent. generalize (chunk (pointsize s) (dp_points (s_datapoints s))).
  assert (He : ranged (dir_range dir empty_extent)) by (destruct dir; apply ranged_empty).
  revert He. generalize (empty_extent : extent num). intros e He gs Hgs.
  cut (ranged (dir_range dir (foldl (λ e g, if is_null (aget g 0) then e else extend_group format g e) e gs)) ∧
    (∀ y, within y (dir_range dir e) → within y (dir_range dir (foldl (λ e g, if is_null (aget g 0) then e else extend_group format g e) e gs))) ∧
    (∀ g m f x, g ∈ gs → live g = true →
     g !! m = Some (Number x) → format !! m = Some f → dir_entry dir f = true →
     unclamped x = true → within x (dir_range dir (foldl (λ e g, if is_null (aget g 0) then e else extend_group format g e) e gs)))).
  { intros (A & _ & C). split; [done|]. intros. by eapply C. }
  revert e He. induction Hgs as [|g gs Hg Hgs IH]; intros e He; simpl.
  { split; [done|]. split; [done|]. intros g m f x Hin. by apply elem_of_nil in Hin. }
  destruct (is_null (aget g 0)) eqn:En.
  - destruct (IH e He) as (A & B & C). split; [done|]. split; [done|].
    intros g' m f x [->|Hin]%elem_of_cons Hl; [|by apply C].
    unfold live in Hl. rewrite En in Hl. done.
  - destruct (extend_group_spec dir format g e (group_ok_live g Hg En) He) as (A' & B' & C').
    destruct (IH _ A') as (A & B & C). split; [done|]. split; [by auto|].
    intros g' m f x [->|Hin]%elem_of_cons Hl; [|by apply C].
    intros. apply B. by eapply C'.
Qed.

Lemma updateAxis_numbers d lo hi :
  num_data d → num_data (updateAxis d (Number lo) (Number hi)).
Proof.
  intros (a & b & E & Ha & Hb). unfold data_range in E. injection E as E1 E2.
  unfold updateAxis. rewrite E1. simpl.
  destruct (nltb lo a && _) eqn:C1; simpl; rewrite E2; simpl;
    destruct (nltb b hi && _) eqn:C2; unfold num_data, data_range; simpl;
    eexists _, _; (split; [f_equal; eassumption || reflexivity|]); bools; eauto with jsdb.
Qed.

Lemma updateAxis_keeps d lo hi y :
  num_data d → within y (data_range d) →
  within y (data_range (updateAxis d (Number lo) (Number hi))).
Proof.
  intros _ (a & b & E & Ha & Hb). unfold data_range in E. injection E as E1 E2.
  unfold updateAxis. rewrite E1. simpl.
  destruct (nltb lo a && _) eqn:C1; simpl; rewrite E2; simpl;
    destruct (nltb b hi && _) eqn:C2; unfold within, data_range; simpl;
    eexists _, _; (split; [f_equal; eassumption || reflexivity|]); bools; split; eauto with jsdb.
Qed.

Lemma updateAxis_adds d r y :
  num_data d → ranged r → within y r → within y (data_range (updateAxis d r.1 r.2)).
Proof.
  intros (a & b & E & Ha & Hb) (lo & hi & -> & Hlo & Hhi & Ulo & Uhi) (lo' & hi' & [= <- <-] & L & U).
  unfold data_range in E. injection E as E1 E2.
  unfold unclamped in *. bools. unfold updateAxis. rewrite E1. simpl. unfold fakeInfinity.
  rewrite (proj1 (negb_true_iff (neqb lo (nneg nmax_value))) ltac:(by apply negb_true_iff)).
  rewrite andb_true_r.
  destruct (nltb lo a) eqn:C1; simpl; rewrite E2; simpl;
    rewrite (proj1 (negb_true_iff (neqb hi nmax_value)) ltac:(by apply negb_true_iff)), andb_true_r;
    destruct (nltb b hi) eqn:C2; unfold within, data_range; simpl;
    eexists _, _; (split; [f_equal; eassumption || reflexivity|]);
    split; eauto using nltb_false with jsdb.
Qed.

(** ** The axes *)

Implicit Types axs : axes num.

Definition all_num_data axs : Prop := ∀ n, num_data (data_of axs n).

Lemma num_data_none : num_data no_data.
Proof. destruct inf_numbers as (? & ? & _). exists ninf, nninf. auto. Qed.

Lemma data_of_set axs n m d :
  data_of (set_data axs n d) m
  = if decide (n - 1 = m - 1) then (if get_axis axs m then d else no_data) else data_of axs m.
Proof.
  unfold data_of, set_data. rewrite get_update_axis.
  case_decide; [|done]. by destruct (get_axis axs m).
Qed.

Lemma get_axis_set axs n m d : is_Some (get_axis (set_data axs n d) m) ↔ is_Some (get_axis axs m).
Proof. unfold set_data. rewrite get_update_axis. case_decide; [|done]. by rewrite fmap_is_Some. Qed.

Lemma all_num_set axs n d : all_num_data axs → num_data d → all_num_data (set_data axs n d).
Proof.
  intros Ha Hd m. rewrite data_of_set. case_decide; [|done].
  destruct (get_axis axs m); [done|apply num_data_none].
Qed.

Lemma within_num_axis y axs n : within y (data_range (data_of axs n)) → is_Some (get_axis axs n).
Proof.
  unfold data_of. destruct (get_axis axs n) as [ax|]; [eauto|]. simpl.
  intros (lo & hi & [= <- <-] & L & U). exfalso.
  pose proof (nleb_trans _ _ _ L U) as C. apply nleb_not_ltb in C.
  assert (D : nltb (nninf : num) ninf = true); [|congruence].
  apply nltb_spec. unfold nninf. eapply ncompare_trans; [apply ninf_lt_max|apply nmax_inf].
Qed.

Definition dir_axes (dir : direction) (a : axes num * axes num) : axes num :=
  match dir with DirX => a.1 | DirY => a.2 end.
Definition dir_number (dir : direction) (s : series num) : nat :=
  match dir with DirX => s_xaxis s | DirY => s_yaxis s end.

(** The intervals a series contributes are pairs of numbers. *)
Lemma bar_room_numbers dir s e :
  (∀ dir, ∃ lo hi, dir_range dir e = (Number lo, Number hi)) →
  ∃ lo hi, dir_range dir (bar_room s e) = (Number lo, Number hi).
Proof.
  intros He. destruct (He DirX) as (a & b & Ex), (He DirY) as (c & d & Ey). simpl in *.
  unfold bar_room. destruct (bars_show (s_bars s)); [|eauto].
  destruct (bars_horizontal (s_bars s)), dir; simpl; rewrite ?Ex, ?Ey; simpl; eauto.
Qed.

Lemma range_series_dir dir format a s :
  dir_axes dir (range_series format a s)
  = let axs := dir_axes dir a in let n := dir_number dir s in
    let r := dir_range dir (bar_room s (series_extent format s)) in
    set_data axs n (updateAxis (data_of axs n) r.1 r.2).
Proof. by destruct a as [xs ys], dir. Qed.

Definition chunks_ok (s : series num) : Prop :=
  Forall (λ g, group_ok g = true) (chunk (pointsize s) (dp_points (s_datapoints s))).

(** One series: ranges stay numeric and keep what they contain. *)
Lemma range_series_keeps dir format a s :
  chunks_ok s → all_num_data (dir_axes dir a) →
  let a' := range_series format a s in
  all_num_data (dir_axes dir a') ∧
  ∀ y n, within y (data_range (data_of (dir_axes dir a) n)) →
         within y (data_range (data_of (dir_axes dir a') n)).
Proof.
  intros Hs Ha. simpl. rewrite range_series_dir. simpl.
  destruct (bar_room_numbers dir s (series_extent format s)) as (lo & hi & ->).
  { intros dir'. destruct (series_extent_spec dir' format s Hs) as [(lo & hi & -> & _) _]. eauto. }
  simpl. split.
  - apply all_num_set; [done|]. by apply updateAxis_numbers.
  - intros y n Hy. rewrite data_of_set. case_decide as E; [|done].
    pose proof (within_num_axis _ _ _ Hy) as [ax Hax]. rewrite Hax.
    assert (D : data_of (dir_axes dir a) (dir_number dir s) = data_of (dir_axes dir a) n).
    { unfold data_of, get_axis. by rewrite E. }
    rewrite D. by apply updateAxis_keeps.
Qed.

(** The axes of a series contain the values of its groups. *)
Lemma range_series_adds dir format a s g m f x :
  chunks_ok s → bars_show (s_bars s) = false → all_num_data (dir_axes dir a) →
  is_Some (get_axis (dir_axes dir a) (dir_number dir s)) →
  g ∈ chunk (pointsize s) (dp_points (s_datapoints s)) → live g = true →
  g !! m = Some (Number x) → format !! m = Some f → dir_entry dir f = true →
  unclamped x = true →
  within x (data_range (data_of (dir_axes dir (range_series format a s)) (dir_number dir s))).
Proof.
  intros Hs Hb Ha [ax Hax] Hg Hl Hx Hf Hd Hu. rewrite range_series_dir. simpl.
  destruct (series_extent_spec dir format s Hs) as [R W].
  rewrite data_of_set, decide_True, Hax by done.
  unfold bar_room. rewrite Hb. apply updateAxis_adds; [done..|]. by eapply W.
Qed.

Lemma second_pass_keeps dir format a ss :
  Forall chunks_ok ss → all_num_data (dir_axes dir a) →
  ∀ y n, within y (data_range (data_of (dir_axes dir a) n)) →
         within y (data_range (data_of (dir_axes dir (second_pass format a ss)) n)).
Proof.
  unfold second_pass. intros Hss. revert a.
  induction Hss as [|s ss Hs Hss IH]; intros a Ha y n Hy; simpl; [done|].
  destruct (range_series_keeps dir format a s Hs Ha) as [A K]. auto.
Qed.

Lemma second_pass_contains dir format a ss s g m f x :
  Forall chunks_ok ss → s ∈ ss → bars_show (s_bars s) = false →
  all_num_data (dir_axes dir a) → is_Some (get_axis (dir_axes dir a) (dir_number dir s)) →
  g ∈ chunk (pointsize s) (dp_points (s_datapoints s)) → live g = true →
  g !! m = Some (Number x) → format !! m = Some f → dir_entry dir f = true →
  unclamped x = true →
  within x (data_range (data_of (dir_axes dir (second_pass format a ss)) (dir_number dir s))).
Proof.
  intros Hss Hs Hb Ha Hax Hg Hl Hx Hf Hd Hu. revert a Ha Hax.
  induction Hss as [|s' ss Hs' Hss IH]; intros a Ha Hax; [by apply elem_of_nil in Hs|].
  destruct (range_series_keeps dir format a s' Hs' Ha) as [A K].
  apply elem_of_cons in Hs as [<-|Hs].
  - apply (second_pass_keeps dir format (range_series format a s) ss Hss A).
    by eapply range_series_adds.
  - apply IH; [done|done|]. rewrite range_series_dir. simpl. by rewrite get_axis_set.
Qed.

(** ** The whole of processData *)

Lemma data_of_init axs n : data_of (init_axes axs) n = no_data.
Proof. unfold data_of, init_axes. rewrite get_map_axes. by destruct (get_axis axs n). Qed.

Lemma fill_points_axes xs ys s :
  all_num_data xs → all_num_data ys →
  all_num_data (fill_points xs ys (reset_series s)).1.1 ∧
  all_num_data (fill_points xs ys (reset_series s)).1.2.
Proof.
  intros Hx Hy. unfold fill_points.
  cbn [s_datapoints reset_series with_datapoints dp_pointsize dp_points s_data s_xaxis s_yaxis s_lines].
  change (format_of (reset_series s)) with (default_format s).
  pose proof (copy_data_spec num_data (default_format s) (steps_on s) (s_data s) [] []) as E.
  cbn [app length] in E. unfold steps_on in E.
  match goal with |- context [copy_data _ _ _ _ _ ?a ?b] => specialize (E a b) end.
  destruct E as [_ E]; [apply default_format_length|by right|].
  destruct (copy_data _ _ _ _ _ _ _) as [[pts xd] yd]. simpl in *.
  destruct E as [Ex Ey].
  - intros d x. apply updateAxis_numbers.
  - apply default_format_number.
  - apply Hx.
  - apply Hy.
  - split; by apply all_num_set.
Qed.

Lemma first_pass_axes xs ys ss :
  all_num_data xs → all_num_data ys →
  all_num_data (first_pass xs ys (map reset_series ss)).1.1 ∧
  all_num_data (first_pass xs ys (map reset_series ss)).1.2.
Proof.
  revert xs ys. induction ss as [|s ss IH]; intros xs ys Hx Hy; [done|]. cbn [map first_pass].
  destruct (fill_points_axes xs ys s Hx Hy) as [A B].
  destruct (fill_points xs ys (reset_series s)) as [[xs' ys'] s']. simpl in A, B.
  destruct (IH xs' ys' A B) as [C D]. by destruct (first_pass _ _ _) as [[xs'' ys''] ss'].
Qed.

Lemma close_keeps d x :
  finite x = true → within x (data_range d) → data_range (close_data d) = data_range d.
Proof.
  intros [Fl Fh]%andb_true_iff (lo & hi & E & L & U). unfold data_range, close_data in *.
  injection E as E1 E2. rewrite E1, E2. simpl.
  assert (A : neqb lo ninf = false).
  { pose proof (nleb_ltb_trans _ _ _ L Fh) as C. apply nltb_spec in C.
    by destruct (neqb_lt _ _ C). }
  assert (B : neqb hi nninf = false).
  { pose proof (nltb_leb_trans _ _ _ Fl U) as C. apply nltb_spec in C.
    by destruct (neqb_lt _ _ C). }
  by rewrite A, B.
Qed.

Definition plot_axes (dir : direction) (p : plot num) : axes num :=
  match dir with DirX => p_xaxes p | DirY => p_yaxes p end.

End range_lemmas.

(** ** Properties *)

(** C12: after [processData], with any data plugins, the recorded range
    [datamin, datamax] of an axis contains every finite coordinate of every
    point of every series drawn on it without bars (the coordinates being read
    by the format of the last series, and the clamped infinities left out). *)
Theorem processData_range {num : Type} `{NumLaws num} `{NumText num} fuel hooks (p p' : plot num) :
  processData fuel [] hooks p = Ok p' → length (p_series p) ≤ fuel →
  Forall chunks_ok (p_series p') →
  ∀ dir s ax g m f x, s ∈ p_series p' → bars_show (s_bars s) = false →
  get_axis (plot_axes dir p') (dir_number dir s) = Some ax →
  g ∈ chunk (pointsize s) (dp_points (s_datapoints s)) → live g = true →
  g !! m = Some (Number x) → last_format (map reset_series (p_series p)) !! m = Some f →
  dir_entry dir f = true → unclamped x = true → finite x = true →
  within x (data_range (ax_data ax)).
Proof.
  unfold processData. intros E Hfuel.
  pose proof (reset_points_nohooks fuel [] (p_series p) Hfuel) as R. cbn [app length] in R.
  rewrite R in E. cbn [mbind result_bind] in E.
  set (lf := last_format _) in *. clearbody lf.
  assert (Hi : ∀ axs, all_num_data (init_axes axs)).
  { intros axs n. rewrite data_of_init. apply num_data_none. }
  destruct (first_pass_axes _ _ (p_series p) (Hi (p_xaxes p)) (Hi (p_yaxes p))) as [Nx Ny].
  destruct (first_pass _ _ _) as [[xs ys] ss]. simpl in Nx, Ny.
  destruct (run_hooks fuel 0 hooks ss) as [ss'| |]; [|done..]. simpl in E.
  destruct (second_pass lf (xs, ys) ss') as [xs' ys'] eqn:E2. injection E as <-. simpl.
  intros Hok dir s ax g m f x Hs Hb Hax Hg Hl Hx Hf Hd Hu Hfin.
  assert (Hn : all_num_data (dir_axes dir (xs, ys))) by by destruct dir.
  assert (Hax' : get_axis (plot_axes dir (Plot ss' (close_axes xs') (close_axes ys'))) (dir_number dir s)
    = (λ ax, with_data ax (close_data (ax_data ax))) <$>
      get_axis (dir_axes dir (xs', ys')) (dir_number dir s)).
  { destruct dir; simpl; apply get_map_axes. }
  rewrite Hax' in Hax. destruct (get_axis (dir_axes dir (xs', ys')) _) as [ax'|] eqn:Ga; [|done].
  injection Hax as <-.
  assert (Hex : is_Some (get_axis (dir_axes dir (xs, ys)) (dir_number dir s))).
  { assert (G : ∀ ss a, is_Some (get_axis (dir_axes dir (second_pass lf a ss)) (dir_number dir s)) →
                        is_Some (get_axis (dir_axes dir a) (dir_number dir s))).
    { induction ss0 as [|s0 ss0 IH]; intros a; [done|]. simpl. intros C%IH.
      rewrite range_series_dir in C. simpl in C. by apply get_axis_set in C. }
    apply (G ss'). rewrite E2, Ga. done. }
  pose proof (second_pass_contains dir lf (xs, ys) ss' s g m f x Hok Hs Hb Hn Hex Hg Hl Hx Hf Hd Hu) as W.
  rewrite E2 in W. unfold data_of in W. rewrite Ga in W. simpl in *.
  by rewrite (close_keeps (ax_data ax') x Hfin W).
Qed.

Lemma processData_range_witness :
  ∃ p', processData 1 [] [] (default_plot [sample_line]) = Ok p' ∧
    ∃ ax, get_axis (p_yaxes p') 1 = Some ax ∧ within (of_Z 8) (data_range (ax_data ax)).
Proof.
  destruct (processData 1 [] [] (default_plot [sample_line])) as [p'| |] eqn:E; [|discriminate..].
  exists p'. split; [done|].
  pose proof (λ H1 H2, processData_range 1 [] (default_plot [sample_line]) p' E H1 H2 DirY) as T.
  vm_compute in E. injection E as <-. eexists. split; [reflexivity|].
  eapply (T ltac:(simpl; lia) ltac:(repeat constructor) _ _
    [Number (of_Z 3); Number (of_Z 8)] 1 (FormatEntry false true true true None));
    try reflexivity; vm_compute; try reflexivity; repeat constructor.
Defined.

Definition y_datamin (p : result (plot f64)) : option (jsv f64) :=
  match p with
  | Ok p => ax ← get_axis (p_yaxes p) 1; Some (datamin (ax_data ax))
  | _ => None
  end.

(** The second pass of [processData] reads every series with the format
    of the last one: the same bars and line give an axis that starts at the
    base line of the bars when the bars come last, and at their lowest top
    when the line comes last. *)
Theorem processData_stale_format :
  y_datamin (processData 2 [] [] (default_plot [sample_over; sample_bars])) = Some (Number (of_Z 0)) ∧
  y_datamin (processData 2 [] [] (default_plot [sample_bars; sample_over])) = Some (Number (of_Z 5)).
Proof. split; vm_compute; reflexivity. Qed.
