(* ===== verification/FlotAxis.v ===== *)
(** The range of an axis and its coordinate conversion in
    [static/flot/jquery.flot.js]: [setRange], [setTransformationHelpers],
    [snapRangeToTicks], [canvasToAxisCoords] and [axisToCanvasCoords]. *)

From S2P Require Import Prelude Numbers ExactNum JsText JsValue FlotModel FlotData.
From Stdlib Require Import QArith Lqa.
From stdpp Require Import strings.

#[local] Open Scope nat_scope.

(** ** Definitions *)

Section axis.
Context {num : Type} `{Num num} `{NumText num}.
Implicit Types ax : axis num.
Local Open Scope num_scope.

Definition setRange ax : axis num :=
  let opts := ax_options ax in
  let d := ax_data ax in
  let min := to_num (if is_null (o_min opts) then datamin d else o_min opts) in
  let max := to_num (if is_null (o_max opts) then datamax d else o_max opts) in
  let delta := max - min in
  if delta =? ⟨0⟩ then
    let widen := if max =? ⟨0⟩ then ⟨1⟩ else of_ratio 1 100 in
    let min := if is_null (o_min opts) then min - widen else min in
    let max := if is_null (o_max opts) || negb (is_null (o_min opts)) then max + widen else max in
    with_range ax min max
  else
    match o_autoscaleMargin opts with
    | None => with_range ax min max
    | Some margin =>
        let min :=
          if is_null (o_min opts) then
            let min := min - delta * margin in
            if (min <? ⟨0⟩) && negb (is_null (datamin d)) && (to_num (datamin d) >=? ⟨0⟩)
            then ⟨0⟩ else min
          else min in
        let max :=
          if is_null (o_max opts) then
            let max := max + delta * margin in
            if (max >? ⟨0⟩) && negb (is_null (datamax d)) && (to_num (datamax d) <=? ⟨0⟩)
            then ⟨0⟩ else max
          else max in
        with_range ax min max
    end.

(** [t], the transform of the axis or the identity. *)
Definition transform ax (x : num) : num :=
  match o_transform (ax_options ax) with Some t => t x | None => x end.

Definition setTransformationHelpers (plotWidth plotHeight : num) ax : axis num :=
  let t := transform ax in
  let span := nabs (t (ax_max ax) - t (ax_min ax)) in
  let v :=
    match ax_direction ax with
    | DirX => let s := plotWidth / span in
              AxisView (ax_min ax) (ax_max ax) s (nmin (t (ax_max ax)) (t (ax_min ax))) s
    | DirY => let s := plotHeight / span in
              AxisView (ax_min ax) (ax_max ax) (- s) (nmax (t (ax_max ax)) (t (ax_min ax))) s
    end in
  with_view ax v.

(** [axis.p2c] and [axis.c2p] *)
Definition p2c ax (p : num) : num := (transform ax p - v_m (ax_view ax)) * v_s (ax_view ax).
Definition inverse ax (x : num) : num :=
  match o_inverseTransform (ax_options ax) with Some it => it x | None => x end.
Definition c2p ax (c : num) : num := inverse ax (v_m (ax_view ax) + c / v_s (ax_view ax)).

Definition snapRangeToTicks ax (ticks : list (num * string)) : axis num :=
  let opts := ax_options ax in
  match o_autoscaleMargin opts, head ticks, last ticks with
  | Some margin, Some first, Some final =>
      if ntruthy margin then
        with_range ax
          (if is_null (o_min opts) then nmin (ax_min ax) first.1 else ax_min ax)
          (if is_null (o_max opts) && (1 <? length ticks)%nat then nmax (ax_max ax) final.1
           else ax_max ax)
      else ax
  | _, _, _ => ax
  end.

(** ** Conversion of positions *)

(** Properties [x1], [y2], ... of the result of [canvasToAxisCoords], with
    [x] and [y] for the first axes. *)
Definition axis_key (dir : direction) (n : nat) : string :=
  (match dir with DirX => "x" | DirY => "y" end) +:+ dec_nat (Z.of_nat n).

Fixpoint c2p_axes (axs : list (option (axis num))) (c : num) : list (string * num) :=
  match axs with
  | [] => []
  | Some ax :: axs =>
      if ax_used ax then (axis_key (ax_direction ax) (ax_n ax), c2p ax c) :: c2p_axes axs c
      else c2p_axes axs c
  | None :: axs => c2p_axes axs c
  end.

(** The property [x1], when present, also under the name [x]. *)
Definition first_alias (dir : direction) (l : list (string * num)) : list (string * num) :=
  match snd <$> list_find (λ e : string * num, e.1 = axis_key dir 1) l with
  | Some e => [(match dir with DirX => "x" | DirY => "y" end, e.2)]
  | None => []
  end.

Definition canvasToAxisCoords (p : plot num) (left top : num) : list (string * num) :=
  let xs := c2p_axes (p_xaxes p) left in
  let ys := c2p_axes (p_yaxes p) top in
  xs ++ ys ++ first_alias DirX xs ++ first_alias DirY ys.

Definition lookup_pos (pos : list (string * jsv num)) (k : string) : jsv num :=
  match snd <$> list_find (λ e : string * jsv num, e.1 = k) pos with
  | Some e => e.2
  | None => Undef
  end.

(** The first used axis of a direction named in [pos]. *)
Fixpoint p2c_axes (axs : list (option (axis num))) (pos : list (string * jsv num)) : option num :=
  match axs with
  | [] => None
  | None :: axs => p2c_axes axs pos
  | Some ax :: axs =>
      if ax_used ax then
        let key := axis_key (ax_direction ax) (ax_n ax) in
        let key := if is_null (lookup_pos pos key) && (ax_n ax =? 1)%nat
                   then match ax_direction ax with DirX => "x" | DirY => "y" end else key in
        if is_null (lookup_pos pos key) then p2c_axes axs pos
        else Some (p2c ax (to_num (lookup_pos pos key)))
      else p2c_axes axs pos
  end.

(** [left] and [top] of the result. *)
Definition axisToCanvasCoords (p : plot num) (pos : list (string * jsv num)) : option num * option num :=
  (p2c_axes (p_xaxes p) pos, p2c_axes (p_yaxes p) pos).
End axis.

(** ** Lemmas *)

Section axis_lemmas.
Local Open Scope Q_scope.
Context `{NumText xq}.
Implicit Types ax : axis xq.

(** The view of a finite range: [m] is the transformed end drawn at zero and
    [s] the signed scale, in pixels. *)
Lemma helpers_view ax w h (f : Q → Q) a b :
  0 < w → 0 < h → (∀ q, transform ax (XFin q) = XFin (f q)) →
  ax_min ax = XFin a → ax_max ax = XFin b → ¬ f a == f b →
  let ax' := setTransformationHelpers (XFin w) (XFin h) ax in
  ∃ m s lo hi, v_m (ax_view ax') = XFin m ∧ v_s (ax_view ax') = XFin s ∧ lo < hi ∧
    ((lo == f a ∧ hi == f b) ∨ (lo == f b ∧ hi == f a)) ∧
    match ax_direction ax with
    | DirX => m == lo ∧ s * (hi - lo) == w
    | DirY => m == hi ∧ s * (lo - hi) == h
    end ∧ ¬ s == 0.
Proof.
  intros Hw Hh Hf Ha Hb Hne. unfold setTransformationHelpers. rewrite Ha, Hb, !Hf.
  assert (Hs : nsub (XFin (f b)) (XFin (f a)) = XFin (f b - f a)) by done. rewrite Hs.
  rewrite Exact.abs_fin.
  destruct (Qlt_le_dec (f a) (f b)) as [L|L].
  - assert (nltb (XFin (f b - f a)) (XFin 0) = false) as -> by (xq; lra).
    assert (D : ¬ f b - f a == 0) by lra.
    assert (Hmin : nltb (XFin (f a)) (XFin (f b)) = true) by by xq.
    assert (Hmax : nltb (XFin (f b)) (XFin (f a)) = false) by (xq; lra).
    destruct (ax_direction ax); rewrite Exact.div_fin by done; cbn [ax_view with_view v_m v_s].
    + exists (f a), (w / (f b - f a)), (f a), (f b).
      unfold nmin. rewrite !Exact.nis_nan_fin, Hmin. repeat split; try lra; try (by left); try (field; intros ?; lra).
      intros E. assert (X : w / (f b - f a) * (f b - f a) == w) by (field; intros ?; lra). rewrite E in X. lra.
    + exists (f b), (- (h / (f b - f a))), (f a), (f b).
      unfold nmax. rewrite !Exact.nis_nan_fin, Hmax. repeat split; try lra; try (by left); try (field; intros ?; lra).
      intros E. assert (X : - (h / (f b - f a)) * (f a - f b) == h) by (field; intros ?; lra). rewrite E in X. lra.
  - assert (L' : f b < f a) by (destruct (Qle_lt_or_eq _ _ L); [done|]; exfalso; apply Hne; lra).
    assert (nltb (XFin (f b - f a)) (XFin 0) = true) as -> by (xq; lra).
    assert (D : ¬ - (f b - f a) == 0) by lra.
    assert (Hmin : nltb (XFin (f a)) (XFin (f b)) = false) by (xq; lra).
    assert (Hmax : nltb (XFin (f b)) (XFin (f a)) = true) by by xq.
    destruct (ax_direction ax); rewrite Exact.div_fin by done; cbn [ax_view with_view v_m v_s].
    + exists (f b), (w / - (f b - f a)), (f b), (f a).
      unfold nmin. rewrite !Exact.nis_nan_fin, Hmin. repeat split; try lra; try (by right); try (field; intros ?; lra).
      intros E. assert (X : w / - (f b - f a) * (f a - f b) == w) by (field; intros ?; lra). rewrite E in X. lra.
    + exists (f a), (- (h / - (f b - f a))), (f b), (f a).
      unfold nmax. rewrite !Exact.nis_nan_fin, Hmax. repeat split; try lra; try (by right); try (field; intros ?; lra).
      intros E. assert (X : - (h / - (f b - f a)) * (f b - f a) == h) by (field; intros ?; lra). rewrite E in X. lra.
Qed.

Lemma transform_helpers ax w h x :
  transform (setTransformationHelpers w h ax) x = transform ax x.
Proof. unfold setTransformationHelpers. by destruct (ax_direction ax). Qed.

Lemma inverse_helpers ax w h x : inverse (setTransformationHelpers w h ax) x = inverse ax x.
Proof. unfold setTransformationHelpers. by destruct (ax_direction ax). Qed.
End axis_lemmas.

(** ** Properties *)

Local Open Scope Q_scope.

(** An axis whose range is not set by the user gets a proper interval that
    contains its data, whatever the margin; and an interval of non-negative
    data of positive width does not extend below zero. *)
Theorem setRange_auto `{NumText xq} (ax : axis xq) lo hi margin :
  is_null (o_min (ax_options ax)) = true → is_null (o_max (ax_options ax)) = true →
  datamin (ax_data ax) = Number (XFin lo) → datamax (ax_data ax) = Number (XFin hi) →
  o_autoscaleMargin (ax_options ax) = XFin <$> margin → (∀ m, margin = Some m → 0 <= m) →
  lo <= hi →
  ∃ mn mx, ax_min (setRange ax) = XFin mn ∧ ax_max (setRange ax) = XFin mx ∧
    mn < mx ∧ mn <= lo ∧ hi <= mx ∧ (0 <= lo → lo < hi → 0 <= mn).
Proof.
  intros Emin Emax Edmin Edmax Em Hm Hle. unfold setRange.
  rewrite Emin, Emax, Edmin, Edmax, Em. cbn [is_null negb to_num orb].
  change (XFin hi - XFin lo)%num with (XFin (hi - lo)).
  change (⟨0⟩ : xq)%num with (XFin 0). change (⟨1⟩ : xq)%num with (XFin 1).
  change (of_ratio 1 100 : xq) with (XFin (1 # 100)).
  destruct (neqb (XFin (hi - lo)) (XFin 0)) eqn:Ed; xq_hyps.
  - destruct (neqb (XFin hi) (XFin 0)); simpl; eexists _, _; repeat split; lra.
  - destruct margin as [m|]; simpl; [|eexists _, _; repeat split; lra].
    specialize (Hm m eq_refl).
    change (XFin (lo - (hi - lo) * m)) with (nsub (XFin lo) (XFin ((hi - lo) * m))).
    assert (P : 0 <= (hi - lo) * m) by (apply Qmult_le_0_compat; lra).
    unfold nsub, Exact.xq_num, Exact.sub.
    set (d := (hi - lo) * m) in *. clearbody d.
    destruct (nltb (XFin (lo - d)) (XFin 0)) eqn:C1, (nleb (XFin 0) (XFin lo)) eqn:C2,
      (nltb (XFin 0) (XFin (hi + d))) eqn:C3, (nleb (XFin hi) (XFin 0)) eqn:C4;
      simpl; eexists _, _; xq_hyps; repeat split; lra.
Qed.

Definition sample_y : axis xq :=
  with_data (new_axis 1 DirY default_yaxis) (AxisData (Number (XFin 3)) (Number (XFin 7)) true).

Lemma setRange_auto_witness :
  let _ := Exact.exact_text in
  ∃ mn mx, ax_min (setRange sample_y) = XFin mn ∧ ax_max (setRange sample_y) = XFin mx ∧
    mn < mx ∧ mn <= 3 ∧ 7 <= mx ∧ (0 <= 3 → 3 < 7 → 0 <= mn).
Proof.
  apply (@setRange_auto Exact.exact_text sample_y 3 7 (Some (2 # 100))); try reflexivity;
    vm_compute; [intros m [= <-]|]; discriminate.
Defined.

(** C9: once the conversion of an axis is set up for a plot area, coordinates
    convert both ways ([c2p] inverts [p2c]), and points within the range are
    drawn within the area: an x between zero and the width, a y between zero
    and the height. *)
Theorem p2c_roundtrip (ax : axis xq) w h (f : Q → Q) a b p :
  0 < w → 0 < h → (∀ q, transform ax (XFin q) = XFin (f q)) →
  (∀ q q', q' == f q → neqb (inverse ax (XFin q')) (XFin q) = true) →
  ax_min ax = XFin a → ax_max ax = XFin b → ¬ f a == f b →
  let ax' := setTransformationHelpers (XFin w) (XFin h) ax in
  neqb (c2p ax' (p2c ax' (XFin p))) (XFin p) = true ∧
  ((f a <= f p <= f b ∨ f b <= f p <= f a) →
   nleb (XFin 0) (p2c ax' (XFin p)) = true ∧
   nleb (p2c ax' (XFin p)) (XFin (match ax_direction ax with DirX => w | DirY => h end)) = true).
Proof.
  intros Hw Hh Hf Hi Ha Hb Hne ax'.
  destruct (helpers_view ax w h f a b Hw Hh Hf Ha Hb Hne)
    as (m & s & lo & hi & Em & Es & Hlt & Hends & Hdir & Hs0).
  assert (Ep : p2c ax' (XFin p) = XFin ((f p - m) * s)).
  { unfold p2c, ax'. by rewrite transform_helpers, Hf, Em, Es. }
  rewrite Ep. split.
  - unfold c2p, ax'. rewrite Em, Es, Exact.div_fin, inverse_helpers by done. apply Hi. field. done.
  - intros Hp. assert (R : lo <= f p <= hi) by (destruct Hends as [[E1 E2]|[E1 E2]], Hp as [[]|[]]; split; lra).
    clear Hends Hp. destruct R as [R1 R2].
    destruct (ax_direction ax), Hdir as [Hm Hscale].
    + assert (S : 0 < s) by nra. assert (0 <= f p - m <= hi - lo) by lra. split; xq; nra.
    + assert (S : s < 0) by nra. assert (lo - hi <= f p - m <= 0) by lra. split; xq; nra.
Qed.

Definition sample_x : axis xq :=
  with_range (new_axis 1 DirX default_xaxis) (XFin 10) (XFin 30).

Lemma p2c_roundtrip_witness :
  let ax' := setTransformationHelpers (XFin 400) (XFin 300) sample_x in
  neqb (c2p ax' (p2c ax' (XFin 15))) (XFin 15) = true ∧
  ((10 <= 15 <= 30 ∨ 30 <= 15 <= 10) →
   nleb (XFin 0) (p2c ax' (XFin 15)) = true ∧ nleb (p2c ax' (XFin 15)) (XFin 400) = true).
Proof.
  apply (p2c_roundtrip sample_x 400 300 (λ q, q) 10 30 15); try reflexivity; [|lra].
  intros q q' E. apply Exact.eqb_fin. exact E.
Defined.
