(* ===== verification/FlotTicks.v ===== *)
(** Tick generation in [static/flot/jquery.flot.js]: [setupTickGeneration]
    with its base-10, time and aligned generators and its formatters, and
    [setTicks]. *)

From S2P Require Import Prelude Numbers ExactNum JsText JsValue JsDate FlotFormat FlotModel FlotAxis.
From Stdlib Require Import Ascii QArith Qround Lqa.

#[local] Open Scope nat_scope.

(** How the ticks of an axis are made: [generator] of the code. *)
Inductive tick_gen (num : Type) : Type := GenTime | GenBase | GenAligned (other : axis num).
Arguments GenTime {num}. Arguments GenBase {num}. Arguments GenAligned {num} _.

Section ticks.
Context {num : Type} `{Num num} `{NumText num} `{MathLib num}.
Implicit Types ax : axis num.
Local Open Scope num_scope.

Definition LN10 : num := of_ratio 2302585092994046 1000000000000000.

(** [Math.floor(Math.log(x) / Math.LN10)] *)
Definition log10_floor (x : num) : num := nfloor (math_log x / LN10).

(** ** Units of time *)

Definition timeUnitSize (unit : string) : num :=
  if String.eqb unit "second" then ⟨1000⟩
  else if String.eqb unit "minute" then ⟨60000⟩
  else if String.eqb unit "hour" then ⟨3600000⟩
  else if String.eqb unit "day" then ⟨86400000⟩
  else if String.eqb unit "month" then ⟨2592000000⟩
  else if String.eqb unit "year" then of_ratio 3652425 10000 * ⟨24⟩ * ⟨60⟩ * ⟨60⟩ * ⟨1000⟩
  else nnan.

Definition spec : list (num * string) :=
  [(⟨1⟩, "second"); (⟨2⟩, "second"); (⟨5⟩, "second"); (⟨10⟩, "second"); (⟨30⟩, "second");
   (⟨1⟩, "minute"); (⟨2⟩, "minute"); (⟨5⟩, "minute"); (⟨10⟩, "minute"); (⟨30⟩, "minute");
   (⟨1⟩, "hour"); (⟨2⟩, "hour"); (⟨4⟩, "hour"); (⟨8⟩, "hour"); (⟨12⟩, "hour");
   (⟨1⟩, "day"); (⟨2⟩, "day"); (⟨3⟩, "day");
   (of_ratio 1 4, "month"); (of_ratio 1 2, "month"); (⟨1⟩, "month");
   (⟨2⟩, "month"); (⟨3⟩, "month"); (⟨6⟩, "month");
   (⟨1⟩, "year")].

Definition spec_size (e : num * string) : num := e.1 * timeUnitSize e.2.

(** The loop over the allowed sizes: the first one that is large enough, or
    the last. *)
Fixpoint pick_size (delta minSize : num) (l : list (num * string)) : num * string :=
  match l with
  | [] => (nnan, "")
  | [e] => e
  | e :: ((e' :: _) as l) =>
      if (delta <? (spec_size e + spec_size e') / ⟨2⟩) && (spec_size e >=? minSize) then e
      else pick_size delta minSize l
  end.

(** [x[0]] and [x[1]] of a tick size, and its value as a number. *)
Definition ts_count (t : tick_size num) : num :=
  match t with TickUnit c _ => c | TickNumber _ => nnan end.
Definition ts_unit (t : tick_size num) : string :=
  match t with TickUnit _ u => u | TickNumber _ => "" end.
Definition ts_num (t : tick_size num) : num :=
  match t with TickNumber x => x | TickUnit _ _ => nnan end.

(** [opts.tickSize || size] *)
Definition ts_or (o : option (tick_size num)) (size : tick_size num) : tick_size num :=
  match o with
  | Some (TickNumber x) => if ntruthy x then TickNumber x else size
  | Some t => t
  | None => size
  end.

Definition min_size (opts : axis_options num) : num :=
  match o_minTickSize opts with
  | None => ⟨0⟩
  | Some m =>
      match o_tickSize opts with
      | Some (TickNumber x) => x
      | _ => ts_count m * timeUnitSize (ts_unit m)
      end
  end.

(** The size of several years. *)
Definition year_size (delta : num) : num :=
  let years := delta / timeUnitSize "year" in
  let magn := math_pow ⟨10⟩ (log10_floor years) in
  let norm := years / magn in
  (if norm <? of_ratio 3 2 then ⟨1⟩ else if norm <? ⟨3⟩ then ⟨2⟩
   else if norm <? of_ratio 15 2 then ⟨5⟩ else ⟨10⟩) * magn.

Definition time_tick_size (opts : axis_options num) (delta : num) : tick_size num :=
  let '(size, unit) := pick_size delta (min_size opts) spec in
  let size := if String.eqb unit "year" then year_size delta else size in
  ts_or (o_tickSize opts) (TickUnit size unit).

(** ** The time generator *)

(** The date of the first tick. *)
Definition time_start (ts : tick_size num) (min : num) : option Z :=
  let n := ts_count ts in
  let unit := ts_unit ts in
  let floor_field get set d := set_field set d (floorInBase (get_field get d) n) in
  let d := date_of min in
  let step := n * timeUnitSize unit in
  let d := if String.eqb unit "second" then floor_field getUTCSeconds setUTCSeconds d else d in
  let d := if String.eqb unit "minute" then floor_field getUTCMinutes setUTCMinutes d else d in
  let d := if String.eqb unit "hour" then floor_field getUTCHours setUTCHours d else d in
  let d := if String.eqb unit "month" then floor_field getUTCMonth setUTCMonth d else d in
  let d := if String.eqb unit "year" then floor_field getUTCFullYear setUTCFullYear d else d in
  let reset (c : bool) set v d := if c then set_field set d v else d in
  let d := set_field setUTCMilliseconds d ⟨0⟩ in
  let d := reset (step >=? timeUnitSize "minute") setUTCSeconds ⟨0⟩ d in
  let d := reset (step >=? timeUnitSize "hour") setUTCMinutes ⟨0⟩ d in
  let d := reset (step >=? timeUnitSize "day") setUTCHours ⟨0⟩ d in
  let d := reset (step >=? timeUnitSize "day" * ⟨4⟩) setUTCDate ⟨1⟩ d in
  reset (step >=? timeUnitSize "year") setUTCMonth ⟨0⟩ d.

(** The next tick: the date moves and [carry] keeps the hours dropped. *)
Definition time_next (ts : tick_size num) (d : option Z) (carry : num) : option Z * num :=
  let n := ts_count ts in
  let unit := ts_unit ts in
  let v := getTime d in
  if String.eqb unit "month" then
    if n <? ⟨1⟩ then
      let d := set_field setUTCDate d ⟨1⟩ in
      let start := getTime d in
      let d := set_field setUTCMonth d (get_field getUTCMonth d + ⟨1⟩) in
      let final := getTime d in
      let d := date_of (v + carry * timeUnitSize "hour" + (final - start) * n) in
      (set_field setUTCHours d ⟨0⟩, get_field getUTCHours d)
    else (set_field setUTCMonth d (get_field getUTCMonth d + n), carry)
  else if String.eqb unit "year" then
    (set_field setUTCFullYear d (get_field getUTCFullYear d + n), carry)
  else (date_of (v + n * timeUnitSize unit), carry).

(** [do { ... } while (v < axis.max && v != prev)] *)
Fixpoint time_loop (fuel : nat) (ts : tick_size num) (max : num) (d : option Z) (carry prev : num)
    : result (list num) :=
  match fuel with
  | O => NoFuel
  | S fuel =>
      let v := getTime d in
      let '(d, carry) := time_next ts d carry in
      if (v <? max) && negb (v =? prev) then
        vs ← time_loop fuel ts max d carry v; Ok (v :: vs)
      else Ok [v]
  end.

Definition time_ticks (fuel : nat) ax : result (list num) :=
  let ts := t_tickSize (ax_ticks ax) in
  time_loop fuel ts (ax_max ax) (time_start ts (ax_min ax)) ⟨0⟩ nnan.

(** ** The base-10 generator *)

Fixpoint base_loop (fuel : nat) (start size max : num) (i : Z) (prev : num) : result (list num) :=
  match fuel with
  | O => NoFuel
  | S fuel =>
      let v := start + of_Z i * size in
      if (v <? max) && negb (v =? prev) then
        vs ← base_loop fuel start size max (i + 1) v; Ok (v :: vs)
      else Ok [v]
  end.

Definition base_ticks (fuel : nat) ax : result (list num) :=
  let size := ts_num (t_tickSize (ax_ticks ax)) in
  base_loop fuel (floorInBase (ax_min ax) size) size (ax_max ax) 0 nnan.

(** ** The aligned generator *)

Definition aligned_tick (other ax : axis num) (v : num) : num :=
  let v := (v - ax_min other) / (ax_max other - ax_min other) in
  ax_min ax + v * (ax_max ax - ax_min ax).

Definition generate (fuel : nat) (gen : tick_gen num) ax : result (list num) :=
  match gen with
  | GenTime => time_ticks fuel ax
  | GenBase => base_ticks fuel ax
  | GenAligned other =>
      match t_ticks (ax_ticks other) with
      | Some ts => Ok (map (λ t, aligned_tick other ax t.1) ts)
      | None => Throw "TypeError"
      end
  end.

(** ** Choice of the tick size on the base-10 axis *)

(** The decimals and the size of the ticks for an interval [delta]. *)
Definition base_tick_size (opts : axis_options num) (delta : num) : num * num :=
  let maxDec := o_tickDecimals opts in
  let dec := - log10_floor delta in
  let dec := match maxDec with Some m => if dec >? m then m else dec | None => dec end in
  let magn := math_pow ⟨10⟩ (- dec) in
  let norm := delta / magn in
  let '(size, dec) :=
    if norm <? of_ratio 3 2 then (⟨1⟩, dec)
    else if norm <? ⟨3⟩ then
      if (norm >? of_ratio 9 4) &&
         match maxDec with Some m => dec + ⟨1⟩ <=? m | None => true end
      then (of_ratio 5 2, dec + ⟨1⟩) else (⟨2⟩, dec)
    else if norm <? of_ratio 15 2 then (⟨5⟩, dec)
    else (⟨10⟩, dec) in
  let size := size * magn in
  let size := match o_minTickSize opts with
              | Some (TickNumber m) => if size <? m then m else size
              | _ => size
              end in
  (nmax ⟨0⟩ (default dec maxDec), size).

(** ** Formatters *)

(** [x.toFixed(d)] *)
Definition toFixed (x d : num) : result string :=
  match to_integer d with
  | Some z => if ((0 <=? z) && (z <=? 20))%Z then Ok (to_fixed x z) else Throw "RangeError"
  | None => if nis_nan d then Ok (to_fixed x 0) else Throw "RangeError"
  end.

Definition time_format ax : string :=
  let opts := ax_options ax in
  let ts := t_tickSize (ax_ticks ax) in
  let t := ts_count ts * timeUnitSize (ts_unit ts) in
  let span := ax_max ax - ax_min ax in
  let suffix := if o_twelveHourClock opts then " %p" else "" in
  if t <? timeUnitSize "minute" then "%h:%M:%S" +:+ suffix
  else if t <? timeUnitSize "day" then
    if span <? ⟨2⟩ * timeUnitSize "day" then "%h:%M" +:+ suffix else "%b %d %h:%M" +:+ suffix
  else if t <? timeUnitSize "month" then "%b %d"
  else if t <? timeUnitSize "year" then
    if span <? timeUnitSize "year" then "%b" else "%b %y"
  else "%y".

(** [axis.tickFormatter] *)
Definition format_tick ax (v : num) : result string :=
  let opts := ax_options ax in
  match o_tickFormatter opts with
  | Some f => Ok (f v)
  | None =>
      if o_time opts then
        Ok (formatDate (date_of v) (default (time_format ax) (o_timeformat opts)) (o_monthNames opts))
      else toFixed v (t_tickDecimals (ax_ticks ax))
  end.

(** ** Setup *)

Definition with_tick_size ax (size : tick_size num) (decimals : num) : axis num :=
  with_ticks ax (AxisTicks size decimals (t_ticks (ax_ticks ax))).

Definition with_decimals ax (decimals : num) : axis num :=
  with_tick_size ax (t_tickSize (ax_ticks ax)) decimals.

(** [/\..*0$/.test(s)] *)
Fixpoint has_final_zero (seen_dot : bool) (s : string) : bool :=
  match s with
  | "" => false
  | String c "" => seen_dot && (c =? "0")%char
  | String c s => has_final_zero (seen_dot || (c =? ".")%char) s
  end.

(** [typeof opts.ticks == "number" && opts.ticks > 0] *)
Definition ticks_number (opts : axis_options num) : option num :=
  match o_ticks opts with
  | TicksNumber n => if n >? ⟨0⟩ then Some n else None
  | _ => None
  end.

Definition estimated_ticks (canvasWidth canvasHeight : num) ax : num :=
  match ticks_number (ax_options ax) with
  | Some n => n
  | None => of_ratio 3 10 *
            math_sqrt (match ax_direction ax with DirX => canvasWidth | DirY => canvasHeight end)
  end.

(** The size of the ticks and the generator of the axis on its own. *)
Definition own_ticks ax (delta : num) : axis num * tick_gen num :=
  let opts := ax_options ax in
  if o_time opts then
    (with_tick_size ax (time_tick_size opts delta) (t_tickDecimals (ax_ticks ax)), GenTime)
  else
    let '(decimals, size) := base_tick_size opts delta in
    (with_tick_size ax (ts_or (o_tickSize opts) (TickNumber size)) decimals, GenBase).

(** The extra decimal of aligned ticks. *)
Definition aligned_decimals (fuel : nat) (gen : tick_gen num) ax (delta : num) : result (axis num) :=
  match o_tickDecimals (ax_options ax) with
  | Some _ => Ok ax
  | None =>
      let extraDec := nmax ⟨0⟩ (- log10_floor delta + ⟨1⟩) in
      ts ← generate fuel gen ax;
      match ts with
      | t0 :: t1 :: _ =>
          str ← toFixed (t1 - t0) extraDec;
          Ok (if has_final_zero false str then ax else with_decimals ax extraDec)
      | _ => Ok (with_decimals ax extraDec)
      end
  end.

(** The axis that [alignTicksWithAxis] names, among those of the direction. *)
Definition other_axis (axs : axes num) ax : option (axis num) :=
  n ← o_alignTicksWithAxis (ax_options ax);
  other ← (if (n =? 0)%nat then None else get_axis axs n);
  if ax_used other && negb (n =? ax_n ax)%nat then Some other else None.

Definition setupTickGeneration (fuel : nat) (canvasWidth canvasHeight : num) (axs : axes num) ax
    : result (axis num * tick_gen num) :=
  let delta := (ax_max ax - ax_min ax) / estimated_ticks canvasWidth canvasHeight ax in
  let '(ax, gen) := own_ticks ax delta in
  match other_axis axs ax with
  | None => Ok (ax, gen)
  | Some other =>
      niceTicks ← generate fuel gen ax;
      let opts := ax_options ax in
      let ax :=
        match head niceTicks, last niceTicks with
        | Some first, Some final =>
            let mn := if is_null (o_min opts) then nmin (ax_min ax) first else ax_min ax in
            let mx := if is_null (o_max opts) && (1 <? length niceTicks)%nat
                      then nmax (ax_max ax) final else ax_max ax in
            with_range ax mn mx
        | _, _ => ax
        end in
      let gen := GenAligned other in
      ax ← aligned_decimals fuel gen ax delta; Ok (ax, gen)
  end.

(** ** Setting the ticks *)

(** The ticks supplied by the options or generated, with optional labels. *)
Definition supplied_ticks (fuel : nat) (gen : tick_gen num) ax
    : result (list (jsv num * option string)) :=
  let generated := vs ← generate fuel gen ax; Ok (map (λ v, (Number v, None)) vs) in
  match o_ticks (ax_options ax) with
  | TicksAuto => generated
  | TicksNumber n => if n >? ⟨0⟩ then generated else Ok []
  | TicksOff => Ok []
  | TicksGiven ts => Ok ts
  | TicksFun f => Ok (f (ax_min ax) (ax_max ax))
  end.

Fixpoint label_ticks ax (ts : list (jsv num * option string)) : result (list (num * string)) :=
  match ts with
  | [] => Ok []
  | (t, label) :: ts =>
      let v := to_num t in
      label ← match label with Some l => Ok l | None => format_tick ax v end;
      rest ← label_ticks ax ts;
      Ok (if nis_nan v then rest else (v, label) :: rest)
  end.

Definition setTicks (fuel : nat) (gen : tick_gen num) ax : result (axis num) :=
  ts ← supplied_ticks fuel gen ax;
  ticks ← label_ticks ax ts;
  Ok (with_ticks ax (AxisTicks (t_tickSize (ax_ticks ax)) (t_tickDecimals (ax_ticks ax)) (Some ticks))).

(** The treatment of one allocated axis in [setupGrid]. *)
Definition tick_axis (fuel : nat) (canvasWidth canvasHeight : num) (axs : axes num) ax
    : result (axis num) :=
  '(ax, gen) ← setupTickGeneration fuel canvasWidth canvasHeight axs ax;
  ax ← setTicks fuel gen ax;
  Ok (snapRangeToTicks ax (default [] (t_ticks (ax_ticks ax)))).
End ticks.

(** ** Lemmas: the base-10 generator on exact numbers *)

Section base_lemmas.
Local Open Scope Q_scope.

(** The [i]-th tick from [start]. *)
Definition nth_tick (start size : Q) (i : nat) : Q := start + inject_Z (Z.of_nat i) * size.

Definition tick_values (start size : Q) (k n : nat) : list xq :=
  map (λ i, XFin (nth_tick start size i)) (seq k n).

Lemma nth_tick_S start size i : nth_tick start size (S i) == nth_tick start size i + size.
Proof. unfold nth_tick. rewrite Nat2Z.inj_succ, <- Z.add_1_r, inject_Z_plus. change (inject_Z 1) with 1. ring. Qed.

Lemma nth_tick_mono start size i j : 0 < size → (i ≤ j)%nat → nth_tick start size i <= nth_tick start size j.
Proof.
  intros Hs Hij. unfold nth_tick.
  assert (inject_Z (Z.of_nat i) <= inject_Z (Z.of_nat j)) by (rewrite <- Zle_Qle; lia). nra.
Qed.

Lemma base_loop_spec start size b (n m k fuel : nat) prev :
  0 < size → (∀ i, (i < n)%nat → nth_tick start size i < b) → b <= nth_tick start size n →
  (k + m = n)%nat → (m < fuel)%nat →
  (prev = XNaN ∨ ∃ j, (j < k)%nat ∧ prev = XFin (nth_tick start size j)) →
  base_loop fuel (XFin start) (XFin size) (XFin b) (Z.of_nat k) prev
  = Ok (tick_values start size k (S m)).
Proof.
  intros Hs Hlt Hge. revert k fuel prev. induction m as [|m IH]; intros k fuel prev Hk Hf Hp.
  - destruct fuel as [|fuel]; [lia|]. cbn [base_loop].
    change (nadd (XFin start) (nmul (of_Z (Z.of_nat k)) (XFin size))) with (XFin (nth_tick start size k)).
    assert (nltb (XFin (nth_tick start size k)) (XFin b) = false) as ->; [|done].
    xq. by replace k with n by lia.
  - destruct fuel as [|fuel]; [lia|]. cbn [base_loop].
    change (nadd (XFin start) (nmul (of_Z (Z.of_nat k)) (XFin size))) with (XFin (nth_tick start size k)).
    assert (nltb (XFin (nth_tick start size k)) (XFin b) = true) as -> by (xq; apply Hlt; lia).
    assert (neqb (XFin (nth_tick start size k)) prev = false) as ->.
    { destruct Hp as [->|(j & Hj & ->)]; [done|]. xq.
      assert (M : nth_tick start size (S j) <= nth_tick start size k) by (apply nth_tick_mono; [done|lia]).
      rewrite nth_tick_S in M. lra. }
    cbn [andb negb]. replace (Z.of_nat k + 1)%Z with (Z.of_nat (S k)) by lia.
    rewrite (IH (S k)); [done|lia|lia|]. right. exists k. split; [lia|done].
Qed.

Lemma Qfloor_div a size : 0 < size →
  let k := inject_Z (Qfloor (a / size)) in size * k <= a ∧ a < size * k + size.
Proof.
  intros Hs k. pose proof (Qfloor_le (a / size)) as L. pose proof (Qlt_floor (a / size)) as U.
  rewrite inject_Z_plus in U. fold k in L, U.
  assert (E : a / size * size == a) by (field; lra).
  set (q := a / size) in *. clearbody q k. change (inject_Z 1) with 1 in U. split; nra.
Qed.

(** The number of the first tick at or beyond the end. *)
Lemma tick_count start size b : 0 < size → start <= b →
  ∃ n, (∀ i, (i < n)%nat → nth_tick start size i < b) ∧ b <= nth_tick start size n ∧
       inject_Z (Z.of_nat n) * size < b - start + size.
Proof.
  intros Hs Hb. set (z := Qceiling ((b - start) / size)).
  assert (E : (b - start) / size * size == b - start) by (field; lra).
  pose proof (Qle_ceiling ((b - start) / size)) as L. fold z in L.
  pose proof (Qceiling_lt ((b - start) / size)) as U. fold z in U.
  set (q := (b - start) / size) in *. clearbody q.
  unfold Z.sub in U. rewrite inject_Z_plus in U. change (inject_Z (-(1))) with (-(1)) in U.
  assert (Hq : 0 <= q) by nra.
  assert (Hz : (0 <= z)%Z).
  { assert (0 <= inject_Z z) as H0 by lra. change 0 with (inject_Z 0) in H0. by rewrite <- Zle_Qle in H0. }
  exists (Z.to_nat z). unfold nth_tick. rewrite Z2Nat.id by done. split; [|split].
  - intros i Hi. assert (Hi' : inject_Z (Z.of_nat i) + 1 <= inject_Z z).
    { change 1 with (inject_Z 1). rewrite <- inject_Z_plus, <- Zle_Qle. lia. }
    nra.
  - nra.
  - nra.
Qed.

(** The ticks of a finite range: multiples of the size, from the last one at
    or below the minimum to the first one at or above the maximum. *)
Lemma base_ticks_spec `{MathLib xq} (ax : axis xq) size a b :
  0 < size → ax_min ax = XFin a → ax_max ax = XFin b → a <= b →
  t_tickSize (ax_ticks ax) = TickNumber (XFin size) →
  ∃ start n, (∀ fuel, (n < fuel)%nat → base_ticks fuel ax = Ok (tick_values start size 0 (S n))) ∧
    start == size * inject_Z (Qfloor (a / size)) ∧
    start <= a ∧ a < start + size ∧
    (∀ i, (i < n)%nat → nth_tick start size i < b) ∧ b <= nth_tick start size n ∧
    inject_Z (Z.of_nat n) * size < b - start + size.
Proof.
  intros Hs Ha Hb Hab Ht.
  destruct (Qfloor_div a size Hs) as [L U]. set (k := inject_Z (Qfloor (a / size))) in *.
  exists (size * k). destruct (tick_count (size * k) size b Hs) as (n & Hlt & Hge & Hn); [lra|].
  exists n. split; [|by repeat split].
  intros fuel Hf. unfold base_ticks, floorInBase. rewrite Ht, Ha, Hb. cbn [ts_num].
  rewrite Exact.div_fin by lra.
  change (nmul (XFin size) (nfloor (XFin (a / size)))) with (XFin (size * k)).
  apply (base_loop_spec (size * k) size b n n 0 fuel XNaN); auto.
Qed.

Context `{NumText xq} `{MathLib xq}.

(** What the code relies on in [Math.log] and [Math.pow]: the power of ten of
    the integer part of the decimal logarithm of [d] is the magnitude of [d]. *)
Definition magnitude_ok (d : Q) : Prop :=
  ∃ m, math_pow (of_Z 10) (nneg (nneg (log10_floor (XFin d)))) = XFin m ∧
       0 < m ∧ m <= d ∧ d < 10 * m.

(** The tick size is within a factor of the interval asked for. *)
Lemma base_size_bounds opts d :
  o_tickDecimals opts = None → o_minTickSize opts = None → magnitude_ok d →
  ∃ size, (base_tick_size opts (XFin d)).2 = XFin size ∧ (2 # 3) * d < size ∧ size <= (5 # 3) * d.
Proof.
  intros Hd Hm (m & Em & Hm0 & Hl & Hu). unfold base_tick_size. rewrite Hd, Hm, Em.
  assert (Hne : ¬ m == 0) by lra. rewrite Exact.div_fin by done.
  assert (E : d / m * m == d) by by field. set (q := d / m) in *. clearbody q.
  change (of_ratio 3 2 : xq) with (XFin (3 # 2)). change (of_Z 3 : xq) with (XFin 3).
  change (of_ratio 9 4 : xq) with (XFin (9 # 4)). change (of_ratio 15 2 : xq) with (XFin (15 # 2)).
  change (of_ratio 5 2 : xq) with (XFin (5 # 2)). change (of_Z 1 : xq) with (XFin 1).
  change (of_Z 2 : xq) with (XFin 2). change (of_Z 5 : xq) with (XFin 5). change (of_Z 10 : xq) with (XFin 10).
  destruct (nltb (XFin q) (XFin (3 # 2))) eqn:C1; [|
  destruct (nltb (XFin q) (XFin 3)) eqn:C2; [destruct (nltb (XFin (9 # 4)) (XFin q)) eqn:C3|
  destruct (nltb (XFin q) (XFin (15 # 2))) eqn:C4]]; simpl; eexists; (split; [reflexivity|]);
    xq_hyps; split; nra.
Qed.
End base_lemmas.

(** ** Properties *)

(** C10: on an axis with a finite range and automatic base-10 ticks, the
    generated ticks are consecutive multiples of one size that start at the
    last multiple at or below the minimum and end at the first one at or above
    the maximum; the generator terminates, and the size is between 2/3 and 5/3
    of the interval asked for, so that there are at most 3/2 [noTicks] + 2
    intervals. *)
Theorem base_axis_ticks `{NumText xq} `{MathLib xq} (ax : axis xq) a b noTicks :
  (a < b)%Q → (0 < noTicks)%Q → ax_min ax = XFin a → ax_max ax = XFin b →
  o_time (ax_options ax) = false → o_tickSize (ax_options ax) = None →
  o_minTickSize (ax_options ax) = None → o_tickDecimals (ax_options ax) = None →
  magnitude_ok ((b - a) / noTicks) →
  ∃ size start n,
    let '(ax', gen) := own_ticks ax (ndiv (nsub (ax_max ax) (ax_min ax)) (XFin noTicks)) in
    (∀ fuel, n < fuel → generate fuel gen ax' = Ok (tick_values start size 0 (S n))) ∧
    (start == size * inject_Z (Qfloor (a / size)))%Q ∧
    (start <= a)%Q ∧ (a < start + size)%Q ∧
    (∀ i, i < n → (nth_tick start size i < b)%Q) ∧ (b <= nth_tick start size n)%Q ∧
    ((2 # 3) * ((b - a) / noTicks) < size)%Q ∧ (size <= (5 # 3) * ((b - a) / noTicks))%Q ∧
    (inject_Z (Z.of_nat n) < (3 # 2) * noTicks + 2)%Q.
Proof.
  intros Hab Hn Ha Hb Ht Hts Hmts Hd Hmag.
  destruct (base_size_bounds (ax_options ax) _ Hd Hmts Hmag) as (size & Es & L & U).
  assert (Hd0 : (0 < (b - a) / noTicks)%Q).
  { apply Qlt_shift_div_l; [done|lra]. }
  assert (Hs : (0 < size)%Q) by lra.
  unfold own_ticks. rewrite Ht, Hts, Ha, Hb.
  change (nsub (XFin b) (XFin a)) with (XFin (b - a)).
  rewrite Exact.div_fin by lra.
  destruct (base_tick_size (ax_options ax) (XFin ((b - a) / noTicks))) as [dec sz].
  cbn [snd] in Es. subst sz. cbn [ts_or generate].
  set (ax' := with_tick_size ax (TickNumber (XFin size)) dec).
  destruct (base_ticks_spec ax' size a b Hs Ha Hb ltac:(lra) eq_refl)
    as (start & n & A & B & C & D & E & F & G).
  exists size, start, n. repeat (split; [done|]).
  assert (Eq : ((b - a) / noTicks * noTicks == b - a)%Q) by (field; lra).
  set (d := ((b - a) / noTicks)%Q) in *. clearbody d.
  set (z := inject_Z (Z.of_nat n)) in *. clearbody z. nra.
Qed.

Definition sample_range : axis xq :=
  with_range (new_axis 1 DirY default_yaxis) (XFin 1) (XFin 11).

Lemma base_axis_ticks_witness :
  let _ := Exact.exact_text in let _ := Exact.exact_math in
  ∃ size start n,
    let '(ax', gen) := own_ticks sample_range (ndiv (nsub (ax_max sample_range) (ax_min sample_range)) (XFin 5)) in
    (∀ fuel, n < fuel → generate fuel gen ax' = Ok (tick_values start size 0 (S n))) ∧
    (start == size * inject_Z (Qfloor (1 / size)))%Q ∧
    (start <= 1)%Q ∧ (1 < start + size)%Q ∧
    (∀ i, i < n → (nth_tick start size i < 11)%Q) ∧ (11 <= nth_tick start size n)%Q ∧
    ((2 # 3) * ((11 - 1) / 5) < size)%Q ∧ (size <= (5 # 3) * ((11 - 1) / 5))%Q ∧
    (inject_Z (Z.of_nat n) < (3 # 2) * 5 + 2)%Q.
Proof.
  apply (@base_axis_ticks Exact.exact_text Exact.exact_math sample_range 1 11 5); try reflexivity.
  eexists. split; [vm_compute; reflexivity|]. repeat split; reflexivity || discriminate.
Defined.

(** Snapping the range of an axis to its ticks only widens it, by moving
    an end to the outermost tick, and leaves the ends set by the user. *)
Theorem snap_widens {num : Type} `{NumLaws num} (ax : axis num) ticks :
  nis_nan (ax_min ax) = false → nis_nan (ax_max ax) = false →
  Forall (λ t : num * string, nis_nan t.1 = false) ticks →
  let ax' := snapRangeToTicks ax ticks in
  nleb (ax_min ax') (ax_min ax) = true ∧ nleb (ax_max ax) (ax_max ax') = true ∧
  (ax_min ax' = ax_min ax ∨ ∃ t, head ticks = Some t ∧ ax_min ax' = t.1) ∧
  (ax_max ax' = ax_max ax ∨ ∃ t, last ticks = Some t ∧ ax_max ax' = t.1) ∧
  (is_null (o_min (ax_options ax)) = false → ax_min ax' = ax_min ax) ∧
  (is_null (o_max (ax_options ax)) = false → ax_max ax' = ax_max ax).
Proof.
  intros Hmin Hmax Ht. unfold snapRangeToTicks.
  pose proof (nleb_refl _ Hmin) as Rmin. pose proof (nleb_refl _ Hmax) as Rmax.
  destruct (o_autoscaleMargin (ax_options ax)) as [margin|]; [|simpl; auto 10].
  destruct (head ticks) as [first|] eqn:Eh; [|simpl; auto 10].
  destruct (last ticks) as [final|] eqn:El; [|simpl; auto 10].
  destruct (ntruthy margin); [|simpl; auto 10].
  assert (Hf : nis_nan first.1 = false).
  { destruct ticks; [done|]. simpl in Eh. simplify_eq. by apply Forall_cons in Ht as [? _]. }
  assert (Hl : nis_nan final.1 = false).
  { rewrite Forall_forall in Ht. apply Ht. rewrite last_lookup in El. by eapply list_elem_of_lookup_2. }
  change (ax_min (with_range ax ?x ?y)) with x. change (ax_max (with_range ax ?x ?y)) with y.
  destruct (is_null (o_min (ax_options ax))), (is_null (o_max (ax_options ax))); cbn [andb];
    try destruct (1 <? length ticks); repeat split; try done; auto using nmin_l, nmax_l;
    try (destruct (nmin_cases (ax_min ax) first.1) as [-> | ->]; eauto);
    try (destruct (nmax_cases (ax_max ax) final.1) as [-> | ->]; eauto).
Qed.

Lemma snap_widens_witness :
  let ax' := snapRangeToTicks sample_range [(XFin 0, "0"); (XFin 6, "6"); (XFin 12, "12")] in
  nleb (ax_min ax') (XFin 1) = true ∧ nleb (XFin 11) (ax_max ax') = true ∧
  (ax_min ax' = XFin 1 ∨ ∃ t, head [(XFin 0, "0"); (XFin 6, "6"); (XFin 12, "12")] = Some t ∧ ax_min ax' = t.1) ∧
  (ax_max ax' = XFin 11 ∨ ∃ t, last [(XFin 0, "0"); (XFin 6, "6"); (XFin 12, "12")] = Some t ∧ ax_max ax' = t.1) ∧
  (is_null (o_min (ax_options sample_range)) = false → ax_min ax' = XFin 1) ∧
  (is_null (o_max (ax_options sample_range)) = false → ax_max ax' = XFin 11).
Proof.
  apply (snap_widens sample_range [(XFin 0, "0"); (XFin 6, "6"); (XFin 12, "12")]);
    try reflexivity. repeat constructor.
Defined.
