(* ===== verification/FlotTimeTicks.v ===== *)
(** Properties of the time ticks of [static/flot/jquery.flot.js] for the units
    of fixed length: the ticks are aligned, evenly spaced and cover the range. *)

From S2P Require Import Prelude Numbers ExactNum JsText JsValue JsDate FlotFormat FlotModel FlotAxis FlotTicks.
From Stdlib Require Import QArith Qround Lqa.

#[local] Open Scope Z_scope.

(** Milliseconds of the units of fixed length. *)
Definition unit_ms (unit : string) : option Z :=
  if String.eqb unit "second" then Some 1000
  else if String.eqb unit "minute" then Some 60000
  else if String.eqb unit "hour" then Some 3600000
  else if String.eqb unit "day" then Some 86400000
  else None.

(** ** Dates and exact numbers *)

Section time_lemmas.

Lemma to_integer_Z z : to_integer (XFin (z # 1)) = Some z.
Proof. simpl. by rewrite Z.quot_1_r. Qed.

Lemma time_clip_some t : Z.abs t ≤ max_time → time_clip t = Some t.
Proof. intros Ht. unfold time_clip. by rewrite (proj2 (Z.leb_le _ _) Ht). Qed.

Lemma set_field_some f t z :
  Z.abs (f t z) ≤ max_time → set_field f (Some t) (XFin (z # 1)) = Some (f t z).
Proof. intros Hf. unfold set_field. by rewrite to_integer_Z, time_clip_some. Qed.

Lemma date_of_some (q : Q) : (0 <= q)%Q → Qfloor q ≤ max_time → date_of (XFin q) = Some (Qfloor q).
Proof.
  intros Hq Hm. unfold date_of. simpl. destruct q as [n d]. unfold Qfloor in *. simpl in *.
  assert (Hn : 0 ≤ n) by (unfold Qle in Hq; simpl in Hq; lia).
  rewrite Z.quot_div_nonneg by lia. apply time_clip_some.
  pose proof (Z.div_pos n (Zpos d) Hn ltac:(lia)). lia.
Qed.

Lemma floorInBase_Z s n :
  0 < n → ∃ q, floorInBase (XFin (s # 1)) (XFin (n # 1)) = XFin q ∧ to_integer (XFin q) = Some (n * (s / n)).
Proof.
  intros Hn. unfold floorInBase.
  rewrite Exact.div_fin.
  2: { intros E. unfold Qeq in E. simpl in E. lia. }
  eexists. split; [done|].
  change ((s # 1) / (n # 1))%Q with (inject_Z s / inject_Z n)%Q.
  rewrite <- Zdiv_Qdiv. simpl. by rewrite Z.quot_1_r.
Qed.

(** Flooring a field of a date. *)
Lemma floor_field_some (get : Z → Z) (set : Z → Z → Z) t n :
  0 < n → Z.abs (set t (n * (get t / n))) ≤ max_time →
  set_field set (Some t) (floorInBase (get_field get (Some t)) (XFin (n # 1)))
  = Some (set t (n * (get t / n))).
Proof.
  intros Hn Hm. destruct (floorInBase_Z (get t) n Hn) as (q & E & Eq).
  unfold get_field. change (of_Z (get t)) with (XFin (get t # 1)). rewrite E.
  unfold set_field. by rewrite Eq, time_clip_some.
Qed.

Lemma leb_Z a b : nleb (XFin (a # 1)) (XFin (b # 1)) = (a <=? b).
Proof.
  destruct (Z.leb_spec a b); xq; unfold Qle, Qlt; simpl; lia.
Qed.
Lemma ltb_Z a b : nltb (XFin (a # 1)) (XFin (b # 1)) = (a <? b).
Proof.
  destruct (Z.ltb_spec a b); xq; unfold Qle, Qlt; simpl; lia.
Qed.

(** Floor of a nonlinear product, as linear facts. *)
Lemma floor_facts s n : 0 < n → 0 ≤ s → ∃ w, n * (s / n) = w ∧ 0 ≤ w ≤ s ∧ s - w < n ∧ (s < n → w = 0).
Proof.
  intros Hn Hs. exists (n * (s / n)). split; [done|].
  pose proof (Z.div_mod s n ltac:(lia)). pose proof (Z.mod_pos_bound s n Hn).
  pose proof (Z.div_pos s n Hs Hn). repeat split; try nia.
  intros Hlt. rewrite Z.div_small by lia. lia.
Qed.

Lemma unit_ms_cases unit u :
  unit_ms unit = Some u →
  (unit = "second" ∧ u = 1000) ∨ (unit = "minute" ∧ u = 60000) ∨
  (unit = "hour" ∧ u = 3600000) ∨ (unit = "day" ∧ u = 86400000).
Proof.
  unfold unit_ms.
  destruct (String.eqb_spec unit "second") as [->|]; [intros [= <-]; auto|].
  destruct (String.eqb_spec unit "minute") as [->|]; [intros [= <-]; auto|].
  destruct (String.eqb_spec unit "hour") as [->|]; [intros [= <-]; auto|].
  destruct (String.eqb_spec unit "day") as [->|]; [intros [= <-]; auto 6|done].
Qed.

(** The tests on the step, for a step of less than four days. *)
Lemma step_tests n u : 0 < n → n * u < 345600000 →
  let step := nmul (XFin (n # 1)) (XFin (u # 1)) in
  nleb (XFin (60000 # 1)) step = (60000 <=? n * u) ∧
  nleb (XFin (3600000 # 1)) step = (3600000 <=? n * u) ∧
  nleb (XFin (86400000 # 1)) step = (86400000 <=? n * u) ∧
  nleb (nmul (timeUnitSize "day") (of_Z 4)) step = false ∧
  nleb (timeUnitSize "year") step = false.
Proof.
  intros Hn Hu. cbv zeta. change (nmul (XFin (n # 1)) (XFin (u # 1))) with (XFin (n * u # 1)).
  rewrite !leb_Z. repeat split.
  - change (nmul (timeUnitSize "day") (of_Z 4)) with (XFin (345600000 # 1)). rewrite leb_Z.
    apply Z.leb_gt. lia.
  - apply Exact.leb_fin_false. revert Hu. generalize (n * u). intros z Hz.
    unfold Qlt. cbn. lia.
Qed.

(** A time value by days, hours, minutes, seconds and milliseconds. *)
Definition clock_time (D h m s ms : Z) : Z := D * 86400000 + h * 3600000 + m * 60000 + s * 1000 + ms.

Definition clock_ok (h m s ms : Z) : Prop :=
  0 ≤ h ≤ 23 ∧ 0 ≤ m ≤ 59 ∧ 0 ≤ s ≤ 59 ∧ 0 ≤ ms ≤ 999.

Lemma clock_decompose t : ∃ D h m s ms, t = clock_time D h m s ms ∧ clock_ok h m s ms ∧ D = t / 86400000.
Proof.
  exists (t / 86400000), (t mod 86400000 / 3600000), (t mod 3600000 / 60000),
    (t mod 60000 / 1000), (t mod 1000). unfold clock_time, clock_ok. repeat split; zdm.
Qed.

Lemma clock_fields D h m s ms : clock_ok h m s ms →
  getUTCHours (clock_time D h m s ms) = h ∧ getUTCMinutes (clock_time D h m s ms) = m ∧
  getUTCSeconds (clock_time D h m s ms) = s ∧ getUTCMilliseconds (clock_time D h m s ms) = ms.
Proof.
  unfold clock_ok, clock_time, getUTCHours, getUTCMinutes, getUTCSeconds, getUTCMilliseconds, day_ms.
  intros Hok. repeat split; zdm.
Qed.

(** The setters on a time value given by its clock. *)
Lemma clock_setters D h m s ms v : clock_ok h m s ms →
  setUTCHours (clock_time D h m s ms) v = clock_time D v m s ms ∧
  setUTCMinutes (clock_time D h m s ms) v = clock_time D h v s ms ∧
  setUTCSeconds (clock_time D h m s ms) v = clock_time D h m v ms ∧
  setUTCMilliseconds (clock_time D h m s ms) v = clock_time D h m s v.
Proof.
  intros Hok. destruct (clock_fields D h m s ms Hok) as (E1 & E2 & E3 & E4).
  unfold setUTCHours, setUTCMinutes, setUTCSeconds, setUTCMilliseconds. rewrite E1, E2, E3, E4.
  unfold clock_time. lia.
Qed.

(** One setter on a date whose day is within the range of dates. *)
Lemma set_clock (f : Z → Z → Z) (D h m s ms v : Z) h' m' s' ms' :
  f (clock_time D h m s ms) v = clock_time D h' m' s' ms' → clock_ok h' m' s' ms' →
  0 ≤ D ≤ 99999999 →
  set_field f (Some (clock_time D h m s ms)) (XFin (v # 1)) = Some (clock_time D h' m' s' ms').
Proof.
  intros E Hok HD. rewrite <- E. apply set_field_some. rewrite E.
  unfold clock_time, clock_ok, max_time in *. lia.
Qed.

(** The successive resets of the smaller fields. *)
Definition resets (c1 c2 c3 : bool) (d : option Z) : option Z :=
  let d := set_field setUTCMilliseconds d (of_Z 0 : xq) in
  let d := if c1 then set_field setUTCSeconds d (of_Z 0 : xq) else d in
  let d := if c2 then set_field setUTCMinutes d (of_Z 0 : xq) else d in
  if c3 then set_field setUTCHours d (of_Z 0 : xq) else d.

Lemma resets_clock c1 c2 c3 D h m s ms :
  clock_ok h m s ms → 0 ≤ D ≤ 99999999 →
  resets c1 c2 c3 (Some (clock_time D h m s ms))
  = Some (clock_time D (if c3 then 0 else h) (if c2 then 0 else m) (if c1 then 0 else s) 0).
Proof.
  intros Hok HD. unfold resets. change (of_Z 0 : xq) with (XFin (0 # 1)).
  assert (Hz : ∀ h m s, 0 ≤ h ≤ 23 → 0 ≤ m ≤ 59 → 0 ≤ s ≤ 59 → clock_ok h m s 0)
    by (unfold clock_ok; intros; lia).
  destruct Hok as (Hh & Hm & Hs & Hms).
  rewrite (set_clock setUTCMilliseconds D h m s ms 0 h m s 0);
    [|by apply clock_setters|by apply Hz|done].
  assert (E1 : (if c1 then set_field setUTCSeconds (Some (clock_time D h m s 0)) (XFin (0 # 1))
                else Some (clock_time D h m s 0)) = Some (clock_time D h m (if c1 then 0 else s) 0)).
  { destruct c1; [|done]. apply set_clock; [apply clock_setters|..]; by try apply Hz. }
  rewrite E1. set (s1 := if c1 then 0 else s). assert (Hs1 : 0 ≤ s1 ≤ 59) by (unfold s1; destruct c1; lia).
  assert (E2 : (if c2 then set_field setUTCMinutes (Some (clock_time D h m s1 0)) (XFin (0 # 1))
                else Some (clock_time D h m s1 0)) = Some (clock_time D h (if c2 then 0 else m) s1 0)).
  { destruct c2; [|done]. apply set_clock; [apply clock_setters|..]; by try apply Hz. }
  rewrite E2. set (m1 := if c2 then 0 else m). assert (Hm1 : 0 ≤ m1 ≤ 59) by (unfold m1; destruct c2; lia).
  destruct c3; [|done]. apply set_clock; [apply clock_setters|..]; by try apply Hz.
Qed.

Lemma floor_clock (get : Z → Z) (set : Z → Z → Z) n D h m s ms w h' m' s' :
  0 < n →
  n * (get (clock_time D h m s ms) / n) = w →
  set (clock_time D h m s ms) w = clock_time D h' m' s' ms → clock_ok h' m' s' ms →
  0 ≤ D ≤ 99999999 →
  set_field set (Some (clock_time D h m s ms))
    (floorInBase (get_field get (Some (clock_time D h m s ms))) (XFin (n # 1)))
  = Some (clock_time D h' m' s' ms).
Proof.
  intros Hn Hw Hset Hok HD. rewrite floor_field_some; [by rewrite Hw, Hset|done|].
  rewrite Hw, Hset. unfold clock_time, clock_ok, max_time in *. lia.
Qed.

Lemma time_start_spec unit u n t q :
  unit_ms unit = Some u → 0 < n → n * u < 345600000 →
  date_of (XFin q) = Some t → 0 ≤ t < max_time →
  ∃ t0, time_start (TickUnit (XFin (n # 1)) unit) (XFin q) = Some t0 ∧
        t0 ≤ t < t0 + n * u ∧ t0 mod u = 0 ∧ 0 ≤ t0.
Proof.
  intros Hu Hn Hstep Hd Ht.
  pose proof (unit_ms_cases unit u Hu) as C.
  unfold time_start. cbn [ts_count ts_unit]. rewrite Hd.
  assert (Hunit : timeUnitSize unit = XFin (u # 1)) by (destruct C as [[-> ->]|[[-> ->]|[[-> ->]|[-> ->]]]]; done).
  rewrite Hunit. destruct (step_tests n u Hn Hstep) as (T1 & T2 & T3 & T4 & T5).
  rewrite T4, T5.
  change (timeUnitSize "minute" : xq) with (XFin (60000 # 1)). change (timeUnitSize "hour" : xq) with (XFin (3600000 # 1)).
  change (timeUnitSize "day" : xq) with (XFin (86400000 # 1)). rewrite T1, T2, T3. clear T1 T2 T3 T4 T5 Hunit Hd.
  destruct (clock_decompose t) as (D & h & m & s & ms & -> & Hok & HD).
  assert (HD' : 0 ≤ D ≤ 99999999) by (unfold max_time in Ht; zdm). clear HD.
  pose proof (clock_fields D h m s ms Hok) as (F1 & F2 & F3 & _).
  pose proof Hok as (Hh & Hm & Hs & Hms).
  match goal with |- context [if 86400000 <=? n * u then set_field _ (if _ then set_field _ (if _ then set_field _ (set_field _ ?d _) _ else _) _ else _) _ else _] =>
    set (d0 := d) end.
  fold (resets (60000 <=? n * u) (3600000 <=? n * u) (86400000 <=? n * u) d0).
  assert (G : ∀ h' m' s', clock_ok h' m' s' ms → d0 = Some (clock_time D h' m' s' ms) →
    (let t0 := clock_time D (if 86400000 <=? n * u then 0 else h') (if 3600000 <=? n * u then 0 else m')
                 (if 60000 <=? n * u then 0 else s') 0 in
     t0 ≤ clock_time D h m s ms < t0 + n * u ∧ t0 mod u = 0 ∧ 0 ≤ t0) →
    ∃ t0, resets (60000 <=? n * u) (3600000 <=? n * u) (86400000 <=? n * u) d0 = Some t0 ∧
      t0 ≤ clock_time D h m s ms < t0 + n * u ∧ t0 mod u = 0 ∧ 0 ≤ t0).
  { intros h' m' s' Hok' -> HG. eexists. split; [by apply resets_clock|]. apply HG. }
  destruct C as [[-> ->]|[[-> ->]|[[-> ->]|[-> ->]]]]; cbn [String.eqb Ascii.eqb Bool.eqb] in d0.
  - destruct (floor_facts s n Hn ltac:(lia)) as (w & Ew & Hw1 & Hw2 & Hw3).
    apply (G h m w); [unfold clock_ok; lia| |].
    + apply (floor_clock _ _ n D h m s ms w); [done|by rewrite F3|by apply clock_setters|unfold clock_ok; lia|done].
    + cbv zeta. unfold clock_time.
      destruct (Z.leb_spec 60000 (n * 1000)), (Z.leb_spec 3600000 (n * 1000)),
        (Z.leb_spec 86400000 (n * 1000)); repeat split; zdm.
  - destruct (floor_facts m n Hn ltac:(lia)) as (w & Ew & Hw1 & Hw2 & Hw3).
    apply (G h w s); [unfold clock_ok; lia| |].
    + apply (floor_clock _ _ n D h m s ms w); [done|by rewrite F2|by apply clock_setters|unfold clock_ok; lia|done].
    + cbv zeta. unfold clock_time.
      destruct (Z.leb_spec 60000 (n * 60000)), (Z.leb_spec 3600000 (n * 60000)),
        (Z.leb_spec 86400000 (n * 60000)); repeat split; zdm.
  - destruct (floor_facts h n Hn ltac:(lia)) as (w & Ew & Hw1 & Hw2 & Hw3).
    apply (G w m s); [unfold clock_ok; lia| |].
    + apply (floor_clock _ _ n D h m s ms w); [done|by rewrite F1|by apply clock_setters|unfold clock_ok; lia|done].
    + cbv zeta. unfold clock_time.
      destruct (Z.leb_spec 60000 (n * 3600000)), (Z.leb_spec 3600000 (n * 3600000)),
        (Z.leb_spec 86400000 (n * 3600000)); repeat split; zdm.
  - apply (G h m s); [done|done|]. cbv zeta. unfold clock_time.
    destruct (Z.leb_spec 60000 (n * 86400000)), (Z.leb_spec 3600000 (n * 86400000)),
      (Z.leb_spec 86400000 (n * 86400000)); repeat split; zdm.
Qed.

(** ** The loop *)

Lemma time_next_linear unit u n t carry :
  unit_ms unit = Some u → 0 < n → 0 ≤ t → t + n * u ≤ max_time →
  time_next (TickUnit (XFin (n # 1)) unit) (Some t) carry = (Some (t + n * u), carry).
Proof.
  intros Hu Hn Ht Hm. pose proof (unit_ms_cases unit u Hu) as C.
  unfold time_next. cbn [ts_count ts_unit getTime].
  assert (Hd : date_of (nadd (of_Z t) (nmul (XFin (n # 1)) (timeUnitSize unit))) = Some (t + n * u)).
  { assert (E : nadd (of_Z t) (nmul (XFin (n # 1)) (timeUnitSize unit)) = XFin ((t # 1) + (n # 1) * (u # 1))%Q)
      by (destruct C as [[-> ->]|[[-> ->]|[[-> ->]|[-> ->]]]]; done).
    rewrite E. unfold date_of. cbn. rewrite Z.quot_1_r, !Z.mul_1_r. apply time_clip_some.
    destruct C as [[-> ->]|[[-> ->]|[[-> ->]|[-> ->]]]]; lia. }
  destruct C as [[-> ->]|[[-> ->]|[[-> ->]|[-> ->]]]]; cbn [String.eqb Ascii.eqb Bool.eqb]; by rewrite Hd.
Qed.

Definition time_values (t0 step : Z) (k n : nat) : list xq :=
  map (λ i, of_Z (t0 + Z.of_nat i * step)) (seq k n).

Lemma time_loop_spec unit u n t0 (b : Q) (count m k fuel : nat) carry prev :
  unit_ms unit = Some u → 0 < n → 0 ≤ t0 → t0 + Z.of_nat (S count) * (n * u) ≤ max_time →
  (∀ i, (i < count)%nat → (inject_Z (t0 + Z.of_nat i * (n * u)) < b)%Q) →
  (b <= inject_Z (t0 + Z.of_nat count * (n * u)))%Q →
  (k + m = count)%nat → (m < fuel)%nat →
  (prev = XNaN ∨ ∃ j, (j < k)%nat ∧ prev = of_Z (t0 + Z.of_nat j * (n * u))) →
  time_loop fuel (TickUnit (XFin (n # 1)) unit) (XFin b) (Some (t0 + Z.of_nat k * (n * u))) carry prev
  = Ok (time_values t0 (n * u) k (S m)).
Proof.
  intros Hu Hn Ht0 Hmax Hlt Hge. revert k fuel prev.
  assert (Hstep : 0 < n * u) by (destruct (unit_ms_cases unit u Hu) as [[_ ->]|[[_ ->]|[[_ ->]|[_ ->]]]]; lia).
  induction m as [|m IH]; intros k fuel prev Hk Hf Hp; (destruct fuel as [|fuel]; [lia|]); cbn [time_loop].
  - rewrite (time_next_linear unit u) by (done || nia). cbn [getTime].
    assert (nltb (of_Z (t0 + Z.of_nat k * (n * u))) (XFin b) = false) as ->; [|done].
    apply Exact.ltb_fin_false. by replace k with count by lia.
  - rewrite (time_next_linear unit u) by (done || nia). cbn [getTime].
    assert (nltb (of_Z (t0 + Z.of_nat k * (n * u))) (XFin b) = true) as ->.
    { apply Exact.ltb_fin. apply Hlt. lia. }
    assert (neqb (of_Z (t0 + Z.of_nat k * (n * u))) prev = false) as ->.
    { destruct Hp as [->|(j & Hj & ->)]; [done|]. apply Exact.eqb_fin_false.
      unfold Qeq. simpl. nia. }
    cbn [andb negb].
    replace (t0 + Z.of_nat k * (n * u) + n * u) with (t0 + Z.of_nat (S k) * (n * u)) by lia.
    rewrite (IH (S k)); [done|lia|lia|]. right. exists k. split; [lia|done].
Qed.
End time_lemmas.

(** ** Properties *)

(** C11: on a time axis whose tick size is a whole number of seconds, minutes,
    hours or days (less than four days, as the code chooses them), the
    generator terminates and returns evenly spaced ticks: the first is a whole
    number of units (not of steps) at or below the minimum, less than one step away from it,
    and the last is the first one at or beyond the maximum. *)
Theorem time_axis_ticks `{NumText xq} `{MathLib xq} (ax : axis xq) unit u n (a b : Q) :
  unit_ms unit = Some u → 0 < n → n * u < 4 * 86400000 →
  t_tickSize (ax_ticks ax) = TickUnit (XFin (n # 1)) unit →
  ax_min ax = XFin a → ax_max ax = XFin b →
  (0 <= a)%Q → (a <= b)%Q → (b + 2 * inject_Z (n * u) < inject_Z max_time)%Q →
  ∃ t0 count,
    (∀ fuel, (count < fuel)%nat →
      generate fuel GenTime ax = Ok (map (λ i, of_Z (t0 + Z.of_nat i * (n * u))) (seq 0 (S count)))) ∧
    t0 mod u = 0 ∧ (inject_Z t0 <= a)%Q ∧ (a < inject_Z (t0 + n * u))%Q ∧
    (∀ i, (i < count)%nat → (inject_Z (t0 + Z.of_nat i * (n * u)) < b)%Q) ∧
    (b <= inject_Z (t0 + Z.of_nat count * (n * u)))%Q.
Proof.
  intros Hu Hn Hstep Hts Ha Hb Ha0 Hab Hmax.
  assert (Hs0 : 0 < n * u) by (destruct (unit_ms_cases unit u Hu) as [[_ ->]|[[_ ->]|[[_ ->]|[_ ->]]]]; lia).
  pose proof (Qfloor_le a) as Fl. pose proof (Qlt_floor a) as Fu.
  assert (Hsq : (1 <= inject_Z (n * u))%Q) by (change 1%Q with (inject_Z 1); rewrite <- Zle_Qle; lia).
  assert (Ht : Qfloor a < max_time) by (rewrite Zlt_Qlt; lra).
  assert (Ht0 : 0 ≤ Qfloor a) by (change 0 with (Qfloor 0); by apply Qfloor_resp_le).
  destruct (time_start_spec unit u n (Qfloor a) a Hu Hn Hstep) as (t0 & Es & [L U] & Hmod & Hpos);
    [apply date_of_some; [done|lia]|lia|].
  assert (Hq : ∀ i, (nth_tick (inject_Z t0) (inject_Z (n * u)) i == inject_Z (t0 + Z.of_nat i * (n * u)))%Q).
  { intros i. unfold nth_tick. rewrite inject_Z_plus, !inject_Z_mult. ring. }
  assert (Lq : (inject_Z t0 <= inject_Z (Qfloor a))%Q) by (rewrite <- Zle_Qle; lia).
  destruct (tick_count (inject_Z t0) (inject_Z (n * u)) b) as (count & Hlt & Hge & Hcount); [lra..|].
  assert (Hlim : t0 + Z.of_nat (S count) * (n * u) ≤ max_time).
  { apply Z.lt_le_incl. rewrite Zlt_Qlt, <- Hq, nth_tick_S. unfold nth_tick. lra. }
  exists t0, count. rewrite <- Hq in *. split; [|split; [done|split; [lra|split]]].
  - intros fuel Hf. cbn [generate]. unfold time_ticks. rewrite Hts, Ha, Hb, Es.
    pose proof (time_loop_spec unit u n t0 b count count 0 fuel (of_Z 0) XNaN Hu Hn Hpos Hlim) as T.
    replace (t0 + Z.of_nat 0 * (n * u)) with t0 in T by lia.
    apply T; [|by rewrite <- Hq|lia|lia|by left]. intros i Hi. rewrite <- Hq. auto.
  - assert (Uq : (inject_Z (Qfloor a + 1) <= inject_Z (t0 + n * u))%Q) by (rewrite <- Zle_Qle; lia).
    lra.
  - split; [|done]. intros i Hi. rewrite <- Hq. auto.
Qed.

(** Half an hour, with a tick every five minutes. *)
Definition sample_time : axis xq :=
  with_ticks (with_range (new_axis 1 DirX default_xaxis) (XFin (1361640689000 # 1)) (XFin (1361642489000 # 1)))
    (AxisTicks (TickUnit (XFin (5 # 1)) "minute") XNaN None).

Lemma time_axis_ticks_witness :
  let _ := Exact.exact_text in let _ := Exact.exact_math in
  ∃ t0 count,
    (∀ fuel, (count < fuel)%nat →
      generate fuel GenTime sample_time
      = Ok (map (λ i, of_Z (t0 + Z.of_nat i * (5 * 60000))) (seq 0 (S count)))) ∧
    t0 mod 60000 = 0 ∧ (inject_Z t0 <= 1361640689000 # 1)%Q ∧
    ((1361640689000 # 1) < inject_Z (t0 + 5 * 60000))%Q ∧
    (∀ i, (i < count)%nat → (inject_Z (t0 + Z.of_nat i * (5 * 60000)) < 1361642489000 # 1)%Q) ∧
    ((1361642489000 # 1) <= inject_Z (t0 + Z.of_nat count * (5 * 60000)))%Q.
Proof.
  apply (@time_axis_ticks Exact.exact_text Exact.exact_math sample_time "minute" 60000 5);
    reflexivity || discriminate.
Defined.
