(* ===== verification/FlotMerge.v ===== *)
(** The walk over two series shared by the stack and fillbetween plugins
    ([static/flot/jquery.flot.stack.js], [static/flot/jquery.flot.fillbetween.js]):
    the points of a series are matched, by key, with those of the series below
    it; points are inserted by interpolation. *)

From S2P Require Import Prelude Numbers ExactNum JsText JsValue FlotModel.
From Stdlib Require Import QArith Lqa.

#[local] Open Scope nat_scope.

(** ** Definitions *)

Section merge.
Context {num : Type} `{Num num} `{NumText num}.
Implicit Types v : jsv num.

(** The state of the loop: [i], [j], [newpoints] and [fromgap]. *)
Record merge_state := MergeState {
  mi : nat; mj : nat; newpoints : list (jsv num); fromgap : bool;
}.

(** Where the two plugins differ: stacking adds the value below to the value
    and to the bottom of a point, filling only records it as its bottom. *)
Variable stacking : bool.
(** [keyOffset] and [accumulateOffset] *)
Variables key acc : nat.
Variables ps otherps : nat.
Variables points otherpoints : list (jsv num).
Variables withlines withbottom withsteps : bool.

Definition at_ (a : list (jsv num)) (i : nat) : jsv num := aget a (Z.of_nat i).

(** [y + (y0 - y) * (x' - x) / (x0 - x)] *)
Definition interpolate (y y0 x0 x x' : jsv num) : jsv num :=
  js_add y (Number ((to_num y0 - to_num y) * (to_num x' - to_num x) / (to_num x0 - to_num x))%num).

(** [newpoints[l + accumulateOffset] += v] *)
Definition raise (l : nat) v (new : list (jsv num)) : list (jsv num) :=
  if stacking then aset new (l + acc) (js_add (at_ new (l + acc)) v) else new.

(** [newpoints[l + 2] += bottom], or its assignment. *)
Definition set_bottom (l : nat) (bottom : jsv num) (new : list (jsv num)) : list (jsv num) :=
  if negb (l =? length new) && withbottom
  then aset new (l + 2) (if stacking then js_add (at_ new (l + 2)) bottom else bottom)
  else new.

(** The line steps invariant. *)
Definition keep_steps (l : nat) (new : list (jsv num)) : list (jsv num) :=
  if withsteps && negb (l =? length new) && (0 <? l)
     && negb (is_null (at_ new l)) && negb (loose_eq (at_ new l) (at_ new (l - ps)))
     && negb (loose_eq (at_ new (l + 1)) (at_ new (l - ps + 1)))
  then
    let new := foldl (λ new m, aset new (l + ps + m) (at_ new (l + m))) new (seq 0 ps) in
    aset new (l + 1) (at_ new (l - ps + 1))
  else new.

(** One turn of the loop; [None] leaves it. *)
Definition merge_step (st : merge_state) : option merge_state :=
  let '(MergeState i j new gap) := st in
  let l := length new in
  let group := aslice points i ps in
  let finish i j new gap := Some (MergeState i j (keep_steps l new) gap) in
  let both i j new bottom := finish i j (set_bottom l bottom new) false in
  if length points <=? i then None
  else if is_null (at_ points i) then finish (i + ps) j (new ++ group) gap
  else if length otherpoints <=? j then
    finish (i + ps) j (if withlines then new else new ++ group) gap
  else if is_null (at_ otherpoints j) then finish i (j + otherps) (new ++ replicate ps Null) true
  else
    let px := at_ points (i + key) in
    let py := at_ points (i + acc) in
    let qx := at_ otherpoints (j + key) in
    let qy := at_ otherpoints (j + acc) in
    if loose_eq px qx then both (i + ps) (j + otherps) (raise l qy (new ++ group)) qy
    else if js_ltb qx px then
      if withlines && (0 <? i) && negb (is_null (at_ points (i - ps))) then
        let intery := interpolate py (at_ points (i - ps + acc)) (at_ points (i - ps + key)) px qx in
        let y := if stacking then js_add intery qy else intery in
        both i (j + otherps) (new ++ [qx; y] ++ aslice points (i + 2) (ps - 2)) qy
      else both i (j + otherps) new (Number (of_Z 0))
    else if gap && withlines then Some (MergeState (i + ps) j new gap)
    else
      let bottom :=
        if withlines && (0 <? j) && negb (is_null (at_ otherpoints (j - otherps))) then
          interpolate qy (at_ otherpoints (j - otherps + acc)) (at_ otherpoints (j - otherps + key)) qx px
        else Number (of_Z 0) in
      both (i + ps) j (raise l bottom (new ++ group)) bottom.

Fixpoint merge_loop (fuel : nat) (st : merge_state) : result (list (jsv num)) :=
  match merge_step st with
  | None => Ok (newpoints st)
  | Some st => match fuel with O => NoFuel | S fuel => merge_loop fuel st end
  end.

(** Every turn advances in one of the arrays. *)
Definition merge_fuel : nat := length points + length otherpoints.

Definition merge_points : result (list (jsv num)) := merge_loop merge_fuel (MergeState 0 0 [] true).

(** ** Termination *)

Definition measure (st : merge_state) : nat :=
  (length points - mi st) + (length otherpoints - mj st).

Lemma merge_step_measure st st' :
  0 < ps → 0 < otherps → merge_step st = Some st' → measure st' < measure st.
Proof.
  intros Hp Hq. destruct st as [i j new gap]. unfold merge_step, measure. cbn [mi mj].
  destruct (Nat.leb_spec (length points) i) as [|Hi]; [done|].
  destruct (is_null (at_ points i)); [intros [= <-]; simpl; lia|].
  destruct (Nat.leb_spec (length otherpoints) j) as [|Hj]; [intros [= <-]; simpl; lia|].
  repeat case_match; intros [= <-]; simpl; lia.
Qed.

Lemma merge_loop_total st fuel :
  0 < ps → 0 < otherps → measure st ≤ fuel → ∃ new, merge_loop fuel st = Ok new.
Proof.
  intros Hp Hq. revert st. induction fuel as [|fuel IH]; intros st Hf; simpl.
  - destruct (merge_step st) as [st'|] eqn:E; [|eauto].
    pose proof (merge_step_measure st st' Hp Hq E). lia.
  - destruct (merge_step st) as [st'|] eqn:E; [|eauto].
    apply IH. pose proof (merge_step_measure st st' Hp Hq E). lia.
Qed.

Lemma merge_total : 0 < ps → 0 < otherps → ∃ new, merge_points = Ok new.
Proof. intros Hp Hq. apply merge_loop_total; [done..|]. unfold measure, merge_fuel. simpl. lia. Qed.
End merge.
