(* ===== verification/FlotMergeSpec.v ===== *)
(** What the walk of the stack and fillbetween plugins computes, on exact
    numbers: for bars, each point is raised by the value below it; for lines,
    every point of the result lies on both lines. *)

From S2P Require Import Prelude Numbers ExactNum JsText JsValue FlotModel FlotMerge.
From stdpp Require Import sorting.
From Stdlib Require Import QArith Lqa.

#[local] Open Scope nat_scope.

(** ** Groups *)

(** A point of a series: key, value, further components. *)
Record pt := Pt { pk : Q; pv : Q; pt_rest : list Q }.

Definition num_of (q : Q) : jsv xq := Number (XFin q).
Definition enc (p : pt) : list (jsv xq) := num_of (pk p) :: num_of (pv p) :: map num_of (pt_rest p).
Definition flat (P : list pt) : list (jsv xq) := concat (map enc P).

Definition wf (ps : nat) (P : list pt) : Prop := Forall (λ p, length (enc p) = ps) P.

(** Strictly increasing keys. *)
Definition before (p q : pt) : Prop := (pk p < pk q)%Q.
Definition sorted (P : list pt) : Prop := StronglySorted before P.

(** ** Array access *)

Section access.
Context `{NumText xq}.
Implicit Types a b c : list (jsv xq).

Lemma aslice_middle a b c i n : i = length a → n = length b → aslice (a ++ b ++ c) i n = b.
Proof.
  intros -> ->. apply list_eq. intros m. unfold aslice. rewrite list_lookup_fmap.
  destruct (decide (m < length b)) as [Hm|Hm].
  - rewrite lookup_seq_lt by done. simpl.
    rewrite aget_app_r, aget_app_l, aget_lookup by done.
    destruct (lookup_lt_is_Some_2 b m Hm) as [v ->]. done.
  - rewrite lookup_seq_ge, (lookup_ge_None_2 b) by lia. done.
Qed.

Lemma at_app a b k : at_ (a ++ b) (length a + k) = at_ b k.
Proof. unfold at_. apply aget_app_r. Qed.
Lemma at_app0 a b : at_ (a ++ b) (length a) = at_ b 0.
Proof. rewrite <- (Nat.add_0_r (length a)) at 1. apply at_app. Qed.

Lemma at_app_l a b k : k < length a → at_ (a ++ b) k = at_ a k.
Proof. unfold at_. apply aget_app_l. Qed.

Lemma aset_app a b k v : k < length b → aset (a ++ b) (length a + k) v = a ++ aset b k v.
Proof.
  intros Hk. unfold aset. rewrite length_app.
  destruct (Nat.ltb_spec (length a + k) (length a + length b)); [|lia].
  destruct (Nat.ltb_spec k (length b)); [|lia]. by rewrite insert_app_r.
Qed.

Lemma flat_app P Q : flat (P ++ Q) = flat P ++ flat Q.
Proof. unfold flat. by rewrite map_app, concat_app. Qed.
Lemma flat_cons p P : flat (p :: P) = enc p ++ flat P.
Proof. done. Qed.
Lemma flat_snoc P p : flat (P ++ [p]) = flat P ++ enc p.
Proof. rewrite flat_app. change (flat [p]) with (enc p ++ []). by rewrite app_nil_r. Qed.

Lemma flat_length_cons p P : 0 < length (flat (p :: P)).
Proof. rewrite flat_cons, length_app. simpl. lia. Qed.

Lemma at_flat_cons P p P' k : k < length (enc p) →
  at_ (flat (P ++ p :: P')) (length (flat P) + k) = at_ (enc p) k.
Proof. intros Hk. rewrite flat_app, at_app, flat_cons. by apply at_app_l. Qed.

Lemma slice_flat ps P p P' : length (enc p) = ps → aslice (flat (P ++ p :: P')) (length (flat P)) ps = enc p.
Proof. intros Hp. rewrite flat_app, flat_cons. by apply aslice_middle. Qed.

Lemma slice_rest ps P p P' : length (enc p) = ps →
  aslice (flat (P ++ p :: P')) (length (flat P) + 2) (ps - 2) = map num_of (pt_rest p).
Proof.
  intros Hp. rewrite flat_app, flat_cons.
  change (enc p) with ([num_of (pk p); num_of (pv p)] ++ map num_of (pt_rest p)).
  rewrite <- app_assoc, app_assoc. apply aslice_middle.
  - rewrite length_app. done.
  - rewrite <- Hp. simpl. lia.
Qed.

(** The point before the current one. *)
Lemma at_flat_prev ps P p P' k : length (enc p) = ps → k < ps →
  at_ (flat ((P ++ [p]) ++ P')) (length (flat (P ++ [p])) - ps + k) = at_ (enc p) k.
Proof.
  intros Hp Hk. rewrite <- app_assoc. simpl app.
  replace (length (flat (P ++ [p])) - ps + k) with (length (flat P) + k).
  - apply at_flat_cons. lia.
  - rewrite flat_snoc, length_app. lia.
Qed.
Lemma not_first P p0 : (0 <? length (flat (P ++ [p0]))) = true.
Proof. apply Nat.ltb_lt. rewrite flat_snoc, length_app. simpl. lia. Qed.

End access.

(** ** The turns of the loop, on groups *)

Section steps.
Context `{NumText xq}.
Variables stacking withlines withbottom : bool.
Variables ps otherps : nat.

(** A point raised by [w], and its bottom. *)
Definition lift (w : Q) (p : pt) : pt := if stacking then Pt (pk p) (pv p + w) (pt_rest p) else p.
Definition bot (w : Q) (p : pt) : pt :=
  if withbottom then
    Pt (pk p) (pv p)
      (match pt_rest p with z :: r => (if stacking then (z + w)%Q else w) :: r | [] => [] end)
  else p.

Definition rest_ok (p : pt) : Prop := withbottom = true → pt_rest p ≠ [].

(** The interpolated value: of the segment from [p0] to [p], at [x]. *)
Definition lerp (p p0 : pt) (x : Q) : Q := pv p + (pv p0 - pv p) * (x - pk p) / (pk p0 - pk p).

Lemma interpolate_spec p p0 x : ¬ (pk p0 - pk p == 0)%Q →
  interpolate (num_of (pv p)) (num_of (pv p0)) (num_of (pk p0)) (num_of (pk p)) (num_of x)
  = num_of (lerp p p0 x).
Proof.
  intros Hne.
  transitivity (js_add (num_of (pv p))
    (Number (ndiv (XFin ((pv p0 - pv p) * (x - pk p))) (XFin (pk p0 - pk p))))); [done|].
  by rewrite Exact.div_fin.
Qed.

Lemma raise_spec O w p :
  raise stacking 1 (length (flat O)) (num_of w) (flat O ++ enc p) = flat O ++ enc (lift w p).
Proof. unfold raise, lift. destruct stacking; [|done]. rewrite aset_app, at_app by (simpl; lia). done. Qed.

Lemma set_bottom_spec O w o : rest_ok o →
  set_bottom stacking withbottom (length (flat O)) (num_of w) (flat O ++ enc o) = flat (O ++ [bot w o]).
Proof.
  intros Ho. unfold set_bottom, bot. rewrite flat_snoc.
  assert (length (flat O) =? length (flat O ++ enc o) = false) as ->.
  { apply Nat.eqb_neq. rewrite length_app. simpl. lia. }
  cbn [negb andb]. unfold rest_ok in Ho. destruct withbottom; [|done].
  destruct o as [k v r]. simpl in Ho. destruct r as [|z r]; [by destruct Ho|].
  rewrite aset_app by (simpl; lia). rewrite at_app. by destruct stacking.
Qed.

Lemma set_bottom_none O w : set_bottom stacking withbottom (length (flat O)) w (flat O) = flat O.
Proof. unfold set_bottom. by rewrite Nat.eqb_refl. Qed.

Lemma keep_steps_off l new : keep_steps ps false l new = (new : list (jsv xq)).
Proof. done. Qed.

Lemma is_null_num x : is_null (num_of x) = false.
Proof. done. Qed.

(** [i] is not at the end, and the point at [i] is not null. *)
Lemma not_end P1 p P2 : (length (flat (P1 ++ p :: P2)) <=? length (flat P1)) = false.
Proof.
  apply Nat.leb_gt. rewrite flat_app, length_app. pose proof (flat_length_cons p P2). lia.
Qed.

Lemma at_key P1 p P2 : at_ (flat (P1 ++ p :: P2)) (length (flat P1)) = num_of (pk p).
Proof. rewrite <- (Nat.add_0_r (length (flat P1))). rewrite at_flat_cons by (simpl; lia). done. Qed.

Lemma at_key0 P1 p P2 : at_ (flat (P1 ++ p :: P2)) (length (flat P1) + 0) = num_of (pk p).
Proof. rewrite at_flat_cons by (simpl; lia). done. Qed.

Lemma at_value P1 p P2 : at_ (flat (P1 ++ p :: P2)) (length (flat P1) + 1) = num_of (pv p).
Proof. rewrite at_flat_cons by (simpl; lia). done. Qed.

Lemma length_flat_snoc P p n : length (enc p) = n → length (flat P) + n = length (flat (P ++ [p])).
Proof. intros <-. by rewrite flat_snoc, length_app. Qed.

Definition step P Q := merge_step stacking 0 1 ps otherps (flat P) (flat Q) withlines withbottom false.

Variables (P1 P2 Q1 Q2 O : list pt) (p q : pt) (gap : bool).
Hypothesis Hp : length (enc p) = ps.
Hypothesis Hq : length (enc q) = otherps.
Hypothesis Hr : rest_ok p.

Let state P Q O gap := MergeState (length (flat P)) (length (flat Q)) (flat O) gap.

Lemma step_done Q : step P1 Q (state P1 Q1 O gap) = None.
Proof. unfold step, merge_step, state. by rewrite Nat.leb_refl. Qed.

Lemma step_exhausted :
  step (P1 ++ p :: P2) Q1 (state P1 Q1 O gap)
  = Some (state (P1 ++ [p]) Q1 (if withlines then O else O ++ [p]) gap).
Proof.
  unfold step, merge_step, state. rewrite not_end, at_key, Nat.leb_refl, is_null_num.
  rewrite keep_steps_off, slice_flat, (length_flat_snoc P1 p) by done. destruct withlines; [done|]. by rewrite (flat_snoc O).
Qed.

Lemma rest_lift w : rest_ok (lift w p).
Proof. unfold lift. by destruct stacking. Qed.

Lemma step_equal : (pk p == pk q)%Q →
  step (P1 ++ p :: P2) (Q1 ++ q :: Q2) (state P1 Q1 O gap)
  = Some (state (P1 ++ [p]) (Q1 ++ [q]) (O ++ [bot (pv q) (lift (pv q) p)]) false).
Proof.
  intros E. unfold step, merge_step, state. rewrite !not_end, !at_key, !at_key0, !at_value. rewrite ?is_null_num.
  assert (loose_eq (num_of (pk p)) (num_of (pk q)) = true) as -> by by apply Exact.eqb_fin.
  rewrite slice_flat, raise_spec, set_bottom_spec by (done || apply rest_lift).
  by rewrite !keep_steps_off, (length_flat_snoc P1 p), (length_flat_snoc Q1 q).
Qed.

(** The comparison of keys. *)
Lemma not_equal : ¬ (pk p == pk q)%Q → loose_eq (num_of (pk p)) (num_of (pk q)) = false.
Proof. intros E. by apply Exact.eqb_fin_false. Qed.

Lemma step_skip : (pk q < pk p)%Q → withlines = false ∨ P1 = [] →
  step (P1 ++ p :: P2) (Q1 ++ q :: Q2) (state P1 Q1 O gap)
  = Some (state P1 (Q1 ++ [q]) O false).
Proof.
  intros L C. unfold step, merge_step, state. rewrite !not_end, !at_key, !at_key0, !at_value. rewrite ?is_null_num.
  rewrite not_equal by lra.
  assert (js_ltb (num_of (pk q)) (num_of (pk p)) = true) as -> by by apply Exact.ltb_fin.
  assert (withlines && (0 <? length (flat P1)) = false) as -> by (destruct C as [-> | ->]; [done|by rewrite andb_false_r]).
  cbn [andb]. by rewrite set_bottom_none, !keep_steps_off, (length_flat_snoc Q1 q).
Qed.

Lemma step_gap : (pk p < pk q)%Q → withlines = true → gap = true →
  step (P1 ++ p :: P2) (Q1 ++ q :: Q2) (state P1 Q1 O gap)
  = Some (state (P1 ++ [p]) Q1 O true).
Proof.
  intros L Hl Hg. unfold step, merge_step, state. rewrite Hl, Hg. rewrite !not_end, !at_key, !at_key0, !at_value. rewrite ?is_null_num.
  rewrite not_equal by lra.
  assert (js_ltb (num_of (pk q)) (num_of (pk p)) = false) as -> by (apply Exact.ltb_fin_false; lra).
  cbn [andb]. by rewrite (length_flat_snoc P1 p).
Qed.

Lemma step_alone : (pk p < pk q)%Q → withlines = false →
  step (P1 ++ p :: P2) (Q1 ++ q :: Q2) (state P1 Q1 O gap)
  = Some (state (P1 ++ [p]) Q1 (O ++ [bot 0 (lift 0 p)]) false).
Proof.
  intros L Hl. unfold step, merge_step, state. rewrite Hl. rewrite !not_end, !at_key, !at_key0, !at_value. rewrite ?is_null_num.
  rewrite not_equal by lra.
  assert (js_ltb (num_of (pk q)) (num_of (pk p)) = false) as -> by (apply Exact.ltb_fin_false; lra).
  rewrite andb_false_r. cbn [andb]. change (Number (of_Z 0)) with (num_of 0).
  rewrite slice_flat, raise_spec, set_bottom_spec by (done || apply rest_lift).
  by rewrite !keep_steps_off, (length_flat_snoc P1 p).
Qed.

Lemma at_prev_key0 n P p0 P' : length (enc p0) = n → 0 < n →
  at_ (flat ((P ++ [p0]) ++ P')) (length (flat (P ++ [p0])) - n) = num_of (pk p0).
Proof.
  intros Hn Hpos. rewrite <- (Nat.add_0_r (_ - n)). by rewrite at_flat_prev.
Qed.
Lemma at_prev_key n P p0 P' : length (enc p0) = n → 0 < n →
  at_ (flat ((P ++ [p0]) ++ P')) (length (flat (P ++ [p0])) - n + 0) = num_of (pk p0).
Proof. intros Hn Hpos. by rewrite at_flat_prev. Qed.
Lemma at_prev_value n P p0 P' : length (enc p0) = n → 1 < n →
  at_ (flat ((P ++ [p0]) ++ P')) (length (flat (P ++ [p0])) - n + 1) = num_of (pv p0).
Proof. intros Hn Hpos. by rewrite at_flat_prev. Qed.

Lemma enc_length_pos p' n : length (enc p') = n → 1 < n.
Proof. intros <-. simpl. lia. Qed.

(** The inserted point: on the segment of the upper line, at the key below. *)
Definition inserted (p0 : pt) : pt :=
  Pt (pk q) (if stacking then lerp p p0 (pk q) + pv q else lerp p p0 (pk q))%Q (pt_rest p).

Lemma step_insert P0 p0 : P1 = P0 ++ [p0] → length (enc p0) = ps →
  (pk q < pk p)%Q → withlines = true → ¬ (pk p0 - pk p == 0)%Q →
  step (P1 ++ p :: P2) (Q1 ++ q :: Q2) (state P1 Q1 O gap)
  = Some (state P1 (Q1 ++ [q]) (O ++ [bot (pv q) (inserted p0)]) false).
Proof.
  intros -> Hp0 L Hl Hne. pose proof (enc_length_pos p0 ps Hp0) as Hpos.
  unfold step, merge_step, state. rewrite !not_end, !at_key, !at_key0, !at_value, !is_null_num.
  rewrite not_equal by lra.
  assert (js_ltb (num_of (pk q)) (num_of (pk p)) = true) as -> by by apply Exact.ltb_fin.
  rewrite Hl, not_first, at_prev_key0, at_prev_key, at_prev_value, is_null_num by (done || lia).
  cbn [andb negb]. rewrite interpolate_spec, slice_rest by done.
  assert (E : flat O ++ [num_of (pk q); if stacking then js_add (num_of (lerp p p0 (pk q))) (num_of (pv q))
                                        else num_of (lerp p p0 (pk q))] ++ map num_of (pt_rest p)
              = flat O ++ enc (inserted p0)).
  { unfold inserted. by destruct stacking. }
  rewrite E, set_bottom_spec by done.
  by rewrite !keep_steps_off, (length_flat_snoc Q1 q).
Qed.

Lemma step_interp Q0 q0 : Q1 = Q0 ++ [q0] → length (enc q0) = otherps →
  (pk p < pk q)%Q → withlines = true → gap = false → ¬ (pk q0 - pk q == 0)%Q →
  step (P1 ++ p :: P2) (Q1 ++ q :: Q2) (state P1 Q1 O gap)
  = Some (state (P1 ++ [p]) Q1 (O ++ [bot (lerp q q0 (pk p)) (lift (lerp q q0 (pk p)) p)]) false).
Proof.
  intros -> Hq0 L Hl Hg Hne. pose proof (enc_length_pos q0 otherps Hq0) as Hpos.
  unfold step, merge_step, state. rewrite !not_end, !at_key, !at_key0, !at_value, !is_null_num.
  rewrite not_equal by lra.
  assert (js_ltb (num_of (pk q)) (num_of (pk p)) = false) as -> by (apply Exact.ltb_fin_false; lra).
  rewrite Hl, Hg, !not_first, at_prev_key0, at_prev_key, at_prev_value, is_null_num by (done || lia).
  cbn [andb negb]. rewrite interpolate_spec by done.
  rewrite slice_flat, raise_spec, set_bottom_spec by (done || apply rest_lift).
  by rewrite !keep_steps_off, (length_flat_snoc P1 p).
Qed.
End steps.

(** ** Loop lemmas *)

Section loops.
Context `{NumText xq}.
Variables withbottom : bool.
Variables ps otherps : nat.

Lemma sorted_cons p P : sorted (p :: P) → sorted P ∧ ∀ p', p' ∈ P → (pk p < pk p')%Q.
Proof. intros S. inversion S as [|? ? S' F]. split; [done|]. by rewrite Forall_forall in F. Qed.

Lemma sorted_app P Q : sorted (P ++ Q) → sorted Q ∧ ∀ p q, p ∈ P → q ∈ Q → (pk p < pk q)%Q.
Proof. intros S. apply StronglySorted_app in S as (C & _ & SQ). split; [done|]. intros p q Hp Hq. by apply C. Qed.

(** The keys of [A] are below those of [B]. *)
Definition all_before (A B : list pt) : Prop := ∀ a b, a ∈ A → b ∈ B → (pk a < pk b)%Q.

Lemma all_before_advance A a B : all_before A (a :: B) → sorted (a :: B) → all_before (A ++ [a]) B.
Proof.
  intros C [_ S]%sorted_cons x y Hx Hy. apply elem_of_app in Hx as [Hx|Hx].
  - apply C; [done|by right].
  - apply list_elem_of_singleton in Hx as ->. by apply S.
Qed.

(** Advancing past [a] on the left when the head [b] on the right is beyond. *)
Lemma all_before_snoc A a B : all_before A B → (∀ b, b ∈ B → (pk a < pk b)%Q) → all_before (A ++ [a]) B.
Proof.
  intros C S x y Hx Hy. apply elem_of_app in Hx as [Hx|Hx]; [by apply C|].
  apply list_elem_of_singleton in Hx as ->. by apply S.
Qed.

Lemma all_before_tail A b B : all_before A (b :: B) → all_before A B.
Proof. intros C x y Hx Hy. apply C; [done|by right]. Qed.

(** Every element of [b :: B] is beyond [x] when [b] is. *)
Lemma sorted_beyond b B x : sorted (b :: B) → (x < pk b)%Q → ∀ y, y ∈ b :: B → (x < pk y)%Q.
Proof.
  intros [_ S]%sorted_cons Hx y [->|Hy]%elem_of_cons; [done|]. specialize (S y Hy). lra.
Qed.

Section bars.
(** The value, at [x], of the points below: zero where there is none. *)
Definition height (B : list pt) (x : Q) : Q :=
  match List.find (λ q, Qeq_bool (pk q) x) B with Some q => pv q | None => 0%Q end.

Definition raised_by (h : Q) (p o : pt) : Prop :=
  (pk o == pk p)%Q ∧ (pv o == pv p + h)%Q ∧
  if withbottom
  then ∃ z z' r, pt_rest p = z :: r ∧ pt_rest o = z' :: r ∧ (z' == z + h)%Q
  else pt_rest o = pt_rest p.

Lemma height_none Q x : (∀ q, q ∈ Q → ¬ (pk q == x)%Q) → height Q x = 0%Q.
Proof.
  intros Hn. unfold height. destruct (List.find _ Q) as [q|] eqn:E; [|done].
  apply find_some in E as [Hin Heq]. apply Qeq_bool_iff in Heq.
  by apply list_elem_of_In, Hn in Hin.
Qed.

Lemma height_found Q1 q Q2 x : (∀ q', q' ∈ Q1 → (pk q' < x)%Q) → (pk q == x)%Q →
  height (Q1 ++ q :: Q2) x = pv q.
Proof.
  intros Hb Hq. unfold height. induction Q1 as [|q1 Q1 IH]; simpl.
  - by rewrite (proj2 (Qeq_bool_iff _ _) Hq).
  - destruct (Qeq_bool (pk q1) x) eqn:E.
    + apply Qeq_bool_iff in E. specialize (Hb q1 (list_elem_of_here _ _)). lra.
    + apply IH. intros q' Hq'. apply Hb. by right.
Qed.

Lemma raised_bot w p : rest_ok withbottom p → raised_by w p (bot true withbottom w (lift true w p)).
Proof.
  intros Hr. unfold raised_by, bot, lift, rest_ok in *. destruct p as [k v r]. destruct withbottom; simpl in *.
  - destruct r as [|z r]; [by destruct Hr|]. simpl. repeat split; try lra.
    exists z, (z + w)%Q, r. by repeat split.
  - repeat split; lra.
Qed.

Lemma raised_self p : rest_ok withbottom p → raised_by 0 p p.
Proof.
  intros Hr. unfold raised_by, rest_ok in *. repeat split; try lra.
  destruct withbottom; [|done]. destruct (pt_rest p) as [|z r]; [by destruct Hr|].
  exists z, z, r. repeat split. lra.
Qed.

Lemma merge_bars_spec fuel P Q P1 P2 Q1 Q2 O gap :
  P = P1 ++ P2 → Q = Q1 ++ Q2 → wf ps P2 → wf otherps Q2 → Forall (rest_ok withbottom) P2 →
  sorted P2 → sorted Q2 → all_before Q1 P2 → length P2 + length Q2 ≤ fuel →
  ∃ O', merge_loop true 0 1 ps otherps (flat P) (flat Q) false withbottom false fuel
          (MergeState (length (flat P1)) (length (flat Q1)) (flat O) gap) = Ok (flat (O ++ O')) ∧
        Forall2 (λ p o, raised_by (height Q (pk p)) p o) P2 O'.
Proof.
  revert P1 P2 Q1 Q2 O gap. induction fuel as [|fuel IH];
    intros P1 P2 Q1 Q2 O gap EP EQ WP WQ RP SP SQ C Hf.
  { destruct P2; [|simpl in Hf; lia]. rewrite app_nil_r in EP. subst P.
    exists []. split; [|constructor]. cbn [merge_loop].
    fold (step true false withbottom ps otherps P1 Q). rewrite step_done. by rewrite app_nil_r. }
  cbn [merge_loop]. fold (step true false withbottom ps otherps P Q).
  destruct P2 as [|p P2].
  { rewrite app_nil_r in EP. subst P. exists []. rewrite step_done, app_nil_r. split; [done|constructor]. }
  apply Forall_cons in WP as [Wp WP], RP as [Rp RP]. subst P.
  pose proof (sorted_cons _ _ SP) as [SP' Hp].
  destruct Q2 as [|q Q2].
  - rewrite app_nil_r in EQ. subst Q. rewrite step_exhausted by done. cbn [andb].
    destruct (IH (P1 ++ [p]) P2 Q1 [] (O ++ [p]) gap) as (O' & E & F); try done.
    { by rewrite <- app_assoc. } { by rewrite app_nil_r. } { by apply all_before_tail in C. } { simpl in *; lia. }
    exists (p :: O'). rewrite E, <- app_assoc. split; [done|]. constructor; [|done].
    rewrite height_none; [by apply raised_self|]. intros q Hq E'. specialize (C q p Hq (list_elem_of_here _ _)). lra.
  - apply Forall_cons in WQ as [Wq WQ]. subst Q. pose proof (sorted_cons _ _ SQ) as [SQ' Hq].
    assert (Cq : ∀ q', q' ∈ Q1 → (pk q' < pk p)%Q) by (intros q' Hq'; apply C; [done|by left]).
    destruct (Qlt_le_dec (pk q) (pk p)) as [L|L]; [|destruct (Qlt_le_dec (pk p) (pk q)) as [L'|L']].
    + rewrite step_skip by (done || by left).
      destruct (IH P1 (p :: P2) (Q1 ++ [q]) Q2 O false) as (O' & E & F); try done.
      { by rewrite <- app_assoc. } { by constructor. } { by constructor. }
      { apply all_before_snoc; [done|]. by apply sorted_beyond. } { simpl in *; lia. }
      exists O'. rewrite E. done.
    + rewrite step_alone by done.
      destruct (IH (P1 ++ [p]) P2 Q1 (q :: Q2) (O ++ [bot true withbottom 0 (lift true 0 p)]) false) as (O' & E & F); try done.
      { by rewrite <- app_assoc. } { by constructor. } { by apply all_before_tail in C. } { simpl in *; lia. }
      eexists (_ :: O'). rewrite E, <- app_assoc. split; [done|]. constructor; [|done].
      rewrite height_none; [by apply raised_bot|]. intros q' [Hq'|Hq']%elem_of_app E'.
      * specialize (Cq q' Hq'). lra.
      * pose proof (sorted_beyond q Q2 (pk p) SQ L' q' Hq'). lra.
    + assert (Eq : (pk p == pk q)%Q) by lra. rewrite step_equal by done.
      destruct (IH (P1 ++ [p]) P2 (Q1 ++ [q]) Q2 (O ++ [bot true withbottom (pv q) (lift true (pv q) p)]) false) as (O' & E & F); try done.
      { by rewrite <- app_assoc. } { by rewrite <- app_assoc. }
      { apply all_before_snoc; [by apply all_before_tail in C|]. intros b Hb. specialize (Hp b Hb). lra. }
      { simpl in *; lia. }
      eexists (_ :: O'). rewrite E, <- app_assoc. split; [done|]. constructor; [|done].
      rewrite (height_found Q1 q Q2 (pk p) Cq) by lra. by apply raised_bot.
Qed.
End bars.
End loops.

(** ** Lines *)

Section lines.
Context `{NumText xq}.
Variables stacking withbottom : bool.
Variables ps otherps : nat.

(** The polyline through the points of [L] passes through [(k, v)]. *)
Definition on_line (L : list pt) (k v : Q) : Prop :=
  (∃ p, p ∈ L ∧ (pk p == k)%Q ∧ (pv p == v)%Q) ∨
  (∃ A p0 p B, L = A ++ p0 :: p :: B ∧ (pk p0 < k < pk p)%Q ∧ (v == lerp p p0 k)%Q).

(** A point of the result: its value comes from the line of the series, and
    from the line below; the latter also gives its bottom. *)
Definition out_ok (L M : list pt) (o : pt) : Prop :=
  ∃ v w, on_line L (pk o) v ∧ on_line M (pk o) w ∧
    (pv o == if stacking then v + w else v)%Q ∧
    (withbottom = true → ∃ b r, pt_rest o = b :: r ∧
       if stacking then ∃ p z r', p ∈ L ∧ pt_rest p = z :: r' ∧ (b == z + w)%Q else (b == w)%Q).

(** The point pushed for [p'], which carries the components of [p]. *)
Lemma out_ok_bot L M p p' v w :
  p ∈ L → rest_ok withbottom p → pt_rest p' = pt_rest p →
  on_line L (pk p') v → on_line M (pk p') w →
  (pv p' == if stacking then v + w else v)%Q →
  out_ok L M (bot stacking withbottom w p').
Proof.
  intros Hp Hr Er Hv Hw Ev. exists v, w. unfold bot, rest_ok in *.
  destruct p' as [k y r]. simpl in *. subst r. destruct withbottom; simpl; repeat split; try done.
  intros _. destruct (pt_rest p) as [|z r] eqn:E; [by destruct Hr|].
  destruct stacking; eexists _, _; (split; [done|]); [|done].
  exists p, z, r. repeat split; done.
Qed.

Lemma lift_fields w p : pk (lift stacking w p) = pk p ∧ pt_rest (lift stacking w p) = pt_rest p ∧
  (pv (lift stacking w p) == if stacking then pv p + w else pv p)%Q.
Proof. unfold lift. destruct stacking; repeat split; done. Qed.

Lemma out_ok_lift L M p w : p ∈ L → rest_ok withbottom p → on_line M (pk p) w →
  out_ok L M (bot stacking withbottom w (lift stacking w p)).
Proof.
  intros Hp Hr Hw. destruct (lift_fields w p) as (Ek & Er & Ev).
  apply (out_ok_bot L M p _ (pv p)); try done.
  - rewrite Ek. left. exists p. done.
  - by rewrite Ek.
Qed.

Lemma on_line_point L k v p : p ∈ L → (pk p == k)%Q → (pv p == v)%Q → on_line L k v.
Proof. intros. left. by exists p. Qed.

(** Where the loop is: the points of both lines read so far and those to come. *)
Record lines_inv (P Q P1 P2 Q1 Q2 : list pt) (gap : bool) : Prop := LinesInv {
  li_P : P = P1 ++ P2; li_Q : Q = Q1 ++ Q2;
  li_wP : wf ps P; li_wQ : wf otherps Q; li_rest : Forall (rest_ok withbottom) P2;
  li_sP : sorted P2; li_sQ : sorted Q2;
  li_Q1 : all_before Q1 P2; li_P1 : all_before P1 Q2; li_gap : gap = false → Q1 ≠ [];
}.

(** A turn of the loop: it adds right points and leaves less to read. *)
Definition turn (P Q P1 P2 Q1 Q2 O : list pt) (gap : bool) : Prop :=
  ∃ P1' P2' Q1' Q2' N gap',
    step stacking true withbottom ps otherps P Q (MergeState (length (flat P1)) (length (flat Q1)) (flat O) gap)
      = Some (MergeState (length (flat P1')) (length (flat Q1')) (flat (O ++ N)) gap') ∧
    lines_inv P Q P1' P2' Q1' Q2' gap' ∧ Forall (out_ok P Q) N ∧
    length P2' + length Q2' < length P2 + length Q2.

Lemma wf_length n L p : wf n L → p ∈ L → length (enc p) = n.
Proof. unfold wf. rewrite Forall_forall. auto. Qed.

Lemma turn_exhausted P Q P1 p P2 Q1 O gap : lines_inv P Q P1 (p :: P2) Q1 [] gap → turn P Q P1 (p :: P2) Q1 [] O gap.
Proof.
  intros [EP EQ WP WQ RP SP SQ C D G]. rewrite app_nil_r in EQ. subst Q1.
  exists (P1 ++ [p]), P2, Q, [], [], gap. rewrite app_nil_r. split.
  { subst P. apply step_exhausted. apply (wf_length _ (P1 ++ p :: P2)); [done|]. apply elem_of_app. right. by left. }
  split; [|split; [done|simpl; lia]]. pose proof (sorted_cons _ _ SP) as [SP' _].
  split; try done; [by rewrite <- app_assoc|by rewrite app_nil_r|by apply Forall_cons in RP as [_ RP]| |].
  - by apply all_before_tail in C.
  - intros a b _ Hb. by apply elem_of_nil in Hb.
Qed.

(** The other line has a point before: it is left out, or inserted on the line. *)
Lemma turn_below P Q P1 p P2 Q1 q Q2 O gap : lines_inv P Q P1 (p :: P2) Q1 (q :: Q2) gap → (pk q < pk p)%Q →
  turn P Q P1 (p :: P2) Q1 (q :: Q2) O gap.
Proof.
  intros [EP EQ WP WQ RP SP SQ C D G] L. pose proof (sorted_cons _ _ SQ) as [SQ' Hq].
  assert (HQ : Q = (Q1 ++ [q]) ++ Q2) by (subst Q; by rewrite <- app_assoc).
  assert (CQ : all_before (Q1 ++ [q]) (p :: P2)) by (apply all_before_snoc; [done|by apply sorted_beyond]).
  assert (NQ : Q1 ++ [q] ≠ []) by by destruct Q1.
  assert (HpP : p ∈ P) by (subst P; apply elem_of_app; right; left).
  assert (HqQ : q ∈ Q) by (subst Q; apply elem_of_app; right; left).
  pose proof (wf_length _ _ _ WP HpP) as Wp. pose proof (wf_length _ _ _ WQ HqQ) as Wq.
  assert (I : lines_inv P Q P1 (p :: P2) (Q1 ++ [q]) Q2 false) by (split; try done; by apply all_before_tail in D).
  assert (Rp : rest_ok withbottom p) by (by apply Forall_cons in RP as [Rp _]).
  destruct (decide (P1 = [])) as [E1|E1].
  - exists P1, (p :: P2), (Q1 ++ [q]), Q2, [], false. rewrite app_nil_r.
    split; [rewrite EP, EQ; rewrite step_skip by (done || by right); done|]. split; [done|]. split; [done|simpl; lia].
  - destruct (exists_last E1) as (P0 & p0 & E0).
    assert (Hp0 : (pk p0 < pk q)%Q) by (apply D; [subst P1; apply elem_of_app; right; by left|by left]).
    assert (W0 : length (enc p0) = ps).
    { apply (wf_length _ P); [done|]. subst P P1. apply elem_of_app. left. apply elem_of_app. right. by left. }
    exists P1, (p :: P2), (Q1 ++ [q]), Q2, [bot stacking withbottom (pv q) (inserted stacking p q p0)], false.
    split; [rewrite EP, EQ; by rewrite (step_insert _ _ _ _ _ P1 P2 Q1 Q2 O p q gap Wp Wq Rp P0 p0 E0 W0) by (done || lra)|].
    split; [done|]. split; [|simpl; lia]. apply Forall_singleton.
    apply (out_ok_bot P Q p _ (lerp p p0 (pk q))); try done; [|by apply (on_line_point Q _ _ q)].
    right. exists P0, p0, p, P2. split; [|split; [by split|done]]. subst P P1. by rewrite <- app_assoc.
Qed.

(** The series has a point before: it is dropped in a gap, or raised by the line below. *)
Lemma turn_above P Q P1 p P2 Q1 q Q2 O gap : lines_inv P Q P1 (p :: P2) Q1 (q :: Q2) gap → (pk p < pk q)%Q →
  turn P Q P1 (p :: P2) Q1 (q :: Q2) O gap.
Proof.
  intros [EP EQ WP WQ RP SP SQ C D G] L. pose proof (sorted_cons _ _ SP) as [SP' Hp].
  assert (HpP : p ∈ P) by (subst P; apply elem_of_app; right; left).
  assert (HqQ : q ∈ Q) by (subst Q; apply elem_of_app; right; left).
  pose proof (wf_length _ _ _ WP HpP) as Wp. pose proof (wf_length _ _ _ WQ HqQ) as Wq.
  assert (HP : P = (P1 ++ [p]) ++ P2) by (subst P; by rewrite <- app_assoc).
  assert (DP : all_before (P1 ++ [p]) (q :: Q2)) by (apply all_before_snoc; [done|by apply sorted_beyond]).
  apply Forall_cons in RP as [Rp RP].
  assert (I : lines_inv P Q (P1 ++ [p]) P2 Q1 (q :: Q2) gap) by (split; try done; by apply all_before_tail in C).
  destruct gap.
  - exists (P1 ++ [p]), P2, Q1, (q :: Q2), [], true. rewrite app_nil_r.
    split; [rewrite EP, EQ; by rewrite step_gap|]. split; [done|]. split; [done|simpl; lia].
  - destruct (exists_last (G eq_refl)) as (Q0 & q0 & E0).
    assert (Hq0 : (pk q0 < pk p)%Q) by (apply C; [subst Q1; apply elem_of_app; right; by left|by left]).
    assert (W0 : length (enc q0) = otherps).
    { apply (wf_length _ Q); [done|]. subst Q Q1. apply elem_of_app. left. apply elem_of_app. right. by left. }
    exists (P1 ++ [p]), P2, Q1, (q :: Q2), [bot stacking withbottom (lerp q q0 (pk p)) (lift stacking (lerp q q0 (pk p)) p)], false.
    split; [rewrite EP, EQ; by rewrite (step_interp _ _ _ _ _ P1 P2 Q1 Q2 O p q false Wp Wq Rp Q0 q0 E0 W0) by (done || lra)|].
    split; [done|]. split; [|simpl; lia]. apply Forall_singleton. apply out_ok_lift; [done..|]. right. exists Q0, q0, q, Q2.
    split; [|split; [by split|done]]. subst Q Q1. by rewrite <- app_assoc.
Qed.

Lemma turn_equal P Q P1 p P2 Q1 q Q2 O gap : lines_inv P Q P1 (p :: P2) Q1 (q :: Q2) gap → (pk p == pk q)%Q →
  turn P Q P1 (p :: P2) Q1 (q :: Q2) O gap.
Proof.
  intros [EP EQ WP WQ RP SP SQ C D G] Eq. pose proof (sorted_cons _ _ SP) as [SP' Hp]. pose proof (sorted_cons _ _ SQ) as [SQ' Hq].
  assert (HpP : p ∈ P) by (subst P; apply elem_of_app; right; left).
  assert (HqQ : q ∈ Q) by (subst Q; apply elem_of_app; right; left).
  pose proof (wf_length _ _ _ WP HpP) as Wp. pose proof (wf_length _ _ _ WQ HqQ) as Wq.
  apply Forall_cons in RP as [Rp RP].
  exists (P1 ++ [p]), P2, (Q1 ++ [q]), Q2, [bot stacking withbottom (pv q) (lift stacking (pv q) p)], false.
  split; [rewrite EP, EQ; by rewrite step_equal|].
  split; [split; try done|split; [|simpl; lia]].
  - subst P. by rewrite <- app_assoc.
  - subst Q. by rewrite <- app_assoc.
  - apply all_before_snoc; [by apply all_before_tail in C|]. intros b Hb. specialize (Hp b Hb). lra.
  - apply all_before_snoc; [by apply all_before_tail in D|]. intros b Hb. specialize (Hq b Hb). lra.
  - intros _. by destruct Q1.
  - apply Forall_singleton. apply out_ok_lift; [done..|]. by apply (on_line_point Q _ _ q).
Qed.

Lemma line_turn P Q P1 p P2 Q1 Q2 O gap : lines_inv P Q P1 (p :: P2) Q1 Q2 gap → turn P Q P1 (p :: P2) Q1 Q2 O gap.
Proof.
  intros I. destruct Q2 as [|q Q2]; [by apply turn_exhausted|].
  destruct (Qlt_le_dec (pk q) (pk p)) as [L|L]; [by apply turn_below|].
  destruct (Qlt_le_dec (pk p) (pk q)) as [L'|L']; [by apply turn_above|]. apply turn_equal; [done|lra].
Qed.

Lemma merge_lines_spec fuel P Q P1 P2 Q1 Q2 O gap :
  P = P1 ++ P2 → Q = Q1 ++ Q2 → wf ps P → wf otherps Q → Forall (rest_ok withbottom) P2 →
  sorted P2 → sorted Q2 → all_before Q1 P2 → all_before P1 Q2 → (gap = false → Q1 ≠ []) →
  length P2 + length Q2 ≤ fuel →
  ∃ O', merge_loop stacking 0 1 ps otherps (flat P) (flat Q) true withbottom false fuel
          (MergeState (length (flat P1)) (length (flat Q1)) (flat O) gap) = Ok (flat (O ++ O')) ∧
        Forall (out_ok P Q) O'.
Proof.
  intros EP EQ WP WQ RP SP SQ C D G. assert (I : lines_inv P Q P1 P2 Q1 Q2 gap) by done.
  clear EP EQ WP WQ RP SP SQ C D G. revert P1 P2 Q1 Q2 O gap I. induction fuel as [|fuel IH]; intros P1 P2 Q1 Q2 O gap I Hf;
    cbn [merge_loop]; fold (step stacking true withbottom ps otherps P Q).
  { destruct P2; [|simpl in Hf; lia]. pose proof (li_P _ _ _ _ _ _ _ I) as EP. rewrite app_nil_r in EP. subst P1.
    exists []. rewrite step_done, app_nil_r. by split. }
  destruct P2 as [|p P2].
  { pose proof (li_P _ _ _ _ _ _ _ I) as EP. rewrite app_nil_r in EP. subst P1.
    exists []. rewrite step_done, app_nil_r. by split. }
  destruct (line_turn P Q P1 p P2 Q1 Q2 O gap I) as (P1' & P2' & Q1' & Q2' & N & gap' & -> & I' & HN & Hl).
  destruct (IH P1' P2' Q1' Q2' (O ++ N) gap' I') as (O' & E & F); [lia|].
  exists (N ++ O'). rewrite E, <- app_assoc. split; [done|]. by apply Forall_app.
Qed.
End lines.
