(* ===== verification/FlotStack.v ===== *)
(** The data plugins of the graphs: stacking
    ([static/flot/jquery.flot.stack.js]), filling between series
    ([static/flot/jquery.flot.fillbetween.js]) and thresholds
    ([static/flot/jquery.flot.threshold.js]), as hooks of [processData]. *)

From S2P Require Import Prelude Numbers ExactNum Float64 JsText JsValue FlotModel FlotData FlotMerge FlotMergeSpec.
From stdpp Require Import sets.
From Stdlib Require Import QArith Lqa.

#[local] Open Scope nat_scope.

Section hooks.
Context {num : Type} `{Num num} `{NumText num}.
Implicit Types (s : series num) (ss : list (series num)).

(** [other.datapoints.pointsize] and the points. *)
Definition points_of s : list (jsv num) := dp_points (s_datapoints s).

(** [format[2].x] or [format[2].y]; a missing format or entry throws. *)
Definition third_entry s (sel : format_entry num → bool) : result bool :=
  match dp_format (s_datapoints s) ≫= (λ f, f !! 2) with
  | Some f => Ok (sel f)
  | None => Throw "TypeError"
  end.

(** [ps > 2 && ...] *)
Definition has_bottom s (sel : format_entry num → bool) : result bool :=
  if 2 <? pointsize s then third_entry s sel else Ok false.

(** ** Stacking *)

(** The last series before [s] with the same stack key. *)
Fixpoint findMatchingSeries (stack_key : jsv num) (before : list (series num))
    (res : option (series num)) : option (series num) :=
  match before with
  | [] => res
  | o :: before =>
      findMatchingSeries stack_key before
        (if loose_eq (stack (s_plugin o)) stack_key then Some o else res)
  end.

Definition stackData ss (i : nat) : result (list (series num)) :=
  match ss !! i with
  | None => Ok ss
  | Some s =>
      if is_null (stack (s_plugin s)) then Ok ss
      else match findMatchingSeries (stack (s_plugin s)) (take i ss) None with
           | None => Ok ss
           | Some other =>
               let withlines := lines_show (s_lines s) in
               let horizontal := bars_horizontal (s_bars s) in
               withbottom ← has_bottom s (if horizontal then f_x else f_y);
               let withsteps := withlines && lines_steps (s_lines s) in
               let keyOffset := if horizontal then 1 else 0 in
               let accumulateOffset := if horizontal then 0 else 1 in
               new ← merge_points true keyOffset accumulateOffset (pointsize s) (pointsize other)
                       (points_of s) (points_of other) withlines withbottom withsteps;
               Ok (<[i := with_points s new]> ss)
           end
  end.

(** ** Filling *)

Definition findBottomSeries s ss : option (series num) :=
  match List.find (λ o, loose_eq (s_id o) (fillBetween (s_plugin s))) ss with
  | Some o => Some o
  | None =>
      match fillBetween (s_plugin s) with
      | Number x =>
          match to_integer x with
          | Some z => if (0 <=? z)%Z && neqb (of_Z z) x then ss !! Z.to_nat z else None
          | None => None
          end
      | _ => None
      end
  end.

Definition computeFillBottoms ss (i : nat) : result (list (series num)) :=
  match ss !! i with
  | None => Ok ss
  | Some s =>
      if is_null (fillBetween (s_plugin s)) then Ok ss
      else match findBottomSeries s ss with
           | None => Ok ss
           | Some other =>
               let withlines := lines_show (s_lines s) in
               withbottom ← has_bottom s f_y;
               let withsteps := withlines && lines_steps (s_lines s) in
               new ← merge_points false 0 1 (pointsize s) (pointsize other)
                       (points_of s) (points_of other) withlines withbottom withsteps;
               Ok (<[i := with_points s new]> ss)
           end
  end.

(** ** Thresholds *)

(** The two point lists and the current one ([true]: the points below the
    threshold). *)
Record split_state := SplitState {
  threspoints : list (jsv num); keptpoints : list (jsv num); current : option bool;
}.

Definition push_to (below : bool) (vs : list (jsv num)) (st : split_state) : split_state :=
  if below then SplitState (threspoints st ++ vs) (keptpoints st) (current st)
  else SplitState (threspoints st) (keptpoints st ++ vs) (current st).

(** One turn of the loop, at index [i]. *)
Definition split_step (ps : nat) (below : num) (addCrossingPoints : bool) (orig : list (jsv num))
    (st : split_state) (i : nat) : split_state :=
  let x := aget orig (Z.of_nat i) in
  let y := aget orig (Z.of_nat (i + 1)) in
  let prevp := current st in
  let p := js_ltb y (Number below) in
  let st := SplitState (threspoints st) (keptpoints st) (Some p) in
  let st :=
    match prevp with
    | Some prev =>
        let x0 := aget orig (Z.of_nat (i - ps)) in
        let y0 := aget orig (Z.of_nat (i - ps + 1)) in
        if addCrossingPoints && negb (Bool.eqb prev p) && negb (is_null x)
           && (0 <? i) && negb (is_null x0)
        then
          let interx :=
            js_add (Number ((to_num x - to_num x0) / (to_num y - to_num y0) * (below - to_num y))%num) x in
          let rest := aslice orig (i + 2) (ps - 2) in
          push_to p ([interx; Number below] ++ rest)
            (push_to p ([Null; Null] ++ rest)
              (push_to prev ([interx; Number below] ++ rest) st))
        else st
    | None => st
    end in
  push_to p [x; y] st.

Definition split_points (ps : nat) (below : num) (addCrossingPoints : bool) (orig : list (jsv num))
    : split_state :=
  foldl (split_step ps below addCrossingPoints orig) (SplitState [] [] None)
    (group_indices ps (length orig)).

(** The series of the points below the threshold: a copy of [s] with its own
    points and color. *)
Definition thresholded s (i : nat) (color : string) (points : list (jsv num)) : series num :=
  let p := s_plugin s in
  Series (s_id s) None color (s_lines s) (s_points s) (s_bars s) (s_shadowSize s)
    (Plugin (stack p) (fillBetween p) None) []
    (Datapoints points (dp_pointsize (s_datapoints s)) None)
    (s_xaxis s) (s_yaxis s) (s_hoverable s) (s_clickable s) (Some i).

Definition thresholdData ss (i : nat) : result (list (series num)) :=
  match ss !! i with
  | None => Ok ss
  | Some s =>
      match threshold (s_plugin s) with
      | None => Ok ss
      | Some (below, color) =>
          let st := split_points (pointsize s) below (lines_show (s_lines s)) (points_of s) in
          let ss := <[i := with_points s (keptpoints st)]> ss in
          Ok (if (length (threspoints st) =? 0) then ss
              else ss ++ [thresholded s i color (threspoints st)])
      end
  end.
End hooks.

(** ** Lemmas: thresholds *)

Section threshold_lemmas.
Context {num : Type} `{Num num} `{NumText num}.
Implicit Types (g : list (jsv num)) (gs : list (list (jsv num))).

(** [y < below] on a group. *)
Definition is_below (below : num) (g : list (jsv num)) : bool := js_ltb (aget g 1) (Number below).

Lemma group_indices_pairs gs : Forall (λ g, length g = 2) gs →
  group_indices 2 (length (concat gs)) = map (λ k, k * 2) (seq 0 (length gs)).
Proof.
  intros Hgs. unfold group_indices. do 2 f_equal.
  assert (E : length (concat gs) = length gs * 2).
  { induction Hgs as [|g gs Hg Hgs IH]; [done|]. simpl. rewrite length_app, IH. lia. }
  rewrite E. rewrite <- (Nat.div_mul (length gs) 2) at 2 by done.
  replace (length gs * 2 + 2 - 1) with (1 + length gs * 2) by lia.
  rewrite Nat.div_add by done. rewrite Nat.div_mul by done. done.
Qed.

Lemma aget_group gs1 g gs2 k : Forall (λ g, length g = 2) gs1 → k < length g →
  aget (concat (gs1 ++ g :: gs2)) (Z.of_nat (length gs1 * 2 + k)) = aget g (Z.of_nat k).
Proof.
  intros Hgs Hk. rewrite concat_app. simpl.
  assert (E : length (concat gs1) = length gs1 * 2).
  { induction Hgs as [|h gs Hh Hgs IH]; [done|]. simpl. rewrite length_app, IH. lia. }
  rewrite <- E, aget_app_r. by apply aget_app_l.
Qed.

Lemma split_fold below gs gs1 gs2 st :
  gs = gs1 ++ gs2 → Forall (λ g, length g = 2) gs →
  let st' := foldl (split_step 2 below false (concat gs)) st
               (map (λ k, k * 2) (seq (length gs1) (length gs2))) in
  threspoints st' = threspoints st ++ concat (List.filter (is_below below) gs2) ∧
  keptpoints st' = keptpoints st ++ concat (List.filter (λ g, negb (is_below below g)) gs2).
Proof.
  revert gs1 st. induction gs2 as [|g gs2 IH]; intros gs1 st E Hgs.
  { simpl. by rewrite !app_nil_r. }
  cbn [length seq map foldl]. set (st1 := split_step _ _ _ _ _ _).
  assert (W : Forall (λ g, length g = 2) gs1 ∧ length g = 2).
  { rewrite E in Hgs. apply Forall_app in Hgs as [? [? _]%Forall_cons]. done. }
  destruct W as [W1 Wg].
  assert (Eg : g = [aget g 0; aget g 1]) by (destruct g as [|x [|y [|]]]; done).
  assert (S1 : st1 = push_to (is_below below g) g
                 (SplitState (threspoints st) (keptpoints st) (Some (is_below below g)))).
  { unfold st1, split_step. rewrite E.
    pose proof (aget_group gs1 g gs2 0 W1 ltac:(lia)) as A0. rewrite Nat.add_0_r in A0.
    pose proof (aget_group gs1 g gs2 1 W1 ltac:(lia)) as A1.
    rewrite A0, A1. fold (is_below below g). cbn [andb].
    change (Z.of_nat 0) with 0%Z. change (Z.of_nat 1) with 1%Z. rewrite <- Eg.
    unfold is_below. by destruct (current st). }
  destruct (IH (gs1 ++ [g]) st1) as [A B].
  { by rewrite <- app_assoc. } { done. }
  rewrite length_app, Nat.add_1_r in A, B. rewrite A, B, S1. clear.
  unfold push_to. simpl. destruct (is_below below g); simpl; by rewrite <- app_assoc.
Qed.
End threshold_lemmas.

Section threshold_lines.
Local Open Scope Q_scope.
Context `{NumText xq}.

(** Points and the nulls that separate segments. *)
Definition enc_gap (o : option pt) : list (jsv xq) :=
  match o with Some p => enc p | None => [Null; Null] end.
Definition flat_gaps (L : list (option pt)) : list (jsv xq) := concat (map enc_gap L).

Definition side_ok (below : Q) (P : list pt) (lower : bool) (o : option pt) : Prop :=
  match o with
  | None => True
  | Some c => on_line P (pk c) (pv c) ∧ if lower then pv c <= below else below <= pv c
  end.

Definition is_lower (below : Q) (p : pt) : bool := nltb (XFin (pv p)) (XFin below).

(** The crossing of the threshold between two points. *)
Definition crossing (below : Q) (p0 p : pt) : pt :=
  Pt ((pk p - pk p0) / (pv p - pv p0) * (below - pv p) + pk p) below [].

Lemma crossing_on_line below A p0 p B :
  pk p0 < pk p → is_lower below p0 ≠ is_lower below p →
  on_line (A ++ p0 :: p :: B) (pk (crossing below p0 p)) below.
Proof.
  intros Hk Hl. unfold is_lower in Hl.
  set (k := pk (crossing below p0 p)).
  assert (D : ¬ pv p - pv p0 == 0).
  { intros E. apply Hl. destruct (nltb (XFin (pv p0)) (XFin below)) eqn:C1,
      (nltb (XFin (pv p)) (XFin below)) eqn:C2; xq_hyps; try done; lra. }
  set (r := (below - pv p) / (pv p - pv p0)).
  assert (Er : r * (pv p - pv p0) == below - pv p) by (unfold r; by field).
  assert (Ek : k == (pk p - pk p0) * r + pk p) by (unfold k, r; simpl; by field).
  assert (Br : -(1) <= r <= 0 ∧ (r == -(1) → pv p0 == below) ∧ (r == 0 → pv p == below)).
  { destruct (nltb (XFin (pv p0)) (XFin below)) eqn:C1, (nltb (XFin (pv p)) (XFin below)) eqn:C2;
      try done; xq_hyps; (split; [split; nra|split; nra]). }
  clearbody k r. destruct Br as ([B1 B2] & B3 & B4).
  destruct (Qeq_dec r 0) as [E0|E0].
  { left. exists p. repeat split; [|nra|by apply B4]. apply elem_of_app. right. right. by left. }
  destruct (Qeq_dec r (-(1))) as [E1|E1].
  { left. exists p0. repeat split; [|nra|by apply B3]. apply elem_of_app. right. by left. }
  assert (-(1) < r) by (destruct (Qle_lt_or_eq _ _ B1) as [|F]; [done|]; exfalso; apply E1; lra).
  assert (r < 0) by (destruct (Qle_lt_or_eq _ _ B2); [done|contradiction]).
  right. exists A, p0, p, B. split; [done|]. split; [split; nra|].
  unfold lerp. assert (N : ¬ pk p0 - pk p == 0) by lra.
  assert (G : (pv p0 - pv p) * (k - pk p) / (pk p0 - pk p) == r * (pv p - pv p0)).
  { rewrite Ek. field. lra. }
  rewrite G. lra.
Qed.

Lemma slope_ne below p0 p : is_lower below p0 ≠ is_lower below p → ¬ pv p - pv p0 == 0.
Proof.
  intros Hl E. apply Hl. unfold is_lower.
  destruct (nltb (XFin (pv p0)) (XFin below)) eqn:C1,
    (nltb (XFin (pv p)) (XFin below)) eqn:C2; xq_hyps; try done; lra.
Qed.

Lemma flat_gaps_snoc L o : flat_gaps (L ++ [o]) = flat_gaps L ++ enc_gap o.
Proof. unfold flat_gaps. rewrite map_app, concat_app. simpl. by rewrite app_nil_r. Qed.

Lemma length_flat_pairs P : wf 2 P → length (flat P) = (length P * 2)%nat.
Proof.
  induction 1 as [|p P Hp HP IH]; [done|]. rewrite flat_cons, length_app, IH, Hp. simpl. lia.
Qed.

(** The turn of the loop at a point, from the lists built so far. *)
Lemma split_step_point below P1 p P2 st :
  wf 2 (P1 ++ p :: P2) →
  (∀ P0 p0, P1 = P0 ++ [p0] → current st = Some (is_lower below p0)) → (P1 = [] → current st = None) →
  let low := is_lower below p in
  split_step 2 (XFin below) true (flat (P1 ++ p :: P2)) st (length P1 * 2)
  = push_to low (enc p)
      (match last P1 with
       | Some p0 =>
           if Bool.eqb (is_lower below p0) low then SplitState (threspoints st) (keptpoints st) (Some low)
           else push_to low (enc_gap None ++ enc (crossing below p0 p))
                  (push_to (is_lower below p0) (enc (crossing below p0 p))
                    (SplitState (threspoints st) (keptpoints st) (Some low)))
       | None => SplitState (threspoints st) (keptpoints st) (Some low)
       end).
Proof.
  intros HW Hlast Hnil low. unfold wf in HW. apply Forall_app in HW as [W1 [Wp W2]%Forall_cons].
  assert (Ep : enc p = [num_of (pk p); num_of (pv p)]) by (destruct p as [k v [|]]; done).
  unfold split_step. rewrite <- (length_flat_pairs P1 W1).
  pose proof (at_key P1 p P2) as Ex. pose proof (at_value P1 p P2) as Ey. unfold at_ in Ex, Ey.
  rewrite Ex, Ey, Ep. change (js_ltb (num_of (pv p)) (Number (XFin below))) with low.
  destruct (last P1) as [p0|] eqn:El.
  - apply last_Some in El as (P0 & ->).
    assert (Wp0 : length (enc p0) = 2%nat) by by apply Forall_app in W1 as [_ [? _]%Forall_cons].
    rewrite (Hlast P0 p0 eq_refl).
    pose proof (at_prev_key0 2 P0 p0 (p :: P2) Wp0 ltac:(lia)) as Ex0.
    pose proof (at_prev_value 2 P0 p0 (p :: P2) Wp0 ltac:(lia)) as Ey0.
    unfold at_ in Ex0, Ey0. rewrite Ex0, Ey0, (not_first P0 p0).
    cbn [is_null num_of negb andb Nat.sub]. rewrite !andb_true_r.
    destruct (Bool.eqb (is_lower below p0) low) eqn:Eb; [done|]. cbn [negb].
    apply eqb_false_iff, slope_ne in Eb.
    assert (Ei : js_add (Number ((to_num (num_of (pk p)) - to_num (num_of (pk p0)))
        / (to_num (num_of (pv p)) - to_num (num_of (pv p0))) * (XFin below - to_num (num_of (pv p))))%num)
        (num_of (pk p)) = num_of (pk (crossing below p0 p))).
    { transitivity (js_add (Number (nmul (ndiv (XFin (pk p - pk p0)) (XFin (pv p - pv p0)))
        (XFin (below - pv p)))) (num_of (pk p))); [done|]. by rewrite Exact.div_fin. }
    unfold num_of in Ei |- *. cbn [to_num] in Ei |- *. rewrite Ei.
    clear. unfold push_to. destruct (is_lower below p0), low; simpl; by rewrite <- ?app_assoc.
  - apply last_None in El as ->. by rewrite Hnil.
Qed.

Lemma last_cases (P1 : list pt) : P1 = [] ∨ ∃ P0 p0, P1 = P0 ++ [p0].
Proof. destruct (last P1) as [p0|] eqn:E; [right|left; by apply last_None]. apply last_Some in E as (P0 & ->). eauto. Qed.

Definition state_of (T K : list (option pt)) (cur : option bool) : split_state :=
  SplitState (flat_gaps T) (flat_gaps K) cur.

(** A point goes to its side. *)
Lemma push_point below P p T K T0 K0 :
  p ∈ P → Forall (side_ok below P true) T0 → Forall (side_ok below P false) K0 → T ⊆ T0 → K ⊆ K0 →
  ∃ T1 K1,
    push_to (is_lower below p) (enc p) (SplitState (flat_gaps T0) (flat_gaps K0) (Some (is_lower below p)))
    = state_of T1 K1 (Some (is_lower below p)) ∧
    Forall (side_ok below P true) T1 ∧ Forall (side_ok below P false) K1 ∧ T ⊆ T1 ∧ K ⊆ K1 ∧
    Some p ∈ if is_lower below p then T1 else K1.
Proof.
  intros Hp HT0 HK0 ST SK.
  assert (Hok : side_ok below P (is_lower below p) (Some p)).
  { split; [left; by exists p|]. unfold is_lower. destruct (nltb _ _) eqn:El; xq_hyps; lra. }
  unfold push_to, state_of. destruct (is_lower below p) eqn:El.
  - exists (T0 ++ [Some p]), K0. rewrite flat_gaps_snoc. split; [done|].
    split; [apply Forall_app; split; [done|]; by constructor|]. repeat split; [done|set_solver|done|set_solver].
  - exists T0, (K0 ++ [Some p]). rewrite flat_gaps_snoc. split; [done|]. split; [done|].
    split; [apply Forall_app; split; [done|]; by constructor|]. repeat split; [done|set_solver|set_solver].
Qed.

(** A crossing ends the line on one side and begins it on the other. *)
Lemma push_crossing below p0 p c T K cur : is_lower below p0 ≠ is_lower below p →
  push_to (is_lower below p) (enc_gap None ++ enc c)
    (push_to (is_lower below p0) (enc c) (SplitState (flat_gaps T) (flat_gaps K) cur))
  = let L := [None; Some c] in
    SplitState (flat_gaps (T ++ if is_lower below p then L else [Some c]))
      (flat_gaps (K ++ if is_lower below p then [Some c] else L)) cur.
Proof.
  intros Hn. unfold push_to. destruct (is_lower below p0), (is_lower below p); try done; simpl;
    unfold flat_gaps; rewrite !map_app, !concat_app; simpl; by rewrite ?app_nil_r.
Qed.

(** The turn at a point keeps both sides right, and puts the point on its side. *)
Lemma split_turn below P P1 p P2 T K :
  P = P1 ++ p :: P2 → wf 2 P → sorted P →
  Forall (side_ok below P true) T → Forall (side_ok below P false) K →
  ∃ T1 K1,
    split_step 2 (XFin below) true (flat P) (state_of T K (fmap (M := option) (is_lower below) (last P1))) (length P1 * 2)
      = state_of T1 K1 (Some (is_lower below p)) ∧
    Forall (side_ok below P true) T1 ∧ Forall (side_ok below P false) K1 ∧ T ⊆ T1 ∧ K ⊆ K1 ∧
    Some p ∈ if is_lower below p then T1 else K1.
Proof.
  intros EP HW HS HT HK. assert (HpP : p ∈ P) by (rewrite EP; apply elem_of_app; right; by left).
  pose proof (split_step_point below P1 p P2 (state_of T K (fmap (M := option) (is_lower below) (last P1)))) as ES.
  rewrite <- EP in ES. cbv zeta in ES. rewrite ES; [|done|..]; clear ES.
  2: { intros P0 p0 ->. cbn [current state_of]. by rewrite last_snoc. }
  2: { by intros ->. }
  cbn [threspoints keptpoints state_of].
  destruct (last_cases P1) as [-> |(P0 & p0 & ->)]; [by apply push_point|]. rewrite last_snoc.
  destruct (Bool.eqb (is_lower below p0) (is_lower below p)) eqn:Eb; [by apply push_point|].
  apply eqb_false_iff in Eb. set (c := crossing below p0 p).
  assert (Hk : pk p0 < pk p).
  { rewrite EP in HS. apply sorted_app in HS as [_ HS]. apply HS; [apply elem_of_app; right; by left|by left]. }
  assert (Hc : ∀ lower, side_ok below P lower (Some c)).
  { intros lower. split; [|destruct lower; simpl; lra]. rewrite EP, <- app_assoc. by apply crossing_on_line. }
  rewrite push_crossing by done. cbv zeta. apply push_point; [done| | |set_solver|set_solver];
    apply Forall_app; (split; [done|]); destruct (is_lower below p); repeat (apply List.Forall_cons; [done || apply Hc|]); done.
Qed.

Lemma split_lines_fold below P P1 P2 T K cur :
  P = P1 ++ P2 → wf 2 P → sorted P →
  cur = fmap (M := option) (is_lower below) (last P1) →
  Forall (side_ok below P true) T → Forall (side_ok below P false) K →
  ∃ T' K' cur',
    foldl (split_step 2 (XFin below) true (flat P)) (state_of T K cur)
      (map (λ k, k * 2)%nat (seq (length P1) (length P2))) = state_of T' K' cur' ∧
    Forall (side_ok below P true) T' ∧ Forall (side_ok below P false) K' ∧
    T ⊆ T' ∧ K ⊆ K' ∧ (∀ p, p ∈ P2 → Some p ∈ if is_lower below p then T' else K').
Proof.
  revert P1 T K cur. induction P2 as [|p P2 IH]; intros P1 T K cur EP HW HS Hcur HT HK.
  { exists T, K, cur. repeat split; try done. intros p Hp. by apply elem_of_nil in Hp. }
  cbn [length seq map foldl]. rewrite Hcur.
  destruct (split_turn below P P1 p P2 T K EP HW HS HT HK) as (T1 & K1 & E & HT1 & HK1 & ST & SK & Hin). rewrite E.
  destruct (IH (P1 ++ [p]) T1 K1 (Some (is_lower below p))) as (T' & K' & cur' & E' & HT' & HK' & ST' & SK' & Hin'); try done.
  { by rewrite <- app_assoc. } { by rewrite last_snoc. }
  rewrite length_app, Nat.add_1_r in E'.
  exists T', K', cur'. split; [done|]. split; [done|]. split; [done|].
  split; [by etrans|]. split; [by etrans|].
  intros p' [-> |Hp']%elem_of_cons; [|by apply Hin'].
  destruct (is_lower below p); [by apply ST'|by apply SK'].
Qed.
End threshold_lines.

(** ** Properties *)

Section stacked_pair.
Context `{NumText xq}.

(** A series and the one below it, as points. *)
Variables (ss : list (series xq)) (i : nat) (s other : series xq) (P B : list pt) (withbottom : bool).
Hypothesis Hs : ss !! i = Some s.
Hypothesis HP : points_of s = flat P.
Hypothesis HB : points_of other = flat B.
Hypothesis WP : wf (pointsize s) P.
Hypothesis WB : wf (pointsize other) B.
Hypothesis SP : sorted P.
Hypothesis SB : sorted B.
Hypothesis Hbottom : has_bottom s f_y = Ok withbottom.
Hypothesis Hrest : Forall (rest_ok withbottom) P.

Lemma fuel_enough : length P + length B ≤ length (flat P) + length (flat B).
Proof.
  assert (E : ∀ L, length L ≤ length (flat L)).
  { induction L as [|p L IH]; [done|]. rewrite flat_cons, length_app. simpl. lia. }
  pose proof (E P). pose proof (E B). lia.
Qed.

(** Stacking a series drawn without lines (bars or points) on the series
    below it: for points sorted by x, every point stays at its x, and its value
    (and its bottom, when it has one) is raised by the value the series below
    has at that x, or by zero when it has none. *)
Theorem stackData_bars :
  is_null (stack (s_plugin s)) = false →
  findMatchingSeries (stack (s_plugin s)) (take i ss) None = Some other →
  lines_show (s_lines s) = false → bars_horizontal (s_bars s) = false →
  ∃ O, stackData ss i = Ok (<[i := with_points s (flat O)]> ss) ∧
       Forall2 (λ p o, raised_by withbottom (height B (pk p)) p o) P O.
Proof.
  intros Hst Hfind Hl Hh. unfold stackData. rewrite Hs, Hst, Hfind, Hl, Hh, Hbottom.
  cbn [mbind result_bind andb]. rewrite HP, HB. unfold merge_points, merge_fuel.
  destruct (merge_bars_spec withbottom (pointsize s) (pointsize other) (length (flat P) + length (flat B)) P B [] P [] B [] true
    eq_refl eq_refl WP WB Hrest SP SB) as (O & E & F).
  { intros a b Ha. by apply elem_of_nil in Ha. } { apply fuel_enough. }
  exists O. cbn [flat map concat app length] in E. rewrite E. done.
Qed.

(** C5: stacking a line on the line below it: for points sorted by x, every
    point of the result lies at the sum of the heights of the two lines at its
    x (points being inserted by interpolation where only one of the lines has
    a point), and a filled line gets the lower line as its bottom. *)
Theorem stackData_lines :
  is_null (stack (s_plugin s)) = false →
  findMatchingSeries (stack (s_plugin s)) (take i ss) None = Some other →
  lines_show (s_lines s) = true → lines_steps (s_lines s) = false → bars_horizontal (s_bars s) = false →
  ∃ O, stackData ss i = Ok (<[i := with_points s (flat O)]> ss) ∧
       Forall (out_ok true withbottom P B) O.
Proof.
  intros Hst Hfind Hl Hsteps Hh. unfold stackData. rewrite Hs, Hst, Hfind, Hl, Hsteps, Hh, Hbottom.
  cbn [mbind result_bind andb]. rewrite HP, HB. unfold merge_points, merge_fuel.
  destruct (merge_lines_spec true withbottom (pointsize s) (pointsize other) (length (flat P) + length (flat B)) P B [] P [] B [] true
    eq_refl eq_refl WP WB Hrest SP SB) as (O & E & F); try done.
  { intros a b Ha. by apply elem_of_nil in Ha. } { intros a b Ha. by apply elem_of_nil in Ha. }
  { apply fuel_enough. }
  exists O. cbn [flat map concat app length] in E. rewrite E. done.
Qed.

(** Filling between two lines: every point of the result lies on the line
    of the series, and its bottom on the other line. *)
Theorem computeFillBottoms_lines :
  is_null (fillBetween (s_plugin s)) = false → findBottomSeries s ss = Some other →
  lines_show (s_lines s) = true → lines_steps (s_lines s) = false →
  ∃ O, computeFillBottoms ss i = Ok (<[i := with_points s (flat O)]> ss) ∧
       Forall (out_ok false withbottom P B) O.
Proof.
  intros Hst Hfind Hl Hsteps. unfold computeFillBottoms. rewrite Hs, Hst, Hfind, Hl, Hsteps, Hbottom.
  cbn [mbind result_bind andb]. rewrite HP, HB. unfold merge_points, merge_fuel.
  destruct (merge_lines_spec false withbottom (pointsize s) (pointsize other) (length (flat P) + length (flat B)) P B [] P [] B [] true
    eq_refl eq_refl WP WB Hrest SP SB) as (O & E & F); try done.
  { intros a b Ha. by apply elem_of_nil in Ha. } { intros a b Ha. by apply elem_of_nil in Ha. }
  { apply fuel_enough. }
  exists O. cbn [flat map concat app length] in E. rewrite E. done.
Qed.
End stacked_pair.

(** A series with a threshold, drawn without lines, is split in two: its
    points below the threshold go to a new series in the color of the
    threshold, added after the others, and the rest stay, both in order. *)
Theorem thresholdData_partition {num : Type} `{Num num} `{NumText num} (ss : list (series num)) i s below color gs :
  ss !! i = Some s → threshold (s_plugin s) = Some (below, color) →
  lines_show (s_lines s) = false → pointsize s = 2 →
  points_of s = concat gs → Forall (λ g, length g = 2) gs →
  let low := concat (List.filter (is_below below) gs) in
  let kept := concat (List.filter (λ g, negb (is_below below g)) gs) in
  thresholdData ss i
  = Ok (<[i := with_points s kept]> ss ++
        if length low =? 0 then [] else [thresholded s i color low]).
Proof.
  intros Hs Ht Hl Hps Hpts Hgs. unfold thresholdData. rewrite Hs, Ht, Hl, Hps, Hpts.
  unfold split_points. rewrite group_indices_pairs by done.
  destruct (split_fold below gs [] gs (SplitState [] [] None) eq_refl Hgs) as [A B].
  cbn [length] in A, B. rewrite A, B. cbn [threspoints keptpoints app].
  destruct (length _ =? 0); [by rewrite app_nil_r|done].
Qed.

(** A line with a threshold is cut where it crosses it: every point of
    the new series is at most the threshold and on the line, every point kept
    is at least the threshold and on the line, and every point of the line is
    in one of them, according to its side. *)
Theorem thresholdData_lines `{NumText xq} (ss : list (series xq)) i s (below : Q) color P :
  ss !! i = Some s → threshold (s_plugin s) = Some (XFin below, color) →
  lines_show (s_lines s) = true → pointsize s = 2 →
  points_of s = flat P → wf 2 P → sorted P →
  ∃ T K,
    thresholdData ss i
    = Ok (<[i := with_points s (flat_gaps K)]> ss ++
          if length (flat_gaps T) =? 0 then [] else [thresholded s i color (flat_gaps T)]) ∧
    Forall (side_ok below P true) T ∧ Forall (side_ok below P false) K ∧
    ∀ p, p ∈ P → Some p ∈ if is_lower below p then T else K.
Proof.
  intros Hs Ht Hl Hps Hpts HW HS. unfold thresholdData. rewrite Hs, Ht, Hl, Hps, Hpts.
  assert (EG : group_indices 2 (length (flat P)) = map (λ k, k * 2) (seq 0 (length P))).
  { unfold flat. rewrite group_indices_pairs; [by rewrite length_map|]. apply Forall_fmap. exact HW. }
  unfold split_points. rewrite EG.
  destruct (split_lines_fold below P [] P [] [] None) as (T & K & cur & E & HT & HK & _ & _ & Hin); try done.
  unfold state_of in E. cbn [flat_gaps map concat length] in E. rewrite E. cbn [threspoints keptpoints].
  exists T, K. split; [|done]. destruct (length _ =? 0); [by rewrite app_nil_r|done].
Qed.

(** ** Samples and witnesses *)

Definition sample_points (l : list (Q * Q)) : list pt := map (λ q, Pt q.1 q.2 []) l.

(** A processed series of points without bottoms. *)
Definition sample_processed (lines : bool) (p : plugin_options xq) (L : list pt) : series xq :=
  let s := default_series [] in
  Series Undef None "#edc240" (Lines lines (XFin 2) FillOff None false) (s_points s) (s_bars s)
    (s_shadowSize s) p [] (Datapoints (flat L) (Some 2) None) 1 1 true true None.

Definition stack_key : plugin_options xq := Plugin (Str "all") Undef None.
Definition lower_points : list pt := sample_points [(1, 10); (2, 20); (4, 40)]%Q.
Definition upper_points : list pt := sample_points [(1, 2); (3, 4)]%Q.

Lemma lower_sorted : sorted lower_points.
Proof. repeat constructor. Qed.
Lemma upper_sorted : sorted upper_points.
Proof. repeat constructor. Qed.

Definition bar_pair : list (series xq) :=
  [sample_processed false stack_key lower_points; sample_processed false stack_key upper_points].
Definition line_pair : list (series xq) :=
  [sample_processed true stack_key lower_points; sample_processed true stack_key upper_points].
Definition fill_pair : list (series xq) :=
  [sample_processed true (Plugin Undef Undef None) lower_points;
   sample_processed true (Plugin Undef (Number (XFin 0)) None) upper_points].

Lemma stackData_bars_witness :
  let _ := Exact.exact_text in
  ∃ O, stackData bar_pair 1
       = Ok (<[1 := with_points (sample_processed false stack_key upper_points) (flat O)]> bar_pair) ∧
       Forall2 (λ p o, raised_by false (height lower_points (pk p)) p o) upper_points O.
Proof.
  apply (@stackData_bars Exact.exact_text bar_pair 1 (sample_processed false stack_key upper_points)
    (sample_processed false stack_key lower_points) upper_points lower_points false);
    try reflexivity; repeat constructor; try reflexivity; intros [=].
Defined.

Lemma stackData_lines_witness :
  let _ := Exact.exact_text in
  ∃ O, stackData line_pair 1
       = Ok (<[1 := with_points (sample_processed true stack_key upper_points) (flat O)]> line_pair) ∧
       Forall (out_ok true false upper_points lower_points) O.
Proof.
  apply (@stackData_lines Exact.exact_text line_pair 1 (sample_processed true stack_key upper_points)
    (sample_processed true stack_key lower_points) upper_points lower_points false);
    try reflexivity; repeat constructor; try reflexivity; intros [=].
Defined.

Lemma computeFillBottoms_lines_witness :
  let _ := Exact.exact_text in
  ∃ O, computeFillBottoms fill_pair 1
       = Ok (<[1 := with_points (sample_processed true (Plugin Undef (Number (XFin 0)) None) upper_points)
                      (flat O)]> fill_pair) ∧
       Forall (out_ok false false upper_points lower_points) O.
Proof.
  apply (@computeFillBottoms_lines Exact.exact_text fill_pair 1
    (sample_processed true (Plugin Undef (Number (XFin 0)) None) upper_points)
    (sample_processed true (Plugin Undef Undef None) lower_points) upper_points lower_points false);
    try reflexivity; repeat constructor; try reflexivity; intros [=].
Defined.

Definition limit_plugin : plugin_options xq := Plugin Undef Undef (Some (XFin 15, "red")).
Definition limited (lines : bool) : list (series xq) := [sample_processed lines limit_plugin lower_points].
Definition lower_groups : list (list (jsv xq)) := map enc lower_points.

Lemma thresholdData_partition_witness :
  let _ := Exact.exact_text in
  thresholdData (limited false) 0
  = Ok ([with_points (sample_processed false limit_plugin lower_points)
           (concat (List.filter (λ g, negb (is_below (XFin 15) g)) lower_groups))] ++
        if length (concat (List.filter (is_below (XFin 15)) lower_groups)) =? 0 then []
        else [thresholded (sample_processed false limit_plugin lower_points) 0 "red"
                (concat (List.filter (is_below (XFin 15)) lower_groups))]).
Proof.
  apply (@thresholdData_partition xq _ Exact.exact_text (limited false) 0
    (sample_processed false limit_plugin lower_points) (XFin 15) "red" lower_groups);
    try reflexivity. repeat constructor.
Defined.

Lemma thresholdData_lines_witness :
  let _ := Exact.exact_text in
  ∃ T K,
    thresholdData (limited true) 0
    = Ok (<[0 := with_points (sample_processed true limit_plugin lower_points) (flat_gaps K)]> (limited true) ++
          if length (flat_gaps T) =? 0 then []
          else [thresholded (sample_processed true limit_plugin lower_points) 0 "red" (flat_gaps T)]) ∧
    Forall (side_ok 15 lower_points true) T ∧ Forall (side_ok 15 lower_points false) K ∧
    ∀ p, p ∈ lower_points → Some p ∈ if is_lower 15 p then T else K.
Proof.
  apply (@thresholdData_lines Exact.exact_text (limited true) 0
    (sample_processed true limit_plugin lower_points) 15 "red" lower_points);
    try reflexivity; repeat constructor; reflexivity.
Defined.

(** ** A defect of the threshold plugin *)

(** Bars at 5 and 20, of three components. *)
Definition three_components : series f64 :=
  with_datapoints (default_series [])
    (Datapoints (map (λ z, Number (of_Z z)) [1; 20; 0; 2; 5; 0; 3; 25; 0]%Z) (Some 3) None).
Definition with_threshold (s : series f64) (t : f64) : series f64 :=
  Series (s_id s) (s_label s) (s_color s) default_lines (s_points s) (s_bars s) (s_shadowSize s)
    (Plugin Undef Undef (Some (t, "red"))) (s_data s) (s_datapoints s) (s_xaxis s) (s_yaxis s)
    (s_hoverable s) (s_clickable s) (s_origin s).

(** The threshold plugin pushes two components of every point, whatever
    the point size: on the points of bars, of three components, the arrays it
    leaves are not made of groups of three, and the second kept point is read
    from misplaced components (its x is a y). *)
Theorem thresholdData_misaligned :
  ∃ s' t', thresholdData [with_threshold three_components (of_Z 10)] 0 = Ok [s'; t'] ∧
    pointsize s' = 3 ∧ pointsize t' = 3 ∧
    length (points_of s') mod 3 = 1 ∧ length (points_of t') mod 3 = 2 ∧
    aget (points_of s') 3 = Number (of_Z 25).
Proof. eexists _, _. repeat split; vm_compute; reflexivity. Qed.
