(* ===== verification/Canvas.v ===== *)
(** The drawing context of a canvas: its operations as data, the graphics
    state they act on, and what the sequences of operations that the plot
    emits leave behind.  A drawing routine of the plot is modelled by the
    list of the operations it performs on its context. *)

From S2P Require Import Prelude Numbers.

(** ** Operations *)

(** A fill or stroke style: a CSS color, or a linear gradient between two
    points with its stops. *)
Inductive paint (num : Type) :=
  | PaintText (s : string)
  | PaintGradient (x0 y0 x1 y1 : num) (stops : list (num * string)).
Arguments PaintText {num} _. Arguments PaintGradient {num} _ _ _ _ _.

Inductive canvas_op (num : Type) :=
  | OpSave
  | OpRestore
  | OpTranslate (x y : num)
  | OpScale (x y : num)
  | OpBeginPath
  | OpClosePath
  | OpMoveTo (x y : num)
  | OpLineTo (x y : num)
  | OpArc (x y radius from to : num) (anticlockwise : bool)
  | OpRect (x y w h : num)
  | OpStroke
  | OpFill
  | OpFillRect (x y w h : num)
  | OpStrokeRect (x y w h : num)
  | OpClearRect (x y w h : num)
  | OpDrawImage (image : nat) (sx sy sw sh dx dy dw dh : num)
  | OpFillStyle (p : paint num)
  | OpStrokeStyle (p : paint num)
  | OpLineWidth (w : num)
  | OpLineJoin (s : string)
  | OpGlobalAlpha (a : num)
  | OpComposite (s : string).
Arguments OpSave {num}. Arguments OpRestore {num}. Arguments OpTranslate {num} _ _.
Arguments OpScale {num} _ _. Arguments OpBeginPath {num}. Arguments OpClosePath {num}.
Arguments OpMoveTo {num} _ _. Arguments OpLineTo {num} _ _. Arguments OpArc {num} _ _ _ _ _ _.
Arguments OpRect {num} _ _ _ _. Arguments OpStroke {num}. Arguments OpFill {num}.
Arguments OpFillRect {num} _ _ _ _. Arguments OpStrokeRect {num} _ _ _ _.
Arguments OpClearRect {num} _ _ _ _. Arguments OpDrawImage {num} _ _ _ _ _ _ _ _ _.
Arguments OpFillStyle {num} _. Arguments OpStrokeStyle {num} _. Arguments OpLineWidth {num} _.
Arguments OpLineJoin {num} _. Arguments OpGlobalAlpha {num} _.
Arguments OpComposite {num} _.

(** ** The graphics state *)

Record gstate (num : Type) := GState {
  gs_fillStyle : paint num; gs_strokeStyle : paint num;
  gs_lineWidth : num; gs_lineJoin : string; gs_globalAlpha : num; gs_composite : string;
  gs_transform : list (canvas_op num);    (* translations and scalings, latest first *)
}.
Arguments GState {num} _ _ _ _ _ _ _. Arguments gs_composite {num} _. Arguments gs_fillStyle {num} _.
Arguments gs_strokeStyle {num} _. Arguments gs_lineWidth {num} _. Arguments gs_lineJoin {num} _.
Arguments gs_globalAlpha {num} _. Arguments gs_transform {num} _.

(** The graphics state and the states that were saved. *)
Definition context (num : Type) : Type := gstate num * list (gstate num).

Section context.
Context {num : Type}.
Implicit Types (op : canvas_op num) (ops : list (canvas_op num)) (c : context num).

Definition set_state op (g : gstate num) : gstate num :=
  let '(GState f s w j a o t) := g in
  match op with
  | OpFillStyle p => GState p s w j a o t
  | OpStrokeStyle p => GState f p w j a o t
  | OpLineWidth x => GState f s x j a o t
  | OpLineJoin x => GState f s w x a o t
  | OpGlobalAlpha x => GState f s w j x o t
  | OpComposite x => GState f s w j a x t
  | OpTranslate _ _ | OpScale _ _ => GState f s w j a o (op :: t)
  | _ => g
  end.

(** Restoring with nothing saved does nothing. *)
Definition run_op c op : context num :=
  match op, c with
  | OpSave, (g, st) => (g, g :: st)
  | OpRestore, (_, g :: st) => (g, st)
  | OpRestore, (g, []) => (g, [])
  | _, (g, st) => (set_state op g, st)
  end.
Definition run_ops c ops : context num := foldl run_op c ops.

(** The operations leave the context as they found it. *)
Definition balanced ops : Prop := ∀ c, run_ops c ops = c.

(** Operations that neither save nor restore. *)
Definition tame op : bool := match op with OpSave | OpRestore => false | _ => true end.

Lemma run_ops_app c ops ops' : run_ops c (ops ++ ops') = run_ops (run_ops c ops) ops'.
Proof. apply foldl_app. Qed.

Lemma tame_stack ops g st : forallb tame ops = true → (run_ops (g, st) ops).2 = st.
Proof.
  revert g. induction ops as [|op ops IH]; intros g; [done|]. simpl.
  intros [Ht Hops]%andb_prop. destruct op; try done; simpl; by apply IH.
Qed.

Lemma balanced_nil : balanced [].
Proof. by intros c. Qed.

Lemma balanced_app ops ops' : balanced ops → balanced ops' → balanced (ops ++ ops').
Proof. intros A B c. by rewrite run_ops_app, A, B. Qed.

Lemma balanced_concat opss : Forall balanced opss → balanced (concat opss).
Proof. induction 1; [apply balanced_nil|by apply balanced_app]. Qed.

(** [ctx.save(); ...; ctx.restore()] *)
Lemma balanced_saved ops : forallb tame ops = true → balanced (OpSave :: ops ++ [OpRestore]).
Proof.
  intros Ht [g st]. change (OpSave :: ops ++ [OpRestore]) with ([OpSave] ++ (ops ++ [OpRestore])).
  rewrite !run_ops_app. simpl. pose proof (tame_stack ops g (g :: st) Ht) as E.
  destruct (run_ops (g, g :: st) ops) as [g' st']. simpl in E. by subst st'.
Qed.

Lemma tame_app ops ops' : forallb tame (ops ++ ops') = forallb tame ops && forallb tame ops'.
Proof. apply forallb_app. Qed.

Lemma tame_concat opss : Forall (λ ops, forallb tame ops = true) opss → forallb tame (concat opss) = true.
Proof. induction 1 as [|ops opss Ho _ IH]; [done|]. simpl. by rewrite tame_app, Ho. Qed.

Definition tame_all ops : Prop := forallb tame ops = true.

Lemma tame_all_app ops ops' : tame_all ops → tame_all ops' → tame_all (ops ++ ops').
Proof. unfold tame_all. rewrite tame_app. by intros -> ->. Qed.
Lemma tame_all_cons op ops : tame op = true → tame_all ops → tame_all (op :: ops).
Proof. unfold tame_all. simpl. by intros ->. Qed.

(** ** Positions and segments *)

(** The positions that path operations name. *)
Definition op_position op : option (num * num) :=
  match op with OpMoveTo x y | OpLineTo x y => Some (x, y) | _ => None end.
Definition positions ops : list (num * num) := omap op_position ops.

(** The segments of the paths, from the position of the pen. *)
Fixpoint segments (pen : option (num * num)) ops : list ((num * num) * (num * num)) :=
  match ops with
  | [] => []
  | OpBeginPath :: ops => segments None ops
  | OpMoveTo x y :: ops => segments (Some (x, y)) ops
  | OpLineTo x y :: ops =>
      match pen with
      | Some p => (p, (x, y)) :: segments (Some (x, y)) ops
      | None => segments (Some (x, y)) ops
      end
  | _ :: ops => segments pen ops
  end.

(** The position of the pen after the operations. *)
Definition pen_step (pen : option (num * num)) op : option (num * num) :=
  match op with
  | OpBeginPath => None
  | OpMoveTo x y | OpLineTo x y => Some (x, y)
  | _ => pen
  end.
Definition pen_after (pen : option (num * num)) ops : option (num * num) := foldl pen_step pen ops.

Lemma segments_app pen ops ops' :
  segments pen (ops ++ ops') = segments pen ops ++ segments (pen_after pen ops) ops'.
Proof.
  revert pen. induction ops as [|op ops IH]; intros pen; [done|].
  destruct op; try destruct pen; simpl; by rewrite IH.
Qed.

Lemma positions_app ops ops' : positions (ops ++ ops') = positions ops ++ positions ops'.
Proof. apply omap_app. Qed.
End context.

(** Splits a sequence of operations to show that it is tame. *)
Ltac tames :=
  repeat match goal with
  | |- tame_all (_ ++ _) => apply tame_all_app
  | |- tame_all (_ :: _) => apply tame_all_cons; [done|]
  | |- tame_all (if _ then _ else _) => case_match
  | |- tame_all [] => done
  | H : tame_all ?l |- tame_all ?l => exact H
  end.

#[export] Hint Resolve balanced_nil balanced_app balanced_concat : jsdb.
