(* ===== verification/FlotStyle.v ===== *)
(** Fill styles in [static/flot/jquery.flot.js]: [getColorOrGradient] and
    [getFillStyle]. *)

From S2P Require Import Prelude Numbers JsText JsValue Color FlotModel FlotData Canvas.

Section style.
Context {num : Type} `{Num num} `{NumText num}.
Local Open Scope num_scope.

(** The color of a stop of a gradient. *)
Definition stop_color (defaultColor : string) (c : stop num) : string :=
  match c with
  | StopText s => s
  | StopVary brightness opacity =>
      let co := parse defaultColor in
      let co := match brightness with Some f => scale [R; G; B] f co | None => co end in
      let co := match opacity with
                | Some f => Color (r co) (g co) (b co) (a co * f)
                | None => co
                end in
      toString co
  end.

(** A gradient runs from [top] to [bottom]; stop [i] of [l] is at [i / (l - 1)]. *)
Definition getColorOrGradient (spec : color_spec num) (bottom top : num) (defaultColor : string)
    : paint num :=
  match spec with
  | ColorText s => PaintText s
  | Gradient colors =>
      let l := of_Z (Z.of_nat (length colors)) in
      PaintGradient ⟨0⟩ top ⟨0⟩ bottom
        (imap (λ i c, (of_Z (Z.of_nat i) / (l - ⟨1⟩), stop_color defaultColor c)) colors)
  end.

(** Truthiness of a color option. *)
Definition color_set (c : option (color_spec num)) : option (color_spec num) :=
  match c with Some (ColorText "") => None | _ => c end.

(** [None] when nothing is filled. *)
Definition getFillStyle (fill : fill_option num) (fillColor : option (color_spec num))
    (seriesColor : string) (bottom top : num) : option (paint num) :=
  if negb (fills fill) then None
  else match color_set fillColor with
  | Some spec => Some (getColorOrGradient spec bottom top seriesColor)
  | None =>
      let c := parse seriesColor in
      let alpha := match fill with FillOpacity x => x | _ => of_ratio 4 10 end in
      Some (PaintText (toString (normalize (Color (r c) (g c) (b c) alpha))))
  end.
End style.
