(* ===== verification/FlotLines.v ===== *)
(** Drawing the lines of a series in [static/flot/jquery.flot.js]
    ([drawSeriesLines]): the line clipped to the ranges of the axes, its
    shadow, and the area under it.  The values of the points are read as
    numbers, which is what [processData] leaves in the array. *)

From S2P Require Import Prelude Numbers ExactNum JsText JsValue FlotModel FlotAxis Canvas FlotStyle.

(** ** Definitions *)

Section lines.
Context {num : Type} `{Num num} `{NumText num}.
Implicit Types (ax : axis num) (points : list (jsv num)).
Local Open Scope num_scope.

(** A segment, from [(x1, y1)] to [(x2, y2)]. *)
Record segment := Segment { sx1 : num; sy1 : num; sx2 : num; sy2 : num }.

(** The same segment with its coordinates exchanged, to clip with the bounds
    of the other axis. *)
Definition swap (s : segment) : segment := Segment (sy1 s) (sx1 s) (sy2 s) (sx2 s).

(** Clips with a lower bound of x. *)
Definition clip_min (min : num) (s : segment) : option segment :=
  let '(Segment x1 y1 x2 y2) := s in
  if (x1 <=? x2) && (x1 <? min) then
    if x2 <? min then None
    else Some (Segment min ((min - x1) / (x2 - x1) * (y2 - y1) + y1) x2 y2)
  else if (x2 <=? x1) && (x2 <? min) then
    if x1 <? min then None
    else Some (Segment x1 y1 min ((min - x1) / (x2 - x1) * (y2 - y1) + y1))
  else Some s.

(** Clips with an upper bound of x. *)
Definition clip_max (max : num) (s : segment) : option segment :=
  let '(Segment x1 y1 x2 y2) := s in
  if (x1 >=? x2) && (x1 >? max) then
    if x2 >? max then None
    else Some (Segment max ((max - x1) / (x2 - x1) * (y2 - y1) + y1) x2 y2)
  else if (x2 >=? x1) && (x2 >? max) then
    if x1 >? max then None
    else Some (Segment x1 y1 max ((max - x1) / (x2 - x1) * (y2 - y1) + y1))
  else Some s.

(** Clips with ymin, ymax, xmin and xmax in turn. *)
Definition clip_y (axisy : axis num) (s : segment) : option segment :=
  swap <$> (clip_min (ax_min axisy) (swap s) ≫= clip_max (ax_max axisy)).
Definition clip_x (axisx : axis num) (s : segment) : option segment :=
  clip_min (ax_min axisx) s ≫= clip_max (ax_max axisx).
Definition clip (axisx axisy : axis num) (s : segment) : option segment :=
  clip_y axisy s ≫= clip_x axisx.

(** The segment between two points of the array, unless one of them is a gap. *)
Definition segment_between points (i j : Z) (ypos : Z) : option segment :=
  if is_null (aget points i) || is_null (aget points j) then None
  else Some (Segment (to_num (aget points i)) (to_num (aget points (i + ypos)))
               (to_num (aget points j)) (to_num (aget points (j + ypos)))).

(** [prevx] and [prevy], null at first, and the operations so far. *)
Definition line_state : Type := option (num * num) * list (canvas_op num).

(** Draws a clipped segment. *)
Definition line_to (xoffset yoffset : num) (axisx axisy : axis num) (st : line_state) (s : segment)
    : line_state :=
  let '(prev, ops) := st in
  let '(Segment x1 y1 x2 y2) := s in
  let moved := match prev with
               | Some (px, py) => (x1 ≠? px) || (y1 ≠? py)
               | None => true
               end in
  (Some (x2, y2),
   ops ++ (if moved then [OpMoveTo (p2c axisx x1 + xoffset) (p2c axisy y1 + yoffset)] else [])
       ++ [OpLineTo (p2c axisx x2 + xoffset) (p2c axisy y2 + yoffset)]).

Definition line_step points (ps : nat) (xoffset yoffset : num) (axisx axisy : axis num)
    (st : line_state) (i : nat) : line_state :=
  match segment_between points (Z.of_nat i - Z.of_nat ps) (Z.of_nat i) 1 ≫= clip axisx axisy with
  | Some s => line_to xoffset yoffset axisx axisy st s
  | None => st
  end.

Definition plotLine points (ps : nat) (xoffset yoffset : num) (axisx axisy : axis num)
    : list (canvas_op num) :=
  (foldl (line_step points ps xoffset yoffset axisx axisy) (None, [OpBeginPath])
     (drop 1 (group_indices ps (length points)))).2 ++ [OpStroke].

(** *** The area under a line *)

(** The variables of the loop of [plotLineArea]: [a_ps] is negative during a
    reverse sweep. *)
Record area_state := Area {
  a_i : Z; a_ps : Z; a_ypos : Z; a_start : Z; a_end : Z; a_open : bool;
  a_ops : list (canvas_op num);
}.

(** Moves an end below [min] to the height [min], along the segment; and an
    end above [max] to the height [max]. *)
Definition level_min (min : num) (s : segment) : segment :=
  let '(Segment x1 y1 x2 y2) := s in
  if (y1 <=? y2) && (y1 <? min) && (y2 >=? min) then
    Segment ((min - y1) / (y2 - y1) * (x2 - x1) + x1) min x2 y2
  else if (y2 <=? y1) && (y2 <? min) && (y1 >=? min) then
    Segment x1 y1 ((min - y1) / (y2 - y1) * (x2 - x1) + x1) min
  else s.
Definition level_max (max : num) (s : segment) : segment :=
  let '(Segment x1 y1 x2 y2) := s in
  if (y1 >=? y2) && (y1 >? max) && (y2 <=? max) then
    Segment ((max - y1) / (y2 - y1) * (x2 - x1) + x1) max x2 y2
  else if (y2 >=? y1) && (y2 >? max) && (y1 <=? max) then
    Segment x1 y1 ((max - y1) / (y2 - y1) * (x2 - x1) + x1) max
  else s.

(** The part of the outline that follows a segment, already clipped in x:
    the vertices of the line, kept between the bounds of the y axis. *)
Definition area_vertices (axisy : axis num) (s : segment) : list (num * num) :=
  let '(Segment x1old y1old x2old y2old) := s in
  let min := ax_min axisy in
  let max := ax_max axisy in
  if (y1old >=? max) && (y2old >=? max) then [(x1old, max); (x2old, max)]
  else if (y1old <=? min) && (y2old <=? min) then [(x1old, min); (x2old, min)]
  else
    let '(Segment x1 y1 x2 y2) := level_max max (level_min min s) in
    (if x1 ≠? x1old then [(x1old, y1)] else []) ++ [(x1, y1); (x2, y2)] ++
    (if x2 ≠? x2old then [(x2, y2); (x2old, y2)] else []).

Definition line_to_vertex (axisx axisy : axis num) (v : num * num) : canvas_op num :=
  OpLineTo (p2c axisx v.1) (p2c axisy v.2).

(** Where the area rests: zero, or the nearest bound of the y axis. *)
Definition area_bottom (axisy : axis num) : num :=
  nmin (nmax ⟨0⟩ (ax_min axisy)) (ax_max axisy).

(** The drawing part of a turn. *)
Definition area_draw (axisx axisy : axis num) points (st : area_state) : area_state :=
  let '(Area i ps ypos sstart send open ops) := st in
  match segment_between points (i - ps) i ypos ≫= clip_x axisx with
  | None => st
  | Some s =>
      let opening :=
        if open then []
        else [OpBeginPath; OpMoveTo (p2c axisx (sx1 s)) (p2c axisy (area_bottom axisy))] in
      Area i ps ypos sstart send true
        (ops ++ opening ++ map (line_to_vertex axisx axisy) (area_vertices axisy s))
  end.

(** A turn of the loop, after its exit test; [i] has advanced. *)
Definition area_turn (axisx axisy : axis num) points (st : area_state) : area_state :=
  let '(Area i0 ps ypos sstart send open ops) := st in
  let i := (i0 + ps)%Z in
  if open && (0 <? ps)%Z && negb (is_null (aget points (i - ps))) && is_null (aget points i) then
    Area i (- ps) 2 sstart i open ops
  else if open && (ps <? 0)%Z && (i =? sstart + ps)%Z then
    let ps := (- ps)%Z in
    Area (send + ps) ps 1 (send + ps) send false (ops ++ [OpFill])
  else area_draw axisx axisy points (Area i ps ypos sstart send open ops).

Fixpoint area_loop (fuel : nat) (axisx axisy : axis num) points (st : area_state)
    : result area_state :=
  match fuel with
  | O => NoFuel
  | S fuel =>
      if (0 <? a_ps st)%Z && (Z.of_nat (length points) + a_ps st <? a_i st)%Z then Ok st
      else area_loop fuel axisx axisy points (area_turn axisx axisy points st)
  end.

(** Each group is visited at most twice, in each direction. *)
Definition area_fuel (n ps : nat) : nat := 2 * (n / ps) + 7.

Definition plotLineArea points (ps : nat) (axisx axisy : axis num) : result (list (canvas_op num)) :=
  st ← area_loop (area_fuel (length points) ps) axisx axisy points
         (Area 0 (Z.of_nat ps) 1 0 0 false []);
  Ok (a_ops st).

(** ** [drawSeriesLines] *)

Context `{MathLib num}.

(** [ctx.save(); ctx.translate(plotOffset.left, plotOffset.top); ...; ctx.restore()] *)
Definition in_plot_area (g : geometry num) (ops : list (canvas_op num)) : list (canvas_op num) :=
  OpSave :: (OpTranslate (off_left g) (off_top g) :: ops) ++ [OpRestore].

Definition drawSeriesLines (g : geometry num) (s : series num) (axisx axisy : axis num)
    : result (list (canvas_op num)) :=
  let points := dp_points (s_datapoints s) in
  let ps := pointsize s in
  let lw := lines_lineWidth (s_lines s) in
  let sw := s_shadowSize s in
  let shadow :=
    if (lw >? ⟨0⟩) && (sw >? ⟨0⟩) then
      let angle := math_pi / ⟨18⟩ in
      let line d := plotLine points ps (math_sin angle * d) (math_cos angle * d) axisx axisy in
      [OpLineWidth sw; OpStrokeStyle (PaintText "rgba(0,0,0,0.1)")] ++
      line (lw / ⟨2⟩ + sw / ⟨2⟩) ++
      [OpLineWidth (sw / ⟨2⟩)] ++
      line (lw / ⟨2⟩ + sw / ⟨4⟩)
    else [] in
  area ← match getFillStyle (lines_fill (s_lines s)) (lines_fillColor (s_lines s)) (s_color s)
                 ⟨0⟩ (plotHeight g) with
         | Some fillStyle =>
             ops ← plotLineArea points ps axisx axisy;
             Ok (OpFillStyle fillStyle :: ops)
         | None => Ok []
         end;
  let line := if lw >? ⟨0⟩ then plotLine points ps ⟨0⟩ ⟨0⟩ axisx axisy else [] in
  Ok (in_plot_area g
        ([OpLineJoin "round"] ++ shadow ++
         [OpLineWidth lw; OpStrokeStyle (PaintText (s_color s))] ++ area ++ line)).
End lines.
Arguments segment _ : clear implicits.
Arguments Segment {num} _ _ _ _. Arguments sx1 {num} _. Arguments sy1 {num} _.
Arguments sx2 {num} _. Arguments sy2 {num} _.

(** ** The sweep of the area ends *)

Section area.
Context {num : Type} `{Num num} `{NumText num}.
Implicit Types (points : list (jsv num)) (st : area_state (num := num)).
Local Open Scope Z_scope.
Variables (axisx axisy : axis num) (points : list (jsv num)) (p : Z).
Hypothesis Hp : 0 < p.

(** The number of groups, rounded up to leave the end of the array. *)
Definition area_limit : Z := Z.of_nat (length points) / p + 3.

(** Forward sweeps stand at group [j] of a run of segments that started at
    group [k]; reverse sweeps go from group [e] down to group [k - 1]. *)
Definition forward_at st (j k : Z) : Prop :=
  a_ps st = p ∧ a_i st = p * j ∧ a_start st = p * k ∧ k ≤ j ≤ area_limit.
Definition reverse_at st (j k e : Z) : Prop :=
  a_ps st = - p ∧ a_i st = p * j ∧ a_start st = p * k ∧ a_end st = p * e ∧
  k ≤ j ≤ e ∧ e ≤ area_limit - 1 ∧ a_open st = true.

(** The turns left, at most. *)
Definition turns_left st (n : Z) : Prop :=
  (∃ j k, forward_at st j k ∧ 2 * area_limit - j - k ≤ n) ∨
  (∃ j k e, reverse_at st j k e ∧ (j - k + 1) + 2 * (area_limit - e - 1) ≤ n).

Lemma area_draw_control st :
  let st' := area_draw axisx axisy points st in
  a_i st' = a_i st ∧ a_ps st' = a_ps st ∧ a_start st' = a_start st ∧ a_end st' = a_end st ∧
  (a_open st = true → a_open st' = true).
Proof. destruct st. simpl. by destruct (_ ≫= _). Qed.

Lemma not_finished st j k : forward_at st j k →
  (0 <? a_ps st) && (Z.of_nat (length points) + a_ps st <? a_i st) = false → j + 1 ≤ area_limit - 1.
Proof.
  intros (Eps & Ei & _ & _) Hn. rewrite Eps, Ei in Hn. unfold area_limit.
  rewrite (proj2 (Z.ltb_lt 0 p) Hp) in Hn. simpl in Hn. apply Z.ltb_ge in Hn.
  assert (j - 1 ≤ Z.of_nat (length points) / p); [|lia].
  apply Z.div_le_lower_bound; lia.
Qed.

Lemma area_turn_progress st n : turns_left st n →
  (0 <? a_ps st) && (Z.of_nat (length points) + a_ps st <? a_i st) = false →
  turns_left (area_turn axisx axisy points st) (n - 1).
Proof.
  intros Ht Hn. destruct Ht as [(j & k & F & Hle)|(j & k & e & R & Hle)].
  - pose proof (not_finished st j k F Hn) as Hj. clear Hn. destruct F as (Eps & Ei & Es & Hk).
    destruct st as [i ps ypos ss se open ops]. cbn [a_i a_ps a_start a_end a_open] in *. subst.
    unfold area_turn. cbv beta iota zeta.
    destruct (open && (0 <? p) && negb (is_null (aget points (p * j + p - p))) &&
              is_null (aget points (p * j + p))) eqn:C.
    + bools. right. exists (j + 1), k, (j + 1). split; [|lia]. unfold reverse_at. simpl. repeat split; try done; lia.
    + rewrite (proj2 (Z.ltb_ge p 0)) by lia. rewrite andb_false_r. cbn [andb].
      left. exists (j + 1), k. split; [|lia]. unfold forward_at.
      destruct (area_draw_control (Area (p * j + p) p ypos (p * k) se open ops)) as (-> & -> & -> & _ & _).
      simpl. repeat split; try done; lia.
  - destruct R as (Eps & Ei & Es & Ee & Hk & He & Eo).
    destruct st as [i ps ypos ss se open ops]. cbn [a_i a_ps a_start a_end a_open] in *. subst.
    unfold area_turn. cbv beta iota zeta.
    rewrite (proj2 (Z.ltb_ge 0 (- p))) by lia. cbn [andb].
    rewrite (proj2 (Z.ltb_lt (- p) 0)) by lia. cbn [andb].
    destruct (Z.eqb_spec (p * j + - p) (p * k + - p)) as [Ej|Ej].
    + assert (j = k) by nia. subst j. left. exists (e + 1), (e + 1).
      split; [|lia]. unfold forward_at. simpl. repeat split; try done; lia.
    + right. exists (j - 1), k, e. split; [|lia]. unfold reverse_at.
      destruct (area_draw_control (Area (p * j + - p) (- p) ypos (p * k) (p * e) true ops))
        as (-> & -> & -> & -> & Hopen).
      simpl in *. assert (j ≠ k) by naive_solver. repeat split; try done; try lia. by apply Hopen.
Qed.

Lemma area_loop_ends fuel st n : turns_left st n → n < Z.of_nat fuel →
  ∃ st', area_loop fuel axisx axisy points st = Ok st'.
Proof.
  revert st n. induction fuel as [|fuel IH]; intros st n Ht Hn.
  - exfalso. destruct Ht as [(j & k & (_ & _ & _ & ?) & ?)|(j & k & e & (_ & _ & _ & _ & ? & ? & _) & ?)]; lia.
  - simpl. destruct ((0 <? a_ps st) && (Z.of_nat (length points) + a_ps st <? a_i st)) eqn:C; [by eexists|].
    apply (IH _ (n - 1)); [by apply area_turn_progress|lia].
Qed.
End area.

(** The sweep of [plotLineArea], which alternates between going forward
    along the top of the area and backward along its bottom, ends on every
    array of points, whatever its gaps and values: it visits each group at
    most twice. *)
Theorem plotLineArea_ends {num} `{Num num} `{NumText num} (axisx axisy : axis num) points ps :
  0 < ps → ∃ ops, plotLineArea points ps axisx axisy = Ok ops.
Proof.
  intros Hps. unfold plotLineArea.
  destruct (area_loop_ends axisx axisy points (Z.of_nat ps) ltac:(lia) (area_fuel (length points) ps)
    (Area 0 (Z.of_nat ps) 1 0 0 false []) (2 * area_limit points (Z.of_nat ps))) as [st' ->].
  - left. exists 0%Z, 0%Z. split; [|lia]. unfold forward_at, area_limit. simpl.
    assert (0 ≤ Z.of_nat (length points) / Z.of_nat ps)%Z by (apply Z.div_pos; lia).
    repeat split; lia.
  - unfold area_limit, area_fuel. rewrite <- Nat2Z.inj_div. lia.
  - by eexists.
Qed.

Lemma plotLineArea_ends_witness :
  let _ := Exact.exact_text in
  ∃ ops, plotLineArea [Number (of_Z 1); Number (of_Z 2); Number (of_Z 0); Null; Null; Null] 3
           (new_axis 1 DirX default_xaxis) (new_axis 1 DirY default_yaxis) = Ok ops.
Proof.
  apply (@plotLineArea_ends xq _ Exact.exact_text). lia.
Defined.
