(* ===== verification/FlotLineSpec.v ===== *)
(** What the drawing of lines shows, on exact numbers: clipping keeps exactly
    the part of a segment in the box of the axes, the strokes of [plotLine]
    are the visible part of the line, and the sweep of [plotLineArea] ends
    and follows the line kept between the bounds of the y axis. *)

From S2P Require Import Prelude Numbers ExactNum JsText JsValue FlotModel FlotAxis Canvas FlotStyle FlotLines.
From stdpp Require Import sets.
From Stdlib Require Import QArith Lqa.

#[local] Open Scope Q_scope.

(** ** Segments *)

Record qseg := QSeg { q1 : Q * Q; q2 : Q * Q }.
Definition fin_seg (s : qseg) : segment xq :=
  Segment (XFin (q1 s).1) (XFin (q1 s).2) (XFin (q2 s).1) (XFin (q2 s).2).
Definition qswap (s : qseg) : qseg := QSeg ((q1 s).2, (q1 s).1) ((q2 s).2, (q2 s).1).

(** [p] divides the segment in the ratio [t]. *)
Definition at_ratio (s : qseg) (t : Q) (p : Q * Q) : Prop :=
  p.1 == (q1 s).1 + t * ((q2 s).1 - (q1 s).1) ∧ p.2 == (q1 s).2 + t * ((q2 s).2 - (q1 s).2).
Definition on_seg (s : qseg) (p : Q * Q) : Prop := ∃ t, 0 <= t <= 1 ∧ at_ratio s t p.

(** [s'] is the part of [s] between two ratios. *)
Definition part (s : qseg) (t0 t1 : Q) (s' : qseg) : Prop :=
  at_ratio s t0 (q1 s') ∧ at_ratio s t1 (q2 s').

Lemma on_part s t0 t1 s' p : t0 <= t1 → part s t0 t1 s' →
  on_seg s' p ↔ ∃ t, t0 <= t <= t1 ∧ at_ratio s t p.
Proof.
  intros Ht [[A1 A2] [B1 B2]]. split.
  - intros (t & [T0 T1] & [E1 E2]). exists (t0 + t * (t1 - t0)). split; [split; nra|].
    split; [rewrite E1, A1, B1|rewrite E2, A2, B2]; ring.
  - intros (t & [T0 T1] & [E1 E2]). destruct (Qeq_dec t0 t1) as [Eq|Ne].
    + exists 0. split; [lra|]. assert (t == t0) by lra.
      split; [rewrite E1, A1|rewrite E2, A2]; nra.
    + assert (D : ¬ t1 - t0 == 0) by lra. exists ((t - t0) / (t1 - t0)).
      set (r := (t - t0) / (t1 - t0)).
      assert (Er : r * (t1 - t0) == t - t0) by (unfold r; by field). clearbody r.
      split; [split; nra|].
      assert (Et : t == t0 + r * (t1 - t0)) by lra.
      split; [rewrite E1, A1, B1, Et|rewrite E2, A2, B2, Et]; ring.
Qed.

Lemma on_qswap s x y : on_seg (qswap s) (x, y) ↔ on_seg s (y, x).
Proof. split; intros (t & Ht & E1 & E2); exists t; repeat split; try done; by apply Ht. Qed.

Lemma swap_fin s : swap (fin_seg s) = fin_seg (qswap s).
Proof. done. Qed.

(** The intersection with a vertical line. *)
Definition cut (c : Q) (s : qseg) : Q * Q :=
  (c, (c - (q1 s).1) / ((q2 s).1 - (q1 s).1) * ((q2 s).2 - (q1 s).2) + (q1 s).2).

Lemma cut_fin c s : ¬ (q2 s).1 - (q1 s).1 == 0 →
  nadd (nmul (ndiv (nsub (XFin c) (XFin (q1 s).1)) (nsub (XFin (q2 s).1) (XFin (q1 s).1)))
         (nsub (XFin (q2 s).2) (XFin (q1 s).2))) (XFin (q1 s).2) = XFin (cut c s).2.
Proof.
  intros D. transitivity (nadd (nmul (ndiv (XFin (c - (q1 s).1)) (XFin ((q2 s).1 - (q1 s).1)))
    (nsub (XFin (q2 s).2) (XFin (q1 s).2))) (XFin (q1 s).2)); [done|].
  by rewrite Exact.div_fin.
Qed.

Lemma cut_ratio c s : ¬ (q2 s).1 - (q1 s).1 == 0 →
  at_ratio s ((c - (q1 s).1) / ((q2 s).1 - (q1 s).1)) (cut c s).
Proof. intros D. split; simpl; [field; done|ring]. Qed.

(** Clipping a segment keeps the points that satisfy [P]. *)
Definition keeps (P : Q * Q → Prop) (s : qseg) (r : option (segment xq)) : Prop :=
  match r with
  | Some s' => ∃ qs, s' = fin_seg qs ∧ (∀ p, on_seg qs p ↔ on_seg s p ∧ P p)
  | None => ∀ p, on_seg s p → ¬ P p
  end.

Lemma keeps_all P s : (∀ p, on_seg s p → P p) → keeps P s (Some (fin_seg s)).
Proof. intros Hall. exists s. split; [done|]. naive_solver. Qed.

(** The ratio at which a segment that is not vertical crosses [c]. *)
Lemma cross_ratio c s : ¬ (q2 s).1 - (q1 s).1 == 0 →
  ∃ r, at_ratio s r (cut c s) ∧ r * ((q2 s).1 - (q1 s).1) == c - (q1 s).1.
Proof.
  intros D. exists ((c - (q1 s).1) / ((q2 s).1 - (q1 s).1)). split; [by apply cut_ratio|by field].
Qed.

(** Keeping the end of a segment, from the cut on; and its beginning. *)
Lemma keeps_end (P : Q * Q → Prop) c s :
  ¬ (q2 s).1 - (q1 s).1 == 0 →
  (∀ t p r, r * ((q2 s).1 - (q1 s).1) == c - (q1 s).1 → at_ratio s t p → 0 <= t <= 1 → (P p ↔ r <= t)) →
  (∀ r, r * ((q2 s).1 - (q1 s).1) == c - (q1 s).1 → 0 <= r <= 1) →
  keeps P s (Some (Segment (XFin c)
    (nadd (nmul (ndiv (nsub (XFin c) (XFin (q1 s).1)) (nsub (XFin (q2 s).1) (XFin (q1 s).1)))
       (nsub (XFin (q2 s).2) (XFin (q1 s).2))) (XFin (q1 s).2)) (XFin (q2 s).1) (XFin (q2 s).2))).
Proof.
  intros D HP Hr. destruct (cross_ratio c s D) as (r & Er & Er'). specialize (Hr r Er').
  exists (QSeg (cut c s) (q2 s)). split; [by rewrite cut_fin|].
  intros p. rewrite (on_part s r 1).
  - split.
    + intros (t & Ht & E). split; [exists t; split; [lra|done]|]. apply (HP t p r Er' E); lra.
    + intros [(t & Ht & E) Hp]. exists t. split; [|done]. apply (HP t p r Er' E Ht) in Hp. lra.
  - apply Hr.
  - split; [done|]. split; simpl; ring.
Qed.

Lemma keeps_begin (P : Q * Q → Prop) c s :
  ¬ (q2 s).1 - (q1 s).1 == 0 →
  (∀ t p r, r * ((q2 s).1 - (q1 s).1) == c - (q1 s).1 → at_ratio s t p → 0 <= t <= 1 → (P p ↔ t <= r)) →
  (∀ r, r * ((q2 s).1 - (q1 s).1) == c - (q1 s).1 → 0 <= r <= 1) →
  keeps P s (Some (Segment (XFin (q1 s).1) (XFin (q1 s).2) (XFin c)
    (nadd (nmul (ndiv (nsub (XFin c) (XFin (q1 s).1)) (nsub (XFin (q2 s).1) (XFin (q1 s).1)))
       (nsub (XFin (q2 s).2) (XFin (q1 s).2))) (XFin (q1 s).2)))).
Proof.
  intros D HP Hr. destruct (cross_ratio c s D) as (r & Er & Er'). specialize (Hr r Er').
  exists (QSeg (q1 s) (cut c s)). split; [by rewrite cut_fin|].
  intros p. rewrite (on_part s 0 r).
  - split.
    + intros (t & Ht & E). split; [exists t; split; [lra|done]|]. apply (HP t p r Er' E); lra.
    + intros [(t & Ht & E) Hp]. exists t. split; [|done]. apply (HP t p r Er' E Ht) in Hp. lra.
  - apply Hr.
  - split; [|done]. split; simpl; ring.
Qed.

Lemma clip_min_keeps c s : keeps (λ p, c <= p.1) s (clip_min (XFin c) (fin_seg s)).
Proof.
  destruct s as [[x1 y1] [x2 y2]]. unfold clip_min, fin_seg. cbn [q1 q2 fst snd].
  destruct (nleb (XFin x1) (XFin x2)) eqn:C1, (nltb (XFin x1) (XFin c)) eqn:C2; cbn [andb]; xq_hyps.
  - destruct (nltb (XFin x2) (XFin c)) eqn:C3; xq_hyps.
    + intros [x y] (t & Ht & E & _) Hp. simpl in *. nra.
    + apply (keeps_end _ c (QSeg (x1, y1) (x2, y2))); simpl; [lra|..].
      * intros t [x y] r Hr [E _] Ht. simpl in *. split; nra.
      * intros r Hr. split; nra.
  - destruct (nleb (XFin x2) (XFin x1)) eqn:C3; cbn [andb]; xq_hyps.
    + assert (nltb (XFin x2) (XFin c) = false) as -> by (xq; lra).
      apply (keeps_all _ (QSeg (x1, y1) (x2, y2))). intros [x y] (t & Ht & E & _). simpl in *. nra.
    + apply (keeps_all _ (QSeg (x1, y1) (x2, y2))). intros [x y] (t & Ht & E & _). simpl in *. nra.
  - assert (nleb (XFin x2) (XFin x1) = true) as -> by (xq; lra).
    assert (nltb (XFin x2) (XFin c) = true) as -> by (xq; lra). cbn [andb].
    intros [x y] (t & Ht & E & _) Hp. simpl in *. nra.
  - assert (nleb (XFin x2) (XFin x1) = true) as -> by (xq; lra). cbn [andb].
    destruct (nltb (XFin x2) (XFin c)) eqn:C3; xq_hyps.
    + apply (keeps_begin _ c (QSeg (x1, y1) (x2, y2))); simpl; [lra|..].
      * intros t [x y] r Hr [E _] Ht. simpl in *. split; nra.
      * intros r Hr. split; nra.
    + apply (keeps_all _ (QSeg (x1, y1) (x2, y2))). intros [x y] (t & Ht & E & _). simpl in *. nra.
Qed.

Lemma clip_max_keeps c s : keeps (λ p, p.1 <= c) s (clip_max (XFin c) (fin_seg s)).
Proof.
  destruct s as [[x1 y1] [x2 y2]]. unfold clip_max, fin_seg. cbn [q1 q2 fst snd].
  destruct (nleb (XFin x2) (XFin x1)) eqn:C1, (nltb (XFin c) (XFin x1)) eqn:C2; cbn [andb]; xq_hyps.
  - destruct (nltb (XFin c) (XFin x2)) eqn:C3; xq_hyps.
    + intros [x y] (t & Ht & E & _) Hp. simpl in *. nra.
    + apply (keeps_end _ c (QSeg (x1, y1) (x2, y2))); simpl; [lra|..].
      * intros t [x y] r Hr [E _] Ht. simpl in *. split; nra.
      * intros r Hr. split; nra.
  - destruct (nleb (XFin x1) (XFin x2)) eqn:C3; cbn [andb]; xq_hyps.
    + assert (nltb (XFin c) (XFin x2) = false) as -> by (xq; lra).
      apply (keeps_all _ (QSeg (x1, y1) (x2, y2))). intros [x y] (t & Ht & E & _). simpl in *. nra.
    + apply (keeps_all _ (QSeg (x1, y1) (x2, y2))). intros [x y] (t & Ht & E & _). simpl in *. nra.
  - assert (nleb (XFin x1) (XFin x2) = true) as -> by (xq; lra).
    assert (nltb (XFin c) (XFin x2) = true) as -> by (xq; lra). cbn [andb].
    intros [x y] (t & Ht & E & _) Hp. simpl in *. nra.
  - assert (nleb (XFin x1) (XFin x2) = true) as -> by (xq; lra). cbn [andb].
    destruct (nltb (XFin c) (XFin x2)) eqn:C3; xq_hyps.
    + apply (keeps_begin _ c (QSeg (x1, y1) (x2, y2))); simpl; [lra|..].
      * intros t [x y] r Hr [E _] Ht. simpl in *. split; nra.
      * intros r Hr. split; nra.
    + apply (keeps_all _ (QSeg (x1, y1) (x2, y2))). intros [x y] (t & Ht & E & _). simpl in *. nra.
Qed.

(** ** Clipping to the box of the axes *)

Lemma keeps_bind (P P' : Q * Q → Prop) s r (k : segment xq → option (segment xq)) :
  keeps P s r → (∀ s', keeps P' s' (k (fin_seg s'))) → keeps (λ p, P p ∧ P' p) s (r ≫= k).
Proof.
  intros Hr Hk. destruct r as [s'|]; simpl.
  - destruct Hr as (qs & -> & Hqs). specialize (Hk qs). destruct (k (fin_seg qs)) as [s''|].
    + destruct Hk as (qs' & -> & Hqs'). exists qs'. split; [done|]. naive_solver.
    + intros p Hp [A B]. apply (Hk p); naive_solver.
  - intros p Hp [A _]. by apply (Hr p).
Qed.

Lemma keeps_swap (P : Q * Q → Prop) s r :
  keeps P (qswap s) r → keeps (λ p, P (p.2, p.1)) s (swap <$> r).
Proof.
  intros Hr. destruct r as [s'|]; simpl.
  - destruct Hr as (qs & -> & Hqs). exists (qswap qs). split; [apply swap_fin|].
    intros [x y]. rewrite on_qswap, Hqs, on_qswap. done.
  - intros [x y] Hp. apply (Hr (y, x)). by rewrite on_qswap.
Qed.

Lemma keeps_ext (P P' : Q * Q → Prop) s r : (∀ p, P p ↔ P' p) → keeps P s r → keeps P' s r.
Proof. intros HP. destruct r; simpl; naive_solver. Qed.

(** The ranges of two axes. *)
Record box := Box { xlo : Q; xhi : Q; ylo : Q; yhi : Q }.
Definition in_box (b : box) (p : Q * Q) : Prop := (xlo b <= p.1 <= xhi b) ∧ (ylo b <= p.2 <= yhi b).
Definition ranges (b : box) (axisx axisy : axis xq) : Prop :=
  ax_min axisx = XFin (xlo b) ∧ ax_max axisx = XFin (xhi b) ∧
  ax_min axisy = XFin (ylo b) ∧ ax_max axisy = XFin (yhi b).

Lemma clip_x_keeps b axisx axisy s : ranges b axisx axisy →
  keeps (λ p, xlo b <= p.1 <= xhi b) s (clip_x axisx (fin_seg s)).
Proof.
  intros (E1 & E2 & _). unfold clip_x. rewrite E1, E2.
  apply keeps_bind; [apply clip_min_keeps|intros; apply clip_max_keeps].
Qed.

Lemma clip_y_keeps b axisx axisy s : ranges b axisx axisy →
  keeps (λ p, ylo b <= p.2 <= yhi b) s (clip_y axisy (fin_seg s)).
Proof.
  intros (_ & _ & E1 & E2). unfold clip_y. rewrite E1, E2, swap_fin.
  apply (keeps_swap (λ p, ylo b <= p.1 <= yhi b)).
  apply keeps_bind; [apply clip_min_keeps|intros; apply clip_max_keeps].
Qed.

Lemma clip_keeps b axisx axisy s : ranges b axisx axisy →
  keeps (in_box b) s (clip axisx axisy (fin_seg s)).
Proof.
  intros Hb. unfold clip. eapply keeps_ext; [|apply keeps_bind].
  - intros p. unfold in_box. apply and_comm.
  - by eapply clip_y_keeps.
  - intros s'. by eapply clip_x_keeps.
Qed.

(** ** Points and their image on the canvas *)

(** The groups of an array of points: a gap, or a point. *)
Definition group_of (ps : nat) (g : list (jsv xq)) (o : option (Q * Q)) : Prop :=
  length g = ps ∧
  match o with
  | None => is_null (aget g 0) = true
  | Some (x, y) => aget g 0 = Number (XFin x) ∧ aget g 1 = Number (XFin y)
  end.

(** The segments between consecutive points. *)
Definition join (a b : option (Q * Q)) : option qseg :=
  match a, b with Some p, Some p' => Some (QSeg p p') | _, _ => None end.
Fixpoint line_of (P : list (option (Q * Q))) : list qseg :=
  match P with
  | a :: (b :: _) as P' => option_list (join a b) ++ line_of P'
  | _ => []
  end.

(** A finite view without a transform: the canvas coordinate is [(q - m) s]. *)
Record linear_view (ax : axis xq) (m s : Q) : Prop := {
  lv_transform : o_transform (ax_options ax) = None;
  lv_m : v_m (ax_view ax) = XFin m;
  lv_s : v_s (ax_view ax) = XFin s;
}.

Lemma p2c_linear ax m s q : linear_view ax m s → p2c ax (XFin q) = XFin ((q - m) * s).
Proof. intros [Ht Hm Hs]. unfold p2c, transform. by rewrite Ht, Hm, Hs. Qed.

(** The map to the canvas of two linear axes, shifted by an offset. *)
Record mapping := Mapping { mx : Q; kx : Q; my : Q; ky : Q; dx : Q; dy : Q }.
Definition image (f : mapping) (p : Q * Q) : Q * Q :=
  ((p.1 - mx f) * kx f + dx f, (p.2 - my f) * ky f + dy f).
Definition image_seg (f : mapping) (s : qseg) : qseg := QSeg (image f (q1 s)) (image f (q2 s)).

Definition peq (p q : Q * Q) : Prop := p.1 == q.1 ∧ p.2 == q.2.

Lemma on_image f s c : on_seg (image_seg f s) c ↔ ∃ p, on_seg s p ∧ peq c (image f p).
Proof.
  split.
  - intros (t & Ht & E1 & E2). simpl in *.
    exists ((q1 s).1 + t * ((q2 s).1 - (q1 s).1), (q1 s).2 + t * ((q2 s).2 - (q1 s).2)). split.
    + exists t. done.
    + split; simpl; [rewrite E1|rewrite E2]; ring.
  - intros (p & (t & Ht & E1 & E2) & [C1 C2]). exists t. split; [done|].
    split; simpl in *; [rewrite C1, E1|rewrite C2, E2]; ring.
Qed.

Lemma on_seg_proper s s' c : peq (q1 s) (q1 s') → peq (q2 s) (q2 s') → on_seg s c → on_seg s' c.
Proof.
  intros [A1 A2] [B1 B2] (t & Ht & E1 & E2). exists t. split; [done|].
  split; [rewrite <- A1, <- B1|rewrite <- A2, <- B2]; done.
Qed.

(** ** The strokes of a path *)

Definition fin_pos (p : Q * Q) : xq * xq := (XFin p.1, XFin p.2).

(** [c] is on one of the segments of the paths. *)
Definition covered (ops : list (canvas_op xq)) (c : Q * Q) : Prop :=
  ∃ p p', (fin_pos p, fin_pos p') ∈ segments None ops ∧ on_seg (QSeg p p') c.

Lemma foldl_omap {A B C} (g : A → C → A) (k : B → option C) (l : list B) (x : A) :
  foldl (λ x i, match k i with Some c => g x c | None => x end) x l = foldl g x (omap k l).
Proof.
  revert x. induction l as [|i l IH]; intros x; [done|]. simpl. rewrite IH. by destruct (k i).
Qed.

Section strokes.
Context `{NumText xq}.
Variables (axisx axisy : axis xq) (f : mapping).
Hypothesis Hx : linear_view axisx (mx f) (kx f).
Hypothesis Hy : linear_view axisy (my f) (ky f).

Definition st_ok (st : line_state (num := xq)) : Prop :=
  match st.1 with
  | Some prev => ∃ p, prev = fin_pos p ∧ pen_after None st.2 = Some (fin_pos (image f p))
  | None => True
  end.

Lemma line_to_covers st qs : st_ok st →
  let st' := line_to (XFin (dx f)) (XFin (dy f)) axisx axisy st (fin_seg qs) in
  st_ok st' ∧ ∀ c, covered st'.2 c ↔ covered st.2 c ∨ on_seg (image_seg f qs) c.
Proof.
  intros Hst. destruct st as [prev ops], qs as [[a b] [a' b']]. unfold line_to, fin_seg. cbn [q1 q2 fst snd].
  rewrite (p2c_linear _ _ _ a' Hx), (p2c_linear _ _ _ b' Hy), (p2c_linear _ _ _ a Hx), (p2c_linear _ _ _ b Hy).
  set (e := OpLineTo _ _). change e with (OpLineTo (XFin (image f (a', b')).1) (XFin (image f (a', b')).2)).
  clear e. set (s0 := OpMoveTo _ _).
  change s0 with (OpMoveTo (XFin (image f (a, b)).1) (XFin (image f (a, b)).2)). clear s0.
  set (moved := match prev with Some _ => _ | None => true end).
  assert (Hgen : ∀ start : Q * Q, peq start (image f (a, b)) →
    segments None (ops ++ (if moved then [OpMoveTo (XFin (image f (a, b)).1) (XFin (image f (a, b)).2)] else []) ++
      [OpLineTo (XFin (image f (a', b')).1) (XFin (image f (a', b')).2)])
    = segments None ops ++ [(fin_pos start, fin_pos (image f (a', b')))] →
    ∀ c, covered (ops ++ (if moved then [OpMoveTo (XFin (image f (a, b)).1) (XFin (image f (a, b)).2)] else []) ++
      [OpLineTo (XFin (image f (a', b')).1) (XFin (image f (a', b')).2)]) c
    ↔ covered ops c ∨ on_seg (image_seg f (QSeg (a, b) (a', b'))) c).
  { intros start Hs E c. unfold covered. rewrite E. split.
    - intros (p & p' & Hin & Hon). apply elem_of_app in Hin as [Hin|Hin]; [left; eauto|].
      apply list_elem_of_singleton in Hin. right. destruct p, p'. injection Hin as -> ->.
      subst. eapply on_seg_proper; [..|exact Hon]; [exact Hs|done].
    - intros [(p & p' & Hin & Hon)|Hon].
      + exists p, p'. split; [apply elem_of_app; by left|done].
      + exists start, (image f (a', b')). split; [apply elem_of_app; right; by apply list_elem_of_singleton|].
        eapply on_seg_proper; [..|exact Hon]; [|done]. destruct Hs as [S1 S2]. split; simpl in *; by symmetry. }
  split.
  - exists (a', b'). split; [done|]. unfold pen_after. simpl. rewrite !foldl_app. by destruct moved.
  - destruct moved eqn:Em.
    + apply (Hgen (image f (a, b))); [done|]. by rewrite segments_app.
    + destruct prev as [[px py]|]; [|done]. destruct Hst as ([p1 p2] & Ep & Epen). simpl in Ep, Epen.
      injection Ep as -> ->. unfold moved in Em. apply orb_false_iff in Em as [E1 E2].
      apply negb_false_iff, Exact.eqb_fin in E1, E2.
      apply (Hgen (image f (p1, p2))).
      * split; simpl; [rewrite E1|rewrite E2]; done.
      * by rewrite segments_app, Epen.
Qed.

Lemma lines_cover st L : st_ok st →
  ∀ c, covered (foldl (line_to (XFin (dx f)) (XFin (dy f)) axisx axisy) st (map fin_seg L)).2 c
  ↔ covered st.2 c ∨ ∃ qs, qs ∈ L ∧ on_seg (image_seg f qs) c.
Proof.
  revert st. induction L as [|qs L IH]; intros st Hst c; simpl.
  - set_solver.
  - destruct (line_to_covers st qs Hst) as [Hst' Hc]. rewrite IH, Hc by done. set_solver.
Qed.
End strokes.

(** ** The segments that [plotLine] visits *)

Lemma omap_bind {A B C} (m : A → option B) (k : B → option C) (l : list A) :
  omap (λ i, m i ≫= k) l = omap k (omap m l).
Proof. induction l as [|i l IH]; [done|]. csimpl. destruct (m i); csimpl; by rewrite IH. Qed.

Lemma omap_fmap_fin {A} (m : A → option qseg) (l : list A) :
  omap (λ i, fin_seg <$> m i) l = map fin_seg (omap m l).
Proof. induction l as [|i l IH]; [done|]. csimpl. destruct (m i); csimpl; by rewrite IH. Qed.

Lemma omap_map {A B C} (h : A → B) (m : B → option C) (l : list A) :
  omap m (map h l) = omap (λ i, m (h i)) l.
Proof. induction l as [|i l IH]; [done|]. csimpl. by rewrite IH. Qed.

Lemma omap_ext_in {A B} (m m' : A → option B) (l : list A) :
  (∀ i, i ∈ l → m i = m' i) → omap m l = omap m' l.
Proof.
  induction l as [|i l IH]; intros E; [done|]. csimpl. rewrite (E i) by by left.
  rewrite IH; [done|]. intros j Hj. apply E. by right.
Qed.

(** The segment that ends at point [k]. *)
Definition seg_to (P : list (option (Q * Q))) (k : nat) : option qseg :=
  join (mjoin (P !! (k - 1)%nat)) (mjoin (P !! k)).

Lemma line_of_seq P : line_of P = omap (seg_to P) (seq 1 (length P - 1)).
Proof.
  induction P as [|a P IH]; [done|]. destruct P as [|b P]; [done|].
  change (line_of (a :: b :: P)) with (option_list (join a b) ++ line_of (b :: P)).
  rewrite IH. cbn [length Nat.sub]. rewrite Nat.sub_0_r. cbn [seq omap].
  change (seg_to (a :: b :: P) 1) with (join a b).
  assert (E : omap (seg_to (a :: b :: P)) (seq 2 (length P)) = omap (seg_to (b :: P)) (seq 1 (length P))).
  { rewrite <- (seq_shift (length P) 1), omap_map. apply omap_ext_in. intros i Hi.
    apply elem_of_seq in Hi. unfold seg_to. destruct i as [|i]; [lia|]. simpl.
    by rewrite Nat.sub_0_r. }
  csimpl in E. csimpl. rewrite E. change (seg_to (a :: b :: P) 1) with (join a b). by destruct (join a b).
Qed.

Section visits.
Context `{NumText xq}.

Lemma group_lookup ps gs P k : (2 ≤ ps)%nat → Forall2 (group_of ps) gs P → (k < length P)%nat →
  let x := aget (concat gs) (Z.of_nat (k * ps)) in
  match mjoin (P !! k) with
  | None => is_null x = true
  | Some p => x = Number (XFin p.1) ∧ aget (concat gs) (Z.of_nat (k * ps) + 1) = Number (XFin p.2)
  end.
Proof.
  intros Hps Hgs Hk x. destruct (lookup_lt_is_Some_2 P k Hk) as [o Ho].
  destruct (Forall2_lookup_r _ _ _ _ _ Hgs Ho) as (g & Hg & Hlen & Hog).
  assert (W : Forall (λ g, length g = ps) gs).
  { apply Forall_lookup. intros i g' Hi. destruct (Forall2_lookup_l _ _ _ _ _ Hgs Hi) as (? & _ & E & _). done. }
  pose proof (aget_concat ps gs k g 0 W Hg ltac:(lia)) as E0.
  pose proof (aget_concat ps gs k g 1 W Hg ltac:(lia)) as E1.
  rewrite Nat.add_0_r in E0. rewrite Nat2Z.inj_add in E1. unfold x.
  change (Z.of_nat 0) with 0%Z in E0. change (Z.of_nat 1) with 1%Z in E1.
  rewrite E0, Ho. simpl in *. destruct o as [[px py]|]; simpl; [|done]. by rewrite E1.
Qed.

Lemma between_seg ps gs P k : (2 ≤ ps)%nat → Forall2 (group_of ps) gs P → (1 ≤ k < length P)%nat →
  segment_between (concat gs) (Z.of_nat (k * ps) - Z.of_nat ps) (Z.of_nat (k * ps)) 1
  = fin_seg <$> seg_to P k.
Proof.
  intros Hps Hgs Hk. unfold segment_between, seg_to.
  replace (Z.of_nat (k * ps) - Z.of_nat ps)%Z with (Z.of_nat ((k - 1) * ps)) by nia.
  pose proof (group_lookup ps gs P k Hps Hgs ltac:(lia)) as A.
  pose proof (group_lookup ps gs P (k - 1) Hps Hgs ltac:(lia)) as B.
  destruct (mjoin (P !! (k - 1)%nat)) as [[p1 p2]|]; [destruct B as [-> ->]|by rewrite B].
  destruct (mjoin (P !! k)) as [[p1' p2']|]; [destruct A as [-> ->]|by rewrite A].
  done.
Qed.

Lemma visited ps gs P : (2 ≤ ps)%nat → Forall2 (group_of ps) gs P →
  omap (λ i, segment_between (concat gs) (Z.of_nat i - Z.of_nat ps) (Z.of_nat i) 1)
    (drop 1 (group_indices ps (length (concat gs)))) = map fin_seg (line_of P).
Proof.
  intros Hps Hgs. pose proof (Forall2_length _ _ _ Hgs) as EL.
  rewrite group_indices_concat; [|lia|].
  2: { apply Forall_lookup. intros i g' Hi. destruct (Forall2_lookup_l _ _ _ _ _ Hgs Hi) as (? & _ & E & _). done. }
  rewrite EL. rewrite line_of_seq, <- omap_fmap_fin.
  assert (Ed : drop 1 (map (λ k, k * ps)%nat (seq 0 (length P))) = map (λ k, k * ps)%nat (seq 1 (length P - 1))).
  { destruct (length P) as [|n]; [done|]. simpl. by rewrite Nat.sub_0_r, drop_0. }
  rewrite Ed, omap_map. apply omap_ext_in. intros k Hk. apply elem_of_seq in Hk.
  apply between_seg; [done..|lia].
Qed.

Lemma ex_cons {A} (T : A → Prop) a l : (∃ x, x ∈ a :: l ∧ T x) ↔ T a ∨ ∃ x, x ∈ l ∧ T x.
Proof.
  split.
  - intros (x & [-> |Hx]%elem_of_cons & Ht); eauto.
  - intros [Ht|(x & Hx & Ht)]; [exists a|exists x]; split; try done; apply elem_of_cons; eauto.
Qed.

(** The clipped segments cover what is in the box. *)
Lemma clip_list b axisx axisy L : ranges b axisx axisy →
  ∃ L', omap (clip axisx axisy) (map fin_seg L) = map fin_seg L' ∧
    ∀ p, (∃ s, s ∈ L' ∧ on_seg s p) ↔ (∃ s, s ∈ L ∧ on_seg s p) ∧ in_box b p.
Proof.
  intros Hb. induction L as [|s L (L' & E & HL)].
  { exists []. split; [done|]. set_solver. }
  pose proof (clip_keeps b axisx axisy s Hb) as Hk. csimpl.
  destruct (clip axisx axisy (fin_seg s)) as [s'|]; simpl in Hk.
  - destruct Hk as (qs & -> & Hqs). exists (qs :: L'). simpl in E. split; [by rewrite E|].
    intros p. rewrite !ex_cons, Hqs, HL. tauto.
  - exists L'. split; [done|]. intros p. rewrite ex_cons, HL. specialize (Hk p). tauto.
Qed.
End visits.

(** ** Properties *)

(** C3: the strokes of [plotLine] are exactly the part of the line (through
    the points, broken at the gaps) that lies in the box of the axis ranges,
    carried to the canvas: nothing outside is drawn, and nothing inside is
    missed, whatever sides a segment crosses. *)
Theorem plotLine_visible `{NumText xq} ps gs P axisx axisy b f :
  (2 ≤ ps)%nat → Forall2 (group_of ps) gs P → ranges b axisx axisy →
  linear_view axisx (mx f) (kx f) → linear_view axisy (my f) (ky f) →
  ∀ c, covered (plotLine (concat gs) ps (XFin (dx f)) (XFin (dy f)) axisx axisy) c ↔
    ∃ s p, s ∈ line_of P ∧ on_seg s p ∧ in_box b p ∧ peq c (image f p).
Proof.
  intros Hps Hgs Hb Hx Hy c. unfold plotLine, line_step.
  rewrite foldl_omap, omap_bind, (visited ps gs P) by done.
  destruct (clip_list b axisx axisy (line_of P) Hb) as (L' & -> & HL).
  pose proof (lines_cover axisx axisy f Hx Hy (None, [OpBeginPath]) L' I c) as Hc.
  assert (Ea : ∀ ops, covered (ops ++ [OpStroke]) c ↔ covered ops c).
  { intros ops. unfold covered. rewrite segments_app. simpl. by rewrite app_nil_r. }
  rewrite Ea, Hc. clear Ea Hc. split.
  - intros [(p & p' & Hin & _)|(qs & Hin & Hon)]; [by apply elem_of_nil in Hin|].
    apply on_image in Hon as (p & Hp & Hcp).
    destruct (proj1 (HL p)) as [(s & Hs & Hsp) Hbox]; [by exists qs|]. by exists s, p.
  - intros (s & p & Hs & Hsp & Hbox & Hcp). right.
    destruct (proj2 (HL p)) as (qs & Hin & Hon); [split; [by exists s|done]|].
    exists qs. split; [done|]. apply on_image. by exists p.
Qed.

(** ** Samples *)

Definition sample_view (dir : direction) (lo hi m s : Q) : axis xq :=
  with_view (new_axis 1 dir default_xaxis) (AxisView (XFin lo) (XFin hi) (XFin s) (XFin m) (XFin s)).

Definition sample_box : box := Box 0 10 0 20.
Definition sample_map : mapping := Mapping 0 40 20 (-(10)) 0 0.
Definition sample_groups : list (list (jsv xq)) :=
  let n q := Number (XFin q) in
  [[n (-(5)); n 1; n 0]; [n 5; n 30; n 0]; [Null; Null; Null]; [n 3; n 3; n 0]].

Lemma plotLine_visible_witness :
  let _ := Exact.exact_text in
  let c := (0, 45) in
  covered (plotLine (concat sample_groups) 3 (XFin 0) (XFin 0)
                  (sample_view DirX 0 10 0 40) (sample_view DirY 0 20 20 (-(10)))) c ↔
    ∃ s p, s ∈ line_of [Some (-(5), 1); Some (5, 30); None; Some (3, 3)] ∧ on_seg s p ∧
      in_box sample_box p ∧ peq c (image sample_map p).
Proof.
  intros text c. apply (@plotLine_visible Exact.exact_text 3 sample_groups
    [Some (-(5), 1); Some (5, 30); None; Some (3, 3)] (sample_view DirX 0 10 0 40)
    (sample_view DirY 0 20 20 (-(10))) sample_box sample_map); try (by repeat constructor).
Defined.
