(* ===== verification/FlotAreaSpec.v ===== *)
(** What the area under a line is, on exact numbers: the outline follows the
    line kept between the bounds of the y axis. *)

From S2P Require Import Prelude Numbers ExactNum JsText JsValue FlotModel FlotAxis Canvas FlotStyle FlotLines FlotLineSpec.
From stdpp Require Import sets.
From Stdlib Require Import QArith Lqa.

#[local] Open Scope Q_scope.

(** ** Heights along a segment *)

(** The height of the point of ratio [t]. *)
Definition height_at (s : qseg) (t : Q) : Q := (q1 s).2 + t * ((q2 s).2 - (q1 s).2).

Definition clampQ (lo hi v : Q) : Q :=
  if Qlt_le_dec v lo then lo else if Qlt_le_dec hi v then hi else v.

Ltac clamps :=
  unfold clampQ in *;
  repeat match goal with
  | |- context [Qlt_le_dec ?a ?b] => destruct (Qlt_le_dec a b)
  | H : context [Qlt_le_dec ?a ?b] |- _ => destruct (Qlt_le_dec a b)
  end; try lra.

(** The result of moving the ends of [s] that are on the wrong side of [c]:
    [beyond] tells which side that is. *)
Definition levelled (beyond : Q → Prop) (c : Q) (s s' : qseg) (r0 r1 : Q) : Prop :=
  part s r0 r1 s' ∧ 0 <= r0 <= r1 ∧ r1 <= 1 ∧
  (r0 == 0 ∨ (beyond (q1 s).2 ∧ (q1 s').2 == c)) ∧
  (r1 == 1 ∨ (beyond (q2 s).2 ∧ (q2 s').2 == c)).

Lemma part_all s : part s 0 1 s.
Proof. split; split; ring. Qed.

(** The part that starts, or ends, where the segment crosses the height [c]. *)
Lemma crossing_ratio c x1 y1 x2 y2 : ¬ y2 - y1 == 0 →
  ∃ r x, r * (y2 - y1) == c - y1 ∧
    nadd (nmul (ndiv (nsub (XFin c) (XFin y1)) (nsub (XFin y2) (XFin y1)))
       (nsub (XFin x2) (XFin x1))) (XFin x1) = XFin x ∧
    at_ratio (QSeg (x1, y1) (x2, y2)) r (x, c).
Proof.
  intros D. set (s := QSeg (y1, x1) (y2, x2)).
  destruct (cross_ratio c s D) as (r & [E1 E2] & Er).
  exists r, (cut c s).2. repeat split; [done|by apply (cut_fin c s)|done..].
Qed.

Lemma level_min_spec lo s : lo <= (q1 s).2 ∨ lo <= (q2 s).2 →
  ∃ s' r0 r1, level_min (XFin lo) (fin_seg s) = fin_seg s' ∧ levelled (λ v, v < lo) lo s s' r0 r1 ∧
    lo <= (q1 s').2 ∧ lo <= (q2 s').2.
Proof.
  intros Hlo. destruct s as [[x1 y1] [x2 y2]]. unfold level_min, fin_seg. cbn [q1 q2 fst snd] in *.
  destruct (nleb (XFin y1) (XFin y2) && nltb (XFin y1) (XFin lo) && nleb (XFin lo) (XFin y2)) eqn:C1.
  { bools. xq_hyps. destruct (crossing_ratio lo x1 y1 x2 y2) as (r & x & Er & -> & A); [lra|].
    exists (QSeg (x, lo) (x2, y2)), r, 1. split; [done|]. simpl.
    split; [|lra]. split; [split; [done|split; simpl; ring]|]. repeat split; try nra.
    right. split; [done|reflexivity]. }
  destruct (nleb (XFin y2) (XFin y1) && nltb (XFin y2) (XFin lo) && nleb (XFin lo) (XFin y1)) eqn:C2.
  { clear C1. bools. xq_hyps. destruct (crossing_ratio lo x1 y1 x2 y2) as (r & x & Er & -> & A); [lra|].
    exists (QSeg (x1, y1) (x, lo)), 0, r. split; [done|]. simpl.
    split; [|lra]. split; [split; [split; simpl; ring|done]|]. repeat split; try nra.
    right. split; [done|reflexivity]. }
  exists (QSeg (x1, y1) (x2, y2)), 0, 1. split; [done|].
  split; [repeat split; simpl; try ring; try lra|]. simpl.
  destruct (Qlt_le_dec y1 lo), (Qlt_le_dec y2 lo); try lra.
  - assert (Hc : nleb (XFin y1) (XFin y2) && nltb (XFin y1) (XFin lo) && nleb (XFin lo) (XFin y2) = true); [|congruence].
    rewrite !andb_true_iff. repeat split; xq; lra.
  - assert (Hc : nleb (XFin y2) (XFin y1) && nltb (XFin y2) (XFin lo) && nleb (XFin lo) (XFin y1) = true); [|congruence].
    rewrite !andb_true_iff. repeat split; xq; lra.
Qed.

Lemma level_max_spec hi s : (q1 s).2 <= hi ∨ (q2 s).2 <= hi →
  ∃ s' r0 r1, level_max (XFin hi) (fin_seg s) = fin_seg s' ∧ levelled (λ v, hi < v) hi s s' r0 r1 ∧
    (q1 s').2 <= hi ∧ (q2 s').2 <= hi.
Proof.
  intros Hhi. destruct s as [[x1 y1] [x2 y2]]. unfold level_max, fin_seg. cbn [q1 q2 fst snd] in *.
  destruct (nleb (XFin y2) (XFin y1) && nltb (XFin hi) (XFin y1) && nleb (XFin y2) (XFin hi)) eqn:C1.
  { bools. xq_hyps. destruct (crossing_ratio hi x1 y1 x2 y2) as (r & x & Er & -> & A); [lra|].
    exists (QSeg (x, hi) (x2, y2)), r, 1. split; [done|]. simpl.
    split; [|lra]. split; [split; [done|split; simpl; ring]|]. repeat split; try nra.
    right. split; [done|reflexivity]. }
  destruct (nleb (XFin y1) (XFin y2) && nltb (XFin hi) (XFin y2) && nleb (XFin y1) (XFin hi)) eqn:C2.
  { clear C1. bools. xq_hyps. destruct (crossing_ratio hi x1 y1 x2 y2) as (r & x & Er & -> & A); [lra|].
    exists (QSeg (x1, y1) (x, hi)), 0, r. split; [done|]. simpl.
    split; [|lra]. split; [split; [split; simpl; ring|done]|]. repeat split; try nra.
    right. split; [done|reflexivity]. }
  exists (QSeg (x1, y1) (x2, y2)), 0, 1. split; [done|].
  split; [repeat split; simpl; try ring; try lra|]. simpl.
  destruct (Qlt_le_dec hi y1), (Qlt_le_dec hi y2); try lra.
  - assert (Hc : nleb (XFin y2) (XFin y1) && nltb (XFin hi) (XFin y1) && nleb (XFin y2) (XFin hi) = true); [|congruence].
    rewrite !andb_true_iff. repeat split; xq; lra.
  - assert (Hc : nleb (XFin y1) (XFin y2) && nltb (XFin hi) (XFin y2) && nleb (XFin y1) (XFin hi) = true); [|congruence].
    rewrite !andb_true_iff. repeat split; xq; lra.
Qed.

(** ** The segment kept between two heights *)

Lemma height_part s t0 t1 s' r : part s t0 t1 s' → height_at s' r == height_at s (t0 + r * (t1 - t0)).
Proof. intros [[_ A] [_ B]]. unfold height_at. rewrite A, B. ring. Qed.

Lemma part_part s t0 t1 s' r0 r1 s'' : part s t0 t1 s' → part s' r0 r1 s'' →
  part s (t0 + r0 * (t1 - t0)) (t0 + r1 * (t1 - t0)) s''.
Proof.
  intros [[A1 A2] [B1 B2]] [[C1 C2] [D1 D2]].
  repeat split; [rewrite C1, A1, B1|rewrite C2, A2, B2|rewrite D1, A1, B1|rewrite D2, A2, B2]; ring.
Qed.

(** [s'] is the part of [s] between the heights [lo] and [hi], and before
    and after it [s] stays beyond the height where [s'] starts and ends. *)
Definition kept (lo hi : Q) (s s' : qseg) (t0 t1 : Q) : Prop :=
  part s t0 t1 s' ∧ 0 <= t0 <= t1 ∧ t1 <= 1 ∧
  (∀ t, t0 <= t <= t1 → lo <= height_at s t <= hi) ∧
  (∀ t, 0 <= t <= t0 → clampQ lo hi (height_at s t) == (q1 s').2) ∧
  (∀ t, t1 <= t <= 1 → clampQ lo hi (height_at s t) == (q2 s').2).

(** Heights of a segment in a convex set, from its ends. *)
Lemma height_between a d t0 t1 t lo hi :
  t0 <= t <= t1 → lo <= a + t0 * d <= hi → lo <= a + t1 * d <= hi → lo <= a + t * d <= hi.
Proof. intros. destruct (Qlt_le_dec d 0); split; nra. Qed.

Lemma level_kept lo hi s : lo <= hi →
  (lo <= (q1 s).2 ∨ lo <= (q2 s).2) → ((q1 s).2 <= hi ∨ (q2 s).2 <= hi) →
  ∃ s' t0 t1, level_max (XFin hi) (level_min (XFin lo) (fin_seg s)) = fin_seg s' ∧ kept lo hi s s' t0 t1.
Proof.
  intros Hle Hlo Hhi.
  destruct (level_min_spec lo s Hlo) as (s1 & r0 & r1 & -> & (P1 & [R0 R01] & R1 & A0 & A1) & L1 & L2).
  destruct (level_max_spec hi s1) as (s2 & u0 & u1 & -> & (P2 & [U0 U01] & U1 & B0 & B1) & H1 & H2).
  { destruct P1 as [[_ Ea] [_ Eb]], Hhi as [Hh|Hh]; [left|right].
    - destruct A0 as [A0|[_ A0]]; [rewrite Ea, A0|]; lra.
    - destruct A1 as [A1|[_ A1]]; [rewrite Eb, A1|]; lra. }
  exists s2, (r0 + u0 * (r1 - r0)), (r0 + u1 * (r1 - r0)). split; [done|].
  pose proof (part_part _ _ _ _ _ _ _ P1 P2) as P.
  set (t0 := r0 + u0 * (r1 - r0)) in *. set (t1 := r0 + u1 * (r1 - r0)) in *.
  assert (T : 0 <= t0 <= t1 ∧ t1 <= 1) by (unfold t0, t1; repeat split; nra).
  destruct T as [[T0 T01] T1].
  assert (E0 : (q1 s2).2 == height_at s t0) by apply P.
  assert (E1 : (q2 s2).2 == height_at s t1) by apply P.
  assert (F0 : (q1 s1).2 == height_at s r0) by apply P1.
  assert (F1 : (q2 s1).2 == height_at s r1) by apply P1.
  assert (G0 : (q1 s2).2 == height_at s1 u0) by apply P2.
  assert (G1 : (q2 s2).2 == height_at s1 u1) by apply P2.
  assert (X1 : lo <= (q1 s2).2 <= hi).
  { split; [|done]. rewrite G0. unfold height_at. destruct (Qlt_le_dec ((q2 s1).2 - (q1 s1).2) 0); nra. }
  assert (X2 : lo <= (q2 s2).2 <= hi).
  { split; [|done]. rewrite G1. unfold height_at. destruct (Qlt_le_dec ((q2 s1).2 - (q1 s1).2) 0); nra. }
  split; [done|]. split; [done|]. split; [done|]. split; [|split].
  - intros t Ht. rewrite E0 in X1. rewrite E1 in X2. unfold height_at in *. by eapply height_between.
  - intros t Ht. destruct B0 as [B0|[B0 B0']], A0 as [A0|[A0 A0']].
    + assert (Et : t == t0) by (unfold t0 in *; nra).
      assert (height_at s t == (q1 s2).2) by (rewrite E0; unfold height_at; rewrite Et; ring). clamps.
    + assert (Es : (q1 s2).2 == lo) by (rewrite G0; unfold height_at; rewrite B0, A0'; ring).
      rewrite Es in E0 |- *. assert (height_at s t <= lo); [|clamps].
      unfold height_at in *. destruct (Qlt_le_dec ((q2 s).2 - (q1 s).2) 0); nra.
    + assert (Es : (q1 s).2 == (q1 s1).2) by (rewrite F0; unfold height_at; rewrite A0; ring).
      rewrite B0' in E0 |- *. assert (hi <= height_at s t); [|clamps].
      unfold height_at in *. destruct (Qlt_le_dec ((q2 s).2 - (q1 s).2) 0); nra.
    + exfalso. lra.
  - intros t Ht. destruct B1 as [B1|[B1 B1']], A1 as [A1|[A1 A1']].
    + assert (Et : t == t1) by (unfold t1 in *; nra).
      assert (height_at s t == (q2 s2).2) by (rewrite E1; unfold height_at; rewrite Et; ring). clamps.
    + assert (Es : (q2 s2).2 == lo) by (rewrite G1; unfold height_at; rewrite B1, A1'; ring).
      rewrite Es in E1 |- *. assert (height_at s t <= lo); [|clamps].
      unfold height_at in *. destruct (Qlt_le_dec ((q2 s).2 - (q1 s).2) 0); nra.
    + assert (Es : (q2 s).2 == (q2 s1).2) by (rewrite F1; unfold height_at; rewrite A1; ring).
      rewrite B1' in E1 |- *. assert (hi <= height_at s t); [|clamps].
      unfold height_at in *. destruct (Qlt_le_dec ((q2 s).2 - (q1 s).2) 0); nra.
    + exfalso. lra.
Qed.

(** ** The outline *)

(** [c] is on the polyline. *)
Fixpoint traces (vs : list (Q * Q)) (c : Q * Q) : Prop :=
  match vs with
  | p :: ((p' :: _) as vs') => on_seg (QSeg p p') c ∨ traces vs' c
  | _ => False
  end.

(** The horizontal coordinate of the point of ratio [t]. *)
Definition along (s : qseg) (t : Q) : Q := (q1 s).1 + t * ((q2 s).1 - (q1 s).1).

(** A horizontal piece of the outline, from ratio [t0] to [t1]. *)
Lemma flat_piece s t0 t1 a b y c : t0 <= t1 → a == along s t0 → b == along s t1 →
  on_seg (QSeg (a, y) (b, y)) c ↔ ∃ t, t0 <= t <= t1 ∧ peq c (along s t, y).
Proof.
  intros Ht Ha Hb. unfold along in *.
  rewrite (on_part (QSeg ((q1 s).1, y) ((q2 s).1, y)) t0 t1).
  - split; intros (t & Hr & E1 & E2); exists t; (split; [done|]);
      split; simpl in *; try done; rewrite E2; ring.
  - done.
  - repeat split; simpl; try done; ring.
Qed.

(** The vertices around the kept part. *)
Definition outline (s s' : qseg) : list (Q * Q) :=
  (if neqb (XFin (q1 s').1) (XFin (q1 s).1) then [] else [((q1 s).1, (q1 s').2)]) ++
  [q1 s'; q2 s'] ++
  (if neqb (XFin (q2 s').1) (XFin (q2 s).1) then [] else [q2 s'; ((q2 s).1, (q2 s').2)]).

Definition clamped_image (lo hi : Q) (s : qseg) (t0 t1 : Q) (c : Q * Q) : Prop :=
  ∃ t, t0 <= t <= t1 ∧ peq c (along s t, clampQ lo hi (height_at s t)).

Lemma clamped_split lo hi s t0 t1 t2 c : t0 <= t1 <= t2 →
  clamped_image lo hi s t0 t2 c ↔ clamped_image lo hi s t0 t1 c ∨ clamped_image lo hi s t1 t2 c.
Proof.
  intros Ht. split.
  - intros (t & Hr & E). destruct (Qlt_le_dec t t1); [left|right]; exists t; (split; [lra|done]).
  - intros [(t & Hr & E)|(t & Hr & E)]; exists t; (split; [lra|done]).
Qed.

Lemma clamped_middle lo hi s s' t0 t1 c : kept lo hi s s' t0 t1 →
  on_seg s' c ↔ clamped_image lo hi s t0 t1 c.
Proof.
  intros (P & Ht & _ & Hmid & _ & _). rewrite (on_part s t0 t1 s' c) by (done || lra).
  split; intros (t & Hr & E1 & E2); exists t; (split; [done|]); specialize (Hmid t Hr);
    unfold height_at, along in *; split; simpl in *; try done; clamps.
Qed.

Lemma clamped_flat lo hi s y t0 t1 a b c :
  t0 <= t1 → (∀ t, t0 <= t <= t1 → clampQ lo hi (height_at s t) == y) →
  a == along s t0 → b == along s t1 →
  on_seg (QSeg (a, y) (b, y)) c ↔ clamped_image lo hi s t0 t1 c.
Proof.
  intros Ht Hflat Ha Hb. rewrite (flat_piece s t0 t1) by done.
  split; intros (t & Hr & E1 & E2); exists t; (split; [done|]); specialize (Hflat t Hr);
    split; simpl in *; try done; rewrite E2; [symmetry|]; done.
Qed.

(** A piece without width adds nothing to a segment that starts, or ends, there. *)
Lemma point_start p p' c a : a == p.1 → on_seg (QSeg (a, p.2) p) c → on_seg (QSeg p p') c.
Proof.
  intros Ha (t & Ht & E1 & E2). exists 0. split; [lra|]. simpl in *.
  split; simpl; [rewrite E1, Ha|rewrite E2]; ring.
Qed.
Lemma point_end p p' c a : a == p'.1 → on_seg (QSeg p' (a, p'.2)) c → on_seg (QSeg p p') c.
Proof.
  intros Ha (t & Ht & E1 & E2). exists 1. split; [lra|]. simpl in *.
  split; simpl; [rewrite E1, Ha|rewrite E2]; ring.
Qed.

Lemma outline_traces lo hi s s' t0 t1 c : kept lo hi s s' t0 t1 →
  traces (outline s s') c ↔ clamped_image lo hi s 0 1 c.
Proof.
  intros K. pose proof K as (P & [T0 T01] & T1 & _ & Hstart & Hend).
  rewrite (clamped_split lo hi s 0 t0 1), (clamped_split lo hi s t0 t1 1) by lra.
  rewrite <- (clamped_middle lo hi s s' t0 t1 c K).
  assert (A : on_seg (QSeg ((q1 s).1, (q1 s').2) (q1 s')) c ↔ clamped_image lo hi s 0 t0 c).
  { destruct s' as [[X1 Y1] p2]. apply clamped_flat; try done; [unfold along; ring|apply P]. }
  assert (B : on_seg (QSeg (q2 s') ((q2 s).1, (q2 s').2)) c ↔ clamped_image lo hi s t1 1 c).
  { destruct s' as [p1 [X2 Y2]]. apply clamped_flat; try done; [apply P|unfold along; ring]. }
  rewrite <- A, <- B. unfold outline.
  assert (S : on_seg (QSeg (q1 s') (q2 s')) c ↔ on_seg s' c) by by destruct s'.
  assert (D : on_seg (QSeg (q2 s') (q2 s')) c → on_seg s' c).
  { intros Hc. apply S. apply (point_end (q1 s') (q2 s') c (q2 s').1); [done|]. by destruct (q2 s'). }
  destruct (neqb (XFin (q1 s').1) (XFin (q1 s).1)) eqn:C1, (neqb (XFin (q2 s').1) (XFin (q2 s).1)) eqn:C2;
    xq_hyps; simpl traces; rewrite ?S.
  1,2: assert (on_seg (QSeg ((q1 s).1, (q1 s').2) (q1 s')) c → on_seg s' c)
    by (rewrite <- S; apply point_start; by symmetry).
  1,3: assert (on_seg (QSeg (q2 s') ((q2 s).1, (q2 s').2)) c → on_seg s' c)
    by (rewrite <- S; apply point_end; by symmetry).
  all: tauto.
Qed.

(** The part of the outline of an area that follows a segment of the line
    is exactly the segment with its heights kept between the bounds of the y
    axis: flat along a bound where the line is outside, and on the line
    elsewhere. *)
Theorem area_outline axisy lo hi s :
  ax_min axisy = XFin lo → ax_max axisy = XFin hi → lo <= hi →
  ∃ vs, area_vertices axisy (fin_seg s) = map fin_pos vs ∧
    ∀ c, traces vs c ↔ ∃ p, on_seg s p ∧ peq c (p.1, clampQ lo hi p.2).
Proof.
  intros Hlo Hhi Hle.
  assert (Himg : ∀ c, clamped_image lo hi s 0 1 c ↔ ∃ p, on_seg s p ∧ peq c (p.1, clampQ lo hi p.2)).
  { intros c. split.
    - intros (t & Ht & E). exists (along s t, height_at s t). split; [by exists t|done].
    - intros (p & (t & Ht & P1 & P2) & E1 & E2). exists t. split; [done|].
      unfold along, height_at. simpl in *. split; simpl; [by rewrite E1|].
      rewrite E2. clamps. }
  unfold area_vertices. rewrite Hlo, Hhi. unfold fin_seg at 1.
  destruct (nleb (XFin hi) (XFin (q1 s).2) && nleb (XFin hi) (XFin (q2 s).2)) eqn:C1.
  { bools. xq_hyps. exists [((q1 s).1, hi); ((q2 s).1, hi)]. split; [done|]. intros c. rewrite <- Himg.
    simpl. rewrite (clamped_flat lo hi s hi 0 1); [tauto|lra| |unfold along; ring..].
    intros t Ht. assert (hi <= height_at s t) by (unfold height_at; nra). clamps. }
  destruct (nleb (XFin (q1 s).2) (XFin lo) && nleb (XFin (q2 s).2) (XFin lo)) eqn:C2.
  { clear C1. bools. xq_hyps. exists [((q1 s).1, lo); ((q2 s).1, lo)]. split; [done|]. intros c. rewrite <- Himg.
    simpl. rewrite (clamped_flat lo hi s lo 0 1); [tauto|lra| |unfold along; ring..].
    intros t Ht. assert (height_at s t <= lo) by (unfold height_at; nra). clamps. }
  destruct (level_kept lo hi s Hle) as (s' & t0 & t1 & E & K).
  - apply andb_false_iff in C2 as [C|C]; xq_hyps; [left|right]; lra.
  - apply andb_false_iff in C1 as [C|C]; xq_hyps; [left|right]; lra.
  - exists (outline s s'). split; [|intros c; rewrite <- Himg; by eapply outline_traces].
    rewrite E. unfold outline, fin_seg. clear. destruct s as [[x1 y1] [x2 y2]], s' as [[x1' y1'] [x2' y2']].
    simpl. destruct (neqb (XFin x1') (XFin x1)), (neqb (XFin x2') (XFin x2)); reflexivity.
Qed.

Lemma area_outline_witness :
  ∃ vs, area_vertices (with_range (new_axis 1 DirY default_yaxis) (XFin 0) (XFin 10))
          (fin_seg (QSeg (0, -(5)) (4, 15))) = map fin_pos vs ∧
    ∀ c, traces vs c ↔ ∃ p, on_seg (QSeg (0, -(5)) (4, 15)) p ∧ peq c (p.1, clampQ 0 10 p.2).
Proof. apply area_outline; try reflexivity. discriminate. Defined.
