(* ===== verification/FlotMarks.v ===== *)
(** Drawing the points and bars of a series in
    [static/flot/jquery.flot.js] ([drawSeriesPoints], [drawBar],
    [drawSeriesBars], [drawSeries]) and the symbols of
    [static/flot/jquery.flot.symbol.js]. *)

From S2P Require Import Prelude Numbers JsText JsValue Color FlotModel FlotData FlotAxis Canvas FlotStyle FlotLines.

(** ** Symbols *)

(** What a symbol draws around a point: x, y, radius, shadow. *)
Definition symbol (num : Type) : Type := num → num → num → bool → list (canvas_op num).

Section symbols.
Context {num : Type} `{Num num} `{MathLib num}.
Local Open Scope num_scope.

Definition square : symbol num := λ x y radius shadow,
  let size := radius * math_sqrt math_pi / ⟨2⟩ in
  [OpRect (x - size) (y - size) (size + size) (size + size)].

Definition diamond : symbol num := λ x y radius shadow,
  let size := radius * math_sqrt (math_pi / ⟨2⟩) in
  [OpMoveTo (x - size) y; OpLineTo x (y - size); OpLineTo (x + size) y; OpLineTo x (y + size);
   OpLineTo (x - size) y].

Definition triangle : symbol num := λ x y radius shadow,
  let size := radius * math_sqrt (⟨2⟩ * math_pi / math_sin (math_pi / ⟨3⟩)) in
  let height := size * math_sin (math_pi / ⟨3⟩) in
  [OpMoveTo (x - size / ⟨2⟩) (y + height / ⟨2⟩); OpLineTo (x + size / ⟨2⟩) (y + height / ⟨2⟩)] ++
  (if shadow then []
   else [OpLineTo x (y - height / ⟨2⟩); OpLineTo (x - size / ⟨2⟩) (y + height / ⟨2⟩)]).

Definition cross : symbol num := λ x y radius shadow,
  let size := radius * math_sqrt math_pi / ⟨2⟩ in
  [OpMoveTo (x - size) (y - size); OpLineTo (x + size) (y + size);
   OpMoveTo (x - size) (y + size); OpLineTo (x + size) (y - size)].

(** The symbols that the plugin puts in place of their names. *)
Definition symbol_handlers : list (string * symbol num) :=
  [("square", square); ("diamond", diamond); ("triangle", triangle); ("cross", cross)].
End symbols.

(** ** Points *)

Section marks.
Context {num : Type} `{Num num} `{NumText num} `{MathLib num}.
Implicit Types (axisx axisy : axis num) (points : list (jsv num)) (s : series num).
Local Open Scope num_scope.

(** The symbols loaded: those of the plugin, or none. *)
Variable handlers : list (string * symbol num).

(** The path of a symbol; calling a name that stands for no function throws. *)
Definition draw_symbol (name : string) (x y radius : num) (shadow : bool)
    : result (list (canvas_op num)) :=
  if String.eqb name "circle" then
    Ok [OpArc x y radius ⟨0⟩ (if shadow then math_pi else math_pi * ⟨2⟩) false]
  else match assoc name handlers with
  | Some f => Ok (f x y radius shadow)
  | None => Throw "TypeError: symbol is not a function"
  end.

(** Whether a point is drawn. *)
Definition point_visible axisx axisy (x y : jsv num) : bool :=
  negb (is_null x || (to_num x <? ax_min axisx) || (to_num x >? ax_max axisx)
        || (to_num y <? ax_min axisy) || (to_num y >? ax_max axisy)).

Definition plot_point (radius : num) (fillStyle : option (paint num)) (offset : num) (shadow : bool)
    axisx axisy (name : string) (x y : jsv num) : result (list (canvas_op num)) :=
  if negb (point_visible axisx axisy x y) then Ok []
  else
    path ← draw_symbol name (p2c axisx (to_num x)) (p2c axisy (to_num y) + offset) radius shadow;
    Ok ([OpBeginPath] ++ path ++ [OpClosePath] ++
        match fillStyle with Some f => [OpFillStyle f; OpFill] | None => [] end ++ [OpStroke]).

(** [for (i = 0; i < points.length; i += ps)], collecting operations. *)
Fixpoint collect (f : nat → result (list (canvas_op num))) (idx : list nat)
    : result (list (canvas_op num)) :=
  match idx with
  | [] => Ok []
  | i :: idx => ops ← f i; rest ← collect f idx; Ok (ops ++ rest)
  end.

Definition plotPoints points (ps : nat) (radius : num) (fillStyle : option (paint num)) (offset : num)
    (shadow : bool) axisx axisy (name : string) : result (list (canvas_op num)) :=
  collect (λ i, plot_point radius fillStyle offset shadow axisx axisy name
                  (aget points (Z.of_nat i)) (aget points (Z.of_nat i + 1)))
    (group_indices ps (length points)).

Definition drawSeriesPoints (g : geometry num) s axisx axisy : result (list (canvas_op num)) :=
  let o := s_points s in
  let lw := points_lineWidth o in
  let sw := s_shadowSize s in
  let marks fillStyle offset shadow :=
    plotPoints (dp_points (s_datapoints s)) (pointsize s) (points_radius o) fillStyle offset shadow
      axisx axisy (points_symbol o) in
  shadows ←
    (if (lw >? ⟨0⟩) && (sw >? ⟨0⟩) then
       let w := sw / ⟨2⟩ in
       far ← marks None (w + w / ⟨2⟩) true;
       near ← marks None (w / ⟨2⟩) true;
       Ok ([OpLineWidth w; OpStrokeStyle (PaintText "rgba(0,0,0,0.1)")] ++ far ++
           [OpStrokeStyle (PaintText "rgba(0,0,0,0.2)")] ++ near)
     else Ok []);
  (* the fill style is asked for without a bottom and a top *)
  main ← marks (getFillStyle (points_fill o) (points_fillColor o) (s_color s) nnan nnan) ⟨0⟩ false;
  Ok (in_plot_area g (shadows ++ [OpLineWidth lw; OpStrokeStyle (PaintText (s_color s))] ++ main)).

(** ** Bars *)

(** The sides of a bar, and which of its edges are drawn. *)
Record bar := Bar {
  bar_left : num; bar_right : num; bar_bottom : num; bar_top : num;
  drawLeft : bool; drawRight : bool; drawTop : bool; drawBottom : bool;
}.

Definition bar_of (x y b barLeft barRight : num) (horizontal : bool) : bar :=
  if horizontal then
    let top := y + barLeft in
    let bottom := y + barRight in
    if x <? b then Bar x b bottom top true false true true
    else Bar b x bottom top false true true true
  else
    let left := x + barLeft in
    let right := x + barRight in
    if y <? b then Bar left right y b true true false true
    else Bar left right b y true true true false.

(** The part of a bar in the ranges of the axes. *)
Definition clip_bar axisx axisy (r : bar) : option bar :=
  let '(Bar xl xr yb yt dl dr dt db) := r in
  if (xr <? ax_min axisx) || (xl >? ax_max axisx)
     || (yt <? ax_min axisy) || (yb >? ax_max axisy) then None
  else
    let '(xl, dl) := if xl <? ax_min axisx then (ax_min axisx, false) else (xl, dl) in
    let '(xr, dr) := if xr >? ax_max axisx then (ax_max axisx, false) else (xr, dr) in
    let '(yb, db) := if yb <? ax_min axisy then (ax_min axisy, false) else (yb, db) in
    let '(yt, dt) := if yt >? ax_max axisy then (ax_max axisy, false) else (yt, dt) in
    Some (Bar xl xr yb yt dl dr dt db).

(** [c.lineTo] when the edge is drawn, [c.moveTo] otherwise. *)
Definition edge (draw : bool) (x y : num) : canvas_op num :=
  if draw then OpLineTo x y else OpMoveTo x y.

(** The operations for a clipped bar, in canvas coordinates. *)
Definition bar_ops (r : bar) (offset : num) (fillStyleCallback : option (num → num → option (paint num)))
    (lineWidth : num) : list (canvas_op num) :=
  let '(Bar xl xr yb yt dl dr dt db) := r in
  match fillStyleCallback with
  | Some f =>
      [OpBeginPath; OpMoveTo xl yb; OpLineTo xl yt; OpLineTo xr yt;
       OpLineTo xr yb] ++
      match f yb yt with Some p => [OpFillStyle p] | None => [] end ++ [OpFill]
  | None => []
  end ++
  (if (lineWidth >? ⟨0⟩) && (dl || dr || dt || db) then
     [OpBeginPath; OpMoveTo xl (yb + offset); edge dl xl (yt + offset);
      edge dt xr (yt + offset); edge dr xr (yb + offset);
      edge db xl (yb + offset); OpStroke]
   else []).

Definition bar_to_canvas axisx axisy (r : bar) : bar :=
  let '(Bar xl xr yb yt dl dr dt db) := r in
  Bar (p2c axisx xl) (p2c axisx xr) (p2c axisy yb) (p2c axisy yt) dl dr dt db.

Definition drawBar (x y b barLeft barRight offset : num)
    (fillStyleCallback : option (num → num → option (paint num))) axisx axisy (horizontal : bool)
    (lineWidth : num) : list (canvas_op num) :=
  match clip_bar axisx axisy (bar_of x y b barLeft barRight horizontal) with
  | Some r => bar_ops (bar_to_canvas axisx axisy r) offset fillStyleCallback lineWidth
  | None => []
  end.

(** Where the bars of a series start, relative to their points. *)
Definition bar_offset (o : bars_options num) : num :=
  if String.eqb (bars_align o) "left" then ⟨0⟩ else - bars_barWidth o / ⟨2⟩.

Definition plotBars points (ps : nat) (barLeft barRight offset : num)
    (fillStyleCallback : option (num → num → option (paint num))) axisx axisy (o : bars_options num)
    : list (canvas_op num) :=
  concat (map (λ i,
    let at_ k := aget points (Z.of_nat i + k) in
    if is_null (at_ 0%Z) then []
    else drawBar (to_num (at_ 0%Z)) (to_num (at_ 1%Z)) (to_num (at_ 2%Z)) barLeft barRight offset
           fillStyleCallback axisx axisy (bars_horizontal o) (bars_lineWidth o))
    (group_indices ps (length points))).

Definition drawSeriesBars (g : geometry num) s axisx axisy : list (canvas_op num) :=
  let o := s_bars s in
  let barLeft := bar_offset o in
  let fillStyleCallback :=
    if fills (bars_fill o)
    then Some (λ bottom top, getFillStyle (bars_fill o) (bars_fillColor o) (s_color s) bottom top)
    else None in
  in_plot_area g
    ([OpLineWidth (bars_lineWidth o); OpStrokeStyle (PaintText (s_color s))] ++
     plotBars (dp_points (s_datapoints s)) (pointsize s) barLeft (barLeft + bars_barWidth o) ⟨0⟩
       fillStyleCallback axisx axisy o).

(** ** A series *)

Definition drawSeries (g : geometry num) s axisx axisy : result (list (canvas_op num)) :=
  lines ← (if lines_show (s_lines s) then drawSeriesLines g s axisx axisy else Ok []);
  let bars := if bars_show (s_bars s) then drawSeriesBars g s axisx axisy else [] in
  points ← (if points_show (s_points s) then drawSeriesPoints g s axisx axisy else Ok []);
  Ok (lines ++ bars ++ points).
End marks.
Arguments bar _ : clear implicits.
Arguments Bar {num} _ _ _ _ _ _ _ _. Arguments bar_left {num} _. Arguments bar_right {num} _.
Arguments bar_bottom {num} _. Arguments bar_top {num} _. Arguments drawLeft {num} _.
Arguments drawRight {num} _. Arguments drawTop {num} _. Arguments drawBottom {num} _.
