(* ===== verification/FlotMarkSpec.v ===== *)
(** What the drawing of series does: the context is left as it was found,
    points are drawn where they are visible, and bars are cut to the box of
    the axes, except for horizontal bars. *)

From S2P Require Import Prelude Numbers ExactNum JsText JsValue Color FlotModel FlotData FlotAxis Canvas FlotStyle FlotLines FlotLineSpec FlotMarks.
From stdpp Require Import sets.
From Stdlib Require Import QArith Lqa.

#[local] Open Scope nat_scope.

(** ** The context is left as it was found *)

Section tame.
Context {num : Type} `{Num num} `{NumText num} `{MathLib num}.
Implicit Types (axisx axisy : axis num) (points : list (jsv num)).

Lemma in_plot_area_balanced (g : geometry num) ops : tame_all ops → balanced (in_plot_area g ops).
Proof. intros Ht. by apply balanced_saved. Qed.

Lemma plotLine_tame points ps dx dy axisx axisy : tame_all (plotLine points ps dx dy axisx axisy).
Proof.
  unfold plotLine. apply tame_all_app; [|done].
  assert (G : ∀ idx st, tame_all st.2 →
    tame_all (foldl (line_step points ps dx dy axisx axisy) st idx).2).
  { induction idx as [|i idx IH]; intros st Hst; [done|]. simpl. apply IH.
    unfold line_step. destruct (segment_between _ _ _ _ ≫= _) as [s|]; [|done].
    destruct st as [prev ops], s. apply tame_all_app; [done|]. by case_match. }
  by apply G.
Qed.

Lemma area_turn_tame axisx axisy points st :
  tame_all (a_ops st) → tame_all (a_ops (area_turn axisx axisy points st)).
Proof.
  intros Hst. destruct st as [i ps ypos ss se open ops]. simpl in *.
  case_match; [done|]. case_match; [by apply tame_all_app|].
  destruct (segment_between _ _ _ _ ≫= _) as [s|]; [|done]. simpl.
  apply tame_all_app; [done|]. apply tame_all_app; [by destruct open|].
  unfold tame_all. induction (area_vertices axisy s); done.
Qed.

Lemma plotLineArea_tame points ps axisx axisy ops :
  plotLineArea points ps axisx axisy = Ok ops → tame_all ops.
Proof.
  unfold plotLineArea. generalize (area_fuel (length points) ps) as fuel. intros fuel.
  assert (G : ∀ st st', tame_all (a_ops st) → area_loop fuel axisx axisy points st = Ok st' →
    tame_all (a_ops st')).
  { induction fuel as [|fuel IH]; intros st st' Hst; simpl; [done|].
    case_match; [by intros [= <-]|]. apply IH. by apply area_turn_tame. }
  intros (st & Hst & [= <-])%result_bind_ok. refine (G _ _ _ Hst). done.
Qed.

Lemma drawSeriesLines_balanced g s axisx axisy ops :
  drawSeriesLines g s axisx axisy = Ok ops → balanced ops.
Proof.
  intros (area & Harea & [= <-])%result_bind_ok. apply in_plot_area_balanced.
  tames; try apply plotLine_tame.
  destruct (getFillStyle _ _ _ _ _); [|by injection Harea as <-].
  apply result_bind_ok in Harea as (ops & Ho & [= <-]). apply plotLineArea_tame in Ho. by tames.
Qed.

Variable handlers : list (string * symbol num).
Hypothesis Hhandlers : ∀ name f x y r sh, Color.assoc name handlers = Some f → tame_all (f x y r sh).

Lemma collect_tame (f : nat → result (list (canvas_op num))) idx ops : (∀ i ops, f i = Ok ops → tame_all ops) → collect f idx = Ok ops → tame_all ops.
Proof.
  intros Hf. revert ops. induction idx as [|i idx IH]; intros ops; simpl; [by intros [= <-]|].
  intros (o & Ho & (rest & Hr & [= <-])%result_bind_ok)%result_bind_ok.
  apply tame_all_app; [by eapply Hf|by apply IH].
Qed.

Lemma plotPoints_tame points ps radius fs off sh axisx axisy name ops :
  plotPoints handlers points ps radius fs off sh axisx axisy name = Ok ops → tame_all ops.
Proof.
  apply collect_tame. intros i o. unfold plot_point. case_match; [by intros [= <-]|].
  intros (path & Hp & [= <-])%result_bind_ok.
  tames; [|by destruct fs]. revert Hp. unfold draw_symbol. case_match; [by intros [= <-]|].
  destruct (Color.assoc name handlers) as [f|] eqn:Ef; [|done]. intros [= <-]. by eapply Hhandlers.
Qed.

Lemma drawSeriesPoints_balanced g s axisx axisy ops :
  drawSeriesPoints handlers g s axisx axisy = Ok ops → balanced ops.
Proof.
  unfold drawSeriesPoints.
  intros (shadows & Hs & (main & Hm%plotPoints_tame & [= <-])%result_bind_ok)%result_bind_ok.
  apply in_plot_area_balanced.
  tames. destruct (nltb _ _ && nltb _ _); [|by injection Hs as <-].
  apply result_bind_ok in Hs as (far & Hf%plotPoints_tame & Hs).
  apply result_bind_ok in Hs as (near & Hn%plotPoints_tame & [= <-]). by tames.
Qed.

Lemma drawBar_tame x y b bl br off f axisx axisy hz lw :
  tame_all (drawBar x y b bl br off f axisx axisy hz lw).
Proof.
  unfold drawBar. destruct (clip_bar _ _ _) as [[xl xr yb yt dl dr dt db]|]; [|done].
  unfold bar_ops, bar_to_canvas. apply tame_all_app.
  - destruct f as [f|]; [|done]. by destruct (f _ _).
  - case_match; [|done]. by destruct dl, dr, dt, db.
Qed.

Lemma drawSeriesBars_balanced g s axisx axisy : balanced (drawSeriesBars g s axisx axisy).
Proof.
  apply in_plot_area_balanced.
  tames. apply tame_concat. apply Forall_fmap, Forall_true. intros i.
  simpl. case_match; [done|]. apply drawBar_tame.
Qed.
End tame.

(** Drawing a series leaves the context as it was found. *)
Lemma drawSeries_keeps {num} `{Num num} `{NumText num} `{MathLib num}
    (handlers : list (string * symbol num)) g s axisx axisy ops :
  (∀ name f x y r sh, Color.assoc name handlers = Some f → forallb tame (f x y r sh) = true) →
  drawSeries handlers g s axisx axisy = Ok ops → balanced ops.
Proof.
  intros Hh. unfold drawSeries.
  intros (lines & Hl & (points & Hp & [= <-])%result_bind_ok)%result_bind_ok.
  apply balanced_app; [|apply balanced_app].
  - destruct (lines_show (s_lines s)); [by apply drawSeriesLines_balanced in Hl|]. injection Hl as <-. apply balanced_nil.
  - destruct (bars_show (s_bars s)); [apply drawSeriesBars_balanced|apply balanced_nil].
  - destruct (points_show (s_points s)); [by eapply drawSeriesPoints_balanced|]. injection Hp as <-. apply balanced_nil.
Qed.

(** ** Points are drawn where they are visible *)

Local Open Scope Q_scope.

(** The centers of the arcs. *)
Definition centers (ops : list (canvas_op xq)) : list (xq * xq) :=
  omap (λ op, match op with OpArc x y _ _ _ _ => Some (x, y) | _ => None end) ops.

Definition in_boxb (b : box) (p : Q * Q) : bool :=
  Qle_bool (xlo b) p.1 && Qle_bool p.1 (xhi b) && (Qle_bool (ylo b) p.2 && Qle_bool p.2 (yhi b)).

Lemma in_boxb_spec b p : in_boxb b p = true ↔ in_box b p.
Proof. unfold in_boxb, in_box. rewrite !andb_true_iff, !Qle_bool_iff. done. Qed.

Lemma ltb_Qle a b : nltb (XFin a) (XFin b) = negb (Qle_bool b a).
Proof.
  destruct (Qle_bool b a) eqn:E; simpl.
  - apply Qle_bool_iff in E. by apply Exact.ltb_fin_false.
  - apply Exact.ltb_fin. apply Qnot_le_lt. intros L%Qle_bool_iff. congruence.
Qed.

Section points.
Context `{NumText xq} `{MathLib xq}.
Variable handlers : list (string * symbol xq).
Variables (axisx axisy : axis xq) (b : box) (f : mapping).
Hypothesis Hb : ranges b axisx axisy.
Hypothesis Hx : linear_view axisx (mx f) (kx f).
Hypothesis Hy : linear_view axisy (my f) (ky f).

Lemma plot_point_center radius fs sh x y :
  ∃ ops, plot_point handlers radius fs (XFin (dy f)) sh axisx axisy "circle"
           (Number (XFin x)) (Number (XFin y)) = Ok ops ∧
    centers ops = if in_boxb b (x, y)
                  then [(XFin ((x - mx f) * kx f), XFin (image f (x, y)).2)] else [].
Proof.
  destruct Hb as (Bx & BX & By & BY). unfold plot_point, point_visible.
  rewrite Bx, BX, By, BY. cbn [is_null to_num orb]. rewrite !ltb_Qle.
  unfold in_boxb. cbn [fst snd].
  destruct (Qle_bool (xlo b) x), (Qle_bool x (xhi b)), (Qle_bool (ylo b) y), (Qle_bool y (yhi b));
    cbn [negb orb andb]; try (by exists []).
  rewrite (p2c_linear _ _ _ x Hx), (p2c_linear _ _ _ y Hy).
  eexists. split; [done|]. unfold centers. destruct fs; done.
Qed.

Lemma collect_points radius fs sh (pts : nat → jsv xq * jsv xq) P idx :
  Forall2 (λ i o, match o with
                  | Some p => pts i = (Number (XFin p.1), Number (XFin p.2))
                  | None => is_null (pts i).1 = true
                  end) idx P →
  ∃ ops, collect (λ i, plot_point handlers radius fs (XFin (dy f)) sh axisx axisy "circle"
                         (pts i).1 (pts i).2) idx = Ok ops ∧
    centers ops = map (λ p, (XFin ((p.1 - mx f) * kx f), XFin (image f p).2))
                    (List.filter (in_boxb b) (omap id P)).
Proof.
  induction 1 as [|i o idx P Hi _ (ops & E & IH)]; [by exists []|]. cbn [collect].
  rewrite E. destruct o as [[x y]|].
  - destruct (plot_point_center radius fs sh x y) as (ops1 & E1 & C1).
    rewrite Hi. cbn [fst snd]. rewrite E1. eexists. split; [done|].
    unfold centers in *. rewrite omap_app, C1, IH. csimpl. by destruct (in_boxb b (x, y)).
  - unfold plot_point, point_visible. rewrite Hi. by exists ops.
Qed.
End points.

(** The points of a series, drawn with the default symbol, are exactly the
    points that lie in the ranges of the axes, each once and in their order,
    at their place on the canvas. *)
Theorem plotPoints_visible `{NumText xq} `{MathLib xq} handlers ps gs P axisx axisy b f radius fs sh :
  (2 ≤ ps)%nat → Forall2 (group_of ps) gs P → ranges b axisx axisy →
  linear_view axisx (mx f) (kx f) → linear_view axisy (my f) (ky f) →
  ∃ ops, plotPoints handlers (concat gs) ps radius fs (XFin (dy f)) sh axisx axisy "circle" = Ok ops ∧
    centers ops = map (λ p, (XFin ((p.1 - mx f) * kx f), XFin (image f p).2))
                    (List.filter (in_boxb b) (omap id P)).
Proof.
  intros Hps Hgs Hb Hx Hy. unfold plotPoints.
  apply (collect_points handlers axisx axisy b f Hb Hx Hy radius fs sh
    (λ i, (aget (concat gs) (Z.of_nat i), aget (concat gs) (Z.of_nat i + 1)))).
  rewrite (group_indices_concat ps gs); [|lia|].
  2: { apply Forall_lookup. intros i g' Hi. destruct (Forall2_lookup_l _ _ _ _ _ Hgs Hi) as (? & _ & E & _). done. }
  pose proof (Forall2_length _ _ _ Hgs) as EL. rewrite EL.
  apply Forall2_fmap_l. apply Forall2_same_length_lookup. split; [by rewrite length_seq|].
  intros k i o Hk Ho. apply lookup_seq in Hk as [-> Hk]. simpl.
  pose proof (group_lookup ps gs P k Hps Hgs Hk) as G. rewrite Ho in G. simpl in G.
  destruct o as [p|]; [by destruct G as [-> ->]|done].
Qed.

(** ** Bars are cut to the box *)

(** The rectangle of a vertical bar from [bl] to [br] around [x], between its
    value [y] and its base [base]. *)
Definition vertical_bar (x y base bl br : Q) (p : Q * Q) : Prop :=
  x + bl <= p.1 <= x + br ∧ (base <= p.2 <= y ∨ y <= p.2 <= base).

(** The edges that are drawn: those in the box, except the base. *)
Definition edges_of (b : box) (x y base bl br : Q) (r : bar xq) : Prop :=
  drawLeft r = Qle_bool (xlo b) (x + bl) ∧ drawRight r = Qle_bool (x + br) (xhi b) ∧
  if nltb (XFin y) (XFin base) then drawTop r = false ∧ drawBottom r = Qle_bool (ylo b) y
  else drawTop r = Qle_bool y (yhi b) ∧ drawBottom r = false.

Section bars.
Variables (axisx axisy : axis xq) (b : box).
Hypothesis Hb : ranges b axisx axisy.
Hypothesis Hxle : xlo b <= xhi b.
Hypothesis Hyle : ylo b <= yhi b.

Definition qmax (a c : Q) : Q := if Qle_bool a c then c else a.
Definition qmin (a c : Q) : Q := if Qle_bool a c then a else c.

Lemma qmax_spec a c q : qmax a c <= q ↔ a <= q ∧ c <= q.
Proof.
  unfold qmax. destruct (Qle_bool a c) eqn:E.
  - apply Qle_bool_iff in E. split; [intros; split|]; lra.
  - assert (¬ a <= c) by (intros F%Qle_bool_iff; congruence). split; [intros; split|]; lra.
Qed.
Lemma qmin_spec a c q : q <= qmin a c ↔ q <= a ∧ q <= c.
Proof.
  unfold qmin. destruct (Qle_bool a c) eqn:E.
  - apply Qle_bool_iff in E. split; [intros; split|]; lra.
  - assert (¬ a <= c) by (intros F%Qle_bool_iff; congruence). split; [intros; split|]; lra.
Qed.

(** Clipping a rectangle intersects it with the box. *)
Lemma clip_bar_spec l r lo hi dl dr dt db :
  clip_bar axisx axisy (Bar (XFin l) (XFin r) (XFin lo) (XFin hi) dl dr dt db)
  = if Qle_bool (xlo b) r && Qle_bool l (xhi b) && Qle_bool (ylo b) hi && Qle_bool lo (yhi b)
    then Some (Bar (XFin (qmax (xlo b) l)) (XFin (qmin r (xhi b)))
                 (XFin (qmax (ylo b) lo)) (XFin (qmin hi (yhi b)))
                 (Qle_bool (xlo b) l && dl) (Qle_bool r (xhi b) && dr)
                 (Qle_bool hi (yhi b) && dt) (Qle_bool (ylo b) lo && db))
    else None.
Proof.
  destruct Hb as (Ex & EX & Ey & EY). unfold clip_bar. rewrite Ex, EX, Ey, EY, !ltb_Qle.
  unfold qmax, qmin.
  destruct (Qle_bool (xlo b) r), (Qle_bool l (xhi b)), (Qle_bool (ylo b) hi), (Qle_bool lo (yhi b)),
    (Qle_bool (xlo b) l), (Qle_bool r (xhi b)), (Qle_bool hi (yhi b)), (Qle_bool (ylo b) lo);
    reflexivity.
Qed.

Definition rectangle (l r lo hi : Q) (p : Q * Q) : Prop := l <= p.1 <= r ∧ lo <= p.2 <= hi.

Lemma clip_rectangle l r lo hi p :
  rectangle l r lo hi p ∧ in_box b p ↔
  rectangle (qmax (xlo b) l) (qmin r (xhi b)) (qmax (ylo b) lo) (qmin hi (yhi b)) p.
Proof. unfold rectangle, in_box. rewrite !qmax_spec, !qmin_spec. tauto. Qed.

Lemma clip_empty l r lo hi p :
  Qle_bool (xlo b) r && Qle_bool l (xhi b) && Qle_bool (ylo b) hi && Qle_bool lo (yhi b) = false →
  rectangle l r lo hi p → ¬ in_box b p.
Proof.
  intros E [[A1 A2] [A3 A4]] [[B1 B2] [B3 B4]]. revert E. apply not_false_iff_true.
  rewrite !andb_true_iff, !Qle_bool_iff. repeat split; lra.
Qed.
End bars.

(** A vertical bar is drawn exactly where it lies in the box of the axis
    ranges: either none of it is visible and nothing is drawn, or the drawn
    rectangle is the intersection of the bar with the box; the outline has
    the sides and the end of the bar when they are in the box, never its
    base nor an edge made by clipping. *)
Theorem drawBar_vertical `{NumText xq} axisx axisy b x y base bl br off cb lw :
  ranges b axisx axisy →
  let ops := drawBar (XFin x) (XFin y) (XFin base) (XFin bl) (XFin br) off cb axisx axisy false lw in
  (ops = [] ∧ ∀ p, vertical_bar x y base bl br p → ¬ in_box b p) ∨
  ∃ l r lo hi dl dr dt db,
    let rect := Bar (XFin l) (XFin r) (XFin lo) (XFin hi) dl dr dt db in
    ops = bar_ops (bar_to_canvas axisx axisy rect) off cb lw ∧
    (∀ p, vertical_bar x y base bl br p ∧ in_box b p ↔ rectangle l r lo hi p) ∧
    edges_of b x y base bl br rect.
Proof.
  intros Hb. unfold drawBar, bar_of. cbn [negb].
  change (nadd (XFin x) (XFin bl)) with (XFin (x + bl)).
  change (nadd (XFin x) (XFin br)) with (XFin (x + br)).
  set (low := if nltb (XFin y) (XFin base) then y else base).
  set (high := if nltb (XFin y) (XFin base) then base else y).
  set (down := nltb (XFin y) (XFin base)).
  assert (E : (if down then Bar (XFin (x + bl)) (XFin (x + br)) (XFin y) (XFin base) true true false true
               else Bar (XFin (x + bl)) (XFin (x + br)) (XFin base) (XFin y) true true true false)
    = Bar (XFin (x + bl)) (XFin (x + br)) (XFin low) (XFin high) true true (negb down) down)
    by (unfold low, high, down; by destruct (nltb (XFin y) (XFin base))).
  rewrite E, (clip_bar_spec axisx axisy b Hb).
  assert (R : ∀ p, vertical_bar x y base bl br p ↔ rectangle (x + bl) (x + br) low high p).
  { intros p. unfold vertical_bar, rectangle, low, high.
    destruct (nltb (XFin y) (XFin base)) eqn:C; xq_hyps; (split; intros [A B]; (split; [done|])); [|tauto| |tauto];
      destruct B; split; lra. }
  destruct (_ && _ && _ && _) eqn:C.
  - right. eexists _, _, _, _, _, _, _, _. split; [done|]. split.
    + intros p. rewrite R. apply clip_rectangle.
    + unfold edges_of. cbn [drawLeft drawRight drawTop drawBottom]. fold down. rewrite !andb_true_r.
      split; [done|]. split; [done|]. unfold low, high. fold down.
      destruct down; cbn [negb]; by rewrite ?andb_true_r, ?andb_false_r.
  - left. split; [done|]. intros p Hp%R. by eapply clip_empty.
Qed.

(** A horizontal bar is not drawn at all as soon as its thickness leaves
    the range of the y axis, even when most of it is visible: [drawBar] takes
    its lower side for the top, so the test for bars outside of the range
    rejects bars that cross a bound. *)
Theorem drawBar_horizontal_vanishes `{NumText xq} axisx axisy b x y base bl br off cb lw :
  ranges b axisx axisy → y + bl < ylo b ∨ yhi b < y + br →
  drawBar (XFin x) (XFin y) (XFin base) (XFin bl) (XFin br) off cb axisx axisy true lw = [].
Proof.
  intros Hb Hout. unfold drawBar, bar_of. cbn [negb].
  change (nadd (XFin y) (XFin bl)) with (XFin (y + bl)).
  change (nadd (XFin y) (XFin br)) with (XFin (y + br)).
  assert (O : Qle_bool (ylo b) (y + bl) && Qle_bool (y + br) (yhi b) = false).
  { apply not_true_iff_false. rewrite andb_true_iff, !Qle_bool_iff. lra. }
  destruct (nltb _ _); rewrite (clip_bar_spec axisx axisy b Hb), <- andb_assoc, O, andb_false_r; done.
Qed.

(** ** Samples *)

Lemma symbol_handlers_tame `{MathLib xq} name f x y r sh :
  Color.assoc name symbol_handlers = Some f → forallb tame (f x y r sh) = true.
Proof.
  unfold symbol_handlers. simpl. repeat (case_match; [intros [= <-]; by destruct sh|]). done.
Qed.

Definition sample_geometry : geometry xq :=
  let n q := XFin q in Geometry (n 500) (n 300) (n 40) (n 10) (n 10) (n 30) (n 450) (n 260).

(** A series of lines, bars and square points over the sample groups. *)
Definition marked_series : series xq :=
  let s := default_series [] in
  let o := default_points in
  Series (s_id s) None "#edc240" (Lines true (of_Z 2) FillOn None false)
    (Points true (of_Z 3) (of_Z 2) FillOn None "square")
    (Bars true (of_Z 2) (of_Z 1) FillOn None "center" false) (of_Z 3) (s_plugin s) []
    (Datapoints (concat sample_groups) (Some 3%nat) None) 1 1 true true None.

Lemma plotPoints_visible_witness :
  let _ := Exact.exact_text in let _ := Exact.exact_math in
  ∃ ops, plotPoints [] (concat sample_groups) 3 (XFin 3) None (XFin 0) false
           (sample_view DirX 0 10 0 40) (sample_view DirY 0 20 20 (-(10))) "circle" = Ok ops ∧
    centers ops = map (λ p, (XFin ((p.1 - 0) * 40), XFin (image sample_map p).2))
      (List.filter (in_boxb sample_box) (omap id [Some (-(5), 1); Some (5, 30); None; Some (3, 3)])).
Proof.
  apply (@plotPoints_visible Exact.exact_text Exact.exact_math [] 3 sample_groups
    [Some (-(5), 1); Some (5, 30); None; Some (3, 3)] (sample_view DirX 0 10 0 40)
    (sample_view DirY 0 20 20 (-(10))) sample_box sample_map); try (by repeat constructor).
Defined.

Lemma drawBar_vertical_witness :
  let _ := Exact.exact_text in
  let ops := drawBar (XFin 4) (XFin 30) (XFin 0) (XFin 0) (XFin 1) (XFin 0) None
    (sample_view DirX 0 10 0 40) (sample_view DirY 0 20 20 (-(10))) false (XFin 2) in
  (ops = [] ∧ ∀ p, vertical_bar 4 30 0 0 1 p → ¬ in_box sample_box p) ∨
  ∃ l r lo hi dl dr dt db,
    let rect := Bar (XFin l) (XFin r) (XFin lo) (XFin hi) dl dr dt db in
    ops = bar_ops (bar_to_canvas (sample_view DirX 0 10 0 40) (sample_view DirY 0 20 20 (-(10))) rect)
            (XFin 0) None (XFin 2) ∧
    (∀ p, vertical_bar 4 30 0 0 1 p ∧ in_box sample_box p ↔ rectangle l r lo hi p) ∧
    edges_of sample_box 4 30 0 0 1 rect.
Proof. apply (@drawBar_vertical Exact.exact_text). by repeat constructor. Defined.

(** The bar covers the heights from 19 to 21, and the range ends at 20. *)
Lemma drawBar_horizontal_vanishes_witness :
  let _ := Exact.exact_text in
  in_box sample_box (3, 19) ∧
  drawBar (XFin 5) (XFin 20) (XFin 0) (XFin (-(1))) (XFin 1) (XFin 0) None
    (sample_view DirX 0 10 0 40) (sample_view DirY 0 20 20 (-(10))) true (XFin 2) = [].
Proof.
  split; [repeat split; discriminate|].
  apply (@drawBar_horizontal_vanishes Exact.exact_text _ _ sample_box 5 20 0 (-(1)) 1).
  - by repeat constructor.
  - right. reflexivity.
Defined.
