(* ===== verification/FlotLayout.v ===== *)
(** Layout in [static/flot/jquery.flot.js]: [measureTickLabels],
    [allocateAxisBoxFirstPhase], [allocateAxisBoxSecondPhase] and the part of
    [setupGrid] that computes ranges, ticks, boxes and the plot area. *)

From S2P Require Import Prelude Numbers JsText JsValue Color FlotModel FlotAxis FlotTicks.

(** The ranges to mark on the grid: bounds by key ([xaxis], [x2axis], ... with
    [from] and [to], or the older [x1], [x2], [y1], [y2]). *)
Record marking (num : Type) := Marking {
  m_ranges : list (string * (jsv num * jsv num));
  m_bounds : list (string * jsv num);
  m_color : option string; m_lineWidth : option num;
}.
Arguments Marking {num} _ _ _ _. Arguments m_ranges {num} _. Arguments m_bounds {num} _.
Arguments m_color {num} _. Arguments m_lineWidth {num} _.

Record grid_options (num : Type) := GridOptions {
  gr_show : bool; gr_aboveData : bool; gr_color : string;
  gr_backgroundColor : option (color_spec num); gr_borderColor : string;
  gr_labelMargin : num; gr_axisMargin : num; gr_borderWidth : num;
  gr_minBorderMargin : option num;
  gr_markings : axes num → axes num → list (marking num);   (* the array, or its function *)
  gr_markingsColor : string; gr_markingsLineWidth : num;
  gr_clickable : bool; gr_hoverable : bool; gr_autoHighlight : bool; gr_mouseActiveRadius : num;
}.
Arguments GridOptions {num}. Arguments gr_show {num} _. Arguments gr_aboveData {num} _.
Arguments gr_color {num} _. Arguments gr_backgroundColor {num} _. Arguments gr_borderColor {num} _.
Arguments gr_labelMargin {num} _. Arguments gr_axisMargin {num} _. Arguments gr_borderWidth {num} _.
Arguments gr_minBorderMargin {num} _. Arguments gr_markings {num} _. Arguments gr_markingsColor {num} _.
Arguments gr_markingsLineWidth {num} _. Arguments gr_clickable {num} _. Arguments gr_hoverable {num} _.
Arguments gr_autoHighlight {num} _. Arguments gr_mouseActiveRadius {num} _.

(** What the page measures: the height of a hidden element with the given
    content, and the width of its children and height of its first label. *)
Record page_metrics (num : Type) := PageMetrics {
  div_height : string → num; children_width : string → num; label_height : string → num;
}.
Arguments PageMetrics {num} _ _ _. Arguments div_height {num} _ _. Arguments children_width {num} _ _.
Arguments label_height {num} _ _.

Section layout.
Context {num : Type} `{Num num} `{NumText num} `{MathLib num}.
Implicit Types (ax : axis num) (axs : axes num) (p : plot num) (g : geometry num) (b : axis_box num).
Local Open Scope num_scope.

Variable grid : grid_options num.
Variable page : page_metrics num.

Definition default_grid : grid_options num :=
  GridOptions true false grid_color None grid_color ⟨5⟩ ⟨8⟩ ⟨2⟩ None (λ _ _, []) "#f4f4f4" ⟨2⟩
    false false true ⟨10⟩.

(** *** Tick labels *)

Definition dq : string := String (Ascii.ascii_of_nat 34) "".
(** [name="value"] *)
Definition attr (name value : string) : string := name +:+ "=" +:+ dq +:+ value +:+ dq.

Definition dir_name (d : direction) : string := match d with DirX => "x" | DirY => "y" end.
(** The class of the labels of an axis. *)
Definition axis_class ax : string :=
  let d := dir_name (ax_direction ax) in
  d +:+ "Axis " +:+ d +:+ dec_nat (Z.of_nat (ax_n ax)) +:+ "Axis".

Definition makeDummyDiv ax (labels : list string) (width : string) : string :=
  "<div " +:+ attr "style" ("position:absolute;top:-10000px;" +:+ width +:+ "font-size:smaller") +:+ ">" +:+
  "<div " +:+ attr "class" (axis_class ax) +:+ ">" +:+ str_join "" labels +:+ "</div></div>".

(** The ticks that have a label. *)
Definition shown_labels ax : list string :=
  omap (λ t : num * string, if String.eqb t.2 "" then None else Some t.2) (default [] (t_ticks (ax_ticks ax))).

Definition with_label_size b (w h : num) : axis_box num :=
  AxisBox (b_show b) (b_reserveSpace b) w h (b_left b) (b_top b) (b_width b) (b_height b)
    (b_padding b) (b_tickLength b) (b_innermost b) (b_position b).

Definition measureTickLabels g ax : axis num :=
  let opts := ax_options ax in
  let n := length (default [] (t_ticks (ax_ticks ax))) in
  let size :=
    match ax_direction ax with
    | DirX =>
        let w := match o_labelWidth opts with
                 | Some w => w
                 | None => nfloor (canvasWidth g / (if (0 <? n)%nat then of_Z (Z.of_nat n) else ⟨1⟩))
                 end in
        let h := match o_labelHeight opts with
                 | Some h => Some h
                 | None =>
                     let labels := map (λ l, "<div " +:+ attr "class" "tickLabel" +:+ " " +:+
                       attr "style" ("float:left;width:" +:+ to_string w +:+ "px") +:+ ">" +:+ l +:+ "</div>")
                       (shown_labels ax) in
                     match labels with
                     | [] => None
                     | _ => Some (div_height page (makeDummyDiv ax
                              (labels ++ ["<div " +:+ attr "style" "clear:left" +:+ "></div>"]) "width:10000px;"))
                     end
                 end in
        (Some w, h)
    | DirY =>
        match o_labelWidth opts, o_labelHeight opts with
        | Some w, Some h => (Some w, Some h)
        | w, h =>
            let labels := map (λ l, "<div " +:+ attr "class" "tickLabel" +:+ ">" +:+ l +:+ "</div>")
                            (shown_labels ax) in
            match labels with
            | [] => (w, h)
            | _ =>
                let div := makeDummyDiv ax labels "" in
                (Some (default (children_width page div) w), Some (default (label_height page div) h))
            end
        end
    end in
  with_box ax (with_label_size (ax_box ax) (default ⟨0⟩ size.1) (default ⟨0⟩ size.2)).

(** *** Axis boxes *)

Definition reserved ax : bool := b_reserveSpace (ax_box ax).

(** The indices of the axes of an array that satisfy a test. *)
Definition indices_of (f : axis num → bool) axs : list nat :=
  omap (λ e : nat * option (axis num), match e.2 with Some a => if f a then Some e.1 else None | None => None end)
    (imap pair axs).

Definition with_offsets g (l r t b : num) : geometry num :=
  Geometry (canvasWidth g) (canvasHeight g) l r t b (plotWidth g) (plotHeight g).

Definition tick_length_or (t : option (tick_length num)) (innermost : bool) : tick_length num :=
  match default TickFull t with
  | TickFull => if innermost then TickFull else TickPixels ⟨5⟩
  | t => t
  end.

(** The axis at index [i] of the array [all] of its direction. *)
Definition allocateAxisBoxFirstPhase (all : axes num) (i : nat) ax g : axis num * geometry num :=
  let bx := ax_box ax in
  let pos := o_position (ax_options ax) in
  let samePosition := indices_of (λ a, String.eqb (o_position (ax_options a)) pos && reserved a) all in
  let axismargin := if decide (last samePosition = Some i) then ⟨0⟩ else gr_axisMargin grid in
  let innermost := bool_decide (head (indices_of reserved all) = Some i) in
  let tickLength := tick_length_or (o_tickLength (ax_options ax)) innermost in
  let padding := match tickLength with
                 | TickPixels t => if nis_nan t then gr_labelMargin grid else gr_labelMargin grid + t
                 | TickFull => gr_labelMargin grid
                 end in
  let box l t w h := AxisBox (b_show bx) (b_reserveSpace bx) (b_labelWidth bx) (b_labelHeight bx)
                       l t w h padding tickLength innermost pos in
  match ax_direction ax with
  | DirX =>
      let lh := b_labelHeight bx + padding in
      if String.eqb pos "bottom" then
        let bottom := off_bottom g + (lh + axismargin) in
        (with_box ax (box nnan (canvasHeight g - bottom) nnan lh),
         with_offsets g (off_left g) (off_right g) (off_top g) bottom)
      else
        (with_box ax (box nnan (off_top g + axismargin) nnan lh),
         with_offsets g (off_left g) (off_right g) (off_top g + (lh + axismargin)) (off_bottom g))
  | DirY =>
      let lw := b_labelWidth bx + padding in
      if String.eqb pos "left" then
        (with_box ax (box (off_left g + axismargin) nnan lw nnan),
         with_offsets g (off_left g + (lw + axismargin)) (off_right g) (off_top g) (off_bottom g))
      else
        let right := off_right g + (lw + axismargin) in
        (with_box ax (box (canvasWidth g - right) nnan lw nnan),
         with_offsets g (off_left g) right (off_top g) (off_bottom g))
  end.

Definition allocateAxisBoxSecondPhase g ax : axis num :=
  let b := ax_box ax in
  let box l t w h := AxisBox (b_show b) (b_reserveSpace b) (b_labelWidth b) (b_labelHeight b)
                       l t w h (b_padding b) (b_tickLength b) (b_innermost b) (b_position b) in
  with_box ax
    match ax_direction ax with
    | DirX => box (off_left g) (b_top b) (plotWidth g) (b_height b)
    | DirY => box (b_left b) (off_top g) (b_width b) (plotHeight g)
    end.

(** *** The whole grid *)

Definition axes_of p (d : direction) : axes num := match d with DirX => p_xaxes p | DirY => p_yaxes p end.
Definition slot : Type := direction * nat.
Definition get_slot p (s : slot) : option (axis num) := mjoin (axes_of p s.1 !! s.2).
Definition set_slot p (s : slot) ax : plot num :=
  match s.1 with
  | DirX => Plot (p_series p) (<[s.2 := Some ax]> (p_xaxes p)) (p_yaxes p)
  | DirY => Plot (p_series p) (p_xaxes p) (<[s.2 := Some ax]> (p_yaxes p))
  end.

(** The places of the axes, in the order of [allAxes]; those of [allocatedAxes]. *)
Definition all_slots p : list slot :=
  map (pair DirX) (indices_of (λ _, true) (p_xaxes p)) ++ map (pair DirY) (indices_of (λ _, true) (p_yaxes p)).
Definition allocated p : list slot :=
  map (pair DirX) (indices_of reserved (p_xaxes p)) ++ map (pair DirY) (indices_of reserved (p_yaxes p)).

(** [$.each(axes, f)]: each axis in turn, [f] seeing the changes made so far. *)
Fixpoint each_slot (f : plot num → slot → axis num → result (axis num)) (slots : list slot) p
    : result (plot num) :=
  match slots with
  | [] => Ok p
  | s :: slots =>
      match get_slot p s with
      | Some ax => ax ← f p s ax; each_slot f slots (set_slot p s ax)
      | None => each_slot f slots p
      end
  end.

Definition map_axes (f : axis num → axis num) p : plot num :=
  Plot (p_series p) (map (fmap f) (p_xaxes p)) (map (fmap f) (p_yaxes p)).

(** [axis.show], [axis.reserveSpace] and the range. *)
Definition begin_axis ax : axis num :=
  let b := ax_box ax in
  let show := match o_show (ax_options ax) with Some s => s | None => ax_used ax end in
  setRange (with_box ax
    (AxisBox show (show || o_reserveSpace (ax_options ax)) (b_labelWidth b) (b_labelHeight b) (b_left b)
       (b_top b) (b_width b) (b_height b) (b_padding b) (b_tickLength b) (b_innermost b) (b_position b))).

(** Making room for the axes, from the outside in. *)
Definition allocate_step (st : plot num * geometry num) (s : slot) : plot num * geometry num :=
  let '(p, g) := st in
  match get_slot p s with
  | Some ax =>
      let '(ax, g) := allocateAxisBoxFirstPhase (axes_of p s.1) s.2 ax g in (set_slot p s ax, g)
  | None => (p, g)
  end.

(** The margin for what may stick out. *)
Definition min_margin p : num :=
  match gr_minBorderMargin grid with
  | Some m => m
  | None =>
      foldl (λ m s, nmax m (points_radius (s_points s) + points_lineWidth (s_points s) / ⟨2⟩)) ⟨0⟩
        (p_series p)
  end.

Definition border_offsets p g : geometry num :=
  let f x := nmax (min_margin p) (x + gr_borderWidth grid) in
  with_offsets g (f (off_left g)) (f (off_right g)) (f (off_top g)) (f (off_bottom g)).

Definition plot_area g : geometry num :=
  Geometry (canvasWidth g) (canvasHeight g) (off_left g) (off_right g) (off_top g) (off_bottom g)
    (canvasWidth g - off_left g - off_right g) (canvasHeight g - off_bottom g - off_top g).

(** [setupGrid], but for the labels and the legend. *)
Definition setupGrid (fuel : nat) p g : result (plot num * geometry num) :=
  let p := map_axes begin_axis p in
  let g := with_offsets g ⟨0⟩ ⟨0⟩ ⟨0⟩ ⟨0⟩ in
  '(p, g) ←
    (if gr_show grid then
       p ← each_slot (λ p s ax,
             ax ← tick_axis fuel (canvasWidth g) (canvasHeight g) (axes_of p s.1) ax;
             Ok (measureTickLabels g ax)) (allocated p) p;
       let '(p, g) := foldl allocate_step (p, g) (reverse (allocated p)) in
       Ok (p, border_offsets p g)
     else Ok (p, g));
  let g := plot_area g in
  let p := map_axes (setTransformationHelpers (plotWidth g) (plotHeight g)) p in
  let p := if gr_show grid
           then map_axes (λ ax, if reserved ax then allocateAxisBoxSecondPhase g ax else ax) p
           else p in
  Ok (p, g).
End layout.
