(* ===== verification/FlotGrid.v ===== *)
(** The grid in [static/flot/jquery.flot.js]: [extractRange],
    [drawBackground], [drawGrid] with its markings, tick marks and border,
    [insertAxisLabels], and [draw]. *)

From S2P Require Import Prelude Numbers JsText JsValue Color FlotModel FlotAxis Canvas FlotStyle FlotLines FlotMarks FlotLayout.

Section grid.
Context {num : Type} `{Num num} `{NumText num} `{MathLib num}.
Implicit Types (ax : axis num) (p : plot num) (g : geometry num) (m : marking num).
Local Open Scope num_scope.

Variable grid : grid_options num.

(** ** Markings *)

Definition assoc_jsv (k : string) (l : list (string * jsv num)) : jsv num := default Undef (assoc k l).

(** The key under which a marking names an axis. *)
Definition range_key m ax : string :=
  let coord := dir_name (ax_direction ax) in
  let key := coord +:+ dec_nat (Z.of_nat (ax_n ax)) +:+ "axis" in
  match assoc key (m_ranges m) with
  | Some _ => key
  | None => if (ax_n ax =? 1)%nat then coord +:+ "axis" else key
  end.

(** The first axis of a direction that a marking names, with its bounds. *)
Fixpoint named_range m (axs : list (axis num)) : option (axis num * (jsv num * jsv num)) :=
  match axs with
  | [] => None
  | ax :: axs =>
      match assoc (range_key m ax) (m_ranges m) with
      | Some r => Some (ax, r)
      | None => named_range m axs
      end
  end.

(** [extractRange]: the axis, [from] and [to]; there is no axis when the
    direction has none. *)
Definition extractRange p m (coord : direction) : option (axis num) * (jsv num * jsv num) :=
  let '(ax, (from, to)) :=
    match named_range m (flat_axes (axes_of p coord)) with
    | Some (ax, r) => (Some ax, r)
    | None => (mjoin (head (axes_of p coord)),
               (assoc_jsv (dir_name coord +:+ "1") (m_bounds m), assoc_jsv (dir_name coord +:+ "2") (m_bounds m)))
    end in
  if negb (is_null from) && negb (is_null to) && js_ltb to from then (ax, (to, from)) else (ax, (from, to)).

(** A range with the missing bounds filled in, as numbers. *)
Definition fill_range ax (r : jsv num * jsv num) : num * num :=
  (if is_null r.1 then ax_min ax else to_num r.1, if is_null r.2 then ax_max ax else to_num r.2).

Definition marking_color m : string :=
  match m_color m with Some "" | None => gr_markingsColor grid | Some c => c end.
Definition marking_width m : num :=
  match m_lineWidth m with
  | Some w => if ntruthy w then w else gr_markingsLineWidth grid
  | None => gr_markingsLineWidth grid
  end.

Definition draw_marking p m : result (list (canvas_op num)) :=
  let '(xaxis, xr) := extractRange p m DirX in
  let '(yaxis, yr) := extractRange p m DirY in
  match xaxis, yaxis with
  | Some xaxis, Some yaxis =>
      let '(xfrom, xto) := fill_range xaxis xr in
      let '(yfrom, yto) := fill_range yaxis yr in
      if (xto <? ax_min xaxis) || (xfrom >? ax_max xaxis)
         || (yto <? ax_min yaxis) || (yfrom >? ax_max yaxis) then Ok []
      else
        let xfrom := nmax xfrom (ax_min xaxis) in
        let xto := nmin xto (ax_max xaxis) in
        let yfrom := nmax yfrom (ax_min yaxis) in
        let yto := nmin yto (ax_max yaxis) in
        if (xfrom =? xto) && (yfrom =? yto) then Ok []
        else
          let xfrom := p2c xaxis xfrom in
          let xto := p2c xaxis xto in
          let yfrom := p2c yaxis yfrom in
          let yto := p2c yaxis yto in
          if (xfrom =? xto) || (yfrom =? yto) then
            Ok [OpBeginPath; OpStrokeStyle (PaintText (marking_color m)); OpLineWidth (marking_width m);
                OpMoveTo xfrom yfrom; OpLineTo xto yto; OpStroke]
          else
            Ok [OpFillStyle (PaintText (marking_color m));
                OpFillRect xfrom yto (xto - xfrom) (yfrom - yto)]
  | _, _ => Throw "TypeError: axis is undefined"
  end.

Fixpoint draw_markings p (ms : list (marking num)) : result (list (canvas_op num)) :=
  match ms with
  | [] => Ok []
  | m :: ms => ops ← draw_marking p m; rest ← draw_markings p ms; Ok (ops ++ rest)
  end.

(** ** Tick marks *)

(** The position of the edge where the ticks of an axis start; the other
    coordinate is zero. *)
Definition tick_edge g ax : num :=
  let box := ax_box ax in
  let pos := b_position box in
  match ax_direction ax, b_tickLength box with
  | DirX, TickFull => if String.eqb pos "top" then ⟨0⟩ else plotHeight g
  | DirX, TickPixels _ =>
      b_top box - off_top g + (if String.eqb pos "top" then b_height box else ⟨0⟩)
  | DirY, TickFull => if String.eqb pos "left" then ⟨0⟩ else plotWidth g
  | DirY, TickPixels _ =>
      b_left box - off_left g + (if String.eqb pos "left" then b_width box else ⟨0⟩)
  end.

(** [Math.floor(v) + 0.5]: the line width is 1 while ticks are drawn. *)
Definition crisp (v : num) : num := nfloor v + of_ratio 1 2.

(** The bar along an axis that is not innermost, and the edge it leaves. *)
Definition tick_bar g ax : list (canvas_op num) * (num * num) :=
  let e := tick_edge g ax in
  let '(x, y) := match ax_direction ax with DirX => (⟨0⟩, e) | DirY => (e, ⟨0⟩) end in
  if b_innermost (ax_box ax) then ([], (x, y))
  else
    let '(xoff, yoff) := match ax_direction ax with
                         | DirX => (plotWidth g, ⟨0⟩)
                         | DirY => (⟨0⟩, plotHeight g)
                         end in
    let x := crisp x in
    let y := crisp y in
    ([OpBeginPath; OpMoveTo x y; OpLineTo (x + xoff) (y + yoff); OpStroke], (x, y)).

(** Whether a tick at [v] is drawn. *)
Definition tick_visible ax (v : num) : bool :=
  let full := match b_tickLength (ax_box ax) with TickFull => true | _ => false end in
  negb ((v <? ax_min ax) || (v >? ax_max ax)
        || full && (gr_borderWidth grid >? ⟨0⟩) && ((v =? ax_min ax) || (v =? ax_max ax))).

Definition draw_tick g ax (edge : num * num) (v : num) : list (canvas_op num) :=
  if tick_visible ax v then
    let pos := b_position (ax_box ax) in
    let len (full : num) := match b_tickLength (ax_box ax) with TickFull => - full | TickPixels t => t end in
    match ax_direction ax with
    | DirX =>
        let yoff := len (plotHeight g) in
        let yoff := if String.eqb pos "top" then - yoff else yoff in
        let x := crisp (p2c ax v) in
        [OpMoveTo x edge.2; OpLineTo (x + ⟨0⟩) (edge.2 + yoff)]
    | DirY =>
        let xoff := len (plotWidth g) in
        let xoff := if String.eqb pos "left" then - xoff else xoff in
        let y := crisp (p2c ax v) in
        [OpMoveTo edge.1 y; OpLineTo (edge.1 + xoff) (y + ⟨0⟩)]
    end
  else [].

Definition tick_color ax : string :=
  match o_tickColor (ax_options ax) with
  | Some "" | None => toString (scale [A] (of_ratio 22 100) (parse (o_color (ax_options ax))))
  | Some c => c
  end.

Definition draw_ticks g ax : list (canvas_op num) :=
  match b_show (ax_box ax), default [] (t_ticks (ax_ticks ax)) with
  | false, _ | _, [] => []
  | true, ticks =>
      let '(bar, edge) := tick_bar g ax in
      [OpStrokeStyle (PaintText (tick_color ax)); OpLineWidth ⟨1⟩] ++ bar ++
      [OpBeginPath] ++ concat (map (λ t, draw_tick g ax edge t.1) ticks) ++ [OpStroke]
  end.

Definition all_axes p : list (axis num) := flat_axes (p_xaxes p) ++ flat_axes (p_yaxes p).

Definition draw_border g : list (canvas_op num) :=
  let bw := gr_borderWidth grid in
  if ntruthy bw then
    [OpLineWidth bw; OpStrokeStyle (PaintText (gr_borderColor grid));
     OpStrokeRect (- bw / ⟨2⟩) (- bw / ⟨2⟩) (plotWidth g + bw) (plotHeight g + bw)]
  else [].

Definition drawGrid p g : result (list (canvas_op num)) :=
  marks ← draw_markings p (gr_markings grid (p_xaxes p) (p_yaxes p));
  Ok (in_plot_area g (marks ++ concat (map (draw_ticks g) (all_axes p)) ++ draw_border g)).

Definition drawBackground g (c : color_spec num) : list (canvas_op num) :=
  in_plot_area g
    [OpFillStyle (getColorOrGradient c (plotHeight g) ⟨0⟩ "rgba(255, 255, 255, 0)");
     OpFillRect ⟨0⟩ ⟨0⟩ (plotWidth g) (plotHeight g)].

(** ** [draw] *)

Variable handlers : list (string * symbol num).
(** What the [drawSeries] and [draw] hooks of the plugins draw. *)
Variable hook_drawSeries : plot num → geometry num → series num → list (canvas_op num).
Variable hook_draw : plot num → geometry num → list (canvas_op num).

Fixpoint draw_all p g (ss : list (series num)) : result (list (canvas_op num)) :=
  match ss with
  | [] => Ok []
  | s :: ss =>
      match get_axis (p_xaxes p) (s_xaxis s), get_axis (p_yaxes p) (s_yaxis s) with
      | Some axisx, Some axisy =>
          ops ← drawSeries handlers g s axisx axisy;
          rest ← draw_all p g ss;
          Ok (hook_drawSeries p g s ++ ops ++ rest)
      | _, _ => Throw "TypeError: axis is undefined"
      end
  end.

Definition draw p g : result (list (canvas_op num)) :=
  let show_grid (b : bool) := if gr_show grid && b then drawGrid p g else Ok [] in
  let background :=
    match color_set (gr_backgroundColor grid) with
    | Some c => if gr_show grid then drawBackground g c else []
    | None => []
    end in
  below ← show_grid (negb (gr_aboveData grid));
  series ← draw_all p g (p_series p);
  above ← show_grid (gr_aboveData grid);
  Ok ([OpClearRect ⟨0⟩ ⟨0⟩ (canvasWidth g) (canvasHeight g)] ++ background ++ below ++ series ++
      hook_draw p g ++ above).

(** ** Tick labels *)

(** The position of a label, in the order of the properties. *)
Definition label_position g ax (v : num) : list (string * num) * string :=
  let b := ax_box ax in
  let pos := b_position b in
  let '(at_, align) :=
    match ax_direction ax with
    | DirX =>
        ([("left", nround (off_left g + p2c ax v - b_labelWidth b / ⟨2⟩));
          if String.eqb pos "bottom" then ("top", b_top b + b_padding b)
          else ("bottom", canvasHeight g - (b_top b + b_height b - b_padding b))], "center")
    | DirY =>
        let top := ("top", nround (off_top g + p2c ax v - b_labelHeight b / ⟨2⟩)) in
        if String.eqb pos "left"
        then ([top; ("right", canvasWidth g - (b_left b + b_width b - b_padding b))], "right")
        else ([top; ("left", b_left b + b_padding b)], "left")
    end in
  (at_ ++ [("width", b_labelWidth b)], align).

Definition label_html g ax (t : num * string) : string :=
  if String.eqb t.2 "" || (t.1 <? ax_min ax) || (t.1 >? ax_max ax) then ""
  else
    let '(pos, align) := label_position g ax t.1 in
    let style := ["position:absolute"; "text-align:" +:+ align] ++
                 map (λ e : string * num, e.1 +:+ ":" +:+ to_string e.2 +:+ "px") pos in
    "<div " +:+ attr "class" "tickLabel" +:+ " " +:+ attr "style" (str_join ";" style) +:+ ">" +:+
    t.2 +:+ "</div>".

(** The text appended to the placeholder, after the previous one was removed. *)
Definition insertAxisLabels p g : string :=
  "<div " +:+ attr "class" "tickLabels" +:+ " " +:+ attr "style" "font-size:smaller" +:+ ">" +:+
  str_join "" (map (λ ax,
    if b_show (ax_box ax) then
      "<div " +:+ attr "class" (axis_class ax) +:+ " " +:+
      attr "style" ("color:" +:+ o_color (ax_options ax)) +:+ ">" +:+
      str_join "" (map (label_html g ax) (default [] (t_ticks (ax_ticks ax)))) +:+ "</div>"
    else "") (all_axes p)) +:+
  "</div>".
End grid.
