(* ===== verification/FlotGridSpec.v ===== *)
(** What drawing the plot does: the context is left as it was found, and
    markings are drawn inside the plot area. *)

From stdpp Require Import sets.
From Stdlib Require Import QArith Lqa.
From S2P Require Import Prelude Numbers ExactNum JsText JsValue Color FlotModel FlotAxis Canvas FlotStyle FlotLines FlotLineSpec FlotMarks FlotMarkSpec FlotLayout FlotGrid.

#[local] Open Scope nat_scope.

(** ** The context is left as it was found *)

Section tame.
Context {num : Type} `{Num num} `{NumText num} `{MathLib num}.
Variable grid : grid_options num.

Lemma draw_marking_tame p m ops : draw_marking grid p m = Ok ops → tame_all ops.
Proof.
  unfold draw_marking. destruct (extractRange p m DirX) as [[xa|] xr], (extractRange p m DirY) as [[ya|] yr]; try done.
  destruct (fill_range xa xr), (fill_range ya yr).
  repeat (case_match; [by intros [= <-]|]). by intros [= <-].
Qed.

Lemma draw_markings_tame p ms ops : draw_markings grid p ms = Ok ops → tame_all ops.
Proof.
  revert ops. induction ms as [|m ms IH]; intros ops; simpl; [by intros [= <-]|].
  intros (o & Ho%draw_marking_tame & (rest & Hr & [= <-])%result_bind_ok)%result_bind_ok.
  apply tame_all_app; [done|by apply IH].
Qed.

Lemma draw_tick_tame g ax e v : tame_all (draw_tick grid g ax e v).
Proof. unfold draw_tick. case_match; [|done]. by destruct (ax_direction ax). Qed.

Lemma tame_concat_map {A} (f : A → list (canvas_op num)) l :
  (∀ x, tame_all (f x)) → tame_all (concat (map f l)).
Proof. intros Hf. apply tame_concat. apply Forall_fmap, Forall_true. done. Qed.

Lemma draw_ticks_tame g ax : tame_all (draw_ticks grid g ax).
Proof.
  unfold draw_ticks. destruct (b_show (ax_box ax)); [|done].
  destruct (default [] (t_ticks (ax_ticks ax))) as [|t ts]; [done|].
  assert (Hbar : tame_all (tick_bar g ax).1).
  { unfold tick_bar. destruct (ax_direction ax); simpl; by destruct (b_innermost (ax_box ax)). }
  destruct (tick_bar g ax) as [bar edge]. simpl in Hbar. tames.
  apply (tame_concat_map (λ t, draw_tick grid g ax edge t.1)). intros x. apply draw_tick_tame.
Qed.

Lemma drawGrid_balanced p g ops : drawGrid grid p g = Ok ops → balanced ops.
Proof.
  unfold drawGrid. intros (marks & Hm%draw_markings_tame & [= <-])%result_bind_ok.
  apply in_plot_area_balanced. tames.
  - apply tame_concat_map. intros ax. apply draw_ticks_tame.
  - unfold draw_border. by case_match.
Qed.

Variable handlers : list (string * symbol num).
Variable hook_drawSeries : plot num → geometry num → series num → list (canvas_op num).
Variable hook_draw : plot num → geometry num → list (canvas_op num).
Hypothesis Hhandlers : ∀ name f x y r sh, Color.assoc name handlers = Some f → tame_all (f x y r sh).
Hypothesis Hseries : ∀ p g s, balanced (hook_drawSeries p g s).

Lemma draw_all_balanced p g ss ops :
  draw_all handlers hook_drawSeries p g ss = Ok ops → balanced ops.
Proof.
  revert ops. induction ss as [|s ss IH]; intros ops; simpl; [intros [= <-]; apply balanced_nil|].
  destruct (get_axis _ _) as [axx|]; [|done]. destruct (get_axis _ _) as [axy|]; [|done].
  intros (o & Ho & (rest & Hr & [= <-])%result_bind_ok)%result_bind_ok.
  apply balanced_app; [apply Hseries|apply balanced_app; [|by apply IH]].
  by eapply (drawSeries_keeps handlers).
Qed.

Lemma clear_balanced (x y w h : num) : balanced [OpClearRect x y w h].
Proof. intros [g st]. by destruct g. Qed.
End tame.

(** [draw] leaves the drawing context as it was found, provided the drawing
    hooks of the plugins do: no style, line setting or translation set for
    the background, the grid, a series or its marks leaks to the next part
    or to the next redraw. *)
Theorem draw_balanced {num} `{Num num} `{NumText num} `{MathLib num} grid handlers hook_drawSeries
    hook_draw (p : plot num) g ops :
  (∀ name f x y r sh, Color.assoc name handlers = Some f → forallb tame (f x y r sh) = true) →
  (∀ p g s, balanced (hook_drawSeries p g s)) → (∀ p g, balanced (hook_draw p g)) →
  draw grid handlers hook_drawSeries hook_draw p g = Ok ops → balanced ops.
Proof.
  intros Hh Hs Hd. unfold draw.
  assert (Hg : ∀ (b : bool) ops, (if b then drawGrid grid p g else Ok []) = Ok ops → balanced ops).
  { intros [] o; [apply drawGrid_balanced|intros [= <-]; apply balanced_nil]. }
  intros (below & Hb%Hg & (series & Hss & (above & Ha%Hg & [= <-])%result_bind_ok)%result_bind_ok)%result_bind_ok.
  apply draw_all_balanced in Hss; [|done..].
  apply (balanced_app [_]); [apply clear_balanced|].
  apply balanced_app; [|repeat (apply balanced_app; [done || apply Hd|]); done].
  destruct (color_set _); [|apply balanced_nil]. case_match; [|apply balanced_nil].
  by apply balanced_saved.
Qed.

(** ** Markings *)

Local Open Scope Q_scope.

Lemma nmax_fin a c : ∃ m, nmax (XFin a) (XFin c) = XFin m ∧ ∀ q, m <= q ↔ a <= q ∧ c <= q.
Proof.
  unfold nmax. rewrite !Exact.nis_nan_fin.
  destruct (nltb (XFin a) (XFin c)) eqn:E; xq_hyps; eexists; (split; [done|]); intros q; lra.
Qed.
Lemma nmin_fin a c : ∃ m, nmin (XFin a) (XFin c) = XFin m ∧ ∀ q, q <= m ↔ q <= a ∧ q <= c.
Proof.
  unfold nmin. rewrite !Exact.nis_nan_fin.
  destruct (nltb (XFin c) (XFin a)) eqn:E; xq_hyps; eexists; (split; [done|]); intros q; lra.
Qed.

(** The points of the filled rectangles and of the stroked segments. *)
Definition painted (ops : list (canvas_op xq)) (c : Q * Q) : Prop :=
  (∃ x y w h, OpFillRect (XFin x) (XFin y) (XFin w) (XFin h) ∈ ops ∧
     x <= c.1 <= x + w ∧ y <= c.2 <= y + h) ∨ covered ops c.

Lemma degenerate_rectangle l r lo hi p : l <= r → lo <= hi → l == r ∨ lo == hi →
  on_seg (QSeg (l, lo) (r, hi)) p ↔ rectangle l r lo hi p.
Proof.
  intros Hx Hy Hd. unfold rectangle. split.
  - intros (t & Ht & E1 & E2). simpl in *. rewrite E1, E2. split; split; nra.
  - intros [P1 P2]. destruct (Qlt_le_dec l r) as [L|L]; [|destruct (Qlt_le_dec lo hi) as [L'|L']].
    + assert (D : ¬ r - l == 0) by lra. exists ((p.1 - l) / (r - l)).
      set (t := (p.1 - l) / (r - l)).
      assert (Et : t * (r - l) == p.1 - l) by (unfold t; by field). clearbody t.
      split; [split; nra|]. split; simpl; [lra|]. assert (lo == hi) by lra. nra.
    + assert (D : ¬ hi - lo == 0) by lra. exists ((p.2 - lo) / (hi - lo)).
      set (t := (p.2 - lo) / (hi - lo)).
      assert (Et : t * (hi - lo) == p.2 - lo) by (unfold t; by field). clearbody t.
      split; [split; nra|]. split; simpl; [nra|lra].
    + exists 0. split; [lra|]. split; simpl; lra.
Qed.

(** The rectangle on the canvas, with y downwards. *)
Lemma image_rectangle kx ky mx my l r lo hi c : 0 < kx → ky < 0 →
  ((l - mx) * kx <= c.1 <= (r - mx) * kx ∧ (hi - my) * ky <= c.2 <= (lo - my) * ky) ↔
  ∃ p, rectangle l r lo hi p ∧ peq c (image (Mapping mx kx my ky 0 0) p).
Proof.
  intros Hkx Hky. unfold rectangle. split.
  - intros [Cx Cy]. assert (Dx : ¬ kx == 0) by lra. assert (Dy : ¬ ky == 0) by lra.
    exists (mx + c.1 / kx, my + c.2 / ky). set (u := c.1 / kx). set (v := c.2 / ky).
    assert (Eu : u * kx == c.1) by (unfold u; by field).
    assert (Ev : v * ky == c.2) by (unfold v; by field). clearbody u v.
    simpl. split; [split; split; nra|]. split; simpl; lra.
  - intros (p & [P1 P2] & [E1 E2]). simpl in *. rewrite E1, E2. split; split; nra.
Qed.

Section marking.
Context `{NumText xq} `{MathLib xq}.
Variable grid : grid_options xq.
Variables (p : plot xq) (m : marking xq) (xa ya : axis xq) (b : box).
Variables (kx ky mx my : Q).
Hypothesis Hb : ranges b xa ya.
Hypothesis Hx : linear_view xa mx kx.
Hypothesis Hy : linear_view ya my ky.
Hypothesis Hkx : 0 < kx.
Hypothesis Hky : ky < 0.

(** The end of [draw_marking], on a clipped range. *)
Lemma marking_ops l r lo hi (ops : list (canvas_op xq)) :
  l <= r → lo <= hi →
  (if neqb (p2c xa (XFin l)) (p2c xa (XFin r)) || neqb (p2c ya (XFin lo)) (p2c ya (XFin hi)) then
     [OpBeginPath; OpStrokeStyle (PaintText (marking_color grid m)); OpLineWidth (marking_width grid m);
      OpMoveTo (p2c xa (XFin l)) (p2c ya (XFin lo)); OpLineTo (p2c xa (XFin r)) (p2c ya (XFin hi)); OpStroke]
   else
     [OpFillStyle (PaintText (marking_color grid m));
      OpFillRect (p2c xa (XFin l)) (p2c ya (XFin hi)) (nsub (p2c xa (XFin r)) (p2c xa (XFin l)))
        (nsub (p2c ya (XFin lo)) (p2c ya (XFin hi)))]) = ops →
  ∀ c, painted ops c ↔ ∃ q, rectangle l r lo hi q ∧ peq c (image (Mapping mx kx my ky 0 0) q).
Proof.
  intros Hlr Hlh. rewrite !(p2c_linear _ _ _ _ Hx), !(p2c_linear _ _ _ _ Hy).
  set (f := Mapping mx kx my ky 0 0). destruct (_ || _) eqn:C; intros <- c.
  - assert (D : l == r ∨ lo == hi).
    { apply orb_true_iff in C as [C|C]; xq_hyps; [left|right]; nra. }
    assert (Ec : painted [OpBeginPath; OpStrokeStyle (PaintText (marking_color grid m));
        OpLineWidth (marking_width grid m); OpMoveTo (XFin ((l - mx) * kx)) (XFin ((lo - my) * ky));
        OpLineTo (XFin ((r - mx) * kx)) (XFin ((hi - my) * ky)); OpStroke] c
      ↔ on_seg (image_seg f (QSeg (l, lo) (r, hi))) c).
    { assert (S : ∀ q q', peq q (image f (l, lo)) → peq q' (image f (r, hi)) →
        on_seg (QSeg q q') c ↔ on_seg (image_seg f (QSeg (l, lo) (r, hi))) c).
      { intros q q' [A1 A2] [B1 B2]. split; apply on_seg_proper; split; simpl in *; by try symmetry. }
      unfold painted, covered. simpl segments. split.
      - intros [(x & y & w & h & Hin & _)|(q & q' & Hin & Hon)].
        + exfalso. repeat (apply elem_of_cons in Hin as [Hin|Hin]; [done|]). by apply elem_of_nil in Hin.
        + apply list_elem_of_singleton in Hin. destruct q, q'. injection Hin as -> -> -> ->.
          revert Hon. apply S; split; simpl; ring.
      - intros Hon. right. exists ((l - mx) * kx, (lo - my) * ky), ((r - mx) * kx, (hi - my) * ky).
        split; [by apply list_elem_of_singleton|]. apply S; [split; simpl; ring..|done]. }
    rewrite Ec, on_image. split; intros (q & Hq & E); exists q; (split; [|done]); by apply (degenerate_rectangle l r lo hi q).
  - unfold f. rewrite <- (image_rectangle kx ky mx my l r lo hi c Hkx Hky). unfold painted. split.
    + intros [(x & y & w & h & Hin & E1 & E2)|(q & q' & Hin & _)].
      * apply elem_of_cons in Hin as [Hin|Hin]; [done|]. apply list_elem_of_singleton in Hin.
        injection Hin as -> -> -> ->. split; lra.
      * by apply elem_of_nil in Hin.
    + intros [E1 E2]. left. eexists _, _, _, _. split; [apply elem_of_cons; right; by apply list_elem_of_singleton|].
      split; lra.
Qed.
End marking.

(** A marking of the grid is painted exactly where it is visible: the
    region between its bounds (missing bounds being those of the axes), cut
    to the plot area; a range without extent in one direction is a line, and
    nothing is painted when at most one point is visible. *)
Theorem draw_marking_visible `{NumText xq} `{MathLib xq} grid p m xa ya xr yr xf xt yf yt b kx ky mx my :
  extractRange p m DirX = (Some xa, xr) → extractRange p m DirY = (Some ya, yr) →
  fill_range xa xr = (XFin xf, XFin xt) → fill_range ya yr = (XFin yf, XFin yt) →
  xf <= xt → yf <= yt → xlo b <= xhi b → ylo b <= yhi b →
  ranges b xa ya → linear_view xa mx kx → linear_view ya my ky → 0 < kx → ky < 0 →
  ∃ ops, draw_marking grid p m = Ok ops ∧
    ((ops = [] ∧ ∀ q q', rectangle xf xt yf yt q → in_box b q → rectangle xf xt yf yt q' → in_box b q' → peq q q')
     ∨ ∀ c, painted ops c ↔
         ∃ q, rectangle xf xt yf yt q ∧ in_box b q ∧ peq c (image (Mapping mx kx my ky 0 0) q)).
Proof.
  intros Ex Ey Fx Fy Hx Hy Bx By Hb Vx Vy Hkx Hky. unfold draw_marking. rewrite Ex, Ey, Fx, Fy.
  pose proof Hb as (Rx & RX & Ry & RY). rewrite Rx, RX, Ry, RY.
  destruct (_ || _) eqn:C1.
  { exists []. split; [done|]. left. split; [done|]. intros [q1 q2] q' [A1 A2] [B1 B2]. exfalso. simpl in *.
    rewrite !orb_true_iff in C1. destruct C1 as [[[C|C]|C]|C]; xq_hyps; lra. }
  rewrite !orb_false_iff in C1. destruct C1 as [[[C1 C2] C3] C4]. xq_hyps.
  destruct (nmax_fin xf (xlo b)) as (l & -> & Hl). destruct (nmin_fin xt (xhi b)) as (r & -> & Hr).
  destruct (nmax_fin yf (ylo b)) as (lo & -> & Hlo). destruct (nmin_fin yt (yhi b)) as (hi & -> & Hhi).
  assert (L1 : l <= r) by (apply Hl; split; apply Hr; lra).
  assert (L2 : lo <= hi) by (apply Hlo; split; apply Hhi; lra).
  assert (R : ∀ q, rectangle xf xt yf yt q ∧ in_box b q ↔ rectangle l r lo hi q).
  { intros q. unfold rectangle, in_box. rewrite Hl, Hr, Hlo, Hhi. tauto. }
  destruct (neqb (XFin l) (XFin r) && neqb (XFin lo) (XFin hi)) eqn:C5.
  - apply andb_true_iff in C5 as [C5 C6]. xq_hyps. exists []. split; [done|]. left. split; [done|].
    intros q q' Q1 Q2 Q3 Q4. pose proof (proj1 (R q) (conj Q1 Q2)) as [].
    pose proof (proj1 (R q') (conj Q3 Q4)) as []. split; lra.
  - destruct (_ || _) eqn:C6.
    all: eexists; split; [reflexivity|]; right; intros c.
    all: rewrite (marking_ops grid m xa ya kx ky mx my Vx Vy Hkx Hky l r lo hi _ L1 L2 ltac:(rewrite C6; reflexivity)).
    all: split; [intros (q & Hq & E); exists q; by apply R in Hq as []|intros (q & Q1 & Q2 & E); exists q; by split; [apply R|]].
Qed.

(** ** Samples *)

(** A plot of the marked series, with ticks on its x axis. *)
Definition sample_drawn : plot xq :=
  let x := with_ticks (sample_view DirX 0 10 0 40)
             (AxisTicks (TickNumber (XFin 5)) (XFin 0) (Some [(XFin 0, "0"); (XFin 5, "5"); (XFin 10, "10")])) in
  let x := with_box x (AxisBox true true (XFin 30) (XFin 12) (XFin 20) (XFin 250) (XFin 400) (XFin 20)
                         (XFin 5) TickFull true "bottom") in
  Plot [marked_series] [Some x] [Some (sample_view DirY 0 20 20 (-(10)))].

Definition sample_marking : marking xq :=
  Marking [("xaxis", (Number (XFin 8), Number (XFin 2)))] [("y1", Number (XFin 15))] None None.

Definition marked_grid : grid_options xq :=
  GridOptions true false grid_color (Some (ColorText "#fff")) grid_color (XFin 5) (XFin 8) (XFin 2) None
    (λ _ _, [sample_marking]) "#f4f4f4" (XFin 2) false false true (XFin 10).

Lemma draw_balanced_witness :
  let _ := Exact.exact_text in let _ := Exact.exact_math in
  ∃ ops, draw marked_grid symbol_handlers (λ _ _ _, []) (λ _ _, []) sample_drawn sample_geometry = Ok ops ∧
    (30 <? length ops)%nat = true ∧ balanced ops.
Proof.
  eexists. split; [vm_compute; reflexivity|]. split; [vm_compute; reflexivity|].
  apply (@draw_balanced xq _ Exact.exact_text Exact.exact_math marked_grid
    (@symbol_handlers xq _ Exact.exact_math) (λ _ _ _, []) (λ _ _, []) sample_drawn sample_geometry).
  - intros name h x y r sh. apply (@symbol_handlers_tame Exact.exact_math).
  - intros. apply balanced_nil.
  - intros. apply balanced_nil.
  - vm_compute. reflexivity.
Defined.

Lemma draw_marking_visible_witness :
  let _ := Exact.exact_text in
  ∃ ops, draw_marking marked_grid sample_drawn sample_marking = Ok ops ∧
    ((ops = [] ∧ ∀ q q', rectangle 2 8 15 20 q → in_box sample_box q → rectangle 2 8 15 20 q' →
        in_box sample_box q' → peq q q')
     ∨ ∀ c, painted ops c ↔
         ∃ q, rectangle 2 8 15 20 q ∧ in_box sample_box q ∧ peq c (image (Mapping 0 40 20 (-(10)) 0 0) q)).
Proof.
  apply (@draw_marking_visible Exact.exact_text Exact.exact_math marked_grid sample_drawn sample_marking
    (default (sample_view DirX 0 10 0 40) (get_slot sample_drawn (DirX, 0%nat)))
    (sample_view DirY 0 20 20 (-(10))) (Number (XFin 2), Number (XFin 8)) (Number (XFin 15), Undef));
    try reflexivity; try discriminate; by repeat constructor.
Defined.
