(* ===== verification/FlotLayoutSpec.v ===== *)
(** The layout of the axes, on exact numbers: [setupGrid] puts the boxes of
    the axes between the canvas edges and the plot area, side by side. *)

From S2P Require Import Prelude Numbers ExactNum JsText JsValue FlotModel FlotAxis FlotTicks FlotLayout FlotGridSpec.
From stdpp Require Import sets.
From Stdlib Require Import QArith Lqa.

#[local] Open Scope nat_scope.

(** ** Slots *)

Section slots.
Context {num : Type}.
Implicit Types (p : plot num) (a : axis num) (axs : axes num).

Lemma elem_of_imap_pair axs k i (o : option (axis num)) :
  (i, o) ∈ imap (λ j x, (k + j, x)) axs ↔ ∃ j, i = k + j ∧ axs !! j = Some o.
Proof.
  unfold axes in *. rewrite list_elem_of_lookup. split.
  - intros (j & E). rewrite list_lookup_imap in E.
    destruct (axs !! j) as [x|] eqn:Ej; [|done]. injection E as <- <-. eauto.
  - intros (j & -> & E). exists j. by rewrite list_lookup_imap, E.
Qed.

Lemma elem_of_indices (f : axis num → bool) axs i :
  i ∈ indices_of f axs ↔ ∃ a, mjoin (axs !! i) = Some a ∧ f a = true.
Proof.
  unfold indices_of. rewrite list_elem_of_omap. split.
  - intros ([j o] & Hin & E). apply (elem_of_imap_pair axs 0) in Hin as (j' & -> & Hj). simpl in *.
    destruct o as [a|]; [|done]. destruct (f a) eqn:Ef; [|done]. injection E as <-.
    exists a. by rewrite Hj.
  - intros (a & Ha & Ef). destruct (axs !! i) as [[x|]|] eqn:E; simplify_eq/=.
    exists (i, Some a). split; [by apply (elem_of_imap_pair axs 0); eauto|]. simpl. by rewrite Ef.
Qed.

Lemma indices_nodup (f : axis num → bool) axs : NoDup (indices_of f axs).
Proof.
  unfold indices_of.
  assert (G : ∀ k, NoDup (omap (λ e : nat * option (axis num),
      match e.2 with Some a => if f a then Some e.1 else None | None => None end)
      (imap (λ j x, (k + j, x)) axs))); [|exact (G 0)].
  induction axs as [|o axs IH]; intros k; [constructor|].
  assert (E : imap (λ j x, (k + j, x)) (o :: axs) = (k, o) :: imap (λ j x, (S k + j, x)) axs).
  { simpl. rewrite Nat.add_0_r. f_equal. apply imap_ext. intros j x _. simpl. f_equal. lia. }
  rewrite E. csimpl. destruct o as [a|]; [|apply (IH (S k))]. destruct (f a); [|apply (IH (S k))].
  constructor; [|apply (IH (S k))]. intros Hin. apply list_elem_of_omap in Hin as ([j o] & Hin & Ej).
  apply (elem_of_imap_pair axs (S k)) in Hin as (j' & -> & _). simpl in Ej.
  destruct o as [a'|]; [|done]. destruct (f a'); [|done]. injection Ej. lia.
Qed.

Lemma elem_of_allocated p s :
  s ∈ allocated p ↔ ∃ a, get_slot p s = Some a ∧ reserved a = true.
Proof.
  destruct s as [d i]. unfold allocated, get_slot. rewrite elem_of_app, !list_elem_of_fmap.
  destruct d; cbn [axes_of fst snd]; setoid_rewrite elem_of_indices; naive_solver.
Qed.

Lemma allocated_nodup p : NoDup (allocated p).
Proof.
  unfold allocated. apply NoDup_app. split; [|split].
  - apply NoDup_fmap_2; [by intros ?? [= ->]|apply indices_nodup].
  - intros s H1 H2. apply list_elem_of_fmap in H1 as (? & -> & _).
    apply list_elem_of_fmap in H2 as (? & ? & _). done.
  - apply NoDup_fmap_2; [by intros ?? [= ->]|apply indices_nodup].
Qed.

Lemma get_set_slot p s s' a a0 : get_slot p s = Some a0 →
  get_slot (set_slot p s a) s' = if decide (s = s') then Some a else get_slot p s'.
Proof.
  destruct s as [d i], s' as [d' i']. unfold get_slot, set_slot. cbn [fst snd].
  intros E. assert (Hi : i < length (axes_of p d)).
  { destruct (axes_of p d !! i) as [x|] eqn:Ex; [by apply lookup_lt_Some in Ex|done]. }
  case_decide as Hne; [injection Hne as <- <-|].
  - unfold axes in *. destruct d; cbn [axes_of p_xaxes p_yaxes] in *; rewrite list_lookup_insert_eq by exact Hi; done.
  - unfold axes in *. destruct d, d'; cbn [axes_of p_xaxes p_yaxes] in *; try done;
      rewrite list_lookup_insert_ne; congruence.
Qed.

Lemma get_map_slot p s f : get_slot (map_axes f p) s = f <$> get_slot p s.
Proof.
  destruct s as [[] i]; unfold get_slot; cbn [fst snd axes_of map_axes p_xaxes p_yaxes];
    [generalize (p_xaxes p)|generalize (p_yaxes p)]; unfold axes; intros l;
    rewrite list_lookup_fmap; by destruct (l !! i) as [[]|].
Qed.
End slots.

(** ** What the ticks leave unchanged *)

Section keeps.
Context {num : Type} `{Num num} `{NumText num} `{MathLib num}.
Implicit Types a : axis num.

(** The options, direction and box. *)
Definition same_frame a a' : Prop :=
  ax_options a' = ax_options a ∧ ax_direction a' = ax_direction a ∧ ax_box a' = ax_box a.

Lemma same_frame_trans a b c : same_frame a b → same_frame b c → same_frame a c.
Proof. unfold same_frame. intuition congruence. Qed.

Lemma own_ticks_frame a delta : same_frame a (own_ticks a delta).1.
Proof. unfold own_ticks. by repeat case_match. Qed.

Lemma aligned_frame fuel gen a delta a' : aligned_decimals fuel gen a delta = Ok a' → same_frame a a'.
Proof.
  unfold aligned_decimals. destruct (o_tickDecimals (ax_options a)); [by intros [= <-]|].
  intros (ts & _ & E)%result_bind_ok. destruct ts as [|t0 [|t1 ts]]; [by injection E as <-..|].
  apply result_bind_ok in E as (str & _ & [= <-]). by case_match.
Qed.

Lemma setup_ticks_frame fuel w h axs a a' gen :
  setupTickGeneration fuel w h axs a = Ok (a', gen) → same_frame a a'.
Proof.
  unfold setupTickGeneration. set (delta := ndiv _ _). clearbody delta.
  pose proof (own_ticks_frame a delta) as F.
  destruct (own_ticks a delta) as [a1 g1]. simpl in F.
  destruct (other_axis axs a1) as [o|]; [|by intros [= <- <-]].
  intros (nice & _ & (a2 & E%aligned_frame & [= <- <-])%result_bind_ok)%result_bind_ok.
  eapply same_frame_trans; [exact F|]. eapply same_frame_trans; [|exact E].
  by repeat case_match.
Qed.

Lemma tick_axis_frame fuel w h axs a a' : tick_axis fuel w h axs a = Ok a' → same_frame a a'.
Proof.
  unfold tick_axis.
  intros ([a1 gen] & E1%setup_ticks_frame & (a2 & E2 & [= <-])%result_bind_ok)%result_bind_ok.
  eapply same_frame_trans; [exact E1|].
  unfold setTicks in E2. apply result_bind_ok in E2 as (ts & _ & (tks & _ & [= <-])%result_bind_ok).
  unfold snapRangeToTicks. by repeat case_match.
Qed.
End keeps.

(** ** One axis *)

Local Open Scope Q_scope.

Inductive side := SLeft | SRight | STop | SBottom.
#[export] Instance side_eq_dec : EqDecision side.
Proof. solve_decision. Defined.

Section boxes.
Implicit Types (a : axis xq) (g : geometry xq).

Definition side_of a : side :=
  let pos := o_position (ax_options a) in
  match ax_direction a with
  | DirX => if String.eqb pos "bottom" then SBottom else STop
  | DirY => if String.eqb pos "left" then SLeft else SRight
  end.

Definition offset (sd : side) g : xq :=
  match sd with SLeft => off_left g | SRight => off_right g | STop => off_top g | SBottom => off_bottom g end.

(** The distances of the box of an axis from the canvas edge on its side. *)
Definition placed (W H : Q) a (lo hi : Q) : Prop :=
  let b := ax_box a in
  match side_of a with
  | SLeft => ∃ l w, b_left b = XFin l ∧ b_width b = XFin w ∧ lo == l ∧ hi == l + w
  | SRight => ∃ l w, b_left b = XFin l ∧ b_width b = XFin w ∧ lo == W - (l + w) ∧ hi == W - l
  | STop => ∃ t h, b_top b = XFin t ∧ b_height b = XFin h ∧ lo == t ∧ hi == t + h
  | SBottom => ∃ t h, b_top b = XFin t ∧ b_height b = XFin h ∧ lo == H - (t + h) ∧ hi == H - t
  end.

(** Sizes that layout computes with. *)
Definition size (x : xq) : Prop := ∃ q, x = XFin q ∧ 0 <= q.

Definition length_ok (t : option (tick_length xq)) : Prop :=
  match t with Some (TickPixels x) => size x | _ => True end.

(** An axis ready to be placed. *)
Definition ready a : Prop :=
  size (b_labelWidth (ax_box a)) ∧ size (b_labelHeight (ax_box a)) ∧ length_ok (o_tickLength (ax_options a)).

Definition sized (W H : Q) g : Prop :=
  canvasWidth g = XFin W ∧ canvasHeight g = XFin H ∧ ∀ sd, size (offset sd g).

Lemma size_add x y : size x → size y → size (nadd x y).
Proof. intros (q & -> & Hq) (r & -> & Hr). exists (q + r). split; [done|]. lra. Qed.

Context {text : NumText xq}.
Variable grid : grid_options xq.
Hypothesis Hlabel : size (gr_labelMargin grid).
Hypothesis Hmargin : size (gr_axisMargin grid).

Lemma padding_size a inner : length_ok (o_tickLength (ax_options a)) →
  size (match tick_length_or (o_tickLength (ax_options a)) inner with
        | TickPixels t => if nis_nan t then gr_labelMargin grid else nadd (gr_labelMargin grid) t
        | TickFull => gr_labelMargin grid
        end).
Proof.
  intros Ht. unfold tick_length_or.
  destruct (o_tickLength (ax_options a)) as [[|x]|]; simpl in *.
  - destruct inner; [done|]. apply size_add; [done|by exists 5].
  - destruct Ht as (q & -> & Hq). rewrite Exact.nis_nan_fin. apply size_add; [done|by exists q].
  - destruct inner; [done|]. apply size_add; [done|by exists 5].
Qed.

(** The first phase places the box of an axis beyond those placed before on
    its side, and moves the offset of that side to its end. *)
Lemma first_phase_places W H all i a g a' g' :
  ready a → sized W H g → allocateAxisBoxFirstPhase grid all i a g = (a', g') →
  ∃ o o' lo hi, offset (side_of a) g = XFin o ∧ offset (side_of a) g' = XFin o' ∧
    placed W H a' lo hi ∧ o <= lo ∧ lo <= hi ∧ hi <= o' ∧ sized W H g' ∧
    (∀ sd, sd ≠ side_of a → offset sd g' = offset sd g) ∧
    ax_options a' = ax_options a ∧ ax_direction a' = ax_direction a ∧
    b_reserveSpace (ax_box a') = b_reserveSpace (ax_box a).
Proof.
  intros (Hw & Hh & Ht) (EW & EH & Ho). unfold allocateAxisBoxFirstPhase.
  set (inner := bool_decide _).
  pose proof (padding_size a inner Ht) as (pad & Epad & Hpad). rewrite Epad. clear Epad.
  set (margin := if decide _ then _ else _).
  assert (Hm : size margin) by (unfold margin; destruct (decide _); [by exists 0|done]).
  destruct Hm as (mg & -> & Hmg). destruct Hw as (w & -> & Hw), Hh as (h & -> & Hh).
  rewrite EW, EH. pose proof (Ho (side_of a)) as (o & Eo & Hoo).
  unfold side_of in Eo |- *.
  destruct (ax_direction a) eqn:Ed; [destruct (String.eqb _ "bottom") eqn:Ep|destruct (String.eqb _ "left") eqn:Ep];
    simpl in Eo; rewrite ?Eo; intros [= <- <-].
  1: exists o, (o + (h + pad + mg)), (o + mg), (o + (h + pad + mg)).
  2: exists o, (o + (h + pad + mg)), (o + mg), (o + mg + (h + pad)).
  3: exists o, (o + (w + pad + mg)), (o + mg), (o + mg + (w + pad)).
  4: exists o, (o + (w + pad + mg)), (o + mg), (o + (w + pad + mg)).
  all: unfold placed, side_of; simpl; rewrite Ed, Ep; simpl.
  all: do 2 (split; [done|]).
  all: split; [eexists _, _; do 2 (split; [done|]); split; lra|].
  all: do 3 (split; [lra|]).
  all: split; [|split; [intros sd Hsd; by destruct sd|done]].
  all: do 2 (split; [done|]).
  all: intros sd; pose proof (Ho sd); destruct sd; simpl; try done; eexists; (split; [done|]); lra.
Qed.
End boxes.

(** ** All axes *)

Lemma placed_unique W Hc a lo hi lo' hi' :
  placed W Hc a lo hi → placed W Hc a lo' hi' → lo == lo' ∧ hi == hi'.
Proof.
  unfold placed. destruct (side_of a);
    intros (x & y & E1 & E2 & A1 & A2) (x' & y' & E1' & E2' & A1' & A2');
    rewrite E1 in E1'; rewrite E2 in E2'; injection E1' as <-; injection E2' as <-; split; lra.
Qed.

Section allocation.
Context {text : NumText xq}.
Variable grid : grid_options xq.
Hypothesis Hlabel : size (gr_labelMargin grid).
Hypothesis Hmargin : size (gr_axisMargin grid).
Variables (W Hc : Q) (p0 : plot xq).

(** The axes of [D] are placed, from the outside in; the others are as they
    were in [p0]. *)
Record allocating (D : slot → Prop) (p : plot xq) (g : geometry xq) : Prop := {
  al_rest s : ¬ D s → get_slot p s = get_slot p0 s;
  al_sized : sized W Hc g;
  al_placed s : D s → ∃ a0 a lo hi o, get_slot p0 s = Some a0 ∧ get_slot p s = Some a ∧
    side_of a = side_of a0 ∧ reserved a = reserved a0 ∧
    placed W Hc a lo hi ∧ 0 <= lo ∧ lo <= hi ∧ offset (side_of a) g = XFin o ∧ hi <= o;
  al_apart s s' a a' lo hi lo' hi' : D s → D s' → s ≠ s' →
    get_slot p s = Some a → get_slot p s' = Some a' → side_of a = side_of a' →
    placed W Hc a lo hi → placed W Hc a' lo' hi' → hi <= lo' ∨ hi' <= lo;
}.

Lemma allocate_step_keeps D p g s a :
  allocating D p g → ¬ D s → get_slot p0 s = Some a → ready a →
  allocating (λ t, t = s ∨ D t) (allocate_step grid (p, g) s).1 (allocate_step grid (p, g) s).2.
Proof.
  intros I Hs Ha Hr. unfold allocate_step.
  assert (Ep : get_slot p s = Some a) by (rewrite (al_rest _ _ _ I s Hs); done).
  rewrite Ep. destruct (allocateAxisBoxFirstPhase grid (axes_of p s.1) s.2 a g) as [a' g'] eqn:E.
  destruct (first_phase_places grid Hlabel Hmargin W Hc _ _ _ _ _ _ Hr (al_sized _ _ _ I) E)
    as (o & o' & lo & hi & Eo & Eo' & Hp & L1 & L2 & L3 & Hsz & Hoff & Hopt & Hdir & Hres).
  assert (Eside : side_of a' = side_of a) by (unfold side_of; by rewrite Hopt, Hdir).
  assert (G : ∀ t, get_slot (set_slot p s a') t = if decide (s = t) then Some a' else get_slot p t)
    by (intros t; by eapply get_set_slot).
  assert (Ho : 0 <= o). { destruct (proj2 (proj2 (al_sized _ _ _ I)) (side_of a)) as (q & Eq & Hq). congruence. }
  assert (Hmono : ∀ sd q q', offset sd g = XFin q → offset sd g' = XFin q' → q <= q').
  { intros sd q q' E1 E2. destruct (decide (sd = side_of a)) as [->|Hne]; [|rewrite Hoff in E2 by done].
    - rewrite Eo in E1. rewrite Eo' in E2. simplify_eq. lra.
    - rewrite E1 in E2. simplify_eq. lra. }
  assert (New : ∀ t t' lo1 hi1, D t → get_slot p t = Some t' → side_of t' = side_of a →
    placed W Hc t' lo1 hi1 → hi1 <= lo).
  { intros t t' lo1 hi1 Ht Et Es Hpt.
    destruct (al_placed _ _ _ I t Ht) as (? & b & lo2 & hi2 & o2 & _ & Eb & _ & _ & Hpb & _ & _ & Eob & Hle).
    rewrite Et in Eb. injection Eb as <-. rewrite Es, Eo in Eob. injection Eob as <-.
    destruct (placed_unique _ _ _ _ _ _ _ Hpt Hpb). lra. }
  split.
  - intros t Ht. simpl. rewrite G. rewrite decide_False by (intros ->; apply Ht; by left).
    apply (al_rest _ _ _ I). tauto.
  - done.
  - intros t Ht. simpl. rewrite G. destruct (decide (s = t)) as [<-|Hne].
    + exists a, a', lo, hi, o'. rewrite Eside. repeat split; try done; try lra.
    + destruct Ht as [->|Ht]; [done|].
      destruct (al_placed _ _ _ I t Ht) as (b0 & b & lo2 & hi2 & o2 & E0 & Eb & Es & Er & Hpb & P1 & P2 & Eob & Hle).
      destruct (proj2 (proj2 Hsz) (side_of b)) as (q & Eq & _).
      exists b0, b, lo2, hi2, q. repeat split; try done. pose proof (Hmono _ _ _ Eob Eq). lra.
  - intros t t' b b' lo1 hi1 lo2 hi2 Ht Ht' Hne. simpl. rewrite !G.
    destruct (decide (s = t)) as [<-|N1], (decide (s = t')) as [<-|N2]; [done|..].
    + intros [= <-] Eb Es H1 H2. destruct Ht' as [->|Ht']; [done|]. right.
      rewrite Eside in Es. pose proof (New t' b' lo2 hi2 Ht' Eb (eq_sym Es) H2).
      destruct (placed_unique _ _ _ _ _ _ _ H1 Hp). lra.
    + intros Eb [= <-] Es H1 H2. destruct Ht as [->|Ht]; [done|]. left.
      rewrite Eside in Es. pose proof (New t b lo1 hi1 Ht Eb Es H1).
      destruct (placed_unique _ _ _ _ _ _ _ H2 Hp). lra.
    + intros Eb Eb' Es H1 H2. destruct Ht as [->|Ht]; [done|]. destruct Ht' as [->|Ht']; [done|].
      by eapply (al_apart _ _ _ I t t').
Qed.

Lemma allocate_all slots D p g :
  allocating D p g → NoDup slots → (∀ s, s ∈ slots → ¬ D s ∧ ∃ a, get_slot p0 s = Some a ∧ ready a) →
  allocating (λ t, t ∈ slots ∨ D t) (foldl (allocate_step grid) (p, g) slots).1
    (foldl (allocate_step grid) (p, g) slots).2.
Proof.
  revert D p g. induction slots as [|s slots IH]; intros D p g I Hnd Hall.
  - destruct I as [I1 I2 I3 I4]. simpl.
    assert (N : ∀ t, t ∈ @nil slot ∨ D t → D t) by (intros t [Ht|]; [by apply elem_of_nil in Ht|done]).
    split; [intros t Ht; apply I1; tauto|done|intros; eauto|intros; eauto].
  - apply NoDup_cons in Hnd as [Hs Hnd].
    destruct (Hall s) as [HD (a & Ha & Hr)]; [by left|].
    pose proof (allocate_step_keeps D p g s a I HD Ha Hr) as I'. cbn [foldl].
    destruct (allocate_step grid (p, g) s) as [p1 g1]. simpl in I'.
    destruct (IH _ p1 g1 I' Hnd) as [J1 J2 J3 J4].
    { intros t Ht. destruct (Hall t) as [HDt Hat]; [by right|]. split; [|done].
      intros [Et|Hd]; [apply Hs; by subst t|by apply HDt]. }
    assert (N : ∀ t, (t ∈ s :: slots ∨ D t) ↔ (t ∈ slots ∨ t = s ∨ D t)) by (intros t; rewrite elem_of_cons; tauto).
    split; [|done| |].
    + intros t Ht. apply J1. by rewrite <- N.
    + intros t Ht%N. eauto.
    + intros t t' b b' lo1 hi1 lo2 hi2 Ht%N Ht'%N. by apply J4.
Qed.
End allocation.

(** ** Measured axes *)

Section measure.
Context {text : NumText xq}.
Variable page : page_metrics xq.
Hypothesis Hpage : ∀ html, size (div_height page html) ∧ size (children_width page html) ∧ size (label_height page html).

(** The options of an axis that layout reads are sizes. *)
Definition options_ok (o : axis_options xq) : Prop :=
  (∀ w, o_labelWidth o = Some w → size w) ∧ (∀ h, o_labelHeight o = Some h → size h) ∧
  length_ok (o_tickLength o).

Lemma size_zero : size (of_Z 0).
Proof. by exists 0. Qed.

Lemma floor_size W (n : Z) : 0 <= W → (0 < n)%Z → size (nfloor (ndiv (XFin W) (of_Z n))).
Proof.
  intros HW Hn. unfold of_Z. change (of_ratio n 1 : xq) with (XFin (inject_Z n)).
  assert (P : 0 < inject_Z n) by (by rewrite <- (Zlt_Qlt 0)).
  rewrite Exact.div_fin by lra. exists (inject_Z (Qround.Qfloor (W / inject_Z n))). split; [done|].
  rewrite <- (Zle_Qle 0). apply (Qround.Qfloor_resp_le 0).
  apply Qle_shift_div_l; [done|]. lra.
Qed.

Lemma measure_ready W g a : options_ok (ax_options a) → canvasWidth g = XFin W → 0 <= W →
  ready (measureTickLabels page g a) ∧ ax_options (measureTickLabels page g a) = ax_options a ∧
  ax_direction (measureTickLabels page g a) = ax_direction a ∧
  reserved (measureTickLabels page g a) = reserved a.
Proof.
  intros (Hw & Hh & Hl) EW HW. split; [|done]. unfold ready, measureTickLabels. cbn [with_box ax_box with_label_size
    b_labelWidth b_labelHeight ax_options]. rewrite EW. split; [|split; [|done]].
  - destruct (ax_direction a).
    + simpl. destruct (o_labelWidth (ax_options a)) as [w|]; [by apply Hw|].
      destruct (Nat.ltb_spec 0 (length (default [] (t_ticks (ax_ticks a))))); [|by apply floor_size].
      apply floor_size; [done|lia].
    + destruct (o_labelWidth (ax_options a)) as [w|], (o_labelHeight (ax_options a)) as [h|];
        [by apply Hw|..]; case_match; simpl; try (by apply Hw); try apply size_zero; apply Hpage.
  - destruct (ax_direction a); simpl.
    + destruct (o_labelHeight (ax_options a)) as [h|]; [by apply Hh|].
      case_match; [apply size_zero|apply Hpage].
    + destruct (o_labelWidth (ax_options a)) as [w|], (o_labelHeight (ax_options a)) as [h|];
        [by apply Hh|..]; case_match; simpl; try (by apply Hh); try apply size_zero; apply Hpage.
Qed.
End measure.

(** A loop over distinct slots changes each of them once. *)
Lemma each_slot_spec {num} (f : plot num → slot → axis num → result (axis num))
    (R : axis num → axis num → Prop) slots p p' :
  (∀ p s a a', f p s a = Ok a' → R a a') → NoDup slots → each_slot f slots p = Ok p' →
  ∀ s, match get_slot p s with
       | Some a => ∃ a', get_slot p' s = Some a' ∧ if decide (s ∈ slots) then R a a' else a' = a
       | None => get_slot p' s = None
       end.
Proof.
  intros HR. revert p. induction slots as [|t slots IH]; intros p Hnd; cbn [each_slot].
  - intros [= <-] s. destruct (get_slot p s) as [a|]; [|done]. exists a. split; [done|].
    rewrite decide_False; [done|]. intros Hs. by apply elem_of_nil in Hs.
  - apply NoDup_cons in Hnd as [Ht Hnd]. intros E s.
    destruct (get_slot p t) as [b|] eqn:Eb.
    + apply result_bind_ok in E as (b' & Eb' & E). specialize (IH _ Hnd E s).
      rewrite (get_set_slot p t s b' b Eb) in IH. destruct (decide (t = s)) as [<-|Hne].
      * rewrite Eb. destruct IH as (a' & Ea' & Ha'). rewrite decide_False in Ha' by done. subst a'.
        exists b'. split; [done|]. rewrite decide_True by (by left). by eapply HR.
      * destruct (get_slot p s) as [a|]; [|done]. destruct IH as (a' & Ea' & Ha'). exists a'. split; [done|].
        destruct (decide (s ∈ slots)); [rewrite decide_True by (by right)|rewrite decide_False]; try done.
        intros [->|]%elem_of_cons; done.
    + specialize (IH _ Hnd E s). destruct (get_slot p s) as [a|] eqn:Es; [|done].
      destruct IH as (a' & Ea' & Ha'). exists a'. split; [done|].
      assert (s ≠ t) by congruence.
      destruct (decide (s ∈ slots)); [rewrite decide_True by (by right)|rewrite decide_False]; try done.
      intros [->|]%elem_of_cons; done.
Qed.

(** ** The series are not touched *)

Lemma each_slot_series {num} f slots (p p' : plot num) :
  each_slot f slots p = Ok p' → p_series p' = p_series p.
Proof.
  revert p. induction slots as [|s slots IH]; intros p; cbn [each_slot]; [by intros [= <-]|].
  destruct (get_slot p s) as [a|]; [|apply IH].
  intros (a' & _ & E)%result_bind_ok. rewrite (IH _ E). unfold set_slot. by destruct s.1.
Qed.

Lemma allocate_series {num} `{Num num} grid slots (p : plot num) g :
  p_series (foldl (allocate_step grid) (p, g) slots).1 = p_series p.
Proof.
  revert p g. induction slots as [|s slots IH]; intros p g; [done|]. cbn [foldl].
  unfold allocate_step at 2. destruct (get_slot p s) as [a|]; [|apply IH].
  destruct (allocateAxisBoxFirstPhase _ _ _ _ _) as [a' g']. rewrite IH. unfold set_slot. by destruct s.1.
Qed.

(** The last steps of [setupGrid] keep the boxes where they are. *)
Lemma final_box W Hc (w h : xq) (g : geometry xq) a lo hi :
  let a' := setTransformationHelpers w h a in
  let a'' := if reserved a' then allocateAxisBoxSecondPhase g a' else a' in
  reserved a'' = reserved a ∧ side_of a'' = side_of a ∧ (placed W Hc a'' lo hi ↔ placed W Hc a lo hi).
Proof.
  assert (E : ax_box (setTransformationHelpers w h a) = ax_box a ∧
    ax_options (setTransformationHelpers w h a) = ax_options a ∧
    ax_direction (setTransformationHelpers w h a) = ax_direction a).
  { done. }
  destruct E as (E1 & E2 & E3). simpl.
  unfold reserved, placed, side_of, allocateAxisBoxSecondPhase.
  destruct (b_reserveSpace (ax_box (setTransformationHelpers w h a))) eqn:Er; rewrite E1 in Er.
  - cbn [with_box ax_box ax_options ax_direction]. rewrite E1, E2, E3.
    destruct (ax_direction a); [destruct (String.eqb _ _)|destruct (String.eqb _ _)]; done.
  - rewrite E1, E2, E3. done.
Qed.

Lemma final_axis W Hc w h (G : geometry xq) p s a :
  get_slot (map_axes (λ ax, if reserved ax then allocateAxisBoxSecondPhase G ax else ax)
    (map_axes (setTransformationHelpers w h) p)) s = Some a →
  ∃ b, get_slot p s = Some b ∧ reserved a = reserved b ∧ side_of a = side_of b ∧
    ∀ lo hi, placed W Hc a lo hi ↔ placed W Hc b lo hi.
Proof.
  rewrite !get_map_slot. destruct (get_slot p s) as [b|]; [|done]. intros [= <-].
  pose proof (final_box W Hc w h G b) as F. simpl in F. exists b. split; [done|].
  split; [apply (F 0 0)|]. split; [apply (F 0 0)|]. intros lo hi. apply F.
Qed.

Lemma offset_border grid (p : plot xq) g sd q m :
  min_margin grid p = XFin m → size (gr_borderWidth grid) → offset sd g = XFin q →
  ∃ q', offset sd (plot_area (border_offsets grid p g)) = XFin q' ∧ q <= q'.
Proof.
  intros Hm (bw & Ebw & Hbw) Hq.
  assert (E : offset sd (plot_area (border_offsets grid p g))
              = nmax (XFin m) (nadd (offset sd g) (XFin bw))) by (rewrite <- Hm, <- Ebw; by destruct sd).
  rewrite E, Hq. destruct (nmax_fin m (q + bw)) as (q' & E' & Hq'). exists q'. split; [exact E'|].
  destruct (proj1 (Hq' q')); lra.
Qed.

(** The axes once their ticks are set and measured. *)
Lemma ticked_axes `{NumText xq} `{MathLib xq} page fuel (g : geometry xq) p1 p2 W :
  (∀ html, size (div_height page html) ∧ size (children_width page html) ∧ size (label_height page html)) →
  canvasWidth g = XFin W → 0 <= W →
  (∀ s a, get_slot p1 s = Some a → options_ok (ax_options a)) →
  each_slot (λ p s ax, ax ← tick_axis fuel (canvasWidth g) (canvasHeight g) (axes_of p s.1) ax;
                       Ok (measureTickLabels page g ax)) (allocated p1) p1 = Ok p2 →
  ∀ s a', get_slot p2 s = Some a' →
    (s ∈ allocated p1 ↔ reserved a' = true) ∧ (reserved a' = true → ready a').
Proof.
  intros Hpage EW HW Hopt E s a' Ha'.
  assert (HR : ∀ (p : plot xq) (s : slot) a a', (ax ← tick_axis fuel (canvasWidth g) (canvasHeight g) (axes_of p s.1) a;
                       Ok (measureTickLabels page g ax)) = Ok a' →
    reserved a' = reserved a ∧ (options_ok (ax_options a) → ready a')).
  { intros q t a b (c & (O1 & _ & O3)%tick_axis_frame & [= <-])%result_bind_ok.
    split; [by unfold reserved; simpl; rewrite O3|]. intros Ho. rewrite <- O1 in Ho.
    by apply (measure_ready page Hpage W). }
  pose proof (each_slot_spec _ _ _ _ _ HR (allocated_nodup p1) E s) as S.
  destruct (get_slot p1 s) as [a|] eqn:Ea; [|congruence].
  destruct S as (b & Eb & Hb). rewrite Ha' in Eb. injection Eb as <-.
  rewrite elem_of_allocated, Ea. destruct (decide (s ∈ allocated p1)) as [Hin|Hin].
  - destruct Hb as [Hr Hready]. apply elem_of_allocated in Hin as (c & Ec & Hc).
    rewrite Ea in Ec. injection Ec as <-. rewrite Hr. split; [naive_solver|]. intros _. eauto.
  - subst a'. split; [naive_solver|]. intros Hr. exfalso. apply Hin. apply elem_of_allocated. eauto.
Qed.

(** ** Properties *)

(** C20: [setupGrid] lays the axes out without overlap: the box of every axis
    that reserves space lies between the edge of the canvas and the plot
    area, on the side of its position, and two boxes on the same side do not
    overlap, for any number of axes and any label sizes. *)
Theorem setupGrid_boxes `{NumText xq} `{MathLib xq} grid page fuel p g p' g' W Hc m :
  gr_show grid = true →
  size (gr_labelMargin grid) → size (gr_axisMargin grid) → size (gr_borderWidth grid) →
  min_margin grid p = XFin m →
  (∀ html, size (div_height page html) ∧ size (children_width page html) ∧ size (label_height page html)) →
  canvasWidth g = XFin W → canvasHeight g = XFin Hc → 0 <= W →
  (∀ s a, get_slot p s = Some a → options_ok (ax_options a)) →
  setupGrid grid page fuel p g = Ok (p', g') →
  (∀ s a, get_slot p' s = Some a → reserved a = true →
     ∃ lo hi o, placed W Hc a lo hi ∧ 0 <= lo <= hi ∧ offset (side_of a) g' = XFin o ∧ hi <= o) ∧
  (∀ s s' a a' lo hi lo' hi', s ≠ s' →
     get_slot p' s = Some a → reserved a = true → get_slot p' s' = Some a' → reserved a' = true →
     side_of a = side_of a' → placed W Hc a lo hi → placed W Hc a' lo' hi' → hi <= lo' ∨ hi' <= lo).
Proof.
  intros Hshow Hlabel Hmargin Hborder Hmin Hpage EW EH HW Hopt. unfold setupGrid. rewrite Hshow.
  intros ([p3 g3] & E & [= <- <-])%result_bind_ok.
  apply result_bind_ok in E as (p2 & E2 & E3).
  set (p1 := map_axes begin_axis p) in *. set (g1 := with_offsets g _ _ _ _) in *.
  assert (Hopt1 : ∀ s a, get_slot p1 s = Some a → options_ok (ax_options a)).
  { intros s a. unfold p1. rewrite get_map_slot. destruct (get_slot p s) as [b|] eqn:Eb; [|done].
    intros [= <-]. pose proof (Hopt s b Eb) as Ho. unfold begin_axis, setRange. by repeat case_match. }
  pose proof (ticked_axes page fuel g1 p1 p2 W Hpage EW HW Hopt1 E2) as T.
  assert (I0 : allocating W Hc p2 (λ _, False) p2 g1).
  { split; try done. split; [done|]. split; [done|]. intros sd. exists 0. by destruct sd. }
  assert (I := allocate_all grid Hlabel Hmargin W Hc p2 (reverse (allocated p2)) _ _ _ I0
    ltac:(rewrite reverse_Permutation; apply allocated_nodup)).
  destruct (foldl (allocate_step grid) (p2, g1) (reverse (allocated p2))) as [q3 h3] eqn:EF.
  injection E3 as <- <-. cbn [fst snd] in I.
  assert (I' : allocating W Hc p2 (λ t, t ∈ reverse (allocated p2) ∨ False) q3 h3).
  { apply I. intros s Hs. split; [tauto|]. apply elem_of_reverse, elem_of_allocated in Hs as (a & Ea & Ha).
    exists a. split; [done|]. by apply (T s a Ea). }
  clear I. destruct I' as [J1 J2 J3 J4].
  assert (Hm3 : min_margin grid q3 = XFin m).
  { pose proof (allocate_series grid (reverse (allocated p2)) p2 g1) as A. rewrite EF in A. simpl in A.
    unfold min_margin in *. by rewrite A, (each_slot_series _ _ _ _ E2). }
  assert (F : ∀ s b, get_slot q3 s = Some b → reserved b = true → s ∈ reverse (allocated p2) ∨ False).
  { intros s b Eb Hr. left. apply elem_of_reverse, elem_of_allocated.
    destruct (decide (s ∈ reverse (allocated p2))) as [Hin|Hin].
    - by apply elem_of_reverse, elem_of_allocated in Hin.
    - exists b. split; [|done]. rewrite <- J1; [done|tauto]. }
  split.
  - intros s a Ha Hr. destruct (final_axis W Hc _ _ _ _ _ _ Ha) as (b & Eb & Er & Esd & Hpl). rewrite Er in Hr.
    pose proof (F s b Eb Hr) as Hin.
    destruct (J3 s Hin) as (a0 & b' & lo & hi & o & _ & Eb' & _ & _ & Hp & P1 & P2 & Eo & P3).
    rewrite Eb in Eb'. injection Eb' as <-.
    destruct (offset_border grid q3 h3 (side_of b) o m Hm3 Hborder Eo) as (o' & Eo' & Ho').
    exists lo, hi, o'. rewrite Esd. repeat split; try done; [by apply Hpl|lra].
  - intros s s' a a' lo hi lo' hi' Hne Ha Hr Ha' Hr' Hsd Hp Hp'.
    destruct (final_axis W Hc _ _ _ _ _ _ Ha) as (b & Eb & Er & Esd & Hpl).
    destruct (final_axis W Hc _ _ _ _ _ _ Ha') as (b' & Eb' & Er' & Esd' & Hpl').
    rewrite Er in Hr. rewrite Er' in Hr'.
    apply (J4 s s' b b' lo hi lo' hi' (F s b Eb Hr) (F s' b' Eb' Hr') Hne Eb Eb'); [congruence|by apply Hpl|by apply Hpl'].
Qed.

(** ** A sample *)

(** A plot with an x axis and two y axes on the left, with data. *)
Definition sample_layout : plot xq :=
  let ax n d o := with_data (new_axis n d o) (AxisData (Number (XFin 1)) (Number (XFin 9)) true) in
  Plot [] [Some (ax 1%nat DirX default_xaxis)]
    [Some (ax 1%nat DirY default_yaxis); None; Some (ax 3%nat DirY default_yaxis)].
Definition sample_page : page_metrics xq := PageMetrics (λ _, XFin 12) (λ _, XFin 30) (λ _, XFin 12).
Definition sample_canvas : geometry xq :=
  Geometry (XFin 400) (XFin 300) XNaN XNaN XNaN XNaN XNaN XNaN.

Lemma sample_layout_options s a : get_slot sample_layout s = Some a → options_ok (ax_options a).
Proof.
  destruct s as [[] [|[|[|i]]]]; simpl; try done; intros [= <-]; repeat split; done.
Qed.

Lemma setupGrid_boxes_witness :
  let _ := Exact.exact_text in let _ := Exact.exact_math in
  ∃ p' g', setupGrid default_grid sample_page 100 sample_layout sample_canvas = Ok (p', g') ∧
  (∀ s a, get_slot p' s = Some a → reserved a = true →
     ∃ lo hi o, placed 400 300 a lo hi ∧ 0 <= lo <= hi ∧ offset (side_of a) g' = XFin o ∧ hi <= o) ∧
  (∀ s s' a a' lo hi lo' hi', s ≠ s' →
     get_slot p' s = Some a → reserved a = true → get_slot p' s' = Some a' → reserved a' = true →
     side_of a = side_of a' → placed 400 300 a lo hi → placed 400 300 a' lo' hi' → hi <= lo' ∨ hi' <= lo).
Proof.
  eexists _, _. split; [vm_compute; reflexivity|].
  apply (@setupGrid_boxes Exact.exact_text Exact.exact_math default_grid sample_page 100 sample_layout
    sample_canvas _ _ 400 300 0); try reflexivity; try discriminate.
  - by exists 5.
  - by exists 8.
  - by exists 2.
  - intros html. split; [by exists 12|split; [by exists 30|by exists 12]].
  - apply sample_layout_options.
Defined.
