(* ===== verification/FlotLegend.v ===== *)
(** The legend in [static/flot/jquery.flot.js] ([insertLegend]): the text of
    its table and the element it goes to. *)

From S2P Require Import Prelude Numbers ExactNum JsText JsValue Color FlotModel FlotLayout.
From Stdlib Require Import Ascii.

Record legend_options (num : Type) := LegendOptions {
  lg_show : bool; lg_noColumns : nat;
  lg_labelFormatter : option (string → series num → string);
  lg_labelBoxBorderColor : string; lg_container : bool;   (* whether a container is given *)
  lg_position : string; lg_margin : num + num * num;
  lg_backgroundColor : option string; lg_backgroundOpacity : num;
}.
Arguments LegendOptions {num}. Arguments lg_show {num} _. Arguments lg_noColumns {num} _.
Arguments lg_labelFormatter {num} _. Arguments lg_labelBoxBorderColor {num} _.
Arguments lg_container {num} _. Arguments lg_position {num} _. Arguments lg_margin {num} _.
Arguments lg_backgroundColor {num} _. Arguments lg_backgroundOpacity {num} _.

(** What is put in the page: nothing, a table in the container, or a legend
    over the plot with an optional background. *)
Inductive legend_html :=
  | NoLegend
  | InContainer (table : string)
  | OverPlot (legend : string) (background : option string).

(** Fragments of the table and whether a row is open. *)
Definition legend_state : Type := list string * bool.

Section legend.
Context {num : Type} `{Num num} `{NumText num}.
Implicit Types (s : series num) (g : geometry num).
Local Open Scope num_scope.

Variable legend : legend_options num.
Variable grid : grid_options num.

Definition default_legend : legend_options num :=
  LegendOptions true 1 None "#ccc" false "ne" (inl ⟨5⟩) None (of_ratio 85 100).

Definition legend_cells (color label : string) : string :=
  "<td " +:+ attr "class" "legendColorBox" +:+ "><div " +:+
  attr "style" ("border:1px solid " +:+ lg_labelBoxBorderColor legend +:+ ";padding:1px") +:+ "><div " +:+
  attr "style" ("width:4px;height:0;border:5px solid " +:+ color +:+ ";overflow:hidden") +:+
  "></div></div></td>" +:+ "<td " +:+ attr "class" "legendLabel" +:+ ">" +:+ label +:+ "</td>".

(** [i % options.legend.noColumns == 0]; the remainder by zero is NaN. *)
Definition row_starts (i : nat) : bool :=
  match lg_noColumns legend with 0 => false | n => (i mod n =? 0)%nat end.

Definition legend_step (st : legend_state) (e : nat * series num) : legend_state :=
  let '(fragments, rowStarted) := st in
  let '(i, s) := e in
  match s_label s with
  | None | Some "" => st
  | Some label =>
      let '(fragments, rowStarted) :=
        if row_starts i
        then (fragments ++ (if rowStarted then ["</tr>"] else []) ++ ["<tr>"], true)
        else (fragments, rowStarted) in
      let label := match lg_labelFormatter legend with Some lf => lf label s | None => label end in
      (fragments ++ [legend_cells (s_color s) label], rowStarted)
  end.

Definition legend_fragments (ss : list (series num)) : list string :=
  let '(fragments, rowStarted) := foldl legend_step ([], false) (imap pair ss) in
  fragments ++ (if rowStarted then ["</tr>"] else []).

Definition legend_table (style : string) (fragments : list string) : string :=
  "<table " +:+ attr "style" (style +:+ "font-size:smaller;color:" +:+ gr_color grid) +:+ ">" +:+
  str_join "" fragments +:+ "</table>".

Definition char_at (i : nat) (s : string) (c : Ascii.ascii) : bool :=
  match String.get i s with Some d => Ascii.eqb c d | None => false end.

(** The position of the legend in the plot. *)
Definition legend_pos g : string :=
  let p := lg_position legend in
  let '(mx, my) := match lg_margin legend with inl m => (m, m) | inr m => m end in
  (if char_at 0 p "n"%char then "top:" +:+ to_string (my + off_top g) +:+ "px;"
   else if char_at 0 p "s"%char then "bottom:" +:+ to_string (my + off_bottom g) +:+ "px;" else "") +:+
  (if char_at 1 p "e"%char then "right:" +:+ to_string (mx + off_right g) +:+ "px;"
   else if char_at 1 p "w"%char then "left:" +:+ to_string (mx + off_left g) +:+ "px;" else "").

(** The color behind the legend; [styles] are the background colors of the
    legend and its ancestors. *)
Definition legend_background (styles : list string) : string :=
  match lg_backgroundColor legend with
  | Some c => c
  | None =>
      let c := match gr_backgroundColor grid with
               | Some (ColorText s) => if String.eqb s "" then extract styles else parse s
               | _ => extract styles
               end in
      toString (Color (r c) (g c) (b c) ⟨1⟩)
  end.

(** [width] and [height] are those of the table in the page. *)
Definition insertLegend (styles : list string) (width height : num) (ss : list (series num)) g
    : legend_html :=
  if negb (lg_show legend) then NoLegend
  else match legend_fragments ss with
  | [] => NoLegend
  | fragments =>
      if lg_container legend then InContainer (legend_table "" fragments)
      else
        let pos := legend_pos g in
        OverPlot
          ("<div " +:+ attr "class" "legend" +:+ ">" +:+
           legend_table ("position:absolute;" +:+ pos +:+ ";") fragments +:+ "</div>")
          (if lg_backgroundOpacity legend ≠? ⟨0⟩ then
             Some ("<div " +:+ attr "style" ("position:absolute;width:" +:+ to_string width +:+
               "px;height:" +:+ to_string height +:+ "px;" +:+ pos +:+ "background-color:" +:+
               legend_background styles +:+ ";") +:+ "> </div>")
           else None)
  end.
End legend.

(** ** The rows of the table *)

Section rows.
Context {num : Type} `{Num num} `{NumText num}.
Implicit Types (s : series num) (ss : list (series num)).
Variable legend : legend_options num.

(** A series that appears in the legend, and its cells. *)
Definition labelled s : Prop := ∃ l, s_label s = Some l ∧ l ≠ "".
Definition cells s : string :=
  let label := default "" (s_label s) in
  legend_cells legend (s_color s)
    (match lg_labelFormatter legend with Some lf => lf label s | None => label end).

(** A complete row. *)
Definition row (ss : list (series num)) : list string := ["<tr>"] ++ map cells ss ++ ["</tr>"].

Lemma legend_step_labelled fragments started i s : labelled s →
  legend_step legend (fragments, started) (i, s)
  = if row_starts legend i
    then (fragments ++ (if started then ["</tr>"] else []) ++ ["<tr>"] ++ [cells s], true)
    else (fragments ++ [cells s], started).
Proof.
  intros (l & El & Hl). unfold legend_step, cells. rewrite El.
  destruct l as [|c l]; [done|]. destruct (row_starts legend i); [|done].
  cbn [default]. by rewrite <- !app_assoc.
Qed.

(** The cells of a row after its first one. *)
Lemma legend_row_cells c k n fragments ss : lg_noColumns legend = c → Forall labelled ss →
  k + length ss ≤ c → 0 < k →
  foldl (legend_step legend) (fragments, true) (imap (λ j s, (n * c + k + j, s)) ss)
  = (fragments ++ map cells ss, true).
Proof.
  intros Hc Hl. revert k fragments. induction Hl as [|s ss Hs Hl IH]; intros k fragments Hk Hpos.
  { simpl. by rewrite app_nil_r. }
  cbn [imap foldl]. rewrite Nat.add_0_r, legend_step_labelled by done.
  assert (row_starts legend (n * c + k) = false) as ->.
  { unfold row_starts. rewrite Hc. simpl in Hk. destruct c as [|c]; [lia|]. apply Nat.eqb_neq.
    rewrite Nat.add_comm, Nat.Div0.mod_add, Nat.mod_small; simpl in *; lia. }
  rewrite (imap_ext _ (λ j s, (n * c + S k + j, s))) by (intros j t _; simpl; f_equal; lia).
  rewrite IH by (simpl in *; lia). by rewrite <- app_assoc.
Qed.

(** A row, from its first series. *)
Lemma legend_row c n fragments started ss : lg_noColumns legend = c → Forall labelled ss →
  0 < length ss ≤ c →
  foldl (legend_step legend) (fragments, started) (imap (λ j s, (n * c + j, s)) ss)
  = (fragments ++ (if started then ["</tr>"] else []) ++ ["<tr>"] ++ map cells ss, true).
Proof.
  intros Hc Hl Hlen. destruct Hl as [|s ss Hs Hl]; simpl in Hlen; [lia|].
  cbn [imap foldl]. rewrite Nat.add_0_r, legend_step_labelled by done.
  assert (row_starts legend (n * c) = true) as ->.
  { unfold row_starts. rewrite Hc. destruct c as [|c]; [lia|].
    by rewrite Nat.Div0.mod_mul. }
  rewrite (imap_ext _ (λ j s, (n * c + 1 + j, s))) by (intros j t _; simpl; f_equal; lia).
  rewrite (legend_row_cells c 1 n) by (done || lia). by rewrite <- !app_assoc.
Qed.

Lemma legend_rows_from c n fragments started rows : lg_noColumns legend = c →
  Forall (λ r, 0 < length r ≤ c ∧ Forall labelled r) rows →
  (∀ i r, rows !! i = Some r → S i < length rows → length r = c) → (n = 0 → started = false) →
  (0 < n → started = true) →
  let '(f, st) := foldl (legend_step legend) (fragments, started)
                    (imap (λ j s, (n * c + j, s)) (concat rows)) in
  f ++ (if st then ["</tr>"] else [])
  = fragments ++ (if started then ["</tr>"] else []) ++ concat (map row rows).
Proof.
  intros Hc Hrows. revert n fragments started. induction Hrows as [|r rows [Hr Hl] Hrows IH];
    intros n fragments started Hfull Hz Hn.
  { simpl. by rewrite app_nil_r. }
  cbn [concat]. rewrite imap_app, foldl_app, (legend_row c) by done.
  destruct rows as [|r' rows].
  { simpl. unfold row. rewrite !app_nil_r, <- !app_assoc. done. }
  assert (El : length r = c) by (apply (Hfull 0); [done|simpl; lia]).
  rewrite (imap_ext _ (λ j s, (S n * c + j, s))) by (intros j t _; simpl; f_equal; lia).
  specialize (IH (S n) (fragments ++ (if started then ["</tr>"] else []) ++ ["<tr>"] ++ map cells r) true).
  destruct (foldl _ _ _) as [f st]. rewrite IH; [|intros i t Hi Hlt; apply (Hfull (S i)); [done|simpl in *; lia]|lia|done].
  cbn [map concat]. unfold row at 3. by rewrite <- !app_assoc.
Qed.

(** When every series has a label, the legend is a table of complete rows:
    the series in their order, [noColumns] in each row (fewer in the last),
    every row opened and closed once. *)
Theorem legend_rows ss : 0 < lg_noColumns legend → Forall labelled ss →
  legend_fragments legend ss = concat (map row (chunk (lg_noColumns legend) ss)).
Proof.
  intros Hc Hl. set (c := lg_noColumns legend) in *.
  pose proof (legend_rows_from c 0 [] false (chunk c ss) eq_refl) as G.
  rewrite concat_chunk in G by done. unfold legend_fragments.
  change (imap pair ss) with (imap (λ j s, (0 * c + j, s)) ss).
  destruct (foldl _ _ _) as [f st]. apply G; [|by apply chunk_full|done|lia].
  apply Forall_forall. intros r Hr. split; [by eapply chunk_sizes|].
  rewrite <- (concat_chunk c ss Hc) in Hl. apply Forall_concat in Hl.
  rewrite Forall_forall in Hl. by apply Hl.
Qed.
End rows.

Definition named (l : string) : series xq :=
  let s := default_series [] in
  Series (s_id s) (Some l) "red" (s_lines s) (s_points s) (s_bars s) (s_shadowSize s) (s_plugin s) [] (s_datapoints s)
    1 1 true true None.
Definition two_columns : legend_options xq :=
  LegendOptions true 2 None "#ccc" false "ne" (inl (of_Z 5)) None (of_ratio 85 100).

Lemma legend_rows_witness :
  legend_fragments two_columns [named "a"; named "b"; named "c"]
  = concat (map (row two_columns) (chunk 2 [named "a"; named "b"; named "c"])).
Proof.
  apply legend_rows; [simpl; lia|]. repeat constructor; eexists; (split; [reflexivity|discriminate]).
Defined.
