(* ===== verification/FlotHover.v ===== *)
(** Interaction in [static/flot/jquery.flot.js]: [findNearbyItem],
    [triggerClickHoverEvent], the highlights and the overlay.  A series
    object is named by its index in the array of series, so the highlights
    are those of the current data. *)

From S2P Require Import Prelude Numbers ExactNum JsText JsValue Color FlotModel FlotAxis Canvas FlotLines FlotMarks FlotLayout.

(** A highlight: the series, the point, and the event that set it ([None] when
    it was set by a call). *)
Record highlight_item (num : Type) := Highlight {
  h_series : nat; h_point : list (jsv num); h_auto : option string;
}.
Arguments Highlight {num} _ _ _. Arguments h_series {num} _. Arguments h_point {num} _.
Arguments h_auto {num} _.

(** The highlights and whether a redraw of the overlay is scheduled. *)
Record overlay (num : Type) := Overlay {
  highlights : list (highlight_item num); redrawTimeout : bool;
}.
Arguments Overlay {num} _ _. Arguments highlights {num} _. Arguments redrawTimeout {num} _.

(** A point argument: an index, or a point. *)
Inductive point_arg (num : Type) := PointIndex (n : nat) | PointAt (p : list (jsv num)).
Arguments PointIndex {num} _. Arguments PointAt {num} _.

(** What listeners receive: the position and the item, with its series,
    index, point and page position. *)
Record hover_item (num : Type) := HoverItem {
  it_series : nat; it_index : nat; it_datapoint : list (jsv num); it_pageX : num; it_pageY : num;
}.
Arguments HoverItem {num} _ _ _ _ _. Arguments it_series {num} _. Arguments it_index {num} _.
Arguments it_datapoint {num} _. Arguments it_pageX {num} _. Arguments it_pageY {num} _.

Record triggered (num : Type) := Triggered {
  tr_name : string; tr_pos : list (string * num); tr_item : option (hover_item num);
}.
Arguments Triggered {num} _ _ _. Arguments tr_name {num} _. Arguments tr_pos {num} _.
Arguments tr_item {num} _.

Section hover.
Context {num : Type} `{Num num} `{NumText num} `{MathLib num}.
Implicit Types (p : plot num) (s : series num) (ax : axis num) (g : geometry num) (o : overlay num).
Local Open Scope num_scope.

(** ** The item under the mouse *)

(** [smallestDistance] and [item]. *)
Definition near_state : Type := num * option (nat * nat).

(** The reach of the mouse along an axis, in data units. *)
Definition reach (maxDistance : num) ax : num :=
  match o_inverseTransform (ax_options ax) with
  | Some _ => nmax_value
  | None => maxDistance / v_scale (ax_view ax)
  end.

(** One point of a series with lines or points. *)
Definition near_point (maxDistance mouseX mouseY : num) (i : nat) s axisx axisy (st : near_state)
    (j : nat) : near_state :=
  let ps := pointsize s in
  let points := dp_points (s_datapoints s) in
  let mx := c2p axisx mouseX in
  let my := c2p axisy mouseY in
  let maxx := reach maxDistance axisx in
  let maxy := reach maxDistance axisy in
  let x := aget points (Z.of_nat j) in
  let y := to_num (aget points (Z.of_nat j + 1)) in
  if is_null x then st
  else
    let x := to_num x in
    if (x - mx >? maxx) || (x - mx <? - maxx) || (y - my >? maxy) || (y - my <? - maxy) then st
    else
      let dx := nabs (p2c axisx x - mouseX) in
      let dy := nabs (p2c axisy y - mouseY) in
      let dist := dx * dx + dy * dy in
      if dist <? st.1 then (dist, Some (i, (j / ps)%nat)) else st.

(** One bar. *)
Definition near_bar (mx my : num) (i : nat) s (st : near_state) (j : nat) : near_state :=
  let points := dp_points (s_datapoints s) in
  let at_ k := aget points (Z.of_nat j + k) in
  let barLeft := bar_offset (s_bars s) in
  let barRight := barLeft + bars_barWidth (s_bars s) in
  if is_null (at_ 0%Z) then st
  else
    let x := to_num (at_ 0%Z) in
    let y := to_num (at_ 1%Z) in
    let b := to_num (at_ 2%Z) in
    let inside :=
      if bars_horizontal (s_bars s)
      then (mx <=? nmax b x) && (mx >=? nmin b x) && (my >=? y + barLeft) && (my <=? y + barRight)
      else (mx >=? x + barLeft) && (mx <=? x + barRight) && (my >=? nmin b y) && (my <=? nmax b y) in
    if inside then (st.1, Some (i, (j / pointsize s)%nat)) else st.

Definition near_series (maxDistance mouseX mouseY : num) (seriesFilter : series num → bool) p
    (st : near_state) (i : nat) : near_state :=
  match p_series p !! i with
  | None => st
  | Some s =>
      if negb (seriesFilter s) then st
      else match get_axis (p_xaxes p) (s_xaxis s), get_axis (p_yaxes p) (s_yaxis s) with
      | Some axisx, Some axisy =>
          let idx := group_indices (pointsize s) (length (dp_points (s_datapoints s))) in
          let st :=
            if lines_show (s_lines s) || points_show (s_points s)
            then foldl (near_point maxDistance mouseX mouseY i s axisx axisy) st idx
            else st in
          match bars_show (s_bars s), st.2 with
          | true, None => foldl (near_bar (c2p axisx mouseX) (c2p axisy mouseY) i s) st idx
          | _, _ => st
          end
      | _, _ => st
      end
  end.

(** The series and the index of the point, the last series first. *)
Definition findNearbyItem (maxDistance mouseX mouseY : num) (seriesFilter : series num → bool) p
    : option (nat * nat) :=
  (foldl (near_series maxDistance mouseX mouseY seriesFilter p)
     (maxDistance * maxDistance + ⟨1⟩, None) (reverse (seq 0 (length (p_series p))))).2.

(** [points.slice(ps * j, ps * (j + 1))] *)
Definition point_of s (j : nat) : list (jsv num) :=
  take (pointsize s) (drop (pointsize s * j) (dp_points (s_datapoints s))).

(** ** Highlights *)

Definition triggerRedrawOverlay o : overlay num := Overlay (highlights o) true.

(** [h.series == s && h.point[0] == p[0] && h.point[1] == p[1]] *)
Definition same_point (i : nat) (pt : list (jsv num)) (h : highlight_item num) : bool :=
  (h_series h =? i)%nat && loose_eq (aget (h_point h) 0) (aget pt 0)
  && loose_eq (aget (h_point h) 1) (aget pt 1).

Definition indexOfHighlight (i : nat) (pt : list (jsv num)) o : option nat :=
  fst <$> list_find (λ h, same_point i pt h) (highlights o).

Definition set_auto (h : highlight_item num) : highlight_item num :=
  Highlight (h_series h) (h_point h) None.

(** [highlight] with a series of the plot. *)
Definition highlight p (i : nat) (pt : point_arg num) (auto : option string) o : overlay num :=
  let pt := match pt with
            | PointIndex n => match p_series p !! i with Some s => point_of s n | None => [] end
            | PointAt pt => pt
            end in
  match indexOfHighlight i pt o with
  | None => triggerRedrawOverlay (Overlay (highlights o ++ [Highlight i pt auto]) (redrawTimeout o))
  | Some k => match auto with
              | None => Overlay (alter set_auto k (highlights o)) (redrawTimeout o)
              | Some _ => o
              end
  end.

(** [unhighlight] of a point; an index names a raw point of the data. *)
Definition unhighlight p (i : nat) (pt : point_arg num) o : result (overlay num) :=
  let raw := match pt with
             | PointIndex n => match p_series p !! i with
                               | Some s => mjoin (s_data s !! n)
                               | None => None
                               end
             | PointAt pt => Some pt
             end in
  match raw with
  | None =>
      (* a missing point is only read when the series has a highlight *)
      if existsb (λ h, h_series h =? i)%nat (highlights o)
      then Throw "TypeError: cannot read property of null" else Ok o
  | Some pt =>
      Ok match indexOfHighlight i pt o with
         | Some k => triggerRedrawOverlay (Overlay (delete k (highlights o)) (redrawTimeout o))
         | None => o
         end
  end.

(** [unhighlight()] *)
Definition unhighlight_all o : overlay num := triggerRedrawOverlay (Overlay [] (redrawTimeout o)).

(** ** Events *)

(** Clearing the highlights that the event set, but for that of the item:
    the index advances even after a removal. *)
Fixpoint clear_auto (fuel : nat) (eventname : string) (item : option (hover_item num)) (i : nat) o
    : overlay num :=
  match fuel, highlights o !! i with
  | S fuel, Some h =>
      let same := match item with
                  | Some it => same_point (it_series it) (it_datapoint it) h
                  | None => false
                  end in
      let o :=
        if bool_decide (h_auto h = Some eventname) && negb same then
          match indexOfHighlight (h_series h) (h_point h) o with
          | Some k => triggerRedrawOverlay (Overlay (delete k (highlights o)) (redrawTimeout o))
          | None => o
          end
        else o in
      clear_auto fuel eventname item (S i) o
  | _, _ => o
  end.

(** The event holder is at [(left, top)] in the page. *)
Definition triggerClickHoverEvent (grid : grid_options num) (eventname : string)
    (pageX pageY left top : num) (seriesFilter : series num → bool) p g o
    : overlay num * triggered num :=
  let canvasX := pageX - left - off_left g in
  let canvasY := pageY - top - off_top g in
  let pos := canvasToAxisCoords p canvasX canvasY ++ [("pageX", pageX); ("pageY", pageY)] in
  let item :=
    '(i, j) ← findNearbyItem (gr_mouseActiveRadius grid) canvasX canvasY seriesFilter p;
    s ← p_series p !! i;
    axisx ← get_axis (p_xaxes p) (s_xaxis s);
    axisy ← get_axis (p_yaxes p) (s_yaxis s);
    let pt := point_of s j in
    Some (HoverItem i j pt
      (parse_int_num (p2c axisx (to_num (aget pt 0)) + left + off_left g))
      (parse_int_num (p2c axisy (to_num (aget pt 1)) + top + off_top g))) in
  let o :=
    if gr_autoHighlight grid then
      let o := clear_auto (length (highlights o)) eventname item 0 o in
      match item with
      | Some it => highlight p (it_series it) (PointAt (it_datapoint it)) (Some eventname) o
      | None => o
      end
    else o in
  (o, Triggered eventname pos item).

(** The handlers; [None] when the event is not forwarded. *)
Inductive mouse_event (num : Type) := MouseMove (x y : num) | MouseLeave (x y : num) | MouseClick (x y : num).
Arguments MouseMove {num} _ _. Arguments MouseLeave {num} _ _. Arguments MouseClick {num} _ _.

Definition on_mouse (grid : grid_options num) (left top : num) p g o (e : mouse_event num)
    : overlay num * option (triggered num) :=
  let forward name x y filter :=
    let '(o, t) := triggerClickHoverEvent grid name x y left top filter p g o in (o, Some t) in
  match e with
  | MouseMove x y => if gr_hoverable grid then forward "plothover" x y s_hoverable else (o, None)
  | MouseLeave x y => if gr_hoverable grid then forward "plothover" x y (λ _, false) else (o, None)
  | MouseClick x y => forward "plotclick" x y s_clickable
  end.

(** ** The overlay *)

Variable handlers : list (string * symbol num).

Definition half_color (c : string) : string := toString (scale [A] (of_ratio 1 2) (parse c)).

Definition drawPointHighlight s axisx axisy (pt : list (jsv num)) : result (list (canvas_op num)) :=
  let x := to_num (aget pt 0) in
  let y := to_num (aget pt 1) in
  if (x <? ax_min axisx) || (x >? ax_max axisx) || (y <? ax_min axisy) || (y >? ax_max axisy)
  then Ok []
  else
    let pointRadius := points_radius (s_points s) + points_lineWidth (s_points s) / ⟨2⟩ in
    path ← draw_symbol handlers (points_symbol (s_points s)) (p2c axisx x) (p2c axisy y)
             (of_ratio 3 2 * pointRadius) false;
    Ok ([OpLineWidth pointRadius; OpStrokeStyle (PaintText (half_color (s_color s))); OpBeginPath] ++
        path ++ [OpClosePath; OpStroke]).

Definition drawBarHighlight s axisx axisy (pt : list (jsv num)) : list (canvas_op num) :=
  let b := s_bars s in
  let barLeft := bar_offset b in
  let base := aget pt 2 in
  [OpLineWidth (bars_lineWidth b); OpStrokeStyle (PaintText (half_color (s_color s)))] ++
  drawBar (to_num (aget pt 0)) (to_num (aget pt 1)) (if truthy base then to_num base else ⟨0⟩)
    barLeft (barLeft + bars_barWidth b) ⟨0⟩ (Some (λ _ _, Some (PaintText (half_color (s_color s)))))
    axisx axisy (bars_horizontal b) (bars_lineWidth b).

Fixpoint draw_highlights p (hs : list (highlight_item num)) : result (list (canvas_op num)) :=
  match hs with
  | [] => Ok []
  | h :: hs =>
      ops ← match p_series p !! h_series h with
            | Some s =>
                match get_axis (p_xaxes p) (s_xaxis s), get_axis (p_yaxes p) (s_yaxis s) with
                | Some axisx, Some axisy =>
                    if bars_show (s_bars s) then Ok (drawBarHighlight s axisx axisy (h_point h))
                    else drawPointHighlight s axisx axisy (h_point h)
                | _, _ => Throw "TypeError: axis is undefined"
                end
            | None => Throw "TypeError: series is undefined"
            end;
      rest ← draw_highlights p hs;
      Ok (ops ++ rest)
  end.

(** The redraw; [hook_drawOverlay] is what the plugins draw after it. *)
Definition drawOverlay (hook_drawOverlay : list (canvas_op num)) p g o
    : overlay num * result (list (canvas_op num)) :=
  (Overlay (highlights o) false,
   hs ← draw_highlights p (highlights o);
   Ok ([OpSave; OpClearRect ⟨0⟩ ⟨0⟩ (canvasWidth g) (canvasHeight g);
        OpTranslate (off_left g) (off_top g)] ++ hs ++ [OpRestore] ++ hook_drawOverlay)).
End hover.
Arguments mouse_event _ : clear implicits.
Arguments MouseMove {num} _ _. Arguments MouseLeave {num} _ _. Arguments MouseClick {num} _ _.
