(* ===== verification/FlotHoverSpec.v ===== *)
(** What hovering does: the item found is a nearest point of those within the
    active radius, and the highlights that events set stay unique. *)

From stdpp Require Import sets relations.
From Stdlib Require Import QArith Lqa.
From S2P Require Import Prelude Numbers ExactNum JsText JsValue FlotModel FlotAxis Canvas FlotLines FlotLineSpec FlotMarks FlotMarkSpec FlotLayout FlotHover.

#[local] Open Scope Q_scope.

(** ** The first minimum of a list *)

Section first_minimum.
Context {I : Type}.

(** The scan that keeps the smallest value below [b], the first one among equals. *)
Definition keep_smaller (st : xq * option I) (c : Q * I) : xq * option I :=
  if nltb (XFin c.1) st.1 then (XFin c.1, Some c.2) else st.

Definition first_min (b : Q) (l : list (Q * I)) (r : option I) : Prop :=
  match r with
  | Some i => ∃ pre d post, l = pre ++ (d, i) :: post ∧ d < b ∧
      Forall (λ c, d < c.1) pre ∧ Forall (λ c, d <= c.1) post
  | None => Forall (λ c, b <= c.1) l
  end.

(** The state of the scan after [l]. *)
Definition scanned (b : Q) (l : list (Q * I)) (st : xq * option I) : Prop :=
  ∃ v, st.1 = XFin v ∧ Forall (λ c, v <= c.1) l ∧ v <= b ∧
    match st.2 with
    | Some i => ∃ pre post, l = pre ++ (v, i) :: post ∧ v < b ∧ Forall (λ c, v < c.1) pre
    | None => v = b
    end.

Lemma scanned_first_min b l st : scanned b l st → first_min b l st.2.
Proof.
  intros (v & _ & Hall & _ & Hst). unfold first_min. destruct (st.2) as [i|]; [|by subst v].
  destruct Hst as (pre & post & -> & Hb & Hpre). exists pre, v, post. repeat split; try done.
  by apply Forall_app in Hall as [_ [_ ?]%Forall_cons].
Qed.

Lemma scan_step b l st c : scanned b l st → scanned b (l ++ [c]) (keep_smaller st c).
Proof.
  intros (v & Ev & Hall & Hvb & Hst). unfold keep_smaller. rewrite Ev. destruct c as [d i]. simpl.
  destruct (nltb (XFin d) (XFin v)) eqn:C; xq_hyps.
  - assert (Hpre : Forall (λ c : Q * I, d < c.1) l).
    { eapply Forall_impl; [exact Hall|]. intros c Hc. simpl in *. lra. }
    exists d. split; [done|]. split; [|split; [lra|]].
    + apply Forall_app. split; [|repeat constructor; apply Qle_refl].
      eapply Forall_impl; [exact Hpre|]. intros c Hc. simpl in *. lra.
    + exists l, []. split; [done|]. split; [lra|done].
  - exists v. split; [done|]. split; [apply Forall_app; split; [done|by repeat constructor]|].
    split; [done|]. destruct (st.2) as [j|]; [|done].
    destruct Hst as (pre & post & -> & Hb & Hpre). exists pre, (post ++ [(d, i)]).
    by rewrite <- app_assoc.
Qed.

Lemma scan_all b l l' st : scanned b l st → scanned b (l ++ l') (foldl keep_smaller st l').
Proof.
  revert l st. induction l' as [|c l' IH]; intros l st Hst; [by rewrite app_nil_r|].
  simpl. replace (l ++ c :: l') with ((l ++ [c]) ++ l') by by rewrite <- app_assoc.
  apply IH. by apply scan_step.
Qed.
End first_minimum.

(** ** The points under the mouse *)

(** A series as the mouse sees it: its points, the map to the canvas of its
    axes, and whether the search considers it. *)
Record near_data := NearData { nd_points : list (option (Q * Q)); nd_map : mapping; nd_shown : bool }.

Definition absq (q : Q) : Q := if nltb (XFin q) (XFin 0) then - q else q.

(** The square of the distance in pixels. *)
Definition dist2 (f : mapping) (mouse p : Q * Q) : Q :=
  let dx := absq ((p.1 - mx f) * kx f - mouse.1) in
  let dy := absq ((p.2 - my f) * ky f - mouse.2) in
  dx * dx + dy * dy.

(** Within [r] pixels of the mouse along each axis. *)
Definition within (f : mapping) (r : Q) (mouse p : Q * Q) : bool :=
  let dx := (p.1 - mx f) * kx f - mouse.1 in
  let dy := (p.2 - my f) * ky f - mouse.2 in
  (Qle_bool dx r && Qle_bool (- r) dx) && (Qle_bool dy r && Qle_bool (- r) dy).

(** The candidates of a series, then of all of them, the last series first. *)
Definition series_candidates (r : Q) (mouse : Q * Q) (i : nat) (D : near_data) : list (Q * (nat * nat)) :=
  if nd_shown D then
    omap (λ e : nat * option (Q * Q),
      match e.2 with
      | Some p => if within (nd_map D) r mouse p then Some (dist2 (nd_map D) mouse p, (i, e.1)) else None
      | None => None
      end) (imap pair (nd_points D))
  else [].
Definition candidates (r : Q) (mouse : Q * Q) (Ds : list near_data) : list (Q * (nat * nat)) :=
  concat (reverse (imap (series_candidates r mouse) Ds)).

(** An axis seen through a linear view, with its scale. *)
Definition near_axis (ax : axis xq) (m k : Q) : Prop :=
  linear_view ax m k ∧ o_inverseTransform (ax_options ax) = None ∧
  ∃ sc, v_scale (ax_view ax) = XFin sc ∧ 0 < sc ∧ (k == sc ∨ k == - sc).

(** What [near_data] describes: a series without bars. *)
Definition describes (filter : series xq → bool) (p : plot xq) (s : series xq) (D : near_data) : Prop :=
  bars_show (s_bars s) = false ∧
  nd_shown D = filter s && (lines_show (s_lines s) || points_show (s_points s)) ∧
  ∃ axisx axisy gs, get_axis (p_xaxes p) (s_xaxis s) = Some axisx ∧
    get_axis (p_yaxes p) (s_yaxis s) = Some axisy ∧
    near_axis axisx (mx (nd_map D)) (kx (nd_map D)) ∧ near_axis axisy (my (nd_map D)) (ky (nd_map D)) ∧
    (2 ≤ pointsize s)%nat ∧ dp_points (s_datapoints s) = concat gs ∧
    Forall2 (group_of (pointsize s)) gs (nd_points D).

Lemma ltb_or_false a b : nltb (XFin a) (XFin b) = negb (Qle_bool b a).
Proof. apply ltb_Qle. Qed.

(** The reach of the mouse, in data units and in pixels. *)
Lemma reach_spec ax m k r c q : near_axis ax m k →
  let u := nsub (XFin q) (c2p ax (XFin c)) in
  nltb (reach (XFin r) ax) u || nltb u (nneg (reach (XFin r) ax))
  = negb (Qle_bool ((q - m) * k - c) r && Qle_bool (- r) ((q - m) * k - c)).
Proof.
  intros ([Ht Hm Hk] & Hi & sc & Hsc & Hpos & Hks). unfold reach, c2p, inverse. rewrite Hi, Hm, Hk, Hsc.
  assert (Dk : ¬ k == 0) by (destruct Hks; lra). assert (Ds : ¬ sc == 0) by lra.
  rewrite !Exact.div_fin by done. cbn [nadd nsub nneg Exact.xq_num Exact.add Exact.sub Exact.neg].
  rewrite !ltb_Qle, <- negb_andb. f_equal. apply eq_iff_eq_true.
  rewrite !andb_true_iff, !Qle_bool_iff.
  set (u := q - (m + c / k)). set (v := r / sc).
  assert (Eu : (q - m) * k - c == u * k) by (unfold u; by field).
  assert (Ev : v * sc == r) by (unfold v; by field). clearbody u v. rewrite Eu, <- Ev.
  destruct Hks as [-> | ->]; split; intros [A B]; split; nra.
Qed.

Section near.
Context {text : NumText xq} {math : MathLib xq}.
Variables (r mX mY : Q).

Definition candidate (i : nat) (D : near_data) (e : nat * option (Q * Q)) : option (Q * (nat * nat)) :=
  match e.2 with
  | Some p => if within (nd_map D) r (mX, mY) p then Some (dist2 (nd_map D) (mX, mY) p, (i, e.1)) else None
  | None => None
  end.

Lemma near_point_spec i s D axisx axisy gs st j o :
  near_axis axisx (mx (nd_map D)) (kx (nd_map D)) → near_axis axisy (my (nd_map D)) (ky (nd_map D)) →
  (2 ≤ pointsize s)%nat → dp_points (s_datapoints s) = concat gs →
  Forall2 (group_of (pointsize s)) gs (nd_points D) → nd_points D !! j = Some o →
  near_point (XFin r) (XFin mX) (XFin mY) i s axisx axisy st (j * pointsize s)
  = match candidate i D (j, o) with Some c => keep_smaller st c | None => st end.
Proof.
  intros Hx Hy Hps Hpts Hgs Hj. unfold near_point, candidate. rewrite Hpts.
  pose proof (group_lookup (pointsize s) gs (nd_points D) j Hps Hgs (lookup_lt_Some _ _ _ Hj)) as G.
  rewrite Hj in G. simpl mjoin in G. destruct o as [[x y]|]; [|by rewrite G].
  destruct G as [-> ->]. cbn [is_null to_num fst snd].
  rewrite <- orb_assoc, (reach_spec axisx _ _ r mX x Hx), (reach_spec axisy _ _ r mY y Hy).
  unfold within. cbn [fst snd]. rewrite <- negb_andb.
  destruct (_ && _) eqn:W; cbn [negb]; [|done]. destruct Hx as (Vx & _), Hy as (Vy & _).
  rewrite (p2c_linear _ _ _ x Vx), (p2c_linear _ _ _ y Vy).
  cbn [nsub Exact.xq_num Exact.sub]. rewrite !Exact.abs_fin. unfold keep_smaller.
  by rewrite Nat.div_mul by lia.
Qed.

Lemma near_series_spec filter p i s D st :
  p_series p !! i = Some s → describes filter p s D →
  near_series (XFin r) (XFin mX) (XFin mY) filter p st i
  = foldl keep_smaller st (series_candidates r (mX, mY) i D).
Proof.
  intros Hs (Hbars & Hshown & axisx & axisy & gs & Hax & Hay & Hx & Hy & Hps & Hpts & Hgs).
  unfold near_series, series_candidates. rewrite Hs, Hax, Hay, Hbars, Hshown.
  destruct (filter s); cbn [negb andb]; [|done].
  destruct (lines_show (s_lines s) || points_show (s_points s)); [|done].
  assert (E : group_indices (pointsize s) (length (dp_points (s_datapoints s)))
              = map (λ e : nat * option (Q * Q), e.1 * pointsize s)%nat (imap pair (nd_points D))).
  { rewrite Hpts, (group_indices_concat (pointsize s) gs); [|lia|].
    2: { apply Forall_lookup. intros k g Hk. destruct (Forall2_lookup_l _ _ _ _ _ Hgs Hk) as (? & _ & El & _). done. }
    rewrite (Forall2_length _ _ _ Hgs). clear. apply list_eq. intros k.
    rewrite !list_lookup_fmap, list_lookup_imap.
    destruct (decide (k < length (nd_points D))%nat) as [Hk|Hk].
    - rewrite lookup_seq_lt by done. by destruct (lookup_lt_is_Some_2 (nd_points D) k Hk) as [o ->].
    - rewrite lookup_seq_ge, (lookup_ge_None_2 (nd_points D)) by lia. done. }
  rewrite E. assert (HL : Forall (λ e, nd_points D !! e.1 = Some e.2) (imap pair (nd_points D))).
  { apply Forall_lookup. intros k e He. rewrite list_lookup_imap in He.
    destruct (nd_points D !! k) eqn:Ek; [|done]. by injection He as <-. }
  clear E. change (λ e : nat * option (Q * Q), match e.2 with Some p0 => _ | None => _ end) with (candidate i D).
  revert st. induction HL as [|[j o] L Hj HL IH]; intros st; [by destruct st.2|]. cbn [map foldl]. csimpl.
  simpl in Hj. rewrite (near_point_spec i s D axisx axisy gs st j o) by done.
  destruct (candidate i D (j, o)); simpl; apply IH.
Qed.
End near.

(** How the code chooses: the first minimum of the square of the distance,
    below [r * r + 1], of the points that are within [r] along each axis, in the
    order of the scan (the last series first, then the order of the points). *)
Theorem findNearbyItem_first `{NumText xq} `{MathLib xq} filter p Ds r mX mY :
  Forall2 (describes filter p) (p_series p) Ds →
  first_min (r * r + 1) (candidates r (mX, mY) Ds)
    (findNearbyItem (XFin r) (XFin mX) (XFin mY) filter p).
Proof.
  intros HD. unfold findNearbyItem.
  assert (E : ∀ l st, Forall (λ i, i < length Ds)%nat l →
    foldl (near_series (XFin r) (XFin mX) (XFin mY) filter p) st l
    = foldl keep_smaller st (concat (map (λ i, match Ds !! i with
        Some D => series_candidates r (mX, mY) i D | None => [] end) l))).
  { induction l as [|i l IH]; intros st Hl; [done|]. apply Forall_cons in Hl as [Hi Hl].
    cbn [foldl map concat]. rewrite foldl_app.
    destruct (lookup_lt_is_Some_2 Ds i Hi) as [D HDi]. rewrite HDi.
    destruct (Forall2_lookup_r _ _ _ _ _ HD HDi) as (s & Hs & Hd).
    rewrite (near_series_spec r mX mY filter p i s D st Hs Hd). by apply IH. }
  rewrite E.
  2: { apply Forall_forall. intros i Hi. apply elem_of_reverse, elem_of_seq in Hi.
       pose proof (Forall2_length _ _ _ HD). lia. }
  assert (Ec : map (λ i, match Ds !! i with Some D => series_candidates r (mX, mY) i D | None => [] end)
      (reverse (seq 0 (length (p_series p)))) = reverse (imap (series_candidates r (mX, mY)) Ds)).
  { change (map ?h ?l) with (h <$> l). rewrite fmap_reverse. f_equal. apply list_eq. intros i.
    rewrite list_lookup_fmap, list_lookup_imap, (Forall2_length _ _ _ HD).
    destruct (decide (i < length Ds)%nat) as [Hi|Hi].
    - rewrite lookup_seq_lt by done. simpl. by destruct (lookup_lt_is_Some_2 Ds i Hi) as [D ->].
    - rewrite lookup_seq_ge, (lookup_ge_None_2 Ds) by lia. done. }
  rewrite Ec. fold (candidates r (mX, mY) Ds). apply scanned_first_min.
  apply (scan_all (r * r + 1) []). exists (r * r + 1).
  split; [done|]. split; [constructor|]. split; [apply Qle_refl|done].
Qed.

(** The points the mouse can find: point [j] of series [i] is shown, and [d]
    is the square of its distance to the mouse in pixels. *)
Definition at_distance (Ds : list near_data) (mouse : Q * Q) (i j : nat) (d : Q) : Prop :=
  ∃ D p, Ds !! i = Some D ∧ nd_shown D = true ∧ nd_points D !! j = Some (Some p) ∧
         d = dist2 (nd_map D) mouse p.

(** An item that is right for the radius [r]. *)
Definition nearest (Ds : list near_data) (r : Q) (mouse : Q * Q) (item : option (nat * nat)) : Prop :=
  match item with
  | Some (i, j) => ∃ d, at_distance Ds mouse i j d ∧ d < r * r + 1 ∧
      ∀ i' j' d', at_distance Ds mouse i' j' d' → d' <= r * r → d <= d'
  | None => ∀ i j d, at_distance Ds mouse i j d → r * r < d
  end.

Lemma candidates_shown r mouse Ds d i j :
  (d, (i, j)) ∈ candidates r mouse Ds → at_distance Ds mouse i j d.
Proof.
  unfold candidates. intros (l & Hl & Hin)%list_elem_of_In%in_concat.
  apply list_elem_of_In in Hl, Hin. rewrite elem_of_reverse in Hl.
  apply elem_of_lookup_imap in Hl as (i' & D & -> & HD). unfold series_candidates in Hin.
  destruct (nd_shown D) eqn:S; [|by apply elem_of_nil in Hin].
  apply list_elem_of_omap in Hin as ([j' o] & Hj & E).
  apply elem_of_lookup_imap in Hj as (j'' & o' & [= -> ->] & Ho). simpl in E.
  destruct o' as [p|]; [|done]. destruct (within (nd_map D) r mouse p); [|done].
  injection E as <- <- <-. by exists D, p.
Qed.

Lemma absq_square q : absq q * absq q == q * q.
Proof. unfold absq. destruct (nltb _ _); ring. Qed.

Lemma square_within a b r : 0 <= r → a * a + b * b <= r * r → a <= r ∧ - r <= a.
Proof. intros Hr H. split; nra. Qed.

(** A point within the radius is within the square. *)
Lemma candidates_within r mouse Ds i j d :
  0 <= r → at_distance Ds mouse i j d → d <= r * r → (d, (i, j)) ∈ candidates r mouse Ds.
Proof.
  intros Hr (D & p & HD & S & Hp & ->) Hd. apply list_elem_of_In, in_concat.
  exists (series_candidates r mouse i D).
  split; apply list_elem_of_In; [by apply elem_of_reverse, elem_of_lookup_imap; eauto|].
  unfold series_candidates. rewrite S. apply list_elem_of_omap. exists (j, Some p).
  split; [apply elem_of_lookup_imap; eauto|]. simpl.
  enough (within (nd_map D) r mouse p = true) as -> by done.
  unfold dist2 in Hd. rewrite !absq_square in Hd. unfold within.
  rewrite !andb_true_iff, !Qle_bool_iff. split; [by eapply square_within|].
  rewrite Qplus_comm in Hd. by eapply square_within.
Qed.

(** C21: on series drawn with lines or points, hovering finds an item whenever
    a shown point is within the active radius of the mouse, and the item is a
    shown point as near as any of those (which one of several at the same
    distance is not claimed: the comment at the comparison and the comparison
    disagree, see [scan_ties]); with no point within the radius it finds
    nothing, or a point the square of whose distance is above that of the radius
    by less than one (see [beyond_radius]). *)
Theorem findNearbyItem_nearest `{NumText xq} `{MathLib xq} filter p Ds r mX mY :
  Forall2 (describes filter p) (p_series p) Ds → 0 <= r →
  nearest Ds r (mX, mY) (findNearbyItem (XFin r) (XFin mX) (XFin mY) filter p).
Proof.
  intros HD Hr. pose proof (findNearbyItem_first filter p Ds r mX mY HD) as F.
  destruct (findNearbyItem _ _ _ filter p) as [[i j]|]; simpl in *.
  - destruct F as (pre & d & post & E & Hd & F1 & F2). exists d. split; [|split; [done|]].
    + apply (candidates_shown r). rewrite E. apply elem_of_app. right. by left.
    + intros i' j' d' Hs Hd'. pose proof (candidates_within _ _ _ _ _ _ Hr Hs Hd') as Hin.
      rewrite E in Hin. apply elem_of_app in Hin as [Hin|[[= -> _ _]|Hin]%elem_of_cons].
      * rewrite Forall_forall in F1. apply Qlt_le_weak, (F1 _ Hin).
      * apply Qle_refl.
      * rewrite Forall_forall in F2. apply (F2 _ Hin).
  - intros i j d Hs. apply Qnot_le_lt. intros Hd.
    rewrite Forall_forall in F. pose proof (F _ (candidates_within _ _ _ _ _ _ Hr Hs Hd)) as C.
    simpl in C. lra.
Qed.

(** ** Highlights *)

Local Open Scope nat_scope.

Section highlights.
Context {num : Type} `{NumLaws num} `{NumText num}.
Implicit Types (h : highlight_item num) (hs : list (highlight_item num)) (o : overlay num).

Lemma loose_eq_sym (a b : jsv num) : loose_eq a b = loose_eq b a.
Proof.
  assert (S : ∀ x y : num, neqb x y = neqb y x).
  { intros x y. destruct (neqb y x) eqn:E; [by apply neqb_sym|].
    destruct (neqb x y) eqn:E'; [|done]. apply neqb_sym in E'. congruence. }
  destruct a, b; simpl; try done; try apply S; [apply String.eqb_sym|apply Nat.eqb_sym].
Qed.

(** A value equal to itself: anything but NaN. *)
Definition sane_point (pt : list (jsv num)) : Prop :=
  loose_eq (aget pt 0) (aget pt 0) = true ∧ loose_eq (aget pt 1) (aget pt 1) = true.

(** The two highlights are at the same point. *)
Definition same_item h h' : bool := same_point (h_series h) (h_point h) h'.

Lemma same_item_sym h h' : same_item h h' = same_item h' h.
Proof.
  unfold same_item, same_point. rewrite (Nat.eqb_sym (h_series h')), (loose_eq_sym (aget (h_point h') 0)).
  by rewrite (loose_eq_sym (aget (h_point h') 1)).
Qed.

Lemma same_item_refl h : sane_point (h_point h) → same_item h h = true.
Proof. intros [A B]. unfold same_item, same_point. by rewrite Nat.eqb_refl, A, B. Qed.

(** The highlights are at distinct points, and each event has set at most
    one of them. *)
Record consistent hs : Prop := {
  con_sane h : h ∈ hs → sane_point (h_point h);
  con_distinct i j h h' : hs !! i = Some h → hs !! j = Some h' → i ≠ j → same_item h h' = false;
  con_auto i j h h' ev : hs !! i = Some h → hs !! j = Some h' →
    h_auto h = Some ev → h_auto h' = Some ev → i = j;
}.

Lemma consistent_nil : consistent [].
Proof. split; [intros h Hh; by apply elem_of_nil in Hh|done..]. Qed.

Lemma index_some i pt o k : indexOfHighlight i pt o = Some k →
  ∃ h, highlights o !! k = Some h ∧ same_point i pt h = true.
Proof.
  unfold indexOfHighlight. intros E. apply fmap_Some in E as ([k' h] & E & ->).
  apply list_find_Some in E as (E1 & E2 & _). exists h. split; [done|]. by apply Is_true_true.
Qed.

Lemma index_none i pt o : indexOfHighlight i pt o = None →
  ∀ h, h ∈ highlights o → same_point i pt h = false.
Proof.
  unfold indexOfHighlight. intros E%fmap_None. apply list_find_None in E.
  rewrite Forall_forall in E. intros h Hh. specialize (E h Hh).
  destruct (same_point i pt h); [by destruct E|done].
Qed.

(** Removing highlights, or setting some to manual, keeps the rest consistent. *)
Lemma consistent_sub hs hs' (f : nat → nat) :
  (∀ i h, hs' !! i = Some h → ∃ h0, hs !! f i = Some h0 ∧ h_series h = h_series h0 ∧
     h_point h = h_point h0 ∧ (h_auto h = h_auto h0 ∨ h_auto h = None)) →
  (∀ i j, f i = f j → i = j) → consistent hs → consistent hs'.
Proof.
  intros L Hf [S D A]. split.
  - intros h (i & Hi)%list_elem_of_lookup. destruct (L i h Hi) as (h0 & Hh0 & _ & Ep & _).
    rewrite Ep. apply S. by eapply list_elem_of_lookup_2.
  - intros i j h h' Hi Hj Hne. destruct (L i h Hi) as (h0 & Hh0 & Es & Ep & _).
    destruct (L j h' Hj) as (h1 & Hh1 & Es' & Ep' & _).
    rewrite <- (D (f i) (f j) h0 h1 Hh0 Hh1) by auto.
    unfold same_item, same_point. by rewrite Es, Ep, Es', Ep'.
  - intros i j h h' ev Hi Hj E1 E2. destruct (L i h Hi) as (h0 & Hh0 & _ & _ & Ea).
    destruct (L j h' Hj) as (h1 & Hh1 & _ & _ & Ea').
    apply Hf, (A (f i) (f j) h0 h1 ev Hh0 Hh1); [destruct Ea|destruct Ea']; congruence.
Qed.

Lemma consistent_delete hs k : consistent hs → consistent (delete k hs).
Proof.
  apply (consistent_sub _ _ (λ i, if decide (i < k) then i else S i)).
  - intros i h0. rewrite list_lookup_delete. repeat case_decide; eauto 10; lia.
  - intros i j. repeat case_decide; lia.
Qed.

Lemma consistent_set_auto hs k : consistent hs → consistent (alter set_auto k hs).
Proof.
  apply (consistent_sub _ _ (λ i, i)); [|done].
  intros i h0. rewrite list_lookup_alter. case_decide as Ei; [|intros Hh; exists h0; auto].
  intros (h1 & Eh1 & ->)%fmap_Some. exists h1. subst. auto.
Qed.

(** A new highlight at the end. *)
Lemma consistent_push hs h : consistent hs → sane_point (h_point h) →
  (∀ h', h' ∈ hs → same_item h h' = false) →
  (∀ ev h', h_auto h = Some ev → h' ∈ hs → h_auto h' ≠ Some ev) → consistent (hs ++ [h]).
Proof.
  intros [S D A] Hs Hnew Hauto.
  assert (L : ∀ i h', (hs ++ [h]) !! i = Some h' → (hs !! i = Some h' ∧ i < length hs) ∨ (i = length hs ∧ h' = h)).
  { intros i h' Hi. apply lookup_app_Some in Hi as [Hi|[Hge Hi]]; [left; split; [done|by eapply lookup_lt_Some]|].
    apply list_lookup_singleton_Some in Hi as [Hi <-]. right. split; [lia|done]. }
  split.
  - intros h' [Hin|Hin]%elem_of_app; [by apply S|]. by apply list_elem_of_singleton in Hin as ->.
  - intros i j h1 h2 Hi Hj Hne.
    destruct (L i h1 Hi) as [[Hi' _]|[-> ->]], (L j h2 Hj) as [[Hj' _]|[-> ->]]; [by eapply D|..|done].
    + rewrite same_item_sym. apply Hnew. by eapply list_elem_of_lookup_2.
    + apply Hnew. by eapply list_elem_of_lookup_2.
  - intros i j h1 h2 ev Hi Hj E1 E2.
    destruct (L i h1 Hi) as [[Hi' _]|[-> ->]], (L j h2 Hj) as [[Hj' _]|[-> ->]]; [by eapply A|..|done].
    + exfalso. apply (Hauto ev h1 E2); [by eapply list_elem_of_lookup_2|done].
    + exfalso. apply (Hauto ev h2 E1); [by eapply list_elem_of_lookup_2|done].
Qed.

(** ** Clearing the highlights of an event *)

(** A highlight that the event set and that is not at the item. *)
Definition stale (ev : string) (item : option (hover_item num)) h : bool :=
  bool_decide (h_auto h = Some ev) &&
  negb (match item with Some it => same_point (it_series it) (it_datapoint it) h | None => false end).

Lemma clear_none fuel ev item i o :
  (∀ h, h ∈ highlights o → stale ev item h = false) → clear_auto fuel ev item i o = o.
Proof.
  revert i. induction fuel as [|fuel IH]; intros i Hn; [done|]. cbn [clear_auto].
  destruct (highlights o !! i) as [h|] eqn:Ei; [|done].
  fold (stale ev item h). rewrite (Hn h) by by eapply list_elem_of_lookup_2. by apply IH.
Qed.

(** The highlight found at the place of [h] is [h] itself. *)
Lemma index_self pre h post t : consistent (pre ++ h :: post) →
  indexOfHighlight (h_series h) (h_point h) (Overlay (pre ++ h :: post) t) = Some (length pre).
Proof.
  intros C. unfold indexOfHighlight. cbn [highlights].
  assert (Eh : (pre ++ h :: post) !! length pre = Some h) by by apply list_lookup_middle.
  assert (E : list_find (λ h', same_point (h_series h) (h_point h) h') (pre ++ h :: post) = Some (length pre, h)).
  { apply list_find_Some. split; [done|]. split.
    - apply Is_true_true, same_item_refl, (con_sane _ C). by eapply list_elem_of_lookup_2.
    - intros j h' Hj Hlt. assert (F : same_item h h' = false) by (eapply (con_distinct _ C); [exact Eh|exact Hj|lia]).
      unfold same_item in F. cbv beta. rewrite F. by intros []. }
  by rewrite E.
Qed.

Lemma clear_one fuel ev item i pre h post t : consistent (pre ++ h :: post) →
  stale ev item h = true → (∀ h', h' ∈ pre ++ post → stale ev item h' = false) →
  i ≤ length pre → length pre - i < fuel →
  highlights (clear_auto fuel ev item i (Overlay (pre ++ h :: post) t)) = pre ++ post.
Proof.
  intros C Hs Hn. revert i. induction fuel as [|fuel IH]; intros i Hi Hf; [lia|]. cbn [clear_auto highlights].
  destruct (decide (i = length pre)) as [-> |Hne].
  - rewrite list_lookup_middle by done. fold (stale ev item h). rewrite Hs, (index_self _ _ _ _ C).
    rewrite clear_none; cbn [triggerRedrawOverlay highlights].
    + by apply delete_middle.
    + by rewrite delete_middle.
  - destruct (lookup_lt_is_Some_2 pre i) as [h' Hh']; [lia|].
    rewrite (lookup_app_l_Some _ _ _ _ Hh'). fold (stale ev item h').
    rewrite (Hn h'); [apply IH; lia|]. apply elem_of_app. left. by eapply list_elem_of_lookup_2.
Qed.

Lemma clear_spec ev item o : consistent (highlights o) →
  let hs := highlights (clear_auto (length (highlights o)) ev item 0 o) in
  consistent hs ∧ ∀ h, h ∈ hs ↔ h ∈ highlights o ∧ stale ev item h = false.
Proof.
  intros C. destruct (list_find (λ h, stale ev item h = true) (highlights o)) as [[k h]|] eqn:E; cbv zeta.
  - apply list_find_Some in E as (Ek & Hs & _). destruct o as [hs t]. cbn [highlights] in *.
    pose proof (take_drop_middle _ _ _ Ek) as Eo. set (pre := take k hs) in *. set (post := drop (S k) hs) in *.
    assert (Hk : length pre = k) by (unfold pre; apply length_take_le; apply lookup_lt_Some in Ek; lia).
    rewrite <- Eo in C |- *.
    assert (Hn : ∀ h', h' ∈ pre ++ post → stale ev item h' = false).
    { intros h' Hin. destruct (stale ev item h') eqn:Es; [|done]. exfalso.
      unfold stale in Hs, Es. apply andb_true_iff in Hs as [Ha%bool_decide_eq_true _], Es as [Ha'%bool_decide_eq_true _].
      apply elem_of_app in Hin as [Hin|Hin]; apply list_elem_of_lookup in Hin as (j & Hj).
      - pose proof (con_auto _ C j (length pre) h' h ev (lookup_app_l_Some _ _ _ _ Hj) (list_lookup_middle _ _ _ _ eq_refl) Ha' Ha).
        apply lookup_lt_Some in Hj. lia.
      - assert (Hj' : (pre ++ h :: post) !! (length pre + S j) = Some h')
          by (rewrite lookup_app_r by lia; by replace (length pre + S j - length pre) with (S j) by lia).
        pose proof (con_auto _ C _ (length pre) h' h ev Hj' (list_lookup_middle _ _ _ _ eq_refl) Ha' Ha). lia. }
    rewrite (clear_one _ ev item 0 pre h post t C Hs Hn); [|lia|rewrite length_app; simpl; lia].
    split.
    + rewrite <- (delete_middle pre post h). by apply consistent_delete.
    + intros h'. split.
      * intros Hin. split; [|by apply Hn]. rewrite elem_of_app, elem_of_cons in *. tauto.
      * intros [Hin Hf]. rewrite elem_of_app, elem_of_cons in *. destruct Hin as [?|[->|?]]; [tauto|congruence|tauto].
  - apply list_find_None in E. rewrite Forall_forall in E.
    assert (Hn : ∀ h, h ∈ highlights o → stale ev item h = false).
    { intros h Hh. specialize (E h Hh). by destruct (stale ev item h). }
    rewrite clear_none by done. split; [done|]. naive_solver.
Qed.
End highlights.

(** ** Reachable highlights *)

Section reachable.
Context {num : Type} `{NumLaws num} `{NumText num} `{MathLib num}.
Implicit Types (o : overlay num) (pt : list (jsv num)).
Variables (grid : grid_options num) (left top : num) (p : plot num) (g : geometry num).

(** No value of the points is NaN: what [processData] leaves. *)
Hypothesis sane_plot : ∀ s v, s ∈ p_series p → v ∈ dp_points (s_datapoints s) → loose_eq v v = true.

(** What changes the highlights: mouse events, calls of [highlight] and
    [unhighlight] from outside, and redraws. *)
Inductive hover_step : overlay num → overlay num → Prop :=
  | step_mouse o e : hover_step o (on_mouse grid left top p g o e).1
  | step_highlight o i n s : p_series p !! i = Some s → hover_step o (highlight p i (PointIndex n) None o)
  | step_highlight_at o i pt : sane_point pt → hover_step o (highlight p i (PointAt pt) None o)
  | step_unhighlight o i (a : point_arg num) o' : unhighlight p i a o = Ok o' → hover_step o o'
  | step_unhighlight_all o : hover_step o (unhighlight_all o)
  | step_redraw o handlers hook : hover_step o (drawOverlay handlers hook p g o).1.

Lemma point_of_sane i s j : p_series p !! i = Some s → sane_point (point_of s j).
Proof.
  intros Hs. assert (V : ∀ k : nat, loose_eq (aget (point_of s j) (Z.of_nat k)) (aget (point_of s j) (Z.of_nat k)) = true).
  { intros k. rewrite aget_lookup. destruct (point_of s j !! k) as [v|] eqn:E; [|done]. simpl.
    apply (sane_plot s v); [by eapply list_elem_of_lookup_2|].
    apply list_elem_of_lookup_2 in E. unfold point_of in E.
    rewrite <- (take_drop (pointsize s * j) (dp_points (s_datapoints s))). apply elem_of_app. right.
    rewrite <- (take_drop (pointsize s) (drop _ _)). apply elem_of_app. by left. }
  split; [apply (V 0)|apply (V 1)].
Qed.

Definition arg_point (i : nat) (pt : point_arg num) : list (jsv num) :=
  match pt with
  | PointIndex n => match p_series p !! i with Some s => point_of s n | None => [] end
  | PointAt pt => pt
  end.

Lemma highlight_consistent i (pt : point_arg num) auto o : consistent (highlights o) → sane_point (arg_point i pt) →
  (∀ ev h, auto = Some ev → h ∈ highlights o → h_auto h = Some ev → same_point i (arg_point i pt) h = true) →
  consistent (highlights (highlight p i pt auto o)).
Proof.
  intros C Hs Ha. unfold highlight. fold (arg_point i pt).
  destruct (indexOfHighlight i (arg_point i pt) o) as [k|] eqn:E.
  - destruct auto; [done|]. by apply consistent_set_auto.
  - apply (consistent_push _ _ C); [done|apply (index_none _ _ _ E)|].
    intros ev h Eev Hh Hev. specialize (Ha ev h Eev Hh Hev).
    rewrite (index_none _ _ _ E h Hh) in Ha. done.
Qed.

(** The highlights after an event are those the event leaves, and its item. *)
Lemma trigger_consistent ev x y filter o : consistent (highlights o) →
  let '(o', t) := triggerClickHoverEvent grid ev x y left top filter p g o in
  consistent (highlights o') ∧ tr_name t = ev ∧
  (gr_autoHighlight grid = true →
   (∀ h, h ∈ highlights o' → h_auto h = Some ev →
      ∃ it, tr_item t = Some it ∧ same_point (it_series it) (it_datapoint it) h = true) ∧
   (∀ it, tr_item t = Some it → ∃ h, h ∈ highlights o' ∧ same_point (it_series it) (it_datapoint it) h = true)).
Proof.
  intros C. unfold triggerClickHoverEvent. set (item := findNearbyItem _ _ _ _ _ ≫= _).
  assert (Hitem : ∀ it, item = Some it → sane_point (it_datapoint it)).
  { unfold item. intros it ([i j] & _ & E)%bind_Some.
    apply bind_Some in E as (s & Es & E). apply bind_Some in E as (ax & _ & E).
    apply bind_Some in E as (ay & _ & [= <-]). by eapply point_of_sane. }
  destruct (gr_autoHighlight grid); [|by split].
  destruct (clear_spec ev item o C) as [C' Hin]. set (o1 := clear_auto _ _ _ _ _) in *. clearbody item.
  destruct item as [it|]; cbn [tr_name tr_item].
  - assert (Ha : ∀ h, h ∈ highlights o1 → h_auto h = Some ev → same_point (it_series it) (it_datapoint it) h = true).
    { intros h Hh Ea. apply Hin in Hh as [_ Hs]. unfold stale in Hs. rewrite bool_decide_eq_true_2 in Hs by done.
      by apply negb_false_iff in Hs. }
    split; [apply highlight_consistent; [done|by apply Hitem|naive_solver]|]. split; [done|]. intros _.
    unfold highlight. destruct (indexOfHighlight _ _ o1) as [k|] eqn:E; cbn [triggerRedrawOverlay highlights].
    + split; [eauto|]. intros it' [= <-]. destruct (index_some _ _ _ _ E) as (h & Hh & Hsame).
      exists h. split; [by eapply list_elem_of_lookup_2|done].
    + split.
      * intros h [Hh|Hh]%elem_of_app Ea; exists it; (split; [done|]); [by apply Ha|].
        apply list_elem_of_singleton in Hh as ->. destruct (Hitem it eq_refl) as [V1 V2].
        unfold same_point. cbn [h_series h_point]. by rewrite Nat.eqb_refl, V1, V2.
      * intros it' [= <-]. eexists. split; [apply elem_of_app; right; by apply list_elem_of_singleton|].
        destruct (Hitem it eq_refl) as [V1 V2].
        unfold same_point. cbn [h_series h_point]. by rewrite Nat.eqb_refl, V1, V2.
  - split; [done|]. split; [done|]. intros _. split; [|done].
    intros h Hh Ea. apply Hin in Hh as [_ Hs]. unfold stale in Hs. by rewrite bool_decide_eq_true_2 in Hs.
Qed.

(** What an event establishes for its own highlights. *)
Definition up_to_date o' (t : triggered num) : Prop :=
  (∀ h, h ∈ highlights o' → h_auto h = Some (tr_name t) →
     ∃ it, tr_item t = Some it ∧ same_point (it_series it) (it_datapoint it) h = true) ∧
  (∀ it, tr_item t = Some it → ∃ h, h ∈ highlights o' ∧ same_point (it_series it) (it_datapoint it) h = true).

Lemma mouse_consistent o e o' r : consistent (highlights o) → on_mouse grid left top p g o e = (o', r) →
  consistent (highlights o') ∧ ∀ t, r = Some t → gr_autoHighlight grid = true → up_to_date o' t.
Proof.
  intros C. unfold on_mouse.
  assert (T : ∀ ev x y f o' r,
    (let '(o, t) := triggerClickHoverEvent grid ev x y left top f p g o in (o, Some t)) = (o', r) →
    consistent (highlights o') ∧ ∀ t, r = Some t → gr_autoHighlight grid = true → up_to_date o' t).
  { intros ev x y f o1 r1. pose proof (trigger_consistent ev x y f o C) as T.
    destruct (triggerClickHoverEvent _ _ _ _ _ _ _ _ _ _) as [o2 t2]. intros [= <- <-].
    destruct T as (C2 & En & T). split; [done|]. intros t [= <-] Ha. unfold up_to_date. rewrite En. by apply T. }
  destruct e as [x y|x y|x y]; try apply T; (destruct (gr_hoverable grid); [apply T|by intros [= <- <-]]).
Qed.

Lemma step_consistent o o' : hover_step o o' → consistent (highlights o) → consistent (highlights o').
Proof.
  intros S C. destruct S as [o e|o i n s Hs|o i pt Hpt|o i pt o' E|o|o handlers hook].
  - destruct (on_mouse grid left top p g o e) as [o' r] eqn:E. by apply (mouse_consistent o e o' r).
  - apply highlight_consistent; [done| |done]. simpl. rewrite Hs. by eapply point_of_sane.
  - by apply highlight_consistent.
  - unfold unhighlight in E. destruct (match pt with PointIndex _ => _ | PointAt _ => _ end) as [q|].
    + injection E as <-. destruct (indexOfHighlight i q o) as [k|]; [by apply consistent_delete|done].
    + destruct (existsb _ _); [done|]. by injection E as <-.
  - apply consistent_nil.
  - done.
Qed.

Lemma reachable_consistent o : rtc hover_step (Overlay [] false) o → consistent (highlights o).
Proof.
  apply (rtc_ind_r (R := hover_step) (λ o : overlay num, consistent (highlights o)) (Overlay [] false)).
  - apply consistent_nil.
  - intros o1 o2 _ S IH. by apply (step_consistent o1).
Qed.
End reachable.

(** Hovering and clicking keep the highlights up to date: on any reachable
    page, after an event the only highlight that the event has set is that of
    the item now under the mouse, which is highlighted; earlier ones are
    gone, although the loop that clears them skips an element after each
    removal (at most one highlight per event makes this harmless). *)
Theorem hover_highlights {num : Type} `{NumLaws num} `{NumText num} `{MathLib num}
    grid left top (p : plot num) g o e o' t :
  (∀ s v, s ∈ p_series p → v ∈ dp_points (s_datapoints s) → loose_eq v v = true) →
  rtc (hover_step grid left top p g) (Overlay [] false) o → gr_autoHighlight grid = true →
  on_mouse grid left top p g o e = (o', Some t) →
  (∀ h, h ∈ highlights o' → h_auto h = Some (tr_name t) →
     ∃ it, tr_item t = Some it ∧ same_point (it_series it) (it_datapoint it) h = true) ∧
  (∀ it, tr_item t = Some it → ∃ h, h ∈ highlights o' ∧ same_point (it_series it) (it_datapoint it) h = true).
Proof.
  intros Hp R Ha E.
  destruct (mouse_consistent grid left top p g Hp o e o' (Some t)) as [_ T]; [|done|by apply T].
  by eapply reachable_consistent.
Qed.

(** ** Witnesses *)

(** The marked series on linear axes, 40 pixels per unit of x and 10 per unit of y. *)
Definition hover_plot : plot xq :=
  Plot [marked_series]
    [Some (with_view (new_axis 1 DirX default_xaxis)
             (AxisView (XFin 0) (XFin 10) (XFin 40) (XFin 0) (XFin 40)))]
    [Some (with_view (new_axis 1 DirY default_xaxis)
             (AxisView (XFin 0) (XFin 20) (XFin (-(10))) (XFin 20) (XFin 10)))].

Definition hover_series : series xq :=
  let s := marked_series in
  let b := s_bars s in
  Series (s_id s) None "#edc240" (s_lines s) (s_points s)
    (Bars false (bars_lineWidth b) (bars_barWidth b) (bars_fill b) None "center" false)
    (s_shadowSize s) (s_plugin s) [] (s_datapoints s) 1 1 true true None.

Definition hover_sample : plot xq := Plot [hover_series] (p_xaxes hover_plot) (p_yaxes hover_plot).

Definition hover_data : near_data :=
  NearData [Some (-(5), 1); Some (5, 30); None; Some (3, 3)]%Q sample_map true.

Lemma hover_describes :
  let _ := Exact.exact_text in let _ := Exact.exact_math in
  Forall2 (describes (λ _, true) hover_sample) (p_series hover_sample) [hover_data].
Proof.
  intros text math. constructor; [|constructor].
  split; [done|]. split; [done|]. do 2 eexists. exists sample_groups.
  do 2 (split; [reflexivity|]).
  split; [split; [by constructor|split; [done|exists 40%Q; repeat split; left; reflexivity]]|].
  split; [split; [by constructor|split; [done|exists 10%Q; repeat split; right; reflexivity]]|].
  split; [vm_compute; lia|]. split; [done|]. by repeat constructor.
Qed.

(** The point (3, 3) is drawn at (120, 170). *)
Lemma findNearbyItem_nearest_witness :
  let _ := Exact.exact_text in let _ := Exact.exact_math in
  nearest [hover_data] 10 (118, 165)%Q
    (findNearbyItem (XFin 10) (XFin 118) (XFin 165) (λ _, true) hover_sample) ∧
  findNearbyItem (XFin 10) (XFin 118) (XFin 165) (λ _, true) hover_sample = Some (0, 3).
Proof.
  intros text math. split; [|by vm_compute].
  apply (@findNearbyItem_nearest text math); [apply hover_describes|lra].
Defined.

(** Of two points at the same place the first one is found, although the
    comment at the comparison says that the last one takes precedence. *)
Definition twin_series : series xq :=
  let s := hover_series in let n q := Number (XFin q) in
  Series (s_id s) None "#edc240" (s_lines s) (s_points s) (s_bars s) (s_shadowSize s) (s_plugin s) []
    (Datapoints [n 3; n 3; n 0; n 3; n 3; n 0]%Q (Some 3) None) 1 1 true true None.
Example scan_ties :
  let _ := Exact.exact_text in let _ := Exact.exact_math in
  findNearbyItem (XFin 10) (XFin 118) (XFin 165) (λ _, true)
    (Plot [twin_series] (p_xaxes hover_plot) (p_yaxes hover_plot)) = Some (0, 0).
Proof. by vm_compute. Qed.

(** The scan starts from [r * r + 1]: a point 10 pixels to the right and one
    half down is found with an active radius of 10. *)
Example beyond_radius :
  let _ := Exact.exact_text in let _ := Exact.exact_math in
  findNearbyItem (XFin 10) (XFin 110) (XFin (339 # 2)) (λ _, true) hover_sample = Some (0, 3) ∧
  (10 * 10 < dist2 sample_map (110, 339 # 2) (3, 3))%Q.
Proof. by vm_compute. Qed.

Lemma hover_highlights_witness :
  let _ := Exact.exact_text in let _ := Exact.exact_math in
  let o := Overlay [Highlight 0 [Number (XFin 5); Number (XFin 30); Number (XFin 0)] (Some "plotclick")] true in
  ∃ o' t, on_mouse default_grid (XFin 0) (XFin 0) hover_sample sample_geometry o
      (MouseClick (XFin 158) (XFin 175)) = (o', Some t) ∧
    (∀ h, h ∈ highlights o' → h_auto h = Some (tr_name t) →
       ∃ it, tr_item t = Some it ∧ same_point (it_series it) (it_datapoint it) h = true) ∧
    (∀ it, tr_item t = Some it → ∃ h, h ∈ highlights o' ∧ same_point (it_series it) (it_datapoint it) h = true).
Proof.
  intros text math o. do 2 eexists. split; [vm_compute; reflexivity|].
  apply (@hover_highlights xq Exact.xq_num Exact.xq_laws text math default_grid (XFin 0) (XFin 0)
    hover_sample sample_geometry o (MouseClick (XFin 158) (XFin 175))).
  - intros s v Hs Hv. apply list_elem_of_singleton in Hs as ->. simpl in Hv.
    repeat (apply elem_of_cons in Hv as [->|Hv]; [by vm_compute|]). by apply elem_of_nil in Hv.
  - assert (E : o = (on_mouse default_grid (XFin 0) (XFin 0) hover_sample sample_geometry
                       (Overlay [] false) (MouseClick (XFin 240) (XFin (-(90))))).1) by by vm_compute.
    rewrite E. apply rtc_once, step_mouse.
  - done.
  - vm_compute. reflexivity.
Defined.
