(* ===== verification/FlotPlot.v ===== *)
(** The public face of a plot in [static/flot/jquery.flot.js] that its plugins
    call: [getAxes], [offset], and the redraw [setupGrid(); draw()]. *)

From S2P Require Import Prelude Numbers JsText JsValue FlotModel FlotAxis Canvas FlotMarks FlotLayout FlotGrid.

(** The axis at index [i] of an array has number [i + 1] and the direction of
    the array: what [getOrCreateAxis] creates. *)
Definition numbered {num} (dir : direction) (axs : axes num) : Prop :=
  ∀ i ax, axs !! i = Some (Some ax) → ax_n ax = S i ∧ ax_direction ax = dir.

Section plot.
Context {num : Type} `{Num num} `{NumText num} `{MathLib num}.
Implicit Types (ax : axis num) (p : plot num) (g : geometry num).
Local Open Scope num_scope.

(** [xaxis], [x2axis], ... *)
Definition axis_name ax : string :=
  dir_name (ax_direction ax) +:+
  (if (ax_n ax =? 1)%nat then "" else dec_nat (Z.of_nat (ax_n ax))) +:+ "axis".

(** The properties of the object that [getAxes] returns, in order. *)
Definition getAxes p : list (string * axis num) := map (λ ax, (axis_name ax, ax)) (all_axes p).

(** The position of the plot area in the page; the event holder is at
    [(left, top)]. *)
Definition plot_offset (left top : num) g : num * num := (left + off_left g, top + off_top g).

(** [options.min] and [options.max] of the axes changed by [f]. *)
Definition map_options (f : axis num → axis_options num) p : plot num :=
  map_axes (λ ax, with_options ax (f ax)) p.

(** ** Redrawing *)

Variable grid : grid_options num.
Variable page : page_metrics num.
Variable fuel : nat.
Variable handlers : list (string * symbol num).
Variable hook_drawSeries : plot num → geometry num → series num → list (canvas_op num).
Variable hook_draw : plot num → geometry num → list (canvas_op num).

(** [plot.setupGrid(); plot.draw()] *)
Definition redraw p g : result (plot num * geometry num * list (canvas_op num)) :=
  '(p, g) ← setupGrid grid page fuel p g;
  ops ← draw grid handlers hook_drawSeries hook_draw p g;
  Ok (p, g, ops).
End plot.

(** ** The names of the axes *)

Section names.
Context {num : Type}.
Implicit Types (ax : axis num) (p : plot num).

Lemma in_flat_axes (axs : axes num) ax : ax ∈ flat_axes axs ↔ Some ax ∈ axs.
Proof.
  unfold flat_axes, axes in *. split.
  - intros (o & Ho & E)%list_elem_of_omap. unfold id in E. by subst o.
  - intros Ho. apply list_elem_of_omap. by exists (Some ax).
Qed.

Lemma append_length (s t : string) : String.length (s +:+ t) = String.length s + String.length t.
Proof. induction s as [|c s IH]; [done|]. simpl. by rewrite IH. Qed.

Lemma append_cancel_r (s s' t : string) : s +:+ t = s' +:+ t → s = s'.
Proof.
  revert s'. induction s as [|c s IH]; intros [|c' s'] E; [done| | |].
  1,2: apply (f_equal String.length) in E; change (String ?c ?s +:+ t) with (String c (s +:+ t)) in E;
    simpl in E; rewrite append_length in E; lia.
  injection E as -> E. f_equal. by apply IH.
Qed.

Lemma axis_name_inj ax ax' : 0 < ax_n ax → 0 < ax_n ax' → axis_name ax = axis_name ax' →
  ax_direction ax = ax_direction ax' ∧ ax_n ax = ax_n ax'.
Proof.
  intros Hn Hn' E. unfold axis_name in E.
  assert (Ed : ax_direction ax = ax_direction ax') by (destruct (ax_direction ax), (ax_direction ax'); done).
  split; [done|]. rewrite Ed in E. apply (inj (String.append _)), append_cancel_r in E.
  assert (Hne : ∀ n, dec_nat (Z.of_nat n) ≠ "").
  { intros n. destruct (dec_nat_nonempty (Z.of_nat n)) as (c & s & -> & _). done. }
  destruct (ax_n ax =? 1) eqn:E1, (ax_n ax' =? 1) eqn:E2.
  - apply Nat.eqb_eq in E1, E2. lia.
  - by destruct (Hne (ax_n ax')).
  - by destruct (Hne (ax_n ax)).
  - apply dec_nat_inj in E; lia.
Qed.
End names.
