(* ===== verification/FlotLifecycle.v ===== *)
(** The life of plots in one element of the page: the canvases that a plot
    creates or takes over, the events it binds, its shutdown when another plot
    replaces it, in [static/flot/jquery.flot.js], and the plugin that follows
    the size of the element, [static/flot/jquery.flot.resize.js]. *)

From stdpp Require Import sets relations.
From S2P Require Import Prelude Numbers ExactNum.

(** A canvas: its size and how many states its context has saved. *)
Record canvas_el (num : Type) := CanvasEl { cv_width : num; cv_height : num; cv_saved : nat }.
Arguments CanvasEl {num} _ _ _. Arguments cv_width {num} _. Arguments cv_height {num} _. Arguments cv_saved {num} _.

(** What the options of a plot say of its events. *)
Record plot_events := PlotEvents { hoverable : bool; clickable : bool; resizable : bool }.

(** The element: its size, its canvases, how many other children it has, the
    plot it remembers ([placeholder.data("plot")]), the events bound to the
    canvases and to the element, each for a plot, and the plots with a redraw
    of the overlay under way. *)
Record element (num : Type) := Element {
  el_width : num; el_height : num;
  el_base : option (canvas_el num); el_overlay : option (canvas_el num); el_others : nat;
  el_plot : option nat; el_bound : list (nat * string); el_resize : list nat; el_timeouts : list nat;
}.
Arguments Element {num} _ _ _ _ _ _ _ _ _. Arguments el_width {num} _. Arguments el_height {num} _.
Arguments el_base {num} _. Arguments el_overlay {num} _. Arguments el_others {num} _. Arguments el_plot {num} _.
Arguments el_bound {num} _. Arguments el_resize {num} _. Arguments el_timeouts {num} _.

Section lifecycle.
Context {num : Type} `{Num num}.
Implicit Types (el : element num) (i : nat).
Local Open Scope num_scope.

(** An operation that may throw has changed the element until then. *)
Definition outcome : Type := element num * option string.
Definition andThen (r : outcome) (k : element num → outcome) : outcome :=
  match r.2 with None => k r.1 | Some _ => r end.

Definition set_canvases el (b o : option (canvas_el num)) : element num :=
  Element (el_width el) (el_height el) b o (el_others el) (el_plot el) (el_bound el) (el_resize el) (el_timeouts el).
Definition set_others el (n : nat) : element num :=
  Element (el_width el) (el_height el) (el_base el) (el_overlay el) n (el_plot el) (el_bound el) (el_resize el) (el_timeouts el).
Definition set_plot el i : element num :=
  Element (el_width el) (el_height el) (el_base el) (el_overlay el) (el_others el) (Some i) (el_bound el) (el_resize el)
    (el_timeouts el).
Definition set_events el (b : list (nat * string)) (r : list nat) (t : list nat) : element num :=
  Element (el_width el) (el_height el) (el_base el) (el_overlay el) (el_others el) (el_plot el) b r t.
Definition set_size el (w h : num) : element num :=
  Element w h (el_base el) (el_overlay el) (el_others el) (el_plot el) (el_bound el) (el_resize el) (el_timeouts el).

(** ** Canvases *)

(** [getCanvasDimensions]: the size of the element, or an error. *)
Definition getCanvasDimensions el : option string :=
  if (el_width el <=? ⟨0⟩) || (el_height el <=? ⟨0⟩) then Some "Invalid dimensions for plot" else None.

(** A new canvas; its context saves its first state. *)
Definition makeCanvas el : canvas_el num := CanvasEl (el_width el) (el_height el) 1.

(** A change of size empties the context; then the first state is restored
    and saved again. *)
Definition resizeCanvas el (c : canvas_el num) : canvas_el num :=
  let saved := if (cv_width c ≠? el_width el) || (cv_height c ≠? el_height el) then 0%nat else cv_saved c in
  CanvasEl (el_width el) (el_height el) (S (Nat.pred saved)).

(** [plot.resize] *)
Definition resize el : outcome :=
  match getCanvasDimensions el with
  | Some e => (el, Some e)
  | None => (set_canvases el (resizeCanvas el <$> el_base el) (resizeCanvas el <$> el_overlay el), None)
  end.

(** ** Events *)

(** [shutdown] of the plot [i]: no redraw is left, and none of its events. *)
Definition shutdown i el : element num :=
  set_events el (filter (λ b, b.1 ≠ i) (el_bound el)) (filter (λ j, j ≠ i) (el_resize el))
    (filter (λ j, j ≠ i) (el_timeouts el)).

Definition bindEvents i (pe : plot_events) el : element num :=
  let hover := if hoverable pe then [(i, "mousemove"); (i, "mouseleave")] else [] in
  let click := if clickable pe then [(i, "click")] else [] in
  set_events el (el_bound el ++ hover ++ click) (el_resize el ++ (if resizable pe then [i] else [])) (el_timeouts el).

(** [placeholder.html("")]: everything in the element goes, with its events;
    those of the element itself stay. *)
Definition empty_element el : element num :=
  set_others (set_events (set_canvases el None None) [] (el_resize el) (el_timeouts el)) 0.

(** [setupCanvases] of the plot [i].  The test for a missing overlay compares
    the search for it with a number, and is never true. *)
Definition setupCanvases i el : outcome :=
  match el_base el with
  | None =>
      let el := empty_element el in
      match getCanvasDimensions el with
      | Some e => (el, Some e)
      | None => (set_plot (set_canvases el (Some (makeCanvas el)) (Some (makeCanvas el))) i, None)
      end
  | Some _ =>
      match el_overlay el, el_plot el with
      | Some _, Some old =>
          andThen (resize (shutdown old el))
            (λ el, (set_plot (set_others (set_events el [] (el_resize el) (el_timeouts el)) 0) i, None))
      | _, _ => (el, Some "TypeError")
      end
  end.

(** A new plot: [draw] stands for [setData], [setupGrid] and [draw], which
    put labels into the element and may throw. *)
Definition new_plot i (pe : plot_events) (draw : option string) (labels : nat) el : outcome :=
  andThen (setupCanvases i el) (λ el,
    let el := set_others el labels in
    match draw with Some e => (el, Some e) | None => (bindEvents i pe el, None) end).

(** ** The resize plugin *)

(** [onResize]; [drawn] says whether the plot was drawn again. *)
Definition onResize el : outcome * bool :=
  if (el_width el =? ⟨0⟩) || (el_height el =? ⟨0⟩) then ((el, None), false)
  else let r := resize el in (r, match r.2 with None => true | Some _ => false end).

(** The element has a new size, and tells every plot that asked. *)
Definition resized (w h : num) el : outcome :=
  foldl (λ r _, andThen r (λ el, (onResize el).1)) (set_size el w h, None) (el_resize el).

(** ** What may happen to the element *)

(** A plot asks for a redraw of its overlay when the mouse moves over it. *)
Definition mouse i el : element num :=
  if bool_decide (i ∈ el_timeouts el) then el else set_events el (el_bound el) (el_resize el) (i :: el_timeouts el).

Inductive step : element num → element num → Prop :=
  | step_plot i pe draw labels el : el_plot el ≠ Some i → step el (new_plot i pe draw labels el).1
  | step_mouse i e el : (i, e) ∈ el_bound el → step el (mouse i el)
  | step_timer i el : i ∈ el_timeouts el →
      step el (set_events el (el_bound el) (el_resize el) (filter (λ j, j ≠ i) (el_timeouts el)))
  | step_size w h el : step el (resized w h el).1.

Definition element0 (w h : num) : element num := Element w h None None 0 None [] [] [].

(** ** Only the last plot is alive *)

(** Every event and every redraw under way belongs to the plot that the
    element remembers, once; the canvases come in pairs, with one saved state,
    and there is a plot when there are canvases. *)
Record alive el : Prop := Alive {
  alive_bound : ∀ i e, (i, e) ∈ el_bound el → el_plot el = Some i;
  alive_once : NoDup (el_bound el);
  alive_resize : ∀ i, i ∈ el_resize el → el_plot el = Some i;
  alive_resize_once : NoDup (el_resize el);
  alive_timeouts : ∀ i, i ∈ el_timeouts el → el_plot el = Some i;
  alive_canvases : match el_base el, el_overlay el with
                   | Some b, Some o => cv_saved b = 1%nat ∧ cv_saved o = 1%nat ∧ is_Some (el_plot el)
                   | None, None => el_plot el = None
                   | _, _ => False
                   end;
}.

Lemma alive0 w h : alive (element0 w h).
Proof. by split; simpl; [set_solver|constructor|set_solver|constructor|set_solver|]. Qed.

(** The plot that the element remembers is the only one that has anything to
    lose: nothing is left when it is shut down. *)
Lemma shutdown_all old el : alive el → el_plot el = Some old → shutdown old el = set_events el [] [] [].
Proof.
  intros [A1 _ A3 _ A5 _] Ep. unfold shutdown. f_equal; apply filter_all_none.
  - intros [i e] Hin Hn. apply A1 in Hin. simpl in Hn. congruence.
  - intros i Hin Hn. apply A3 in Hin. congruence.
  - intros i Hin Hn. apply A5 in Hin. congruence.
Qed.

Lemma alive_none el : alive el → el_plot el = None → el_bound el = [] ∧ el_resize el = [] ∧ el_timeouts el = [].
Proof.
  intros [A1 _ A3 _ A5 _] Ep. split_and!; [|apply elem_of_nil_inv..].
  - destruct (el_bound el) as [|[i e] l]; [done|]. by rewrite (A1 i e) in Ep by constructor.
  - intros i Hi%A3. congruence.
  - intros i Hi%A5. congruence.
Qed.

Lemma resizeCanvas_saved el c : cv_saved c = 1%nat → cv_saved (resizeCanvas el c) = 1%nat.
Proof. unfold resizeCanvas. cbn [cv_saved]. intros ->. by destruct (_ || _). Qed.

(** No event at all, on a pair of canvases of the size of the element. *)
Definition quiet el : Prop := el_bound el = [] ∧ el_resize el = [] ∧ el_timeouts el = [].

Lemma resize_alive el : alive el → alive (resize el).1.
Proof.
  intros HA. unfold resize. destruct (getCanvasDimensions el); [done|]. destruct HA as [A1 A2 A3 A4 A5 A6]. split; try done.
  cbn [fst set_canvases el_base el_overlay el_plot]. destruct (el_base el), (el_overlay el); cbn; try done.
  destruct A6 as (B1 & B2 & B3). split_and!; [by apply resizeCanvas_saved..|done].
Qed.

Lemma setupCanvases_alive i el : alive el → let r := setupCanvases i el in
  alive r.1 ∧ (r.2 = None → el_plot r.1 = Some i ∧ quiet r.1).
Proof.
  intros HA. pose proof HA as [A1 A2 A3 A4 A5 A6]. cbv zeta. unfold setupCanvases.
  destruct (el_base el) as [b|] eqn:Eb, (el_overlay el) as [v|] eqn:Ev; try done.
  - destruct A6 as (B1 & B2 & [old Ep]). rewrite Ep. rewrite (shutdown_all old) by done.
    assert (HQ : alive (set_events el [] [] [])).
    { split; cbn; [set_solver|constructor|set_solver|constructor|set_solver|]. rewrite Eb, Ev, Ep. split_and!; [done..|by eexists]. }
    pose proof (resize_alive _ HQ) as HR. unfold resize in *.
    destruct (getCanvasDimensions _); cbn [fst snd andThen] in *; [by split|].
    split; [|by split]. destruct HR as [_ _ _ _ _ R6]. cbn in R6.
    split; cbn; [set_solver|constructor|set_solver|constructor|set_solver|].
    rewrite Eb, Ev in *. cbn in *. destruct R6 as (R1 & R2 & _). split_and!; [done..|by eexists].
  - destruct (alive_none el HA A6) as (E1 & E2 & E3).
    change (getCanvasDimensions (empty_element el)) with (getCanvasDimensions el).
    destruct (getCanvasDimensions el); cbn [fst snd].
    + split; [|done]. split; cbn; rewrite ?E2, ?E3; [set_solver|constructor|set_solver|constructor|set_solver|done].
    + split; [|by split]. split; cbn; rewrite ?E2, ?E3; [set_solver|constructor|set_solver|constructor|set_solver|].
      split_and!; [done..|by eexists].
Qed.

Lemma bind_alive i pe n el : alive el → el_plot el = Some i → quiet el → alive (bindEvents i pe (set_others el n)).
Proof.
  intros [A1 A2 A3 A4 A5 A6] Ep (Q1 & Q2 & Q3). unfold bindEvents. cbn [set_others el_bound el_resize el_timeouts].
  rewrite Q1, Q2, Q3. cbn [app]. split; cbn.
  - intros j e Hj. rewrite Ep. destruct (hoverable pe), (clickable pe); set_solver.
  - destruct (hoverable pe), (clickable pe); cbn; repeat (apply NoDup_cons_2; [set_solver|]); apply NoDup_nil_2.
  - intros j Hj. rewrite Ep. destruct (resizable pe); set_solver.
  - destruct (resizable pe); [apply NoDup_singleton|apply NoDup_nil_2].
  - set_solver.
  - done.
Qed.

(** With a size, the canvases are there and have that size. *)
Lemma setupCanvases_ok i el : alive el → getCanvasDimensions el = None →
  let c := CanvasEl (el_width el) (el_height el) 1 in
  ∃ el', setupCanvases i el = (el', None) ∧ el_base el' = Some c ∧ el_overlay el' = Some c.
Proof.
  intros HA Hd. pose proof HA as [A1 A2 A3 A4 A5 A6]. unfold setupCanvases.
  destruct (el_base el) as [b|] eqn:Eb, (el_overlay el) as [v|] eqn:Ev; try done.
  - destruct A6 as (B1 & B2 & [old Ep]). rewrite Ep, (shutdown_all old) by done. unfold resize.
    change (getCanvasDimensions (set_events el [] [] [])) with (getCanvasDimensions el). rewrite Hd.
    eexists. split; [done|]. cbn. rewrite Eb, Ev. cbn. unfold resizeCanvas. rewrite B1, B2. cbn.
    split; by destruct (_ || _).
  - change (getCanvasDimensions (empty_element el)) with (getCanvasDimensions el). rewrite Hd. by eexists.
Qed.

Lemma new_plot_alive i pe draw labels el : alive el → alive (new_plot i pe draw labels el).1.
Proof.
  intros HA. unfold new_plot. destruct (setupCanvases_alive i el HA) as [HA' HQ].
  destruct (setupCanvases i el) as [el' [e|]]; cbn [fst snd andThen] in *; [done|].
  destruct (HQ eq_refl) as [Ep Q]. destruct draw; cbn [fst].
  - by destruct HA' as [A1 A2 A3 A4 A5 A6]; split.
  - by apply bind_alive.
Qed.

Lemma resized_alive w h el : alive el → alive (resized w h el).1.
Proof.
  intros HA. unfold resized. assert (HS : alive (set_size el w h)) by (by destruct HA as [A1 A2 A3 A4 A5 A6]; split).
  assert (G : ∀ l (r : outcome), alive r.1 → alive (foldl (λ (r : outcome) (_ : nat), andThen r (λ el, (onResize el).1)) r l).1).
  { induction l as [|j l IH]; intros r Hr; [done|]. cbn [foldl]. apply IH. unfold andThen. destruct (r.2); [done|].
    unfold onResize. destruct (_ || _); [done|]. by apply resize_alive. }
  by apply G.
Qed.

Lemma step_alive el el' : step el el' → alive el → alive el'.
Proof.
  destruct 1 as [i pe draw labels el Hi|i e el Hin|i el Hin|w h el]; intros HA.
  - by apply new_plot_alive.
  - unfold mouse. case_bool_decide; [done|]. destruct HA as [A1 A2 A3 A4 A5 A6]. split; try done.
    cbn. intros j [-> |Hj]%elem_of_cons; [by apply (A1 i e)|by apply A5].
  - destruct HA as [A1 A2 A3 A4 A5 A6]. split; try done. cbn. intros j [_ Hj]%list_elem_of_filter. by apply A5.
  - by apply resized_alive.
Qed.

(** C8: only the last plot is alive: whatever plots are made in an element,
    with or without errors, and whatever the mouse, the timers and the size of
    the element do, every event bound and every redraw under way belongs to the
    plot that the element remembers, none of them twice; the two canvases come
    together, each with one saved state. *)
Theorem lifecycle_alive w h el : rtc step (element0 w h) el → alive el.
Proof.
  intros HR. remember (element0 w h) as e0 eqn:E. assert (HA : alive e0) by (subst; apply alive0). clear E.
  induction HR as [|e1 e2 e3 Hs HR IH]; [done|]. apply IH. by apply (step_alive e1).
Qed.

(** A new plot takes over the element: when the element has a size and the
    drawing does not fail, the new plot is the one remembered, exactly its own
    events are bound, no redraw is left, its labels are the only other
    children, and both canvases have the size of the element. *)
Theorem new_plot_takes_over i pe labels el : alive el → getCanvasDimensions el = None →
  let r := new_plot i pe None labels el in
  r.2 = None ∧ el_plot r.1 = Some i ∧ el_others r.1 = labels ∧ el_timeouts r.1 = [] ∧
  (∀ j e, (j, e) ∈ el_bound r.1 ↔ j = i ∧ (hoverable pe = true ∧ (e = "mousemove" ∨ e = "mouseleave")
                                          ∨ clickable pe = true ∧ e = "click")) ∧
  (∀ j, j ∈ el_resize r.1 ↔ j = i ∧ resizable pe = true) ∧
  ∃ c, el_base r.1 = Some c ∧ el_overlay r.1 = Some c ∧ c = CanvasEl (el_width el) (el_height el) 1.
Proof.
  intros HA Hd. unfold new_plot. destruct (setupCanvases_alive i el HA) as [HA' HQ].
  destruct (setupCanvases_ok i el HA Hd) as (el' & E & Eb & Ev). rewrite E in *. cbn [fst snd andThen] in *.
  destruct (HQ eq_refl) as [Ep (Q1 & Q2 & Q3)]. cbv zeta. unfold bindEvents.
  cbn [fst snd set_others set_events el_plot el_others el_timeouts el_bound el_resize el_base el_overlay].
  rewrite Q1, Q2, Q3, Eb, Ev. split_and!; try done; [intros j e|intros j|by eexists].
  - destruct (hoverable pe), (clickable pe); set_solver.
  - destruct (resizable pe); set_solver.
Qed.
End lifecycle.

(** ** Examples *)

Definition all_events : plot_events := PlotEvents true true true.

(** A plot, the mouse over it, another size, and a plot that takes over. *)
Definition sample_first : element xq := (new_plot 1 all_events None 12 (element0 (of_Z 800) (of_Z 600))).1.
Definition sample_later : element xq := (resized (of_Z 400) (of_Z 300) (mouse 1 sample_first)).1.

Lemma sample_later_reached : rtc step (element0 (num := xq) (of_Z 800) (of_Z 600)) sample_later.
Proof.
  apply (rtc_l _ _ sample_first); [by apply step_plot|].
  apply (rtc_l _ _ (mouse 1 sample_first)); [apply (step_mouse 1 "click"); vm_compute; set_solver|].
  apply rtc_once. apply step_size.
Qed.

Lemma lifecycle_alive_witness :
  rtc step (element0 (num := xq) (of_Z 800) (of_Z 600)) sample_later ∧ el_timeouts sample_later = [1] ∧ alive sample_later.
Proof.
  split; [apply sample_later_reached|]. split; [done|].
  apply (lifecycle_alive (of_Z 800) (of_Z 600)), sample_later_reached.
Defined.

Lemma new_plot_takes_over_witness :
  let r := new_plot 2 (PlotEvents false true false) None 5 sample_first in
  r.2 = None ∧ el_plot r.1 = Some 2 ∧ el_others r.1 = 5 ∧ el_timeouts r.1 = [] ∧
  (∀ j e, (j, e) ∈ el_bound r.1 ↔ j = 2 ∧ (false = true ∧ (e = "mousemove" ∨ e = "mouseleave") ∨ true = true ∧ e = "click")) ∧
  (∀ j, j ∈ el_resize r.1 ↔ j = 2 ∧ false = true) ∧
  ∃ c, el_base r.1 = Some c ∧ el_overlay r.1 = Some c ∧ c = CanvasEl (num := xq) (of_Z 800) (of_Z 600) 1.
Proof.
  apply (new_plot_takes_over 2 (PlotEvents false true false) 5 sample_first); [|by vm_compute].
  apply (step_alive (element0 (of_Z 800) (of_Z 600))); [by apply step_plot|apply alive0].
Defined.
