(* ===== verification/FlotSelection.v ===== *)
(** The selection plugin, [static/flot/jquery.flot.selection.js]: the
    rectangle dragged over the plot, the events it fires, and the document
    handlers it replaces while the button is down. *)

From S2P Require Import Prelude Numbers JsText JsValue Color FlotModel FlotAxis Canvas FlotLayout FlotGrid FlotPlot.

(** The handler of [document.onselectstart] or [document.ondrag]: none, one of
    the page, or the plugin's own, which blocks. *)
Inductive doc_handler := NoHandler | PageHandler | Blocker.

(** The handler in place and the one that was saved. *)
Record saved_handler := SavedHandler { current : doc_handler; saved : doc_handler }.

(** A mouse event; the position may be missing. *)
Record mouse (num : Type) := Mouse { which : Z; pageX : jsv num; pageY : jsv num }.
Arguments Mouse {num} _ _ _. Arguments which {num} _. Arguments pageX {num} _. Arguments pageY {num} _.

(** The variables of the plugin; [pending] counts the mouseup handlers bound
    to the document, of which [last_bound] tells whether the latest is known. *)
Record selection (num : Type) := Selection {
  first : num * num; second : num * num; sel_show : bool; sel_active : bool;
  onselectstart : saved_handler; ondrag : saved_handler; pending : nat; last_bound : bool;
}.
Arguments Selection {num} _ _ _ _ _ _ _ _. Arguments first {num} _. Arguments second {num} _.
Arguments sel_show {num} _. Arguments sel_active {num} _. Arguments onselectstart {num} _.
Arguments ondrag {num} _. Arguments pending {num} _. Arguments last_bound {num} _.

(** The selected interval of each axis, by name. *)
Definition ranges (num : Type) : Type := list (string * (num * num)).

(** What the plugin does to the rest of the page: a redraw of the overlay, or
    an event on the placeholder. *)
Inductive sel_effect (num : Type) :=
  | Redraw
  | PlotSelecting (r : option (ranges num))
  | PlotSelected (r : option (ranges num))
  | Selected (x1 y1 x2 y2 : num)
  | PlotUnselected.
Arguments Redraw {num}. Arguments PlotSelecting {num} _. Arguments PlotSelected {num} _.
Arguments Selected {num} _ _ _ _. Arguments PlotUnselected {num}.

(** Text selection or dragging is blocked when the button goes down, unless a
    handler is saved already, and restored when it goes up; [supported] tells
    whether the document has the property. *)
Definition block_handler (supported : bool) (h : saved_handler) : saved_handler :=
  match supported, saved h with
  | true, NoHandler => SavedHandler Blocker (current h)
  | _, _ => h
  end.
Definition restore_handler (supported : bool) (h : saved_handler) : saved_handler :=
  if supported then SavedHandler (saved h) (saved h) else h.

Section selection.
Context {num : Type} `{Num num} `{NumText num}.
Implicit Types (st : selection num) (e : mouse num) (p : plot num) (g : geometry num) (m : marking num).
Local Open Scope num_scope.

(** The options of the plugin, the position of the placeholder in the page,
    the plot, and whether the document has the two properties. *)
Variables (mode : option string) (color : string) (left top : num).
Variables (p : plot num) (g : geometry num) (has_onselectstart has_ondrag : bool).

Definition with_rect st (a b : num * num) : selection num :=
  Selection a b (sel_show st) (sel_active st) (onselectstart st) (ondrag st) (pending st) (last_bound st).
Definition with_show st (b : bool) : selection num :=
  Selection (first st) (second st) b (sel_active st) (onselectstart st) (ondrag st) (pending st) (last_bound st).

Definition selection0 (h1 h2 : doc_handler) : selection num :=
  Selection (⟨-1⟩, ⟨-1⟩) (⟨-1⟩, ⟨-1⟩) false false (SavedHandler h1 NoHandler) (SavedHandler h2 NoHandler) 0 false.

Definition minSize : num := ⟨5⟩.
(** Whether the rectangle with these corners is large enough. *)
Definition sane_corners (a b : num * num) : bool :=
  (nabs (b.1 - a.1) >=? minSize) && (nabs (b.2 - a.2) >=? minSize).
Definition selectionIsSane st : bool := sane_corners (first st) (second st).

(** The interval of every used axis between two corners. *)
Definition ranges_between (c1 c2 : num * num) : ranges num :=
  omap (λ e : string * axis num,
    let '(name, ax) := e in
    if ax_used ax then
      let at_ c := c2p ax match ax_direction ax with DirX => c.1 | DirY => c.2 end in
      let p1 := at_ c1 in
      let p2 := at_ c2 in
      Some (name, (nmin p1 p2, nmax p1 p2))
    else None) (getAxes p).

Definition getSelection st : option (ranges num) :=
  if selectionIsSane st then Some (ranges_between (first st) (second st)) else None.

(** The older event needs both first axes; without a selection reading them
    fails after the first event. *)
Definition selected_events (r : option (ranges num)) : list (sel_effect num) :=
  PlotSelected r ::
  match r ≫= assoc "xaxis", r ≫= assoc "yaxis" with
  | Some x, Some y => [Selected x.1 y.1 x.2 y.2]
  | _, _ => []
  end.
Definition triggerSelectedEvent st : list (sel_effect num) := selected_events (getSelection st).

Definition clamp (min value max : num) : num :=
  if value <? min then min else if value >? max then max else value.

(** The corner that an event sets; [is_first] tells which of the two. *)
Definition setSelectionPos (is_first : bool) e : num * num :=
  let x := clamp ⟨0⟩ (to_num (pageX e) - left - off_left g) (plotWidth g) in
  let y := clamp ⟨0⟩ (to_num (pageY e) - top - off_top g) (plotHeight g) in
  (if bool_decide (mode = Some "y") then if is_first then ⟨0⟩ else plotWidth g else x,
   if bool_decide (mode = Some "x") then if is_first then ⟨0⟩ else plotHeight g else y).

Definition clearSelection (preventEvent : bool) st : selection num * list (sel_effect num) :=
  if sel_show st
  then (with_show st false, Redraw :: if preventEvent then [] else [PlotUnselected])
  else (st, []).

Definition updateSelection e st : selection num * list (sel_effect num) :=
  if is_null (pageX e) then (st, [])
  else
    let st := with_rect st (first st) (setSelectionPos false e) in
    if selectionIsSane st then (with_show st true, [Redraw]) else clearSelection true st.

Definition onMouseMove e st : selection num * list (sel_effect num) :=
  if sel_active st then
    let '(st, effects) := updateSelection e st in (st, effects ++ [PlotSelecting (getSelection st)])
  else (st, []).

Definition onMouseDown e st : selection num :=
  if (which e =? 1)%Z then
    Selection (setSelectionPos true e) (second st) (sel_show st) true
      (block_handler has_onselectstart (onselectstart st)) (block_handler has_ondrag (ondrag st))
      (S (pending st)) true
  else st.

Definition onMouseUp e st : selection num * list (sel_effect num) :=
  let st := Selection (first st) (second st) (sel_show st) false
              (restore_handler has_onselectstart (onselectstart st))
              (restore_handler has_ondrag (ondrag st)) (pending st) false in
  let '(st, effects) := updateSelection e st in
  (st, effects ++ if selectionIsSane st then triggerSelectedEvent st
                  else [PlotUnselected; PlotSelecting None]).

(** [extractRange], as the plugin has it: the axes come from [getAxes]. *)
Definition extractRange m (coord : direction) : option (axis num) * (jsv num * jsv num) :=
  let candidates := filter (λ ax, ax_direction ax = coord) (map snd (getAxes p)) in
  let '(ax, (from, to)) :=
    match named_range m candidates with
    | Some (ax, r) => (Some ax, r)
    | None => (mjoin (head (axes_of p coord)),
               (assoc_jsv (dir_name coord +:+ "1") (m_bounds m), assoc_jsv (dir_name coord +:+ "2") (m_bounds m)))
    end in
  if negb (is_null from) && negb (is_null to) && js_ltb to from then (ax, (to, from)) else (ax, (from, to)).

(** The two coordinates that given ranges select in a direction. *)
Definition range_corners m (coord : direction) : result (num * num) :=
  let full := match coord with DirX => (⟨0⟩, plotWidth g) | DirY => (⟨0⟩, plotHeight g) end in
  let other := match coord with DirX => "y" | DirY => "x" end in
  if bool_decide (mode = Some other) then Ok full
  else
    match extractRange m coord with
    | (Some ax, (from, to)) => Ok (p2c ax (to_num from), p2c ax (to_num to))
    | (None, _) => Throw "TypeError: axis is undefined"
    end.

Definition setSelection m (preventEvent : bool) st : result (selection num * list (sel_effect num)) :=
  '(x1, x2) ← range_corners m DirX;
  '(y1, y2) ← range_corners m DirY;
  let st := with_show (with_rect st (x1, y1) (x2, y2)) true in
  Ok (st, Redraw :: if negb preventEvent && selectionIsSane st then triggerSelectedEvent st else []).

(** ** Events *)

Inductive sel_input :=
  | Move e
  | Press e
  | Release e
  | SetSelection m (preventEvent : bool)
  | ClearSelection (preventEvent : bool).

(** All the mouseup handlers run on a release; each unbinds itself first. *)
Fixpoint release (n : nat) e st : selection num * list (sel_effect num) :=
  match n with
  | 0%nat => (st, [])
  | S n =>
      let '(st, out) := onMouseUp e st in
      let '(st, out') := release n e st in
      (st, out ++ out')
  end.

Definition unbind_all st : selection num :=
  Selection (first st) (second st) (sel_show st) (sel_active st) (onselectstart st) (ondrag st) 0 (last_bound st).

(** The mouse handlers are bound only when a mode is set. *)
Definition sel_step (i : sel_input) st : result (selection num * list (sel_effect num)) :=
  let bound := bool_decide (is_Some mode) in
  match i with
  | Move e => Ok (if bound then onMouseMove e st else (st, []))
  | Press e => Ok (if bound then onMouseDown e st else st, [])
  | Release e => Ok (release (pending st) e (unbind_all st))
  | SetSelection m prevent => setSelection m prevent st
  | ClearSelection prevent => Ok (clearSelection prevent st)
  end.

Fixpoint sel_run (inputs : list sel_input) st : result (selection num * list (sel_effect num)) :=
  match inputs with
  | [] => Ok (st, [])
  | i :: inputs =>
      '(st, out) ← sel_step i st;
      '(st, out') ← sel_run inputs st;
      Ok (st, out ++ out')
  end.

(** Shutting down: only the latest mouseup handler can be unbound. *)
Definition sel_shutdown st : selection num :=
  Selection (first st) (second st) (sel_show st) (sel_active st) (onselectstart st) (ondrag st)
    (if last_bound st then pred (pending st) else pending st) (last_bound st).

(** The hook that draws the selection; [scale] changes the color object, so
    the fill is made from the color of the border. *)
Definition draw_selection st : list (canvas_op num) :=
  if sel_show st && selectionIsSane st then
    let c := scale [A] (of_ratio 8 10) (parse color) in
    let c' := scale [A] (of_ratio 4 10) c in
    let '(a, b) := (first st, second st) in
    let x := nmin a.1 b.1 in
    let y := nmin a.2 b.2 in
    let w := nabs (b.1 - a.1) in
    let h := nabs (b.2 - a.2) in
    [OpSave; OpTranslate (off_left g) (off_top g); OpStrokeStyle (PaintText (toString c)); OpLineWidth ⟨1⟩;
     OpLineJoin "round"; OpFillStyle (PaintText (toString c')); OpFillRect x y w h; OpStrokeRect x y w h;
     OpRestore]
  else [].
End selection.
Arguments sel_input _ : clear implicits. Arguments Move {num} _. Arguments Press {num} _.
Arguments Release {num} _. Arguments SetSelection {num} _ _. Arguments ClearSelection {num} _.
