(* ===== verification/FlotSelectionSpec.v ===== *)
(** What selecting does: the events refine a specification that only knows
    where the drag began, the selected ranges lie in those of the axes, setting
    a selection and reading it back agree, and what becomes of the document
    handlers. *)

From stdpp Require Import sets.
From Stdlib Require Import QArith Qabs Lqa.
From S2P Require Import Prelude Numbers ExactNum JsText JsValue FlotModel FlotAxis FlotLineSpec FlotMarkSpec FlotLayout FlotGrid FlotPlot FlotSelection.

#[local] Open Scope nat_scope.

(** ** The specification of a drag *)

(** Where the drag began, while the button is down, and whether a selection is shown. *)
Record drag (num : Type) := Drag { anchor : option (num * num); shown : bool }.
Arguments Drag {num} _ _. Arguments anchor {num} _. Arguments shown {num} _.

Section refinement.
Context {num : Type} `{Num num} `{NumText num}.
Variables (mode : option string) (left top : num) (p : plot num) (g : geometry num) (s1 s2 : bool).
Implicit Types (st : selection num) (e : mouse num) (d : drag num).

(** The ranges between the anchor and the corner of an event, if it is large enough. *)
Definition report (a c : num * num) : option (ranges num) :=
  if sane_corners a c then Some (ranges_between p a c) else None.
Definition corner e : num * num := setSelectionPos mode left top g false e.

(** The events of an input; the inputs that are not covered are presses during
    a drag, ranges set during a drag, and events without a position. *)
Inductive drag_step : drag num → sel_input num → list (sel_effect num) → drag num → Prop :=
  | drag_idle_move b e : drag_step (Drag None b) (Move e) [] (Drag None b)
  | drag_move a b e : is_null (pageX e) = false →
      drag_step (Drag (Some a) b) (Move e) [PlotSelecting (report a (corner e))]
        (Drag (Some a) (sane_corners a (corner e)))
  | drag_press b e : which e = 1%Z →
      drag_step (Drag None b) (Press e) [] (Drag (Some (setSelectionPos mode left top g true e)) b)
  | drag_other d e : which e ≠ 1%Z → drag_step d (Press e) [] d
  | drag_idle_release b e : drag_step (Drag None b) (Release e) [] (Drag None b)
  | drag_select a b e r : is_null (pageX e) = false → report a (corner e) = Some r →
      drag_step (Drag (Some a) b) (Release e) (selected_events (Some r)) (Drag None true)
  | drag_unselect a b e : is_null (pageX e) = false → report a (corner e) = None →
      drag_step (Drag (Some a) b) (Release e) [PlotUnselected; PlotSelecting None] (Drag None false)
  | drag_set b m prevent x1 x2 y1 y2 :
      range_corners mode p g m DirX = Ok (x1, x2) → range_corners mode p g m DirY = Ok (y1, y2) →
      drag_step (Drag None b) (SetSelection m prevent)
        (match report (x1, y1) (x2, y2) with
         | Some r => if prevent then [] else selected_events (Some r)
         | None => []
         end) (Drag None true)
  | drag_clear a b prevent :
      drag_step (Drag a b) (ClearSelection prevent)
        (if b && negb prevent then [PlotUnselected] else []) (Drag a false).

Inductive drag_run : drag num → list (sel_input num) → list (sel_effect num) → drag num → Prop :=
  | drag_done d : drag_run d [] [] d
  | drag_next d i out d' inputs out' d'' : drag_step d i out d' → drag_run d' inputs out' d'' →
      drag_run d (i :: inputs) (out ++ out') d''.

(** The events among the effects. *)
Definition fired (out : list (sel_effect num)) : list (sel_effect num) :=
  omap (λ x, match x with Redraw => None | _ => Some x end) out.

Lemma fired_app l l' : fired (l ++ l') = fired l ++ fired l'.
Proof. unfold fired. by rewrite omap_app. Qed.

(** The variables of the plugin behind a state of the specification. *)
Record implements d st : Prop := {
  im_active : sel_active st = bool_decide (is_Some (anchor d));
  im_pending : pending st = if anchor d then 1 else 0;
  im_anchor a : anchor d = Some a → first st = a;
  im_shown : sel_show st = shown d;
}.

Lemma fired_selected r : fired (selected_events r) = selected_events r.
Proof. unfold selected_events. by repeat case_match. Qed.

(** What [updateSelection] leaves, and that it only redraws. *)
Lemma update_spec e st : is_null (pageX e) = false →
  let st' := (updateSelection mode left top g e st).1 in
  fired (updateSelection mode left top g e st).2 = [] ∧
  first st' = first st ∧ second st' = corner e ∧ sel_active st' = sel_active st ∧
  pending st' = pending st ∧ last_bound st' = last_bound st ∧
  onselectstart st' = onselectstart st ∧ ondrag st' = ondrag st ∧
  sel_show st' = sane_corners (first st) (corner e).
Proof.
  intros He. unfold updateSelection. rewrite He. unfold clearSelection, selectionIsSane, corner.
  cbn [first second with_rect sel_show]. destruct (sane_corners _ _) eqn:E; [by repeat split|].
  cbn [first second with_rect sel_show]. destruct (sel_show st) eqn:Es; repeat split; done.
Qed.

Lemma simulate d i out d' st : is_Some mode → drag_step d i out d' → implements d st →
  ∃ st' out', sel_step mode left top p g s1 s2 i st = Ok (st', out') ∧ fired out' = out ∧ implements d' st'.
Proof.
  intros Hm S [Ha Hp Hf Hs]. unfold sel_step. rewrite (bool_decide_eq_true_2 _ Hm).
  destruct S as [b e|a b e He|b e Hw|d e Hw|b e|a b e r He Hr|a b e He Hr|b m prevent x1 x2 y1 y2 Hx Hy|a b prevent];
    simpl in *.
  - unfold onMouseMove. rewrite Ha. eexists _, _. split; [done|]. split; [done|by split].
  - unfold onMouseMove. rewrite Ha. destruct (update_spec e st He) as (U1 & U2 & U3 & U4 & U5 & _ & _ & _ & U9).
    destruct (updateSelection _ _ _ _ _ _) as [st' out']. simpl in *. eexists _, _. split; [done|].
    rewrite fired_app, U1. split.
    + unfold getSelection, selectionIsSane, report. by rewrite U2, U3, (Hf a eq_refl).
    + split; simpl; [by rewrite U4|by rewrite U5|intros ? [= <-]; by rewrite U2, (Hf a)|by rewrite U9, (Hf a)].
  - unfold onMouseDown. rewrite Hw. eexists _, _. split; [done|]. split; [done|].
    split; simpl; [done|by rewrite Hp|by intros ? [= <-]|done].
  - unfold onMouseDown. rewrite (proj2 (Z.eqb_neq _ _) Hw). eexists _, _. split; [done|]. split; [done|by split].
  - rewrite Hp. eexists _, _. split; [done|]. split; [done|by split].
  - rewrite Hp. simpl. unfold onMouseUp.
    match goal with |- context [updateSelection _ _ _ _ e ?s] => set (st1 := s) end.
    destruct (update_spec e st1 He) as (U1 & U2 & U3 & U4 & U5 & _ & _ & _ & U9).
    destruct (updateSelection _ _ _ _ _ _) as [st' out']. simpl in *.
    assert (Es : selectionIsSane st' = sane_corners a (corner e)).
    { unfold selectionIsSane. by rewrite U2, U3, (Hf a eq_refl). }
    unfold report in Hr. destruct (sane_corners a (corner e)) eqn:Ea; [|done]. injection Hr as <-.
    rewrite Es. eexists _, _. split; [done|]. rewrite app_nil_r, fired_app, U1.
    unfold triggerSelectedEvent, getSelection. rewrite Es, U2, U3, (Hf a eq_refl). split; [apply fired_selected|].
    split; simpl; [by rewrite U4|by rewrite U5|done|by rewrite U9, (Hf a)].
  - rewrite Hp. simpl. unfold onMouseUp.
    match goal with |- context [updateSelection _ _ _ _ e ?s] => set (st1 := s) end.
    destruct (update_spec e st1 He) as (U1 & U2 & U3 & U4 & U5 & _ & _ & _ & U9).
    destruct (updateSelection _ _ _ _ _ _) as [st' out']. simpl in *.
    assert (Es : selectionIsSane st' = sane_corners a (corner e)).
    { unfold selectionIsSane. by rewrite U2, U3, (Hf a eq_refl). }
    unfold report in Hr. destruct (sane_corners a (corner e)) eqn:Ea; [done|].
    rewrite Es. eexists _, _. split; [done|]. rewrite app_nil_r, fired_app, U1. split; [done|].
    split; simpl; [by rewrite U4|by rewrite U5|done|by rewrite U9, (Hf a)].
  - unfold setSelection. rewrite Hx, Hy. simpl. eexists _, _. split; [done|]. split.
    + unfold triggerSelectedEvent, getSelection, selectionIsSane, report. simpl.
      destruct (sane_corners _ _); [|by rewrite andb_false_r]. destruct prevent; [done|].
      simpl. apply fired_selected.
    + by split.
  - unfold clearSelection. rewrite Hs. destruct b, prevent; eexists _, _; (split; [done|]); (split; [done|]); by split.
Qed.

Lemma simulate_run d inputs out d' st : is_Some mode → drag_run d inputs out d' → implements d st →
  ∃ st' out', sel_run mode left top p g s1 s2 inputs st = Ok (st', out') ∧ fired out' = out ∧ implements d' st'.
Proof.
  intros Hm R. revert st. induction R as [d|d i out d' inputs out' d'' S R IH]; intros st Hst.
  { by exists st, []. }
  destruct (simulate d i out d' st Hm S Hst) as (st1 & o1 & E1 & F1 & I1).
  destruct (IH st1 I1) as (st2 & o2 & E2 & F2 & I2).
  exists st2, (o1 ++ o2). simpl. rewrite E1. simpl. rewrite E2. simpl. split; [done|].
  by rewrite fired_app, F1, F2.
Qed.
End refinement.

(** C2: the plugin refines the specification of a drag: whatever the inputs
    that it covers, the events the plugin fires are those of the
    specification, and a selection is shown when the specification says so;
    the rest of its variables (the old corners, the saved handlers, the
    redraws) never shows in the events. *)
Theorem selection_refines {num : Type} `{Num num} `{NumText num}
    mode left top (p : plot num) g s1 s2 h1 h2 inputs out d :
  is_Some mode → drag_run mode left top p g (Drag None false) inputs out d →
  ∃ st effects, sel_run mode left top p g s1 s2 inputs (selection0 h1 h2) = Ok (st, effects) ∧
    fired effects = out ∧ sel_show st = shown d ∧ sel_active st = bool_decide (is_Some (anchor d)).
Proof.
  intros Hm R. destruct (simulate_run mode left top p g s1 s2 _ _ _ _ (selection0 h1 h2) Hm R) as (st & out' & E & F & I).
  { by split. }
  exists st, out'. destruct I as [Ia _ _ Is]. done.
Qed.

(** ** The handlers of the document *)

Section handlers.
Context {num : Type} `{Num num} `{NumText num}.
Variables (mode : option string) (left top : num) (p : plot num) (g : geometry num) (s2 : bool).
Implicit Types (st : selection num) (e : mouse num).

(** A property of the handlers that pressing and releasing keep. *)
Variable P : saved_handler → Prop.
Hypothesis P_block : ∀ h, P h → P (block_handler true h).
Hypothesis P_restore : ∀ h, P h → P (restore_handler true h).

Lemma update_handlers e st :
  onselectstart (updateSelection mode left top g e st).1 = onselectstart st.
Proof.
  unfold updateSelection. destruct (is_null (pageX e)); [done|].
  unfold clearSelection. by repeat case_match.
Qed.

Lemma release_handlers n e st : P (onselectstart st) →
  P (onselectstart (release mode left top p g true s2 n e st).1).
Proof.
  revert st. induction n as [|n IH]; intros st Hst; [done|]. simpl. unfold onMouseUp.
  match goal with |- context [updateSelection _ _ _ _ e ?s] => set (st1 := s) end.
  pose proof (update_handlers e st1) as U. destruct (updateSelection mode left top g e st1) as [st2 o2].
  simpl in U. specialize (IH st2). destruct (release _ _ _ _ _ _ _ _ _ _) as [st3 o3]. simpl in *.
  apply IH. rewrite U. by apply P_restore.
Qed.

Lemma run_handlers inputs st st' out :
  sel_run mode left top p g true s2 inputs st = Ok (st', out) → P (onselectstart st) → P (onselectstart st').
Proof.
  revert st out. induction inputs as [|i inputs IH]; intros st out; simpl; [by intros [= <- _]|].
  intros ([st1 o1] & E1 & ([st2 o2] & E2 & E)%result_bind_ok)%result_bind_ok Hst.
  injection E as -> _. apply (IH st1 o2 E2). clear IH E2. unfold sel_step in E1.
  destruct i as [e|e|e|m prevent|prevent].
  - injection E1 as E1. unfold onMouseMove in E1.
    destruct (bool_decide (is_Some mode)), (sel_active st); try (by injection E1 as <-).
    pose proof (update_handlers e st) as U. destruct (updateSelection _ _ _ _ e st) as [st3 o3].
    injection E1 as <- _. simpl in U. by rewrite U.
  - injection E1 as <- _. unfold onMouseDown.
    destruct (bool_decide _), (which e =? 1)%Z; [by apply P_block|done..].
  - injection E1 as E1. pose proof (release_handlers (pending st) e (unbind_all st) Hst) as R.
    by rewrite E1 in R.
  - unfold setSelection in E1. apply result_bind_ok in E1 as ([x1 x2] & _ & E1).
    apply result_bind_ok in E1 as ([y1 y2] & _ & E1). by injection E1 as <- _.
  - injection E1 as E1. unfold clearSelection in E1. by destruct (sel_show st); injection E1 as <- _.
Qed.
End handlers.

Section presses.
Context {num : Type} `{Num num} `{NumText num}.
Variables (mode : option string) (left top : num) (p : plot num) (g : geometry num) (s2 : bool).
Hypothesis bound : is_Some mode.
Implicit Types (st : selection num) (e : mouse num).

Lemma press_step e st : which e = 1%Z → ∃ st',
  sel_step mode left top p g true s2 (Press e) st = Ok (st', []) ∧
  onselectstart st' = block_handler true (onselectstart st) ∧ pending st' = S (pending st).
Proof.
  intros He. simpl. rewrite (bool_decide_eq_true_2 _ bound). unfold onMouseDown. rewrite He. by eexists.
Qed.

Lemma release_step e st : pending st = 1 → ∃ st' o,
  sel_step mode left top p g true s2 (Release e) st = Ok (st', o) ∧
  onselectstart st' = restore_handler true (onselectstart st).
Proof.
  intros Hp. simpl. rewrite Hp. simpl. unfold onMouseUp.
  match goal with |- context [updateSelection _ _ _ _ e ?s] => set (st1 := s) end.
  pose proof (update_handlers mode left top g e st1) as U.
  destruct (updateSelection mode left top g e st1) as [st2 o2]. simpl in U. do 2 eexists. split; [done|]. by rewrite U.
Qed.

(** Running past an input whose outcome is known. *)
Lemma run_cons i inputs st st' o r : sel_step mode left top p g true s2 i st = Ok (st', o) →
  sel_run mode left top p g true s2 (i :: inputs) st = Ok r →
  ∃ out, sel_run mode left top p g true s2 inputs st' = Ok (r.1, out).
Proof.
  intros E R. cbn [sel_run] in R. rewrite E in R. cbn [mbind result_bind] in R.
  apply result_bind_ok in R as ([st2 o2] & R & E2). injection E2 as <-. by exists o2.
Qed.
End presses.

(** The document handlers are not always given back.  After a press whose
    release was missed and a second press, text selection stays blocked for
    good, whatever happens next; and when the page has a handler of its own
    the plugin blocks text selection in the first drag only. *)
Theorem selection_handlers {num : Type} `{Num num} `{NumText num}
    mode left top (p : plot num) g s2 h2 e1 e2 e3 inputs st out :
  is_Some mode → which e1 = 1%Z → which e2 = 1%Z →
  (sel_run mode left top p g true s2 (Press e1 :: Press e2 :: inputs) (selection0 NoHandler h2) = Ok (st, out) →
   current (onselectstart st) = Blocker) ∧
  (sel_run mode left top p g true s2 (Press e1 :: Release e3 :: inputs) (selection0 PageHandler h2) = Ok (st, out) →
   current (onselectstart st) = PageHandler).
Proof.
  intros Hm H1 H2. split; intros R.
  - destruct (press_step mode left top p g s2 Hm e1 (selection0 NoHandler h2) H1) as (st1 & E1 & K1 & _).
    destruct (run_cons _ _ _ _ _ _ _ _ _ _ _ _ E1 R) as (o1 & R1).
    destruct (press_step mode left top p g s2 Hm e2 st1 H2) as (st2 & E2 & K2 & _).
    destruct (run_cons _ _ _ _ _ _ _ _ _ _ _ _ E2 R1) as (o2 & R2).
    apply (run_handlers mode left top p g s2 (λ h, h = SavedHandler Blocker Blocker)
             ltac:(by intros h ->) ltac:(by intros h ->)) in R2; [cbn [fst] in R2; by rewrite R2|].
    by rewrite K2, K1.
  - destruct (press_step mode left top p g s2 Hm e1 (selection0 PageHandler h2) H1) as (st1 & E1 & K1 & Kp).
    destruct (run_cons _ _ _ _ _ _ _ _ _ _ _ _ E1 R) as (o1 & R1).
    destruct (release_step mode left top p g s2 e3 st1 Kp) as (st2 & o & E2 & K2).
    destruct (run_cons _ _ _ _ _ _ _ _ _ _ _ _ E2 R1) as (o2 & R2).
    apply (run_handlers mode left top p g s2 (λ h, h = SavedHandler PageHandler PageHandler)
             ltac:(by intros h ->) ltac:(by intros h ->)) in R2; [cbn [fst] in R2; by rewrite R2|].
    by rewrite K2, K1.
Qed.

(** ** The selected ranges *)

Local Open Scope Q_scope.

Section exact.
Context `{NumText xq}.
Variables (mode : option string) (left top offl offt W Hc : Q) (p : plot xq) (g : geometry xq) (s1 s2 : bool).
Hypothesis geom : off_left g = XFin offl ∧ off_top g = XFin offt ∧ plotWidth g = XFin W ∧ plotHeight g = XFin Hc.
Hypothesis size : 0 < W ∧ 0 < Hc.
Implicit Types (st : selection xq) (e : mouse xq) (ax : axis xq).

(** An axis without transformation, scaled to the plot area. *)
Definition scaled ax : Prop := ∃ ax0 a b, ax = setTransformationHelpers (XFin W) (XFin Hc) ax0 ∧
  o_transform (ax_options ax0) = None ∧ o_inverseTransform (ax_options ax0) = None ∧
  ax_min ax0 = XFin a ∧ ax_max ax0 = XFin b ∧ a < b.

(** A position in the plot area. *)
Definition inside (c : xq * xq) : Prop :=
  ∃ x y, c = (XFin x, XFin y) ∧ 0 <= x <= W ∧ 0 <= y <= Hc.

Definition positioned e : Prop := ∃ x y, pageX e = Number (XFin x) ∧ pageY e = Number (XFin y).

(** Each interval lies in the range of the axis it names. *)
Definition in_axis_ranges (r : ranges xq) : Prop :=
  Forall (λ '(name, (lo, hi)), ∃ ax a b f t, ax ∈ all_axes p ∧ name = axis_name ax ∧
    ax_min ax = XFin a ∧ ax_max ax = XFin b ∧ lo = XFin f ∧ hi = XFin t ∧ a <= f <= t ∧ t <= b) r.

Definition effect_ok (x : sel_effect xq) : Prop :=
  match x with PlotSelecting (Some r) | PlotSelected (Some r) => in_axis_ranges r | _ => True end.

Lemma clamp_inside w x : 0 <= w → ∃ q, clamp (XFin 0) (XFin x) (XFin w) = XFin q ∧ 0 <= q <= w.
Proof.
  intros Hw. unfold clamp. destruct (nltb (XFin x) (XFin 0)) eqn:E1; xq_hyps; [exists 0; split; [done|lra]|].
  destruct (nltb (XFin w) (XFin x)) eqn:E2; xq_hyps; eexists; (split; [done|lra]).
Qed.

Lemma corner_inside b e : positioned e → inside (setSelectionPos mode (XFin left) (XFin top) g b e).
Proof.
  intros (x & y & Ex & Ey). destruct geom as (El & Et & Ew & Eh), size as [Hw Hh].
  unfold setSelectionPos. rewrite Ex, Ey, El, Et, Ew, Eh. cbn [to_num].
  change (⟨0⟩%num : xq) with (XFin 0).
  destruct (clamp_inside W (x - left - offl) ltac:(lra)) as (qx & Eqx & Hqx).
  destruct (clamp_inside Hc (y - top - offt) ltac:(lra)) as (qy & Eqy & Hqy).
  change (XFin x - XFin left - XFin offl)%num with (XFin (x - left - offl)).
  change (XFin y - XFin top - XFin offt)%num with (XFin (y - top - offt)).
  rewrite Eqx, Eqy. repeat case_bool_decide; destruct b; eexists _, _; (split; [done|]); split; lra.
Qed.

(** A coordinate of the plot area is a value in the range of the axis. *)
Lemma c2p_inside ax a b c : scaled ax → ax_min ax = XFin a → ax_max ax = XFin b →
  0 <= c <= match ax_direction ax with DirX => W | DirY => Hc end →
  ∃ q, c2p ax (XFin c) = XFin q ∧ a <= q <= b.
Proof.
  intros (ax0 & a0 & b0 & -> & Ht & Hi & Ea & Eb & Hlt) Ea' Eb' Hcr. destruct size as [Hw Hh].
  assert (Hf : ∀ q, transform ax0 (XFin q) = XFin q) by (intros q; unfold transform; by rewrite Ht).
  assert (Hne : ¬ a0 == b0) by lra.
  destruct (helpers_view ax0 W Hc (λ q, q) a0 b0 Hw Hh Hf Ea Eb Hne)
    as (m & s & lo & hi & Em & Es & Hlh & Hends & Hdir & Hs0).
  assert (Ed : ax_direction (setTransformationHelpers (XFin W) (XFin Hc) ax0) = ax_direction ax0) by done.
  assert (Emin : ax_min (setTransformationHelpers (XFin W) (XFin Hc) ax0) = ax_min ax0).
  { unfold setTransformationHelpers. by destruct (ax_direction ax0). }
  assert (Emax : ax_max (setTransformationHelpers (XFin W) (XFin Hc) ax0) = ax_max ax0).
  { unfold setTransformationHelpers. by destruct (ax_direction ax0). }
  rewrite Emin, Ea in Ea'. rewrite Emax, Eb in Eb'. injection Ea' as ->. injection Eb' as ->. rewrite Ed in Hcr.
  unfold c2p. rewrite Em, Es, Exact.div_fin, inverse_helpers by done. unfold inverse. rewrite Hi.
  exists (m + c / s). split; [done|]. set (u := c / s).
  assert (Eu : u * s == c) by (unfold u; by field). clearbody u.
  assert (R : lo == a ∧ hi == b) by (destruct Hends as [[? ?]|[? ?]]; split; lra).
  destruct R as [R1 R2]. destruct (ax_direction ax0), Hdir as [D1 D2].
  - assert (S : 0 < s) by nra. assert (0 <= u) by nra. assert (u <= hi - lo) by nra. lra.
  - assert (S : s < 0) by nra. assert (u <= 0) by nra. assert (lo - hi <= u) by nra. lra.
Qed.

Lemma between_inside c1 c2 : (∀ ax, ax ∈ all_axes p → scaled ax) → inside c1 → inside c2 →
  in_axis_ranges (ranges_between p c1 c2).
Proof.
  intros Hax (x1 & y1 & -> & Hx1 & Hy1) (x2 & y2 & -> & Hx2 & Hy2). unfold in_axis_ranges, ranges_between.
  apply Forall_forall. intros [name [lo hi]] ([name' ax] & Hin & E)%list_elem_of_omap.
  destruct (ax_used ax); [|done]. injection E as <- <- <-.
  apply list_elem_of_fmap in Hin as (ax' & [= -> ->] & Hin).
  destruct (Hax _ Hin) as (ax0 & a & b & Eax & Ht & Hi & Ea & Eb & Hlt).
  assert (Emin : ax_min ax' = XFin a).
  { rewrite Eax, <- Ea. unfold setTransformationHelpers. by destruct (ax_direction ax0). }
  assert (Emax : ax_max ax' = XFin b).
  { rewrite Eax, <- Eb. unfold setTransformationHelpers. by destruct (ax_direction ax0). }
  assert (Q1 : ∃ q, c2p ax' match ax_direction ax' with DirX => XFin x1 | DirY => XFin y1 end = XFin q ∧ a <= q <= b).
  { pose proof (λ c, c2p_inside ax' a b c (Hax _ Hin) Emin Emax) as G. destruct (ax_direction ax'); by apply G. }
  assert (Q2 : ∃ q, c2p ax' match ax_direction ax' with DirX => XFin x2 | DirY => XFin y2 end = XFin q ∧ a <= q <= b).
  { pose proof (λ c, c2p_inside ax' a b c (Hax _ Hin) Emin Emax) as G. destruct (ax_direction ax'); by apply G. }
  destruct Q1 as (q1 & E1 & R1), Q2 as (q2 & E2 & R2).
  assert (Ef : ∀ x y : Q, (let '(u, v) := (XFin x, XFin y) in match ax_direction ax' with DirX => u | DirY => v end)
    = match ax_direction ax' with DirX => XFin x | DirY => XFin y end) by done.
  cbn [fst snd]. rewrite E1, E2.
  exists ax', a, b. unfold nmin, nmax. rewrite !Exact.nis_nan_fin.
  destruct (nltb (XFin q1) (XFin q2)) eqn:L; destruct (nltb (XFin q2) (XFin q1)) eqn:L'; xq_hyps;
    eexists _, _; (split; [done|]); (split; [done|]); (split; [done|]); (split; [done|]);
    (split; [reflexivity|]); (split; [reflexivity|]); split; lra.
Qed.

(** The corner where a drag began is in the plot area. *)
Definition anchored st : Prop := sel_active st = true ∨ (0 < pending st)%nat → inside (first st).

Definition mouse_input (i : sel_input xq) : Prop :=
  match i with
  | Move e | Press e | Release e => positioned e
  | SetSelection _ _ => False
  | ClearSelection _ => True
  end.

Hypothesis axes_scaled : ∀ ax, ax ∈ all_axes p → scaled ax.

Lemma selection_ok st : inside (first st) → inside (second st) →
  effect_ok (PlotSelecting (getSelection p st)) ∧ Forall effect_ok (triggerSelectedEvent p st).
Proof.
  intros H1 H2. unfold triggerSelectedEvent, selected_events, getSelection.
  pose proof (between_inside _ _ axes_scaled H1 H2) as R.
  split; [by destruct (selectionIsSane st)|].
  constructor; [by destruct (selectionIsSane st)|]. by repeat case_match; repeat constructor.
Qed.

(** After an event with a position the second corner is in the plot area. *)
Lemma update_inside e st : positioned e →
  let u := updateSelection mode (XFin left) (XFin top) g e st in
  inside (second u.1) ∧ first u.1 = first st ∧ sel_active u.1 = sel_active st ∧ pending u.1 = pending st ∧
  Forall effect_ok u.2.
Proof.
  intros He. assert (Hn : is_null (pageX e) = false) by (by destruct He as (x & y & -> & _)).
  pose proof (corner_inside false e He) as C. unfold updateSelection. rewrite Hn. unfold clearSelection.
  repeat case_match; simpl; repeat split; try done; by repeat constructor.
Qed.

Lemma up_ok e st : positioned e → inside (first st) →
  let u := onMouseUp mode (XFin left) (XFin top) p g s1 s2 e st in
  first u.1 = first st ∧ sel_active u.1 = false ∧ pending u.1 = pending st ∧ Forall effect_ok u.2.
Proof.
  intros He Hf. unfold onMouseUp.
  match goal with |- context [updateSelection _ _ _ _ e ?s] => set (st1 := s) end.
  destruct (update_inside e st1 He) as (U1 & U2 & U3 & U4 & U5).
  destruct (updateSelection _ _ _ _ _ _) as [st2 o2]. simpl in *. repeat split; try done.
  apply Forall_app. split; [done|]. case_match; [|by repeat constructor].
  by apply selection_ok; [rewrite U2|].
Qed.

Lemma release_ok n e st : positioned e → inside (first st) →
  let u := release mode (XFin left) (XFin top) p g s1 s2 n e st in
  inside (first u.1) ∧ Forall effect_ok u.2.
Proof.
  intros He. revert st. induction n as [|n IH]; intros st Hf; [by split|]. simpl.
  destruct (up_ok e st He Hf) as (U1 & _ & _ & U4).
  destruct (onMouseUp _ _ _ _ _ _ _ _ _) as [st2 o2]. simpl in *.
  specialize (IH st2 ltac:(by rewrite U1)). destruct (release _ _ _ _ _ _ _ _ _ _) as [st3 o3]. simpl in *.
  destruct IH. split; [done|]. by apply Forall_app.
Qed.

Lemma step_ok i st st' out : mouse_input i → anchored st →
  sel_step mode (XFin left) (XFin top) p g s1 s2 i st = Ok (st', out) → anchored st' ∧ Forall effect_ok out.
Proof.
  intros Hi Ha. unfold sel_step. destruct i as [e|e|e|m prevent|prevent]; simpl in Hi; [..|done|].
  - intros [= E]. unfold onMouseMove in E.
    destruct (bool_decide (is_Some mode)); [|injection E as <- <-; by split].
    destruct (sel_active st) eqn:Es; [|injection E as <- <-; split; [done|constructor]].
    destruct (update_inside e st Hi) as (U1 & U2 & U3 & U4 & U5).
    destruct (updateSelection _ _ _ _ _ _) as [st2 o2]. injection E as <- <-. simpl in *.
    assert (inside (first st2)) by (rewrite U2; apply Ha; by left). split; [by intros _|].
    apply Forall_app. split; [done|]. constructor; [|done]. by apply selection_ok.
  - intros [= <- <-]. split; [|done]. unfold onMouseDown.
    destruct (bool_decide _), (which e =? 1)%Z; [intros _; simpl; by apply corner_inside|done..].
  - intros [= E]. destruct (pending st) as [|n] eqn:Ep.
    + simpl in E. injection E as <- <-. split; [|done]. intros [Hs|Hs]; [apply Ha; by left|simpl in Hs; lia].
    + pose proof (release_ok (S n) e (unbind_all st) Hi ltac:(apply Ha; right; lia)) as R.
      rewrite E in R. destruct R as [R1 R2]. by split; [intros _|].
  - intros [= E]. unfold clearSelection in E.
    destruct (sel_show st); injection E as <- <-; (split; [done|]); [|done].
    constructor; [done|]. by destruct prevent; repeat constructor.
Qed.

Lemma run_ok inputs st st' out : Forall mouse_input inputs → anchored st →
  sel_run mode (XFin left) (XFin top) p g s1 s2 inputs st = Ok (st', out) → Forall effect_ok out.
Proof.
  intros Hin. revert st out. induction Hin as [|i inputs Hi Hin IH]; intros st out Ha; cbn [sel_run].
  { by intros [= _ <-]. }
  intros ([st1 o1] & E1 & ([st2 o2] & E2 & E)%result_bind_ok)%result_bind_ok. injection E as -> <-.
  destruct (step_ok i st st1 o1 Hi Ha E1) as [Ha1 H1]. apply Forall_app. split; [done|]. by apply (IH st1).
Qed.
End exact.

(** Whatever the mouse does, the ranges that the plugin reports lie in the
    ranges of their axes, in increasing order, also when the mouse leaves the
    plot area. *)
Theorem selection_in_range `{NumText xq} mode left top offl offt W Hc (p : plot xq) g s1 s2 h1 h2 inputs st out :
  off_left g = XFin offl ∧ off_top g = XFin offt ∧ plotWidth g = XFin W ∧ plotHeight g = XFin Hc →
  0 < W ∧ 0 < Hc → (∀ ax, ax ∈ all_axes p → scaled W Hc ax) → Forall mouse_input inputs →
  sel_run mode (XFin left) (XFin top) p g s1 s2 inputs (selection0 h1 h2) = Ok (st, out) →
  ∀ r, PlotSelecting (Some r) ∈ out ∨ PlotSelected (Some r) ∈ out → in_axis_ranges p r.
Proof.
  intros Hg Hs Hax Hin R r Hr.
  assert (A : anchored W Hc (selection0 h1 h2)) by (intros [Ha|Hp]; [done|simpl in Hp; lia]).
  pose proof (run_ok mode left top offl offt W Hc p g s1 s2 Hg Hs Hax inputs _ _ _ Hin A R) as E.
  rewrite Forall_forall in E. destruct Hr as [Hr|Hr]; exact (E _ Hr).
Qed.

(** ** Setting a selection and reading it back *)

Section names.
Context {num : Type} `{Num num} `{NumText num} `{MathLib num}.
Implicit Types (ax : axis num) (p : plot num) (m : marking num).

Lemma numbered_in dir (axs : axes num) ax : numbered dir axs → ax ∈ flat_axes axs →
  (0 < ax_n ax)%nat ∧ ax_direction ax = dir ∧ axs !! (ax_n ax - 1)%nat = Some (Some ax).
Proof.
  intros N Hin. apply in_flat_axes in Hin. unfold axes in *. apply list_elem_of_lookup in Hin as (i & Hi).
  destruct (N i ax Hi) as [E D]. rewrite E. split; [lia|]. split; [done|]. by replace (S i - 1)%nat with i by lia.
Qed.

Definition numbered_plot p : Prop := numbered DirX (p_xaxes p) ∧ numbered DirY (p_yaxes p).

Lemma in_all_axes p ax : ax ∈ all_axes p ↔ ax ∈ flat_axes (p_xaxes p) ∨ ax ∈ flat_axes (p_yaxes p).
Proof. apply elem_of_app. Qed.

Lemma axis_number_pos p ax : numbered_plot p → ax ∈ all_axes p → (0 < ax_n ax)%nat.
Proof.
  intros [Nx Ny] [Hin|Hin]%in_all_axes;
    [by apply (numbered_in DirX (p_xaxes p))|by apply (numbered_in DirY (p_yaxes p))].
Qed.

(** Axes with one name are one axis. *)
Lemma axis_unique p ax ax' : numbered_plot p → ax ∈ all_axes p → ax' ∈ all_axes p →
  axis_name ax = axis_name ax' → ax = ax'.
Proof.
  intros N Hin Hin' E. destruct (axis_name_inj ax ax') as [Ed En]; [by eapply axis_number_pos..|done|].
  destruct N as [Nx Ny]. apply in_all_axes in Hin as [Hin|Hin], Hin' as [Hin'|Hin'];
    match type of Hin with _ ∈ flat_axes ?a => eapply (numbered_in _ a) in Hin as (_ & D & L); [|done] end;
    match type of Hin' with _ ∈ flat_axes ?a => eapply (numbered_in _ a) in Hin' as (_ & D' & L'); [|done] end;
    rewrite ?D, ?D' in Ed; try done; rewrite En in L; congruence.
Qed.

(** The axes of a direction, among those of [getAxes]. *)
Lemma candidates p coord : numbered_plot p →
  filter (λ ax, ax_direction ax = coord) (map snd (getAxes p)) = flat_axes (axes_of p coord).
Proof.
  intros [Nx Ny]. unfold getAxes. rewrite map_map. change (map (λ x : axis num, (axis_name x, x).2)) with (map (λ x : axis num, x)).
  rewrite map_id. unfold all_axes. rewrite filter_app.
  assert (F : ∀ (d : direction) l, (∀ ax, ax ∈ l → ax_direction ax = d) →
    filter (λ ax, ax_direction ax = coord) l = if decide (d = coord) then l else []).
  { intros d l Hl. destruct (decide (d = coord)) as [<-|Hne]; induction l as [|ax l IH]; try done.
    - rewrite filter_cons_True by (apply Hl; by left). f_equal. apply IH. set_solver.
    - rewrite filter_cons_False; [apply IH; set_solver|]. rewrite (Hl ax); [done|by left]. }
  rewrite (F DirX), (F DirY); [| |].
  - by destruct coord; simpl; rewrite ?app_nil_r.
  - intros ax Hin. by apply (numbered_in DirY (p_yaxes p)).
  - intros ax Hin. by apply (numbered_in DirX (p_xaxes p)).
Qed.

(** The plugin's copy of [extractRange] is that of the grid. *)
Lemma extractRange_same p m coord : numbered_plot p →
  FlotSelection.extractRange p m coord = FlotGrid.extractRange p m coord.
Proof. intros N. unfold FlotSelection.extractRange. by rewrite candidates. Qed.

(** The key [x1axis] of a first axis is not a name. *)
Lemma full_key_name ax ax' : (0 < ax_n ax)%nat → (0 < ax_n ax')%nat →
  dir_name (ax_direction ax) +:+ dec_nat (Z.of_nat (ax_n ax)) +:+ "axis" = axis_name ax' →
  ax_n ax ≠ 1%nat.
Proof.
  intros Hn Hn' E E1. rewrite E1 in E. unfold axis_name in E.
  assert (Ed : ax_direction ax = ax_direction ax').
  { by destruct (ax_direction ax), (ax_direction ax'). }
  rewrite Ed in E. apply (inj (String.append _)), append_cancel_r in E.
  destruct (ax_n ax' =? 1)%nat eqn:E2; [done|].
  apply dec_nat_inj in E; [|lia..]. apply Nat.eqb_neq in E2. lia.
Qed.

Lemma assoc_in {B} k (l : list (string * B)) v : Color.assoc k l = Some v → ∃ v', (k, v') ∈ l.
Proof.
  induction l as [|[k' v'] l IH]; [done|]. simpl. destruct (String.eqb k k') eqn:E.
  - intros _. apply String.eqb_eq in E as ->. exists v'. by left.
  - intros Hl. destruct (IH Hl) as (v2 & Hv). exists v2. by right.
Qed.

(** A marking whose ranges are under names of axes finds an axis by its name. *)
Lemma range_key_name m ax : (0 < ax_n ax)%nat →
  (∀ k r, (k, r) ∈ m_ranges m → ∃ ax', (0 < ax_n ax')%nat ∧ k = axis_name ax') →
  range_key m ax = axis_name ax.
Proof.
  intros Hn Hk. unfold range_key. destruct (Color.assoc _ (m_ranges m)) as [r|] eqn:E.
  - apply assoc_in in E as (r' & E). destruct (Hk _ _ E) as (ax' & Hn' & Ek).
    assert (Hne := full_key_name ax ax' Hn Hn' Ek). unfold axis_name.
    by rewrite (proj2 (Nat.eqb_neq _ _) Hne).
  - unfold axis_name. by destruct (ax_n ax =? 1)%nat.
Qed.

Lemma named_range_found m l ax r : (∀ ax', ax' ∈ l → range_key m ax' = axis_name ax') →
  (∀ ax', ax' ∈ l → Color.assoc (axis_name ax') (m_ranges m) ≠ None → ax' = ax) → ax ∈ l →
  Color.assoc (axis_name ax) (m_ranges m) = Some r → named_range m l = Some (ax, r).
Proof.
  intros Hk Hu Hin Hr. induction l as [|ax' l IH]; [by apply elem_of_nil in Hin|]. simpl.
  rewrite Hk by (by left). destruct (Color.assoc (axis_name ax') (m_ranges m)) as [r'|] eqn:E.
  - assert (ax' = ax) as -> by (apply Hu; [by left|by rewrite E]). congruence.
  - apply IH; [set_solver|set_solver|]. apply elem_of_cons in Hin as [->|Hin]; [congruence|done].
Qed.

(** The interval of an axis in the reported ranges. *)
Lemma assoc_ranges p c1 c2 ax : numbered_plot p → ax ∈ all_axes p → ax_used ax = true →
  Color.assoc (axis_name ax) (ranges_between p c1 c2)
  = Some (let at_ c := c2p ax match ax_direction ax with DirX => c.1 | DirY => c.2 end in
          (nmin (at_ c1) (at_ c2), nmax (at_ c1) (at_ c2))).
Proof.
  intros N Hin Hused. unfold ranges_between, getAxes.
  assert (U : ∀ ax', ax' ∈ all_axes p → axis_name ax = axis_name ax' → ax = ax')
    by (intros ax2 Hin2; by apply (axis_unique p)).
  revert Hin U. induction (all_axes p) as [|ax' l IH]; intros Hin U; [by apply elem_of_nil in Hin|].
  cbn [map]. csimpl. destruct (String.eqb (axis_name ax) (axis_name ax')) eqn:E.
  - apply String.eqb_eq, U in E as <-; [|by left]. rewrite Hused. cbn [Color.assoc]. by rewrite String.eqb_refl.
  - assert (Hin' : ax ∈ l).
    { apply elem_of_cons in Hin as [->|Hin]; [by rewrite String.eqb_refl in E|done]. }
    destruct (ax_used ax'); [cbn [Color.assoc]; rewrite E|]; (apply IH; [done|]; intros ax2 H2; apply U; by right).
Qed.
End names.

(** A linear axis that can be read back. *)
Record two_way (ax : axis xq) (m k : Q) : Prop := {
  tw_view : linear_view ax m k;
  tw_inverse : o_inverseTransform (ax_options ax) = None;
  tw_scale : ¬ k == 0;
}.

(** An interval equal to [a, b], up to the representation of its ends. *)
Definition is_interval (v : option (xq * xq)) (a b : Q) : Prop :=
  ∃ a' b', v = Some (XFin a', XFin b') ∧ a' == a ∧ b' == b.

Lemma read_back `{NumText xq} ax m k a b : two_way ax m k → a <= b →
  is_interval (Some (nmin (c2p ax (XFin ((a - m) * k))) (c2p ax (XFin ((b - m) * k))),
                     nmax (c2p ax (XFin ((a - m) * k))) (c2p ax (XFin ((b - m) * k))))) a b.
Proof.
  intros [[Ht Hm Hs] Hi Hk] Hab.
  assert (C : ∀ q, ∃ q', c2p ax (XFin ((q - m) * k)) = XFin q' ∧ q' == q).
  { intros q. unfold c2p, inverse. rewrite Hi, Hm, Hs, Exact.div_fin by done.
    exists (m + (q - m) * k / k). split; [done|]. by field. }
  destruct (C a) as (a' & -> & Ea), (C b) as (b' & -> & Eb). unfold is_interval, nmin, nmax.
  rewrite !Exact.nis_nan_fin.
  destruct (nltb (XFin a') (XFin b')) eqn:L; destruct (nltb (XFin b') (XFin a')) eqn:L'; xq_hyps;
    eexists _, _; (split; [reflexivity|]); split; lra.
Qed.

(** The corners that a range given by the name of an axis selects. *)
Lemma corners_found `{NumText xq} `{MathLib xq} mode (p : plot xq) g coord ax a b m :
  numbered_plot p → ax ∈ flat_axes (axes_of p coord) →
  (∀ k r, (k, r) ∈ m_ranges m → ∃ ax' : axis xq, (0 < ax_n ax')%nat ∧ k = axis_name ax') →
  (∀ ax', ax' ∈ flat_axes (axes_of p coord) → Color.assoc (axis_name ax') (m_ranges m) ≠ None → ax' = ax) →
  Color.assoc (axis_name ax) (m_ranges m) = Some (Number (XFin a), Number (XFin b)) → a <= b →
  mode ≠ Some "x" → mode ≠ Some "y" →
  range_corners mode p g m coord = Ok (p2c ax (XFin a), p2c ax (XFin b)).
Proof.
  intros N Hin Hk Hu Hr Hab Hmx Hmy. unfold range_corners.
  assert (bool_decide (mode = Some match coord with DirX => "y" | DirY => "x" end) = false) as ->
    by (apply bool_decide_eq_false_2; by destruct coord).
  rewrite extractRange_same by done. unfold FlotGrid.extractRange.
  assert (Pos : ∀ ax', ax' ∈ flat_axes (axes_of p coord) → (0 < ax_n ax')%nat).
  { intros ax' Hin'. apply (axis_number_pos p); [done|]. apply in_all_axes. destruct coord; [by left|by right]. }
  rewrite (named_range_found m _ ax (Number (XFin a), Number (XFin b))); try done.
  - cbn [is_null negb andb js_ltb to_num]. rewrite (proj2 (Exact.ltb_fin_false b a)) by done. done.
  - intros ax' Hin'. apply range_key_name; auto.
Qed.

(** A side of the rectangle is long enough. *)
Lemma sane_side m k a b :
  nleb minSize (nabs (nsub (XFin ((b - m) * k)) (XFin ((a - m) * k)))) = Qle_bool 5 (Qabs ((b - a) * k)).
Proof.
  cbn [nsub Exact.xq_num Exact.sub]. rewrite Exact.abs_fin. change (minSize : xq) with (XFin 5).
  set (u := (b - m) * k - (a - m) * k). assert (Eu : u == (b - a) * k) by (unfold u; ring). clearbody u.
  apply eq_iff_eq_true. rewrite Qle_bool_iff, <- Eu. etransitivity; [apply Exact.leb_fin|].
  destruct (nltb (XFin u) (XFin 0)) eqn:L; xq_hyps.
  - rewrite Qabs_neg by lra. done.
  - rewrite Qabs_pos by lra. done.
Qed.

(** Setting a selection and reading it back agree: after [setSelection] with
    an interval of an x axis and one of a y axis, given by their names, the
    plugin has a selection exactly when both sides have at least five pixels,
    and then [getSelection] returns these intervals for the two axes. *)
Theorem setSelection_roundtrip `{NumText xq} `{MathLib xq} mode (p : plot xq) g st ax ay mx kx my ky a b c d :
  mode ≠ Some "x" → mode ≠ Some "y" → numbered_plot p →
  ax ∈ flat_axes (p_xaxes p) → ay ∈ flat_axes (p_yaxes p) → ax_used ax = true → ax_used ay = true →
  two_way ax mx kx → two_way ay my ky → a <= b → c <= d →
  let m := Marking [(axis_name ax, (Number (XFin a), Number (XFin b)));
                    (axis_name ay, (Number (XFin c), Number (XFin d)))] [] None None in
  ∃ st', setSelection mode p g m true st = Ok (st', [Redraw]) ∧
    selectionIsSane st' = Qle_bool 5 (Qabs ((b - a) * kx)) && Qle_bool 5 (Qabs ((d - c) * ky)) ∧
    (selectionIsSane st' = true → ∃ r, getSelection p st' = Some r ∧
       is_interval (Color.assoc (axis_name ax) r) a b ∧ is_interval (Color.assoc (axis_name ay) r) c d).
Proof.
  intros Hmx Hmy N Hax Hay Ux Uy Tx Ty Hab Hcd m.
  assert (Hxin : ax ∈ all_axes p) by (apply in_all_axes; by left).
  assert (Hyin : ay ∈ all_axes p) by (apply in_all_axes; by right).
  assert (Pos : ∀ ax', ax' ∈ all_axes p → (0 < ax_n ax')%nat) by (intros ax' Hin; by apply (axis_number_pos p)).
  assert (Dx : ∀ ax', ax' ∈ flat_axes (p_xaxes p) → ax_direction ax' = DirX)
    by (intros ax' Hin; by apply (numbered_in DirX (p_xaxes p)); [apply N|]).
  assert (Dy : ∀ ax', ax' ∈ flat_axes (p_yaxes p) → ax_direction ax' = DirY)
    by (intros ax' Hin; by apply (numbered_in DirY (p_yaxes p)); [apply N|]).
  assert (Hne : String.eqb (axis_name ay) (axis_name ax) = false).
  { apply String.eqb_neq. intros E. apply (axis_unique p) in E; [|done..]. subst ay.
    pose proof (Dx ax Hax). rewrite Dy in *; done. }
  assert (Hkeys : ∀ k r, (k, r) ∈ m_ranges m → ∃ ax' : axis xq, (0 < ax_n ax')%nat ∧ k = axis_name ax').
  { intros k r [[= -> ->]|Hk]%elem_of_cons; [by exists ax; auto|].
    apply elem_of_cons in Hk as [[= -> ->]|Hk]; [by exists ay; auto|by apply elem_of_nil in Hk]. }
  assert (Hfind : ∀ ax', ax' ∈ all_axes p → Color.assoc (axis_name ax') (m_ranges m) ≠ None → ax' = ax ∨ ax' = ay).
  { intros ax' Hin Hf. cbn [m m_ranges Color.assoc] in Hf.
    destruct (String.eqb (axis_name ax') (axis_name ax)) eqn:E1;
      [left; apply String.eqb_eq in E1; by apply (axis_unique p)|].
    destruct (String.eqb (axis_name ax') (axis_name ay)) eqn:E2; [|done].
    right. apply String.eqb_eq in E2. by apply (axis_unique p). }
  assert (Cx : range_corners mode p g m DirX = Ok (p2c ax (XFin a), p2c ax (XFin b))).
  { apply corners_found; try done.
    - intros ax' Hin Hf. destruct (Hfind ax') as [| -> ]; [apply in_all_axes; by left|done..|].
      pose proof (Dx ay Hin). rewrite Dy in *; done.
    - simpl. by rewrite String.eqb_refl. }
  assert (Cy : range_corners mode p g m DirY = Ok (p2c ay (XFin c), p2c ay (XFin d))).
  { apply corners_found; try done.
    - intros ax' Hin Hf. destruct (Hfind ax') as [ -> |]; [apply in_all_axes; by right|done| |done].
      pose proof (Dy ax Hin). rewrite Dx in *; done.
    - simpl. by rewrite Hne, String.eqb_refl. }
  unfold setSelection. rewrite Cx, Cy. cbn [mbind result_bind negb andb].
  rewrite (p2c_linear ax mx kx a), (p2c_linear ax mx kx b), (p2c_linear ay my ky c), (p2c_linear ay my ky d)
    by (apply Tx || apply Ty).
  eexists. split; [done|]. split.
  - unfold selectionIsSane, sane_corners. cbn [first second with_show with_rect fst snd].
    by rewrite !sane_side.
  - intros Hs. unfold getSelection. rewrite Hs. eexists. split; [done|].
    cbn [first second with_show with_rect]. rewrite !assoc_ranges by done. rewrite (Dx ax Hax), (Dy ay Hay).
    cbn [fst snd]. split; by apply read_back.
Qed.

(** ** Witnesses *)

(** Two used axes over the sample plot area, a page position and three events. *)
Definition selection_axis (dir : direction) (hi : Q) : axis xq :=
  setTransformationHelpers (XFin 450) (XFin 260)
    (with_data (with_range (new_axis 1 dir default_xaxis) (XFin 0) (XFin hi)) (AxisData Null Null true)).
Definition selection_plot : plot xq :=
  Plot [] [Some (selection_axis DirX 9)] [None; Some (setTransformationHelpers (XFin 450) (XFin 260)
    (with_data (with_range (new_axis 2 DirY default_yaxis) (XFin 0) (XFin 13)) (AxisData Null Null true)))].
Definition at_page (x y : Q) : mouse xq := Mouse 1 (Number (XFin x)) (Number (XFin y)).

Lemma selection_plot_numbered : numbered_plot selection_plot.
Proof.
  split; intros i ax Hi.
  - destruct i as [|i]; simpl in Hi; [by injection Hi as <-|by rewrite lookup_nil in Hi].
  - destruct i as [|[|i]]; simpl in Hi; [done|by injection Hi as <-|by rewrite lookup_nil in Hi].
Qed.

Lemma selection_refines_witness :
  let _ := Exact.exact_text in
  let inputs := [Press (at_page 100 60); Move (at_page 200 150); Release (at_page 2000 90)] in
  ∃ out d st effects,
    drag_run (Some "xy") (XFin 0) (XFin 0) selection_plot sample_geometry (Drag None false) inputs out d ∧
    sel_run (Some "xy") (XFin 0) (XFin 0) selection_plot sample_geometry true false inputs
      (selection0 NoHandler NoHandler) = Ok (st, effects) ∧
    fired effects = out ∧ sel_show st = shown d ∧ sel_active st = bool_decide (is_Some (anchor d)).
Proof.
  intros text inputs.
  assert (R : ∃ out d, drag_run (Some "xy") (XFin 0) (XFin 0) selection_plot sample_geometry (Drag None false) inputs out d).
  { do 2 eexists. eapply drag_next; [by apply drag_press|]. eapply drag_next; [by apply drag_move|].
    eapply drag_next; [eapply drag_select; [done|vm_compute; reflexivity]|constructor]. }
  destruct R as (out & d & R).
  destruct (selection_refines (Some "xy") (XFin 0) (XFin 0) selection_plot sample_geometry true false
    NoHandler NoHandler inputs out d ltac:(by eexists) R) as (st & effects & E).
  exists out, d, st, effects. split; [exact R|exact E].
Defined.

Lemma selection_handlers_witness :
  let _ := Exact.exact_text in
  let start h := selection0 (num := xq) h NoHandler in
  let run := sel_run (Some "x") (XFin 0) (XFin 0) selection_plot sample_geometry true true in
  let rest := [Release (at_page 200 60); Press (at_page 20 60); Release (at_page 250 60)] in
  (∃ st out, run (Press (at_page 100 60) :: Press (at_page 100 60) :: rest) (start NoHandler) = Ok (st, out) ∧
     current (onselectstart st) = Blocker) ∧
  (∃ st out, run (Press (at_page 100 60) :: Release (at_page 100 60) :: rest) (start PageHandler) = Ok (st, out) ∧
     current (onselectstart st) = PageHandler).
Proof.
  intros text start run rest. split.
  - destruct (run (Press (at_page 100 60) :: Press (at_page 100 60) :: rest) (start NoHandler)) as [[st out]| |] eqn:E;
      [|vm_compute in E; discriminate..].
    exists st, out. split; [done|].
    by refine (proj1 (selection_handlers _ _ _ _ _ _ _ _ _ (at_page 100 60) rest st out _ _ _) E); [eexists|..].
  - destruct (run (Press (at_page 100 60) :: Release (at_page 100 60) :: rest) (start PageHandler)) as [[st out]| |] eqn:E;
      [|vm_compute in E; discriminate..].
    exists st, out. split; [done|].
    by refine (proj2 (selection_handlers _ _ _ _ _ _ _ _ (at_page 100 60) _ rest st out _ _ _) E); [eexists|..].
Defined.

Lemma selection_in_range_witness :
  let _ := Exact.exact_text in
  ∃ st out r,
    sel_run (Some "xy") (XFin 0) (XFin 0) selection_plot sample_geometry true false
      [Press (at_page 100 60); Move (at_page (-(200)) 150); Release (at_page 2000 90)] (selection0 NoHandler NoHandler)
    = Ok (st, out) ∧ PlotSelected (Some r) ∈ out ∧ in_axis_ranges selection_plot r.
Proof.
  intros text.
  destruct (sel_run _ _ _ _ _ _ _ _ _) as [[st out]| |] eqn:E; [|vm_compute in E; discriminate..].
  assert (Hr : ∃ r, PlotSelected (Some r) ∈ out).
  { pose proof E as E'. vm_compute in E'. injection E' as _ <-. eexists. do 3 right. left. }
  destruct Hr as (r & Hr). exists st, out, r. split; [done|]. split; [exact Hr|].
  refine (selection_in_range (Some "xy") 0 0 40 10 450 260 selection_plot sample_geometry true false _ _ _ _ _
            _ _ _ _ E _ (or_intror Hr)).
  - done.
  - done.
  - intros ax [->|Hax]%elem_of_cons; [do 3 eexists; (split; [reflexivity|]); done|].
    apply list_elem_of_singleton in Hax as ->. do 3 eexists; (split; [reflexivity|]); done.
  - repeat constructor; do 2 eexists; done.
Defined.

Lemma setSelection_roundtrip_witness :
  let _ := Exact.exact_text in let _ := Exact.exact_math in
  ∃ ax ay st', p_xaxes selection_plot = [Some ax] ∧ p_yaxes selection_plot = [None; Some ay] ∧
    setSelection (Some "xy") selection_plot sample_geometry
      (Marking [(axis_name ax, (Number (XFin 2), Number (XFin 5)));
                (axis_name ay, (Number (XFin 3), Number (XFin 4)))] [] None None) true
      (selection0 NoHandler NoHandler) = Ok (st', [Redraw]) ∧
    ∃ r, getSelection selection_plot st' = Some r ∧
       is_interval (Color.assoc "xaxis" r) 2 5 ∧ is_interval (Color.assoc "y2axis" r) 3 4.
Proof.
  intros text math. do 2 eexists.
  destruct (@setSelection_roundtrip text math (Some "xy") selection_plot sample_geometry (selection0 NoHandler NoHandler)
    (selection_axis DirX 9) _ _ _ _ _ 2 5 3 4 ltac:(done) ltac:(done) selection_plot_numbered
    ltac:(by left) ltac:(by left) ltac:(done) ltac:(done)
    ltac:(split; [split; [done|vm_compute; reflexivity..]|done|vm_compute; discriminate])
    ltac:(split; [split; [done|vm_compute; reflexivity..]|done|vm_compute; discriminate])
    ltac:(by vm_compute) ltac:(by vm_compute)) as (st' & E & Hs & R).
  exists st'. split; [done|]. split; [done|]. split; [exact E|]. destruct (R ltac:(rewrite Hs; by vm_compute)) as (r & Er & Hx & Hy).
  exists r. split; [exact Er|]. split; [exact Hx|exact Hy].
Defined.
