(* ===== verification/FlotCrosshair.v ===== *)
(** The crosshair plugin, [static/flot/jquery.flot.crosshair.js]: its position,
    the methods and mouse events that move it, and its drawing. *)

From Stdlib Require Import QArith Lqa.
From S2P Require Import Prelude Numbers ExactNum JsText JsValue FlotModel FlotAxis FlotMarkSpec Canvas FlotLayout FlotPlot.

#[local] Open Scope nat_scope.

(** The position in the plot area, hidden when [x] is -1. *)
Record crosshair (num : Type) := Crosshair { ch_x : num; ch_y : num; locked : bool }.
Arguments Crosshair {num} _ _ _. Arguments ch_x {num} _. Arguments ch_y {num} _. Arguments locked {num} _.

Record crosshair_options (num : Type) := CrosshairOptions {
  ch_mode : option string; ch_color : string; ch_lineWidth : num;
}.
Arguments CrosshairOptions {num} _ _ _. Arguments ch_mode {num} _. Arguments ch_color {num} _.
Arguments ch_lineWidth {num} _.

(** Methods and events; [selecting] tells whether the selection plugin has a
    selection when the mouse moves. *)
Inductive cross_input (num : Type) :=
  | SetCrosshair (pos : option (list (string * jsv num)))
  | LockCrosshair (pos : option (list (string * jsv num)))
  | UnlockCrosshair
  | MouseOut
  | MouseMove (pageX pageY : num) (selecting : bool).
Arguments SetCrosshair {num} _. Arguments LockCrosshair {num} _. Arguments UnlockCrosshair {num}.
Arguments MouseOut {num}. Arguments MouseMove {num} _ _ _.

Section crosshair.
Context {num : Type} `{Num num} `{NumText num} `{MathLib num}.
Implicit Types (c : crosshair num).
Local Open Scope num_scope.

Variables (options : crosshair_options num) (left top : num) (p : plot num) (g : geometry num).

Definition crosshair0 : crosshair num := Crosshair ⟨-1⟩ ⟨-1⟩ false.
Definition default_crosshair : crosshair_options num := CrosshairOptions None "rgba(170, 0, 0, 0.80)" ⟨1⟩.

(** [Math.max(0, Math.min(v, size))] *)
Definition into (v size : num) : num := nmax ⟨0⟩ (nmin v size).

(** Each operation gives the new state and whether the overlay is redrawn. *)
Definition setCrosshair (pos : option (list (string * jsv num))) c : crosshair num * bool :=
  (match pos with
   | None => Crosshair ⟨-1⟩ (ch_y c) (locked c)
   | Some pos =>
       let o := axisToCanvasCoords p pos in
       Crosshair (into (default nnan o.1) (plotWidth g)) (into (default nnan o.2) (plotHeight g)) (locked c)
   end, true).

Definition lockCrosshair (pos : option (list (string * jsv num))) c : crosshair num * bool :=
  let '(c, drawn) := match pos with Some _ => setCrosshair pos c | None => (c, false) end in
  (Crosshair (ch_x c) (ch_y c) true, drawn).

Definition unlockCrosshair c : crosshair num * bool := (Crosshair (ch_x c) (ch_y c) false, false).

Definition onMouseOut c : crosshair num * bool :=
  if locked c then (c, false)
  else if ch_x c ≠? ⟨-1⟩ then (Crosshair ⟨-1⟩ (ch_y c) (locked c), true) else (c, false).

(** While there is a selection the crosshair is hidden, without a redraw. *)
Definition onMouseMove (pageX pageY : num) (selecting : bool) c : crosshair num * bool :=
  if locked c then (c, false)
  else if selecting then (Crosshair ⟨-1⟩ (ch_y c) (locked c), false)
  else
    let '(l, t) := plot_offset left top g in
    (Crosshair (into (pageX - l) (plotWidth g)) (into (pageY - t) (plotHeight g)) (locked c), true).

(** The mouse handlers are bound only with a mode. *)
Definition cross_step (i : cross_input num) c : crosshair num * bool :=
  let bound := match ch_mode options with None | Some "" => false | _ => true end in
  match i with
  | SetCrosshair pos => setCrosshair pos c
  | LockCrosshair pos => lockCrosshair pos c
  | UnlockCrosshair => unlockCrosshair c
  | MouseOut => if bound then onMouseOut c else (c, false)
  | MouseMove x y selecting => if bound then onMouseMove x y selecting c else (c, false)
  end.

Definition cross_run (inputs : list (cross_input num)) c : crosshair num :=
  foldl (λ c i, (cross_step i c).1) c inputs.

Definition contains (s : string) (x : string) : bool := bool_decide (is_Some (String.index 0 x s)).

(** The hook that draws the crosshair. *)
Definition draw_crosshair c : list (canvas_op num) :=
  match ch_mode options with
  | None | Some "" => []
  | Some mode =>
      [OpSave; OpTranslate (off_left g) (off_top g)] ++
      (if ch_x c ≠? ⟨-1⟩ then
         [OpStrokeStyle (PaintText (ch_color options)); OpLineWidth (ch_lineWidth options);
          OpLineJoin "round"; OpBeginPath] ++
         (if contains mode "x" then [OpMoveTo (ch_x c) ⟨0⟩; OpLineTo (ch_x c) (plotHeight g)] else []) ++
         (if contains mode "y" then [OpMoveTo ⟨0⟩ (ch_y c); OpLineTo (plotWidth g) (ch_y c)] else []) ++
         [OpStroke]
       else []) ++
      [OpRestore]
  end.
End crosshair.

(** ** Where the crosshair is drawn *)

Local Open Scope Q_scope.

Section exact.
Context `{NumText xq} `{MathLib xq}.
Variables (options : crosshair_options xq) (left top offl offt W Hc : Q) (p : plot xq) (g : geometry xq).
Hypothesis geom : off_left g = XFin offl ∧ off_top g = XFin offt ∧ plotWidth g = XFin W ∧ plotHeight g = XFin Hc.
Hypothesis size : 0 <= W ∧ 0 <= Hc.
Implicit Types (c : crosshair xq).

(** The position is in the plot area, or hidden. *)
Definition in_area (q : xq * xq) : Prop := ∃ x y, q = (XFin x, XFin y) ∧ 0 <= x <= W ∧ 0 <= y <= Hc.
Definition placed c : Prop := ch_x c = XFin (-(1)) ∨ in_area (ch_x c, ch_y c).

(** An input whose position, if any, names an axis of each direction. *)
Definition located (i : cross_input xq) : Prop :=
  match i with
  | SetCrosshair (Some pos) | LockCrosshair (Some pos) =>
      ∃ x y, axisToCanvasCoords p pos = (Some (XFin x), Some (XFin y))
  | MouseMove x y _ => ∃ a b, x = XFin a ∧ y = XFin b
  | _ => True
  end.

Lemma into_area v w : 0 <= w → ∃ q, into (XFin v) (XFin w) = XFin q ∧ 0 <= q <= w.
Proof.
  intros Hw. unfold into, nmin, nmax. change (⟨0⟩%num : xq) with (XFin 0). rewrite !Exact.nis_nan_fin.
  destruct (nltb (XFin w) (XFin v)) eqn:E1; rewrite Exact.nis_nan_fin;
    match goal with |- context [nltb ?a ?b] => destruct (nltb a b) eqn:E2 end; xq_hyps;
    eexists; (split; [reflexivity|]); lra.
Qed.

Lemma into_placed x y b : placed (Crosshair (into (XFin x) (plotWidth g)) (into (XFin y) (plotHeight g)) b).
Proof.
  destruct geom as (_ & _ & Ew & Eh), size as [Hw Hh]. right. rewrite Ew, Eh.
  destruct (into_area x W Hw) as (qx & Ex & Hx), (into_area y Hc Hh) as (qy & Ey & Hy).
  exists qx, qy. simpl. by rewrite Ex, Ey.
Qed.

Lemma step_placed i c : located i → placed c →
  placed (cross_step options (XFin left) (XFin top) p g i c).1.
Proof.
  intros Hi Hp. destruct geom as (El & Et & _ & _).
  destruct i as [[pos|]|[pos|]| | |x y selecting]; cbn [located cross_step] in *;
    unfold lockCrosshair, setCrosshair.
  - destruct Hi as (x & y & ->). apply into_placed.
  - by left.
  - destruct Hi as (x & y & ->). apply (into_placed x y true).
  - done.
  - done.
  - assert (placed (onMouseOut c).1) by (unfold onMouseOut; repeat case_match; try done; by left).
    by repeat case_match.
  - destruct Hi as (a & b & -> & ->).
    assert (placed (onMouseMove (XFin left) (XFin top) g (XFin a) (XFin b) selecting c).1).
    { unfold onMouseMove, plot_offset. rewrite El, Et. repeat case_match; [done|by left|]. apply into_placed. }
    by repeat case_match.
Qed.

Lemma run_placed inputs c : Forall located inputs → placed c →
  placed (cross_run options (XFin left) (XFin top) p g inputs c).
Proof.
  intros Hin. revert c. induction Hin as [|i inputs Hi Hin IH]; intros c Hc'; [done|]. by apply IH, step_placed.
Qed.

Lemma drawn_in_area c : placed c → Forall in_area (positions (draw_crosshair options g c)).
Proof.
  destruct geom as (_ & _ & Ew & Eh), size as [Hw Hh]. intros [Hp|(x & y & [= Ex Ey] & Hx & Hy)]; unfold draw_crosshair.
  - rewrite Hp. destruct (ch_mode options) as [[|ch mode]|]; repeat constructor.
  - rewrite Ex, Ey, Ew, Eh. change (⟨0⟩%num : xq) with (XFin 0).
    destruct (ch_mode options) as [[|ch mode]|]; [constructor| |constructor].
    assert (A : ∀ u v, 0 <= u <= W → 0 <= v <= Hc → in_area (XFin u, XFin v)) by (intros u v ? ?; by exists u, v).
    destruct (neqb (XFin x) _); [repeat constructor|]. cbn [negb].
    rewrite !positions_app. repeat apply Forall_app_2; try (by repeat constructor);
      case_match; repeat constructor; apply A; lra.
Qed.
End exact.

(** Whatever the inputs, the crosshair is drawn in the plot area: every
    position that the overlay hook names lies in it; and once the crosshair is
    locked the mouse moves it no more. *)
Theorem crosshair_in_area `{NumText xq} `{MathLib xq} options left top offl offt W Hc (p : plot xq) g inputs :
  off_left g = XFin offl ∧ off_top g = XFin offt ∧ plotWidth g = XFin W ∧ plotHeight g = XFin Hc →
  0 <= W ∧ 0 <= Hc → Forall (located p) inputs →
  let c := cross_run options (XFin left) (XFin top) p g inputs crosshair0 in
  Forall (in_area W Hc) (positions (draw_crosshair options g c)) ∧
  (locked c = true → ∀ moves, Forall (λ i, match i with MouseOut | MouseMove _ _ _ => True | _ => False end) moves →
     cross_run options (XFin left) (XFin top) p g moves c = c).
Proof.
  intros Hg Hs Hin c. split.
  - eapply drawn_in_area; [done..|]. eapply run_placed; [done..|by left].
  - intros Hl moves. clearbody c. induction 1 as [|i moves Hi Hm IH]; [done|]. unfold cross_run. simpl.
    assert ((cross_step options (XFin left) (XFin top) p g i c).1 = c) as ->; [|exact IH].
    destruct i; simpl; try done; case_match; try done; case_match; try done;
      unfold onMouseOut, onMouseMove; by rewrite Hl.
Qed.

Lemma crosshair_in_area_witness :
  let _ := Exact.exact_text in let _ := Exact.exact_math in
  let options := CrosshairOptions (Some "xy") "red" (XFin 1) in
  let inputs := [MouseMove (XFin 900) (XFin 100) false; LockCrosshair None] in
  let c := cross_run options (XFin 0) (XFin 0) (Plot [] [] []) sample_geometry inputs crosshair0 in
  positions (draw_crosshair options sample_geometry c) =
    [(XFin 450, XFin 0); (XFin 450, XFin 260); (XFin 0, XFin 90); (XFin 450, XFin 90)] ∧
  Forall (in_area 450 260) (positions (draw_crosshair options sample_geometry c)) ∧
  cross_run options (XFin 0) (XFin 0) (Plot [] [] []) sample_geometry [MouseOut; MouseMove (XFin 50) (XFin 50) false] c = c.
Proof.
  intros text math options inputs c. split; [by vm_compute|].
  destruct (@crosshair_in_area text math options 0 0 40 10 450 260 (Plot [] [] []) sample_geometry inputs) as [A B].
  - done.
  - done.
  - repeat constructor. by exists 900, 100.
  - split; [exact A|]. apply B; [done|by repeat constructor].
Defined.
