(* ===== verification/FlotNavigate.v ===== *)
(** The navigation plugin, [static/flot/jquery.flot.navigate.js]: [zoom],
    [zoomOut] and [pan], which set the bounds of the axes and redraw, and the
    handlers of the wheel and of a drag. *)

From S2P Require Import Prelude Numbers JsText JsValue FlotModel FlotAxis Canvas FlotMarks FlotLayout FlotGrid FlotPlot.

(** The arguments of [zoom] and [zoomOut]. *)
Record zoom_args (num : Type) := ZoomArgs {
  amount : option num; center : option (num * num); zoom_preventEvent : bool;
}.
Arguments ZoomArgs {num} _ _ _. Arguments amount {num} _. Arguments center {num} _.
Arguments zoom_preventEvent {num} _.

(** The [zoom] and [pan] options. *)
Record navigate_options (num : Type) := NavigateOptions {
  zoom_interactive : bool; zoom_trigger : string; zoom_amount : num;
  pan_interactive : bool; pan_cursor : string; pan_frameRate : num;
}.
Arguments NavigateOptions {num} _ _ _ _ _ _. Arguments zoom_interactive {num} _. Arguments zoom_trigger {num} _.
Arguments zoom_amount {num} _. Arguments pan_interactive {num} _. Arguments pan_cursor {num} _.
Arguments pan_frameRate {num} _.

(** The cursor of the placeholder, and the variables of the plugin; a pending
    timer remembers the event that started it. *)
Record nav_state (num : Type) := NavState {
  cursor : string; prevCursor : string; prevPage : num * num; panTimeout : option (num * num);
}.
Arguments NavState {num} _ _ _ _. Arguments cursor {num} _. Arguments prevCursor {num} _.
Arguments prevPage {num} _. Arguments panTimeout {num} _.

Inductive drag_input (num : Type) :=
  | DragStart (which : Z) (pageX pageY : num)
  | Drag (pageX pageY : num)
  | PanTimer
  | DragEnd (pageX pageY : num).
Arguments DragStart {num} _ _ _. Arguments Drag {num} _ _. Arguments PanTimer {num}.
Arguments DragEnd {num} _ _.

Section navigate.
Context {num : Type} `{Num num} `{NumText num} `{MathLib num}.
Implicit Types (ax : axis num) (p : plot num) (g : geometry num) (st : nav_state num).
Local Open Scope num_scope.

Variable options : navigate_options num.

Definition default_navigate : navigate_options num :=
  NavigateOptions false "dblclick" (of_ratio 3 2) false "move" ⟨20⟩.

(** ** Zooming *)

(** The pixels of the new bounds, in a side of length [size] with the center at [c]. *)
Definition zoom_span (amount c size : num) : num * num :=
  let f := c / size in (c - f * size / amount, c + (⟨1⟩ - f) * size / amount).

(** A bound of a [zoomRange] that a range violates. *)
Definition violates (test : num → num → bool) (range : num) (bound : option num) : bool :=
  match bound with Some b => test range b | None => false end.

Definition zoom_axis (amount : num) (c : num * num) g ax : axis_options num :=
  let opts := ax_options ax in
  let '(min, max) := match ax_direction ax with
                     | DirX => zoom_span amount c.1 (plotWidth g)
                     | DirY => zoom_span amount c.2 (plotHeight g)
                     end in
  match o_zoomRange opts with
  | RangeFalse => opts
  | zr =>
      let min := c2p ax min in
      let max := c2p ax max in
      let '(min, max) := if min >? max then (max, min) else (min, max) in
      let range := max - min in
      let refused := match zr with
                     | Range lo hi => violates nltb range lo || violates (λ r b, nltb b r) range hi
                     | _ => false
                     end in
      if refused then opts else with_min_max opts (Number min) (Number max)
  end.

(** [args.amount || default] *)
Definition zoom_by (args : zoom_args num) : num :=
  match amount args with Some a => if ntruthy a then a else zoom_amount options | None => zoom_amount options end.

(** [plot.zoom], before the redraw. *)
Definition zoom_plot (args : zoom_args num) p g : plot num :=
  let c := default (plotWidth g / ⟨2⟩, plotHeight g / ⟨2⟩) (center args) in
  map_options (zoom_axis (zoom_by args) c g) p.

Definition zoomOut_args (args : zoom_args num) : zoom_args num :=
  ZoomArgs (Some (⟨1⟩ / zoom_by args)) (center args) (zoom_preventEvent args).

(** ** Panning *)

(** [+v], or zero when it is not a number. *)
Definition pan_delta (v : jsv num) : num := let d := to_num v in if nis_nan d then ⟨0⟩ else d.

Definition pan_axis (delta : num * num) ax : axis_options num :=
  let opts := ax_options ax in
  let d := match ax_direction ax with DirX => delta.1 | DirY => delta.2 end in
  let min := c2p ax (p2c ax (ax_min ax) + d) in
  let max := c2p ax (p2c ax (ax_max ax) + d) in
  match o_panRange opts with
  | RangeFalse => opts
  | RangeNone => with_min_max opts (Number min) (Number max)
  | Range lo hi =>
      let '(min, max) :=
        match lo with
        | Some lo => if lo >? min then (min + (lo - min), max + (lo - min)) else (min, max)
        | None => (min, max)
        end in
      let '(min, max) :=
        match hi with
        | Some hi => if hi <? max then (min + (hi - max), max + (hi - max)) else (min, max)
        | None => (min, max)
        end in
      with_min_max opts (Number min) (Number max)
  end.

Definition pan_plot (left top : jsv num) p : plot num :=
  map_options (pan_axis (pan_delta left, pan_delta top)) p.

(** ** The methods *)

Variable grid : grid_options num.
Variable page : page_metrics num.
Variable fuel : nat.
Variable handlers : list (string * symbol num).
Variable hook_drawSeries : plot num → geometry num → series num → list (canvas_op num).
Variable hook_draw : plot num → geometry num → list (canvas_op num).

(** What a method leaves: the plot, its geometry, what was drawn, and the event fired. *)
Definition navigated : Type := plot num * geometry num * list (canvas_op num) * option string.

Definition then_redraw (event : string) (preventEvent : bool) p g : result navigated :=
  '(p, g, ops) ← redraw grid page fuel handlers hook_drawSeries hook_draw p g;
  Ok (p, g, ops, if preventEvent then None else Some event).

Definition zoom (args : zoom_args num) p g : result navigated :=
  then_redraw "plotzoom" (zoom_preventEvent args) (zoom_plot args p g) g.

Definition zoomOut (args : zoom_args num) p g : result navigated := zoom (zoomOut_args args) p g.

Definition pan (left top : jsv num) (preventEvent : bool) p g : result navigated :=
  then_redraw "plotpan" preventEvent (pan_plot left top p) g.

(** A click or a turn of the wheel at a position of the page; the event holder is at [(left, top)]. *)
Definition onZoomClick (left top pageX pageY : num) (zooming_out : bool) p g : result navigated :=
  let '(l, t) := plot_offset left top g in
  let args := ZoomArgs None (Some (pageX - l, pageY - t)) false in
  if zooming_out then zoomOut args p g else zoom args p g.

Definition onMouseWheel (left top pageX pageY delta : num) p g : result navigated :=
  onZoomClick left top pageX pageY (delta <? ⟨0⟩) p g.

(** ** Dragging *)

Definition nav0 (cursor : string) : nav_state num := NavState cursor "default" (⟨0⟩, ⟨0⟩) None.

(** The handlers give the new state and the pan they make, if any. *)
Definition onDragStart (which : Z) (pageX pageY : num) st : nav_state num :=
  if (which =? 1)%Z then
    NavState (pan_cursor options) (if String.eqb (cursor st) "" then prevCursor st else cursor st)
      (pageX, pageY) (panTimeout st)
  else st.

Definition onDrag (pageX pageY : num) st : nav_state num :=
  match panTimeout st with
  | Some _ => st
  | None =>
      if ntruthy (pan_frameRate options)
      then NavState (cursor st) (prevCursor st) (prevPage st) (Some (pageX, pageY)) else st
  end.

Definition onPanTimer st : nav_state num * option (num * num) :=
  match panTimeout st with
  | Some e => (NavState (cursor st) (prevCursor st) e None, Some ((prevPage st).1 - e.1, (prevPage st).2 - e.2))
  | None => (st, None)
  end.

Definition onDragEnd (pageX pageY : num) st : nav_state num * option (num * num) :=
  (NavState (prevCursor st) (prevCursor st) (prevPage st) None,
   Some ((prevPage st).1 - pageX, (prevPage st).2 - pageY)).

Definition drag_step (i : drag_input num) st : nav_state num * option (num * num) :=
  match i with
  | DragStart w x y => (onDragStart w x y st, None)
  | Drag x y => (onDrag x y st, None)
  | PanTimer => onPanTimer st
  | DragEnd x y => onDragEnd x y st
  end.

(** The state after some inputs, and the pans made. *)
Fixpoint drag_run (inputs : list (drag_input num)) st : nav_state num * list (num * num) :=
  match inputs with
  | [] => (st, [])
  | i :: inputs =>
      let '(st, pan) := drag_step i st in
      let '(st, pans) := drag_run inputs st in
      (st, match pan with Some d => [d] | None => [] end ++ pans)
  end.

(** What the handlers do to the plot: a pan for each one made. *)
Fixpoint do_pans (pans : list (num * num)) p g : result (plot num * geometry num) :=
  match pans with
  | [] => Ok (p, g)
  | (dx, dy) :: pans =>
      '(p, g, _, _) ← pan (Number dx) (Number dy) false p g; do_pans pans p g
  end.

(** Shutting down drops the pending pan. *)
Definition nav_shutdown st : nav_state num := NavState (cursor st) (prevCursor st) (prevPage st) None.
End navigate.
