(* ===== verification/FlotNavigateSpec.v ===== *)
(** What navigation does: zooming keeps the point under the center where it is
    and zooming out again undoes it, panning keeps the size of the range and
    respects [panRange], and a drag pans by the whole way of the mouse. *)

From stdpp Require Import sets.
From Stdlib Require Import QArith Lqa.
From S2P Require Import Prelude Numbers ExactNum JsText JsValue FlotModel FlotAxis FlotLineSpec FlotMarkSpec FlotLayout FlotLayoutSpec FlotGrid FlotPlot FlotSelectionSpec FlotNavigate.

#[local] Open Scope Q_scope.

(** ** Scaled axes *)

(** A scaled axis is linear: its least value is drawn at the start of its side
    (the end, for y axes) and its scale fits the range to the side. *)
Lemma scaled_linear `{NumText xq} W Hc ax : 0 < W → 0 < Hc → scaled W Hc ax →
  ∃ a b m k, ax_min ax = XFin a ∧ ax_max ax = XFin b ∧ a < b ∧ two_way ax m k ∧
    match ax_direction ax with DirX => m == a ∧ k * (b - a) == W | DirY => m == b ∧ k * (a - b) == Hc end.
Proof.
  intros Hw Hh (ax0 & a & b & -> & Ht & Hi & Ea & Eb & Hlt).
  assert (Hf : ∀ q, transform ax0 (XFin q) = XFin q) by (intros q; unfold transform; by rewrite Ht).
  assert (Hne : ¬ a == b) by lra.
  destruct (helpers_view ax0 W Hc (λ q, q) a b Hw Hh Hf Ea Eb Hne)
    as (m & s & lo & hi & Em & Es & Hlh & Hends & Hdir & Hs0).
  exists a, b, m, s.
  assert (R : lo == a ∧ hi == b) by (destruct Hends as [[? ?]|[? ?]]; split; lra).
  split; [rewrite <- Ea; unfold setTransformationHelpers; by destruct (ax_direction ax0)|].
  split; [rewrite <- Eb; unfold setTransformationHelpers; by destruct (ax_direction ax0)|].
  split; [done|]. split; [by split|]. destruct R as [R1 R2].
  change (ax_direction (setTransformationHelpers (XFin W) (XFin Hc) ax0)) with (ax_direction ax0).
  destruct (ax_direction ax0), Hdir as [D1 D2]; rewrite <- R1, <- R2; by split.
Qed.

Lemma c2p_linear `{NumText xq} ax m k c : two_way ax m k → c2p ax (XFin c) = XFin (m + c / k).
Proof. intros [[Ht Hm Hs] Hi Hk]. unfold c2p, inverse. by rewrite Hi, Hm, Hs, Exact.div_fin. Qed.

Lemma p2c_two_way `{NumText xq} ax m k q : two_way ax m k → p2c ax (XFin q) = XFin ((q - m) * k).
Proof. intros [Hv _ _]. by apply p2c_linear. Qed.

(** An axis whose bounds are given is drawn between them. *)
Lemma bounded_scaled `{NumText xq} W Hc ax mn mx : mn < mx →
  o_transform (ax_options ax) = None → o_inverseTransform (ax_options ax) = None →
  o_min (ax_options ax) = Number (XFin mn) → o_max (ax_options ax) = Number (XFin mx) →
  let ax' := setTransformationHelpers (XFin W) (XFin Hc) (setRange ax) in
  scaled W Hc ax' ∧ ax_min ax' = XFin mn ∧ ax_max ax' = XFin mx ∧
  ax_direction ax' = ax_direction ax ∧ ax_options ax' = ax_options ax.
Proof.
  intros Hlt Ht Hi Emin Emax ax'.
  assert (E : ax_min (setRange ax) = XFin mn ∧ ax_max (setRange ax) = XFin mx ∧
              ax_direction (setRange ax) = ax_direction ax ∧ ax_options (setRange ax) = ax_options ax).
  { unfold setRange. rewrite Emin, Emax. cbn [is_null to_num orb negb].
    assert (Hd : neqb (nsub (XFin mx) (XFin mn)) ⟨0⟩%num = false).
    { cbn [nsub Exact.xq_num Exact.sub]. change (⟨0⟩%num : xq) with (XFin 0).
      apply Exact.eqb_fin_false. lra. }
    rewrite Hd. by destruct (o_autoscaleMargin (ax_options ax)). }
  destruct E as (E1 & E2 & E3 & E4). unfold ax'. split; [|split; [|split; [|split]]].
  - exists (setRange ax), mn, mx. by rewrite E4.
  - unfold setTransformationHelpers. by destruct (ax_direction (setRange ax)).
  - unfold setTransformationHelpers. by destruct (ax_direction (setRange ax)).
  - by rewrite <- E3.
  - by rewrite <- E4.
Qed.

(** ** Zooming *)

Section zoom.
Context `{NumText xq}.
Variables (W Hc : Q) (g : geometry xq).
Hypothesis geom : plotWidth g = XFin W ∧ plotHeight g = XFin Hc.
Hypothesis size : 0 < W ∧ 0 < Hc.
Implicit Types (ax : axis xq) (c : Q * Q).

(** The coordinate of a position along an axis. *)
Definition along ax c : Q := match ax_direction ax with DirX => c.1 | DirY => c.2 end.
Definition side ax : Q := match ax_direction ax with DirX => W | DirY => Hc end.

(** The axis after its bounds were set and it was scaled again. *)
Definition rescaled ax o : axis xq := setTransformationHelpers (XFin W) (XFin Hc) (setRange (with_options ax o)).

(** The bounds that zooming sets, whatever the direction. *)
Lemma zoom_bounds A c ax a b m k : 0 < A → o_zoomRange (ax_options ax) = RangeNone →
  ax_min ax = XFin a → ax_max ax = XFin b → a < b → two_way ax m k →
  match ax_direction ax with DirX => m == a ∧ k * (b - a) == W | DirY => m == b ∧ k * (a - b) == Hc end →
  ∃ mn mx, zoom_axis (XFin A) (XFin c.1, XFin c.2) g ax
           = with_min_max (ax_options ax) (Number (XFin mn)) (Number (XFin mx)) ∧
    let v := m + along ax c / k in
    (v - mn) * A == v - a ∧ (mx - v) * A == b - v.
Proof.
  intros HA Hz Ea Eb Hlt T Hdir. destruct geom as [Ew Eh], size as [Hw Hh]. unfold zoom_axis.
  set (s := side ax). set (q := along ax c).
  assert (Hs : 0 < s) by (unfold s, side; by destruct (ax_direction ax)).
  assert (Espan : (match ax_direction ax with
                   | DirX => zoom_span (XFin A) (XFin c.1, XFin c.2).1 (plotWidth g)
                   | DirY => zoom_span (XFin A) (XFin c.1, XFin c.2).2 (plotHeight g)
                   end) = (XFin (q - q / s * s / A), XFin (q + (1 - q / s) * s / A))).
  { assert (G : ∀ u t, 0 < t → zoom_span (XFin A) (XFin u) (XFin t) = (XFin (u - u / t * t / A), XFin (u + (1 - u / t) * t / A))).
    { intros u t Hp. unfold zoom_span. rewrite Exact.div_fin by lra.
      change (XFin (u / t) * XFin t)%num with (XFin (u / t * t)).
      change ((⟨1⟩ - XFin (u / t)) * XFin t)%num with (XFin ((1 - u / t) * t)).
      rewrite !Exact.div_fin by lra. done. }
    unfold q, s, along, side. rewrite Ew, Eh. by destruct (ax_direction ax); apply G. }
  rewrite Espan, Hz, !(c2p_linear ax m k) by done.
  set (u1 := m + (q - q / s * s / A) / k). set (u2 := m + (q + (1 - q / s) * s / A) / k).
  assert (Hk : ¬ k == 0) by apply T.
  set (t := q / k). set (z := s / k).
  assert (E1 : (m + t - u1) * A == t) by (unfold u1, t; field; split; [lra|split; lra]).
  assert (E2 : (u2 - (m + t)) * A == z - t) by (unfold u2, t, z; field; split; [lra|split; lra]).
  assert (Z : match ax_direction ax with DirX => z == b - a | DirY => z == a - b end).
  { unfold z, s, side. destruct (ax_direction ax), Hdir as [_ D]; rewrite <- D; by field. }
  assert (E3 : (u2 - u1) * A == z) by lra.
  clearbody u1 u2 t z. destruct (nltb (XFin u2) (XFin u1)) eqn:L; xq_hyps; destruct (ax_direction ax), Hdir as [D _].
  - exfalso. nra.
  - exists u2, u1. split; [done|]. cbv zeta. split; lra.
  - exists u1, u2. split; [done|]. cbv zeta. split; lra.
  - exfalso. nra.
Qed.
End zoom.

Section zooming.
Context `{NumText xq}.
Variables (W Hc : Q) (g : geometry xq).
Hypothesis geom : plotWidth g = XFin W ∧ plotHeight g = XFin Hc.
Hypothesis size : 0 < W ∧ 0 < Hc.
Implicit Types (ax : axis xq) (c : Q * Q).

(** An axis that zooming may change. *)
Definition zoomable ax : Prop := scaled W Hc ax ∧ o_zoomRange (ax_options ax) = RangeNone.

(** The effect of zooming on an axis that is scaled again: the value under the
    center is the same, and its distances to the bounds are divided by the amount. *)
Lemma zoom_rescaled A c ax : 0 < A → zoomable ax →
  let ax' := rescaled W Hc ax (zoom_axis (XFin A) (XFin c.1, XFin c.2) g ax) in
  zoomable ax' ∧ ax_direction ax' = ax_direction ax ∧
  ∃ a b a' b' v v', ax_min ax = XFin a ∧ ax_max ax = XFin b ∧ ax_min ax' = XFin a' ∧ ax_max ax' = XFin b' ∧
    c2p ax (XFin (along ax c)) = XFin v ∧ c2p ax' (XFin (along ax c)) = XFin v' ∧ v' == v ∧
    (v - a') * A == v - a ∧ (b' - v) * A == b - v.
Proof.
  intros HA [Hsc Hz] ax'. pose proof size as [Hw Hh].
  destruct (scaled_linear W Hc ax Hw Hh Hsc) as (a & b & m & k & Ea & Eb & Hlt & T & Hdir).
  destruct (zoom_bounds W Hc g geom size A c ax a b m k HA Hz Ea Eb Hlt T Hdir) as (a' & b' & Eo & Z).
  cbv zeta in Z. destruct Z as [Z1 Z2].
  assert (Hlt' : a' < b') by nra.
  assert (Ht : o_transform (ax_options ax) = None) by apply T.
  assert (Hi : o_inverseTransform (ax_options ax) = None) by apply T.
  destruct (bounded_scaled W Hc (with_options ax (zoom_axis (XFin A) (XFin c.1, XFin c.2) g ax)) a' b')
    as (S' & Ea' & Eb' & Ed' & Eopt); try (by rewrite Eo); [done|].
  fold (rescaled W Hc ax (zoom_axis (XFin A) (XFin c.1, XFin c.2) g ax)) in S', Ea', Eb', Ed', Eopt.
  fold ax' in S', Ea', Eb', Ed', Eopt. cbn [with_options ax_direction ax_options] in Ed', Eopt.
  split; [split; [done|by rewrite Eopt, Eo]|]. split; [done|].
  destruct (scaled_linear W Hc ax' Hw Hh S') as (a2 & b2 & m' & k' & Ea2 & Eb2 & _ & T' & Hdir').
  rewrite Ea' in Ea2. injection Ea2 as <-. rewrite Eb' in Eb2. injection Eb2 as <-.
  exists a, b, a', b', (m + along ax c / k), (m' + along ax c / k').
  do 4 (split; [done|]). split; [by apply c2p_linear|]. split; [by apply c2p_linear|].
  split; [|done]. rewrite Ed' in Hdir'.
  assert (Hk : ¬ k == 0) by apply T. assert (Hk' : ¬ k' == 0) by apply T'.
  set (q := along ax c) in *. set (t := q / k) in *. set (t' := q / k') in *.
  assert (E1 : t * k == q) by (unfold t; by field). assert (E2 : t' * k' == q) by (unfold t'; by field).
  clearbody t t' q. assert (Ek : k' * (b' - a') == k * (b - a)).
  { destruct (ax_direction ax), Hdir as [_ D], Hdir' as [_ D']; lra. }
  assert (Ek2 : k' == k * A).
  { apply (Qmult_inj_r _ _ (b' - a')); [lra|]. rewrite Ek.
    assert (b - a == (b' - a') * A) as -> by lra. ring. }
  assert (Et : t' * A == t).
  { apply (Qmult_inj_r _ _ k); [done|]. rewrite E1, <- E2, Ek2. ring. }
  apply (Qmult_inj_r _ _ A); [lra|]. destruct (ax_direction ax), Hdir as [D _], Hdir' as [D' _]; rewrite D'; lra.
Qed.
End zooming.

(** The plot after its axes were scaled again for the same plot area. *)
Definition scale_again `{NumText xq} (g : geometry xq) (p : plot xq) : plot xq :=
  map_axes (λ ax, setTransformationHelpers (plotWidth g) (plotHeight g) (setRange ax)) p.

Lemma zoomed_slot `{NumText xq} W Hc (options : navigate_options xq) args p g s c :
  plotWidth g = XFin W ∧ plotHeight g = XFin Hc → center args = Some c →
  get_slot (scale_again g (zoom_plot options args p g)) s
  = (λ ax, rescaled W Hc ax (zoom_axis (zoom_by options args) c g ax)) <$> get_slot p s.
Proof.
  intros [Ew Eh] Ec. unfold scale_again, zoom_plot, map_options. rewrite Ec, !get_map_slot, Ew, Eh.
  by destruct (get_slot p s).
Qed.

Lemma zoom_by_amount (options : navigate_options xq) c prevent A : 0 < A →
  zoom_by options (ZoomArgs (Some (XFin A)) c prevent) = XFin A.
Proof.
  intros HA. unfold zoom_by. cbn [amount]. unfold ntruthy. rewrite Exact.nis_nan_fin.
  assert (neqb (XFin A) (of_Z 0) = false) as -> by (apply (Exact.eqb_fin_false A 0); lra). done.
Qed.

(** Zooming in or out keeps the point under the center where it is: once
    the axes are scaled again for the same plot area, the center stands for
    the same value as before on every axis, and the range around it is divided
    by the amount. *)
Theorem zoom_keeps_center `{NumText xq} W Hc options A cx cy prevent (p : plot xq) g :
  plotWidth g = XFin W ∧ plotHeight g = XFin Hc → 0 < W ∧ 0 < Hc → 0 < A →
  let p' := scale_again g (zoom_plot options (ZoomArgs (Some (XFin A)) (Some (XFin cx, XFin cy)) prevent) p g) in
  ∀ s ax, get_slot p s = Some ax → zoomable W Hc ax →
  ∃ ax' a b a' b' v v', get_slot p' s = Some ax' ∧
    ax_min ax = XFin a ∧ ax_max ax = XFin b ∧ ax_min ax' = XFin a' ∧ ax_max ax' = XFin b' ∧
    c2p ax (XFin (along ax (cx, cy))) = XFin v ∧ c2p ax' (XFin (along ax (cx, cy))) = XFin v' ∧ v' == v ∧
    (v - a') * A == v - a ∧ (b' - v) * A == b - v.
Proof.
  intros Hg Hs HA p' s ax Eax Hz.
  destruct (zoom_rescaled W Hc g Hg Hs A (cx, cy) ax HA Hz) as (_ & _ & a & b & a' & b' & v & v' & E).
  eexists _, a, b, a', b', v, v'. split; [|exact E].
  unfold p'. rewrite (zoomed_slot W Hc _ _ _ _ _ (XFin cx, XFin cy)), zoom_by_amount, Eax by done. done.
Qed.

(** [zoomOut] undoes [zoom]: with the same center and amount the range of
    every axis is the one before zooming in. *)
Theorem zoom_zoomOut `{NumText xq} W Hc options A cx cy prevent (p : plot xq) g :
  plotWidth g = XFin W ∧ plotHeight g = XFin Hc → 0 < W ∧ 0 < Hc → 0 < A →
  let args := ZoomArgs (Some (XFin A)) (Some (XFin cx, XFin cy)) prevent in
  let p' := scale_again g (zoom_plot options args p g) in
  let p'' := scale_again g (zoom_plot options (zoomOut_args options args) p' g) in
  ∀ s ax, get_slot p s = Some ax → zoomable W Hc ax →
  ∃ ax'' a b a'' b'', get_slot p'' s = Some ax'' ∧ ax_min ax = XFin a ∧ ax_max ax = XFin b ∧
    ax_min ax'' = XFin a'' ∧ ax_max ax'' = XFin b'' ∧ a'' == a ∧ b'' == b.
Proof.
  intros Hg Hs HA args p' p'' s ax Eax Hz.
  destruct (zoom_rescaled W Hc g Hg Hs A (cx, cy) ax HA Hz)
    as (Hz' & Ed & a & b & a' & b' & v & v' & Ea & Eb & Ea' & Eb' & Ev & Ev' & Evv & R1 & R2).
  set (ax' := rescaled W Hc ax _) in *.
  assert (Eax' : get_slot p' s = Some ax').
  { unfold p', args. rewrite (zoomed_slot W Hc _ _ _ _ _ (XFin cx, XFin cy)), zoom_by_amount, Eax by done. done. }
  assert (HA' : 0 < 1 / A) by (apply Qlt_shift_div_l; lra).
  destruct (zoom_rescaled W Hc g Hg Hs (1 / A) (cx, cy) ax' HA' Hz')
    as (_ & _ & a1 & b1 & a'' & b'' & w & w' & Ea1 & Eb1 & Ea'' & Eb'' & Ew & Ew' & Eww & S1 & S2).
  rewrite Ea' in Ea1. injection Ea1 as <-. rewrite Eb' in Eb1. injection Eb1 as <-.
  assert (Ealong : along ax' (cx, cy) = along ax (cx, cy)) by (unfold along; by rewrite Ed).
  rewrite Ealong, Ev' in Ew. injection Ew as <-.
  exists (rescaled W Hc ax' (zoom_axis (XFin (1 / A)) (XFin cx, XFin cy) g ax')), a, b, a'', b''.
  split; [|do 4 (split; [done|])].
  - unfold p''. rewrite (zoomed_slot W Hc _ _ _ _ _ (XFin cx, XFin cy)), Eax' by done. cbn [fmap option_fmap option_map].
    unfold zoomOut_args, args. rewrite zoom_by_amount by done. change (⟨1⟩%num : xq) with (XFin 1).
    rewrite Exact.div_fin by lra. cbn [amount center zoom_preventEvent]. by rewrite zoom_by_amount.
  - assert (Hone : 1 / A * A == 1) by (field; lra). set (i := 1 / A) in *. clearbody i.
    rewrite <- Evv in *. split.
    + assert (v' - a'' == (v' - a') * A) as E; [|lra].
      rewrite <- S1. transitivity ((v' - a'') * (i * A)); [rewrite Hone; ring|ring].
    + assert (b'' - v' == (b' - v') * A) as E; [|lra].
      rewrite <- S2. transitivity ((b'' - v') * (i * A)); [rewrite Hone; ring|ring].
Qed.

(** ** Panning *)

(** The bounds of a [panRange] that is a pair. *)
Definition pan_bounds (ax : axis xq) (lo hi : option Q) : Prop :=
  match o_panRange (ax_options ax) with
  | RangeNone => lo = None ∧ hi = None
  | RangeFalse => False
  | Range l h => l = XFin <$> lo ∧ h = XFin <$> hi
  end.

(** Panning moves the range of an axis without changing its size, stops at
    the upper bound of [panRange], and at the lower one too when the range
    fits between the two; when nothing is hit the move is that of the pixels. *)
Theorem pan_axis_range `{NumText xq} (ax : axis xq) m k a b lo hi dx dy :
  two_way ax m k → ax_min ax = XFin a → ax_max ax = XFin b → pan_bounds ax lo hi →
  let moved := match ax_direction ax with DirX => dx | DirY => dy end / k in
  ∃ mn mx, pan_axis (XFin dx, XFin dy) ax = with_min_max (ax_options ax) (Number (XFin mn)) (Number (XFin mx)) ∧
    mx - mn == b - a ∧ (∀ h, hi = Some h → mx <= h) ∧
    (∀ l, lo = Some l → (∀ h, hi = Some h → b - a <= h - l) → l <= mn) ∧
    ((∀ l, lo = Some l → l <= a + moved) → (∀ h, hi = Some h → b + moved <= h) → mn == a + moved).
Proof.
  intros T Ea Eb Hr moved. assert (Hk : ¬ k == 0) by apply T.
  set (d := match ax_direction ax with DirX => dx | DirY => dy end).
  assert (E : ∀ q, ∃ q', c2p ax (p2c ax (XFin q) + XFin d)%num = XFin q' ∧ q' == q + moved).
  { intros q. rewrite (p2c_two_way ax m k) by done.
    change (XFin ((q - m) * k) + XFin d)%num with (XFin ((q - m) * k + d)). rewrite (c2p_linear ax m k) by done.
    eexists. split; [done|]. unfold moved. fold d. by field. }
  destruct (E a) as (mn & Emn & Hmn), (E b) as (mx & Emx & Hmx). unfold pan_axis. cbn [fst snd].
  assert (Ed : match ax_direction ax with DirX => XFin dx | DirY => XFin dy end = XFin d)
    by (unfold d; by destruct (ax_direction ax)).
  rewrite Ed, Ea, Eb, Emn, Emx. unfold pan_bounds in Hr. clearbody moved.
  destruct (o_panRange (ax_options ax)) as [| |l h]; [|done|].
  - destruct Hr as [-> ->]. exists mn, mx. split; [done|]. split; [lra|]. split; [done|]. split; [done|]. auto.
  - destruct Hr as [-> ->]. destruct lo as [l|], hi as [h|]; cbn [fmap option_fmap option_map];
      repeat match goal with
      | |- context [if nltb ?u ?v then _ else _] =>
          let E := fresh "C" in destruct (nltb u v) eqn:E; cbn [nadd nsub Exact.xq_num Exact.add Exact.sub] in *
      end; cbn [nadd nsub Exact.xq_num Exact.add Exact.sub] in *; xq_hyps;
      (eexists _, _; split; [reflexivity|]; split; [lra|]; split; [|split]);
      try (by intros); try (intros ? [= <-]; first [lra|intros Hf; try specialize (Hf _ eq_refl); lra]);
      intros HL HH; try specialize (HL _ eq_refl); try specialize (HH _ eq_refl); lra.
Qed.

(** ** Dragging *)

(** The pans of a drag, as rationals. *)
Definition fin_pan (d : Q * Q) : xq * xq := (XFin d.1, XFin d.2).
Definition sum_pans (l : list (Q * Q)) : Q * Q := foldr (λ d s, (d.1 + s.1, d.2 + s.2)) (0, 0) l.

(** Inputs between the press and the release, at finite positions. *)
Definition dragging (i : drag_input xq) : Prop :=
  match i with Drag x y => ∃ a b, x = XFin a ∧ y = XFin b | PanTimer => True | _ => False end.

Lemma drag_run_snoc `{NumText xq} options inputs i st :
  drag_run (num := xq) options (inputs ++ [i]) st =
  let '(st1, pans) := drag_run options inputs st in
  let '(st2, pan) := drag_step options i st1 in
  (st2, pans ++ match pan with Some d => [d] | None => [] end).
Proof.
  revert st. induction inputs as [|j inputs IH]; intros st; simpl.
  { destruct (drag_step options i st) as [st2 []]; done. }
  destruct (drag_step options j st) as [st1 q]. rewrite IH.
  destruct (drag_run options inputs st1) as [st2 qs]. destruct (drag_step options i st2) as [st3 r].
  by rewrite app_assoc.
Qed.

(** During a drag, the pans made so far lead from the start to the last position. *)
Lemma drag_sum `{NumText xq} options inputs st x0 y0 : Forall dragging inputs →
  prevPage st = (XFin x0, XFin y0) →
  (panTimeout st = None ∨ ∃ x y, panTimeout st = Some (XFin x, XFin y)) →
  ∃ x y pans, prevPage (drag_run options inputs st).1 = (XFin x, XFin y) ∧
    prevCursor (drag_run options inputs st).1 = prevCursor st ∧
    (drag_run options inputs st).2 = map fin_pan pans ∧
    (sum_pans pans).1 == x0 - x ∧ (sum_pans pans).2 == y0 - y.
Proof.
  intros Hin. revert st x0 y0. induction Hin as [|i inputs Hi Hin IH]; intros st x0 y0 Hp Ht.
  { exists x0, y0, []. simpl. repeat split; try done; lra. }
  cbn [drag_run]. destruct i as [| |? |]; simpl in Hi; try done.
  - destruct Hi as (a & b & -> & ->). simpl. destruct (IH (onDrag options (XFin a) (XFin b) st) x0 y0)
      as (x & y & pans & E1 & E2 & E3 & E4 & E5).
    + unfold onDrag. by repeat case_match.
    + unfold onDrag. destruct Ht as [Et|(u & v & Eu)]; [rewrite Et|rewrite Eu; right; eauto].
      case_match; [right; by exists a, b|by left].
    + destruct (drag_run _ _ _) as [st2 qs]. exists x, y, pans. simpl in *. repeat split; try done.
      rewrite E2. unfold onDrag. by repeat case_match.
  - simpl. destruct Ht as [Et|(u & v & Et)].
    + unfold onPanTimer. rewrite Et. destruct (IH st x0 y0 Hp ltac:(by left)) as (x & y & pans & E).
      destruct (drag_run _ _ _) as [st2 qs]. by exists x, y, pans.
    + unfold onPanTimer. rewrite Et, Hp. cbn [fst snd].
      destruct (IH (NavState (cursor st) (prevCursor st) (XFin u, XFin v) None) u v eq_refl ltac:(by left))
        as (x & y & pans & E1 & E2 & E3 & E4 & E5).
      destruct (drag_run _ _ _) as [st2 qs]. exists x, y, ((x0 - u, y0 - v) :: pans). simpl in *.
      repeat split; try done; [by rewrite E3|lra|lra].
Qed.

(** C23: however the drag events and the timer interleave, a drag pans in all by
    the way from the press to the release; at the end no pan is pending and
    the cursor is the one before the drag. *)
Theorem drag_total `{NumText xq} options inputs x0 y0 x1 y1 st : Forall dragging inputs →
  panTimeout st = None → cursor st ≠ "" →
  ∃ pans, let r := drag_run options ([DragStart 1 (XFin x0) (XFin y0)] ++ inputs ++ [DragEnd (XFin x1) (XFin y1)]) st in
    r.2 = map fin_pan pans ∧ (sum_pans pans).1 == x0 - x1 ∧ (sum_pans pans).2 == y0 - y1 ∧
    panTimeout r.1 = None ∧ cursor r.1 = cursor st.
Proof.
  intros Hin Ht Hc. rewrite app_assoc, drag_run_snoc.
  set (st1 := onDragStart options 1 (XFin x0) (XFin y0) st).
  assert (E : drag_run options ([DragStart 1 (XFin x0) (XFin y0)] ++ inputs) st = drag_run options inputs st1).
  { simpl. fold st1. by destruct (drag_run options inputs st1). }
  rewrite E. destruct (drag_sum options inputs st1 x0 y0 Hin eq_refl ltac:(by left))
    as (x & y & pans & E1 & E2 & E3 & E4 & E5).
  destruct (drag_run options inputs st1) as [st2 qs]. simpl in *. rewrite E1.
  exists (pans ++ [(x - x1, y - y1)]).
  assert (S : ∀ l d, (sum_pans (l ++ [d])).1 == (sum_pans l).1 + d.1 ∧ (sum_pans (l ++ [d])).2 == (sum_pans l).2 + d.2).
  { intros l d. induction l as [|e l [I1 I2]]; simpl; split; lra. }
  destruct (S pans (x - x1, y - y1)) as [S1 S2]. simpl in S1, S2. rewrite E3, map_app. simpl.
  split; [done|]. split; [lra|]. split; [lra|]. split; [done|]. rewrite E2.
  destruct (String.eqb (cursor st) "") eqn:Ec; [by apply String.eqb_eq in Ec|done].
Qed.

(** ** Witnesses *)

Lemma selection_axis_zoomable dir hi : 0 < hi → zoomable 450 260 (selection_axis dir hi).
Proof.
  intros Hhi. split; [|by destruct dir]. do 3 eexists. split; [reflexivity|]. by repeat split.
Qed.

Lemma zoom_keeps_center_witness :
  let _ := Exact.exact_text in
  let p' := scale_again sample_geometry (zoom_plot default_navigate
    (ZoomArgs (Some (XFin 2)) (Some (XFin 150, XFin 50)) false) selection_plot sample_geometry) in
  ∃ ax' a b a' b' v v', get_slot p' (DirX, 0%nat) = Some ax' ∧
    ax_min (selection_axis DirX 9) = XFin a ∧ ax_max (selection_axis DirX 9) = XFin b ∧
    ax_min ax' = XFin a' ∧ ax_max ax' = XFin b' ∧
    c2p (selection_axis DirX 9) (XFin 150) = XFin v ∧ c2p ax' (XFin 150) = XFin v' ∧ v' == v ∧
    (v - a') * 2 == v - a ∧ (b' - v) * 2 == b - v.
Proof.
  intros text p'.
  exact (zoom_keeps_center 450 260 default_navigate 2 150 50 false selection_plot sample_geometry
    ltac:(done) ltac:(done) ltac:(done) (DirX, 0%nat) (selection_axis DirX 9) ltac:(done)
    (selection_axis_zoomable DirX 9 ltac:(done))).
Defined.

Lemma zoom_zoomOut_witness :
  let _ := Exact.exact_text in
  let args := ZoomArgs (Some (XFin 2)) (Some (XFin 150, XFin 50)) false in
  let p' := scale_again sample_geometry (zoom_plot default_navigate args selection_plot sample_geometry) in
  let p'' := scale_again sample_geometry (zoom_plot default_navigate (zoomOut_args default_navigate args) p' sample_geometry) in
  ∃ ax'' a b a'' b'', get_slot p'' (DirX, 0%nat) = Some ax'' ∧
    ax_min (selection_axis DirX 9) = XFin a ∧ ax_max (selection_axis DirX 9) = XFin b ∧
    ax_min ax'' = XFin a'' ∧ ax_max ax'' = XFin b'' ∧ a'' == a ∧ b'' == b.
Proof.
  intros text args p' p''.
  exact (zoom_zoomOut 450 260 default_navigate 2 150 50 false selection_plot sample_geometry
    ltac:(done) ltac:(done) ltac:(done) (DirX, 0%nat) (selection_axis DirX 9) ltac:(done)
    (selection_axis_zoomable DirX 9 ltac:(done))).
Defined.

(** An axis that may be moved from 0 to 10 only. *)
Definition walled_axis : axis xq :=
  let ax := sample_view DirX 2 6 2 100 in
  let o := ax_options ax in
  with_options ax (AxisOptions (o_show o) (o_position o) (o_time o) (o_color o) (o_tickColor o) (o_transform o)
    (o_inverseTransform o) (o_min o) (o_max o) (o_autoscaleMargin o) (o_ticks o) (o_tickFormatter o)
    (o_labelWidth o) (o_labelHeight o) (o_reserveSpace o) (o_tickLength o)
    (o_alignTicksWithAxis o) (o_tickDecimals o) (o_tickSize o) (o_minTickSize o)
    (o_monthNames o) (o_timeformat o) (o_twelveHourClock o) RangeNone
    (Range (Some (XFin 0)) (Some (XFin 10)))).

Lemma pan_axis_range_witness :
  let _ := Exact.exact_text in
  ∃ mn mx, pan_axis (XFin 700, XFin 0) walled_axis
           = with_min_max (ax_options walled_axis) (Number (XFin mn)) (Number (XFin mx)) ∧
    mx - mn == 6 - 2 ∧ (∀ h, Some 10 = Some h → mx <= h) ∧
    (∀ l, Some 0 = Some l → (∀ h, Some 10 = Some h → 6 - 2 <= h - l) → l <= mn) ∧
    ((∀ l, Some 0 = Some l → l <= 2 + 700 / 100) → (∀ h, Some 10 = Some h → 6 + 700 / 100 <= h) → mn == 2 + 700 / 100).
Proof.
  intros text.
  apply (pan_axis_range walled_axis 2 100 2 6 (Some 0) (Some 10) 700 0);
    [by split; [by split|..]|done|done|by split].
Defined.

Lemma drag_total_witness :
  let _ := Exact.exact_text in
  let inputs := [Drag (XFin 110) (XFin 52); Drag (XFin 115) (XFin 54); PanTimer; PanTimer; Drag (XFin 130) (XFin 60)] in
  ∃ pans, let r := drag_run default_navigate ([DragStart 1 (XFin 100) (XFin 50)] ++ inputs ++ [DragEnd (XFin 140) (XFin 70)])
                     (nav0 "default") in
    r.2 = map fin_pan pans ∧ (sum_pans pans).1 == 100 - 140 ∧ (sum_pans pans).2 == 50 - 70 ∧
    panTimeout r.1 = None ∧ cursor r.1 = "default".
Proof.
  intros text inputs. apply (drag_total default_navigate inputs 100 50 140 70 (nav0 "default")); [|done..].
  repeat constructor; do 2 eexists; done.
Defined.
