(* ===== verification/FlotImage.v ===== *)
(** The image plugin, [static/flot/jquery.flot.image.js]: loading the images
    that the data names, and drawing the visible part of each. *)

From S2P Require Import Prelude Numbers JsText JsValue FlotModel FlotAxis Canvas.

Record images_options (num : Type) := ImagesOptions { im_show : bool; im_alpha : num; im_anchor : string }.
Arguments ImagesOptions {num} _ _ _. Arguments im_show {num} _. Arguments im_alpha {num} _. Arguments im_anchor {num} _.

(** ** Loading *)

(** A series as given to [loadDataImages]: its [images.show] ([None] when it
    has no [images] option) and its points. *)
Record image_series (num : Type) := ImageSeries { is_show : option bool; is_points : list (raw_point num) }.
Arguments ImageSeries {num} _ _. Arguments is_show {num} _. Arguments is_points {num} _.

(** [load]: the number of images that are missing, those loaded by address
    (the latest first), and the arguments of the calls of the callback. *)
Record loading := Loading { missing : Z; loaded : list (string * nat); calls : list (list (string * nat)) }.

(** Nothing to load calls back at once. *)
Definition load_start (urls : list string) : loading :=
  Loading (Z.of_nat (length urls)) [] (if (length urls =? 0)%nat then [[]] else []).

(** The handler of the image element [img] for an address, on load or on error. *)
Definition load_handler (e : string * nat) (st : loading) : loading :=
  let missing := (missing st - 1)%Z in
  let loaded := e :: loaded st in
  Loading missing loaded (if (missing =? 0)%Z then calls st ++ [loaded] else calls st).

Section image.
Context {num : Type} `{Num num} `{NumText num}.
Implicit Types (ax : axis num) (g : geometry num).
Local Open Scope num_scope.

(** The addresses in the points of the series that show images, in order. *)
Definition point_url (r : raw_point num) : result (option string) :=
  match r with
  | None => Throw "TypeError: cannot read property of null"
  | Some p => Ok match aget p 0 with Str url => Some url | _ => None end
  end.

Fixpoint point_urls (ps : list (raw_point num)) : result (list string) :=
  match ps with
  | [] => Ok []
  | r :: ps => u ← point_url r; us ← point_urls ps; Ok match u with Some u => u :: us | None => us end
  end.

Definition shows (defaultShow : bool) (s : image_series num) : result bool :=
  if defaultShow then Ok true
  else match is_show s with Some b => Ok b | None => Throw "TypeError: images is undefined" end.

Fixpoint data_urls (defaultShow : bool) (ss : list (image_series num)) : result (list string) :=
  match ss with
  | [] => Ok []
  | s :: ss =>
      b ← shows defaultShow s;
      us ← (if (b : bool) then point_urls (is_points s) else Ok []);
      rest ← data_urls defaultShow ss;
      Ok (us ++ rest)
  end.

(** What the callback of [loadDataImages] does to the points it has kept. *)
Fixpoint find_image (url : string) (l : list (string * nat)) : option nat :=
  match l with
  | [] => None
  | (u, img) :: l => if String.eqb url u then Some img else find_image url l
  end.

Definition put_image (l : list (string * nat)) (r : raw_point num) : raw_point num :=
  match r with
  | Some (Str url :: p) => match find_image url l with Some img => Some (Ref img :: p) | None => r end
  | _ => r
  end.

Definition put_images (defaultShow : bool) (l : list (string * nat)) (ss : list (image_series num))
    : list (image_series num) :=
  map (λ s, if defaultShow || default false (is_show s)
            then ImageSeries (is_show s) (map (put_image l) (is_points s)) else s) ss.

(** ** The format of the points *)

(** The image, and two opposite corners. *)
Definition image_format : list (format_entry num) :=
  [FormatEntry false false false true None; FormatEntry true false true true None;
   FormatEntry false true true true None; FormatEntry true false true true None;
   FormatEntry false true true true None].

Definition processRawData (options : images_options num) (d : datapoints num) : datapoints num :=
  if im_show options then Datapoints (dp_points d) (dp_pointsize d) (Some image_format) else d.

(** ** Drawing *)

(** The width and height of an image. *)
Variable image_size : nat → num * num.

Definition ordered (a b : num) : num * num := if a >? b then (b, a) else (a, b).

(** Half a pixel is added on each side when the anchor is the center of pixels. *)
Definition widen_pixel (centered : bool) (size : num) (r : num * num) : num * num :=
  if centered then
    let tmp := of_ratio 1 2 * (r.2 - r.1) / (size - ⟨1⟩) in (r.1 - tmp, r.2 + tmp)
  else r.

(** Clipping along x: the interval of the image and that of the axis. *)
Definition clip_x (size : num) (r : num * num) ax : (num * num) * (num * num) :=
  let '(x1, x2) := r in
  let '(sx1, sx2) := (⟨0⟩, size) in
  let '(sx1, x1) :=
    if x1 <? ax_min ax then (sx1 + (sx2 - sx1) * (ax_min ax - x1) / (x2 - x1), ax_min ax) else (sx1, x1) in
  let '(sx2, x2) :=
    if x2 >? ax_max ax then (sx2 + (sx2 - sx1) * (ax_max ax - x2) / (x2 - x1), ax_max ax) else (sx2, x2) in
  ((sx1, sx2), (x1, x2)).

(** Clipping along y, where the first row of the image is at the top. *)
Definition clip_y (size : num) (r : num * num) ax : (num * num) * (num * num) :=
  let '(y1, y2) := r in
  let '(sy1, sy2) := (⟨0⟩, size) in
  let '(sy2, y1) :=
    if y1 <? ax_min ax then (sy2 + (sy1 - sy2) * (ax_min ax - y1) / (y2 - y1), ax_min ax) else (sy2, y1) in
  let '(sy1, y2) :=
    if y2 >? ax_max ax then (sy1 + (sy1 - sy2) * (ax_max ax - y2) / (y2 - y1), ax_max ax) else (sy1, y2) in
  ((sy1, sy2), (y1, y2)).

(** One image; [alpha] is the opacity of the context.  A value that is not an
    image has no size, and cannot be drawn. *)
Definition draw_image (options : images_options num) (alpha : num) g xaxis yaxis (group : list (jsv num))
    : result (list (canvas_op num)) :=
  let img := aget group 0 in
  let '(w, h) := match img with Ref img => image_size img | _ => (nnan, nnan) end in
  if negb (truthy img) || (w <=? ⟨0⟩) || (h <=? ⟨0⟩) then Ok []
  else
    let centered := String.eqb (im_anchor options) "center" in
    let c k := to_num (aget group k) in
    let '(x1, x2) := widen_pixel centered w (ordered (c 1%Z) (c 3%Z)) in
    let '(y1, y2) := widen_pixel centered h (ordered (c 2%Z) (c 4%Z)) in
    if (x1 =? x2) || (y1 =? y2) || (x1 >=? ax_max xaxis) || (x2 <=? ax_min xaxis)
       || (y1 >=? ax_max yaxis) || (y2 <=? ax_min yaxis) then Ok []
    else
      let '((sx1, sx2), (x1, x2)) := clip_x w (x1, x2) xaxis in
      let '((sy1, sy2), (y1, y2)) := clip_y h (y1, y2) yaxis in
      let '(x1, x2) := ordered (p2c xaxis x1) (p2c xaxis x2) in
      let '(y1, y2) := ordered (p2c yaxis y1) (p2c yaxis y2) in
      match img with
      | Ref img =>
          Ok [OpGlobalAlpha (alpha * im_alpha options);
              OpDrawImage img sx1 sy1 (sx2 - sx1) (sy2 - sy1) (x1 + off_left g) (y1 + off_top g)
                (x2 - x1) (y2 - y1);
              OpGlobalAlpha alpha]
      | _ => Throw "TypeError: not an image"
      end.

Fixpoint draw_images (options : images_options num) (alpha : num) g xaxis yaxis (groups : list (list (jsv num)))
    : result (list (canvas_op num)) :=
  match groups with
  | [] => Ok []
  | group :: groups =>
      ops ← draw_image options alpha g xaxis yaxis group;
      rest ← draw_images options alpha g xaxis yaxis groups;
      Ok (ops ++ rest)
  end.

(** The [drawSeries] hook for a series that has the [images] option. *)
Definition drawSeries_images (options : images_options num) (alpha : num) g (s : series num) xaxis yaxis
    : result (list (canvas_op num)) :=
  if im_show options
  then draw_images options alpha g xaxis yaxis (chunk (pointsize s) (dp_points (s_datapoints s)))
  else Ok [].
End image.
