(* ===== verification/FlotImageSpec.v ===== *)
(** What the image plugin does: the loaded images are handed over once,
    whatever the order in which they arrive, and the part of an image that is
    drawn is the one in the ranges of the axes, stretched as the whole is. *)

From stdpp Require Import sets.
From Stdlib Require Import QArith Qminmax Lqa.
From S2P Require Import Prelude Numbers ExactNum JsText JsValue FlotModel FlotAxis FlotLineSpec FlotMarkSpec Canvas FlotImage.

#[local] Open Scope nat_scope.

(** ** Loading *)

Lemma load_run evs n st : missing st = Z.of_nat (length evs + n) → 0 < n →
  foldl (λ st e, load_handler e st) st evs = Loading (Z.of_nat n) (reverse evs ++ loaded st) (calls st).
Proof.
  revert st. induction evs as [|e evs IH]; intros [m l c]; cbn [missing loaded calls]; intros Em Hn.
  { simpl in *. by rewrite Em. }
  simpl. rewrite IH; cbn [load_handler missing loaded calls].
  - rewrite reverse_cons, <- app_assoc. simpl in Em |- *.
    assert ((m - 1 =? 0)%Z = false) as -> by (apply Z.eqb_neq; lia). done.
  - simpl in Em. lia.
  - done.
Qed.

Lemma find_image_in u l : (∃ img, (u, img) ∈ l) → ∃ img, find_image u l = Some img ∧ (u, img) ∈ l.
Proof.
  intros (img & Hin). induction l as [|[u' img'] l IH]; [by apply elem_of_nil in Hin|]. simpl.
  destruct (String.eqb u u') eqn:E.
  - apply String.eqb_eq in E as <-. exists img'. split; [done|by left].
  - apply elem_of_cons in Hin as [[= <- <-]|Hin]; [by rewrite String.eqb_refl in E|].
    destruct (IH Hin) as (i & Ei & Hi). exists i. split; [done|by right].
Qed.

(** [load] calls back exactly once, when the last image has arrived (or
    failed) and not before, whatever their order, with an image for every
    address, the same address twice included; with nothing to load it calls
    back at once. *)
Theorem load_calls_once urls evs : map fst evs ≡ₚ urls →
  let run := foldl (λ st e, load_handler e st) (load_start urls) in
  (∃ l, calls (run evs) = [l] ∧ ∀ u, u ∈ urls → ∃ img, find_image u l = Some img ∧ (u, img) ∈ evs) ∧
  (∀ pre e post, evs = pre ++ e :: post → calls (run pre) = []).
Proof.
  intros Hp run. assert (Hlen : length urls = length evs) by (rewrite <- Hp; by rewrite length_map).
  assert (Hne : evs ≠ [] → (length urls =? 0) = false).
  { intros Hn. apply Nat.eqb_neq. rewrite Hlen. by destruct evs. }
  split.
  - destruct (decide (evs = [])) as [->|Hn].
    { simpl in Hlen. apply nil_length_inv in Hlen as ->. exists []. split; [done|]. intros u Hu. by apply elem_of_nil in Hu. }
    destruct (exists_last Hn) as (pre & e & ->). unfold run. rewrite foldl_app. cbn [foldl].
    rewrite (load_run pre 1); [|unfold load_start; cbn [missing]; rewrite Hlen, length_app; done|lia].
    unfold load_start. rewrite (Hne Hn). cbn [load_handler missing loaded calls]. simpl.
    eexists. split; [done|]. intros u Hu.
    assert (Hin : ∃ img, (u, img) ∈ pre ++ [e]).
    { rewrite <- Hp in Hu. apply list_elem_of_fmap in Hu as ([u' img] & -> & Hu). by exists img. }
    destruct (find_image_in u (e :: reverse pre ++ [])) as (img & Ei & Hi).
    { destruct Hin as (img & Hin). exists img. rewrite app_nil_r. apply elem_of_app in Hin as [Hin|Hin].
      - right. by apply elem_of_reverse.
      - apply list_elem_of_singleton in Hin as ->. by left. }
    exists img. split; [done|]. rewrite app_nil_r in Hi. apply elem_of_cons in Hi as [->|Hi].
    + apply elem_of_app. right. by apply list_elem_of_singleton.
    + apply elem_of_app. left. by apply elem_of_reverse.
  - intros pre e post ->. unfold run. rewrite (load_run pre (S (length post))).
    + unfold load_start. rewrite Hne by (by destruct pre). done.
    + unfold load_start. cbn [missing]. rewrite Hlen, length_app. simpl. lia.
    + lia.
Qed.

Lemma load_calls_once_witness :
  let run := foldl (λ st e, load_handler e st) (load_start ["a"; "b"; "a"]) in
  (∃ l, calls (run [("a", 3); ("a", 1); ("b", 2)]) = [l] ∧
     ∀ u, u ∈ ["a"; "b"; "a"] → ∃ img, find_image u l = Some img ∧ (u, img) ∈ [("a", 3); ("a", 1); ("b", 2)]) ∧
  (∀ pre e post, [("a", 3); ("a", 1); ("b", 2)] = pre ++ e :: post → calls (run pre) = []).
Proof.
  apply (load_calls_once ["a"; "b"; "a"] [("a", 3); ("a", 1); ("b", 2)]). simpl.
  apply perm_skip, perm_swap.
Defined.

(** ** Drawing *)

Local Open Scope Q_scope.

Lemma Qle_bool_false a b : Qle_bool a b = false → b < a.
Proof. intros E. apply Qnot_le_lt. intros L. apply Qle_bool_iff in L. congruence. Qed.

Ltac qle_cases :=
  repeat match goal with
  | H : Qle_bool _ _ = true |- _ => apply Qle_bool_iff in H
  | H : Qle_bool _ _ = false |- _ => apply Qle_bool_false in H
  end.

(** The ends of the visible part of an interval. *)
Definition low (a l : Q) : Q := if Qle_bool a l then l else a.
Definition high (b r : Q) : Q := if Qle_bool r b then r else b.

Lemma low_spec a l : a <= low a l ∧ l <= low a l ∧ (low a l == a ∨ low a l == l).
Proof.
  unfold low. destruct (Qle_bool a l) eqn:E; qle_cases; repeat split; try lra; auto using Qeq_refl.
Qed.
Lemma high_spec b r : high b r <= b ∧ high b r <= r ∧ (high b r == b ∨ high b r == r).
Proof.
  unfold high. destruct (Qle_bool r b) eqn:E; qle_cases; repeat split; try lra; auto using Qeq_refl.
Qed.

(** A proportion, once a first end has been cut. *)
Lemma image_cut_ratio w x l r s z : ¬ r - x == 0 → ¬ r - l == 0 → s * (r - l) == w * (x - l) →
  (w + (w - s) * z / (r - x)) * (r - l) == w * (r - l + z).
Proof.
  intros Hx Hl Hs. assert (E : (w - s) * (r - l) == w * (r - x)) by lra.
  apply (Qmult_inj_r _ _ (r - x)); [done|].
  transitivity (w * (r - l) * (r - x) + ((w - s) * (r - l)) * z); [field; done|]. rewrite E. ring.
Qed.

Section clipping.
Implicit Types (ax : axis xq).

(** Clipping along x: source and visible interval keep the proportion of the image. *)
Lemma clip_x_spec w l r ax a b : ax_min ax = XFin a → ax_max ax = XFin b → l < r → a < r → l < b → a < b →
  ∃ s1 s2, clip_x (XFin w) (XFin l, XFin r) ax = ((XFin s1, XFin s2), (XFin (low a l), XFin (high b r))) ∧
    s1 * (r - l) == w * (low a l - l) ∧ s2 * (r - l) == w * (high b r - l).
Proof.
  intros Ea Eb Hlr Har Hlb Hab. unfold clip_x. rewrite Ea, Eb. change (⟨0⟩%num : xq) with (XFin 0).
  assert (D : ¬ r - l == 0) by lra.
  assert (L : ∃ s1, (if nltb (XFin l) (XFin a)
            then ((XFin 0 + (XFin w - XFin 0) * (XFin a - XFin l) / (XFin r - XFin l))%num, XFin a)
            else (XFin 0, XFin l)) = (XFin s1, XFin (low a l)) ∧ s1 * (r - l) == w * (low a l - l)).
  { rewrite ltb_Qle. unfold low. destruct (Qle_bool a l) eqn:E; cbn [negb].
    - exists 0. split; [done|]. ring.
    - cbn [nadd nsub nmul Exact.xq_num Exact.add Exact.sub Exact.mul]. rewrite Exact.div_fin by done.
      eexists. split; [done|]. by field. }
  destruct L as (s1 & -> & H1). destruct (low_spec a l) as (L1 & L2 & L3).
  assert (Hx : ¬ r - low a l == 0) by (destruct L3 as [L3|L3]; rewrite L3; lra).
  rewrite ltb_Qle. unfold high. destruct (Qle_bool r b) eqn:E; cbn [negb].
  - exists s1, w. split; [done|]. split; [done|]. ring.
  - cbn [nadd nsub nmul Exact.xq_num Exact.add Exact.sub Exact.mul]. rewrite Exact.div_fin by done.
    eexists _, _. split; [done|]. split; [done|]. rewrite (image_cut_ratio w (low a l) l r) by done. ring.
Qed.

(** Clipping along y, from the top row down. *)
Lemma clip_y_spec h l r ax a b : ax_min ax = XFin a → ax_max ax = XFin b → l < r → a < r → l < b → a < b →
  ∃ s1 s2, clip_y (XFin h) (XFin l, XFin r) ax = ((XFin s1, XFin s2), (XFin (low a l), XFin (high b r))) ∧
    s1 * (r - l) == h * (r - high b r) ∧ s2 * (r - l) == h * (r - low a l).
Proof.
  intros Ea Eb Hlr Har Hlb Hab. unfold clip_y. rewrite Ea, Eb. change (⟨0⟩%num : xq) with (XFin 0).
  assert (D : ¬ r - l == 0) by lra.
  assert (L : ∃ s2, (if nltb (XFin l) (XFin a)
            then ((XFin h + (XFin 0 - XFin h) * (XFin a - XFin l) / (XFin r - XFin l))%num, XFin a)
            else (XFin h, XFin l)) = (XFin s2, XFin (low a l)) ∧ s2 * (r - l) == h * (r - low a l)).
  { rewrite ltb_Qle. unfold low. destruct (Qle_bool a l) eqn:E; cbn [negb].
    - exists h. split; [done|]. ring.
    - cbn [nadd nsub nmul Exact.xq_num Exact.add Exact.sub Exact.mul]. rewrite Exact.div_fin by done.
      eexists. split; [done|]. by field. }
  destruct L as (s2 & -> & H2). destruct (low_spec a l) as (L1 & L2 & L3).
  assert (Hx : ¬ r - low a l == 0) by (destruct L3 as [L3|L3]; rewrite L3; lra).
  rewrite ltb_Qle. unfold high. destruct (Qle_bool r b) eqn:E; cbn [negb].
  - exists 0, s2. split; [done|]. split; [ring|done].
  - cbn [nadd nsub nmul Exact.xq_num Exact.add Exact.sub Exact.mul]. rewrite Exact.div_fin by done.
    eexists _, _. split; [done|]. split; [|done].
    apply (Qmult_inj_r _ _ (r - low a l)); [done|].
    transitivity ((s2 * (r - l)) * (r - b)); [by field|]. rewrite H2. ring.
Qed.
End clipping.

(** The smaller and the larger of two corners. *)
Definition least (u v : Q) : Q := if Qle_bool u v then u else v.
Definition most (u v : Q) : Q := if Qle_bool u v then v else u.

Lemma ordered_fin `{NumText xq} u v : ordered (XFin u) (XFin v) = (XFin (least u v), XFin (most u v)).
Proof. unfold ordered, least, most. rewrite ltb_Qle. by destruct (Qle_bool u v). Qed.

Lemma least_most u v : least u v <= most u v ∧ (¬ u == v → least u v < most u v).
Proof.
  unfold least, most. destruct (Qle_bool u v) eqn:E; qle_cases; (split; [lra|]); intros Hne; [|lra].
  by apply Qle_lteq in E as [E|E].
Qed.

(** The extent of an image, and how much of it is in the ranges of the axes. *)
Record extent := Extent { e_left : Q; e_right : Q; e_bottom : Q; e_top : Q }.

Definition overlaps (e r : extent) : bool :=
  negb (Qle_bool (e_right r) (e_left e)) && negb (Qle_bool (e_right e) (e_left r)) &&
  negb (Qle_bool (e_top r) (e_bottom e)) && negb (Qle_bool (e_top e) (e_bottom r)).
Definition visible (e r : extent) : extent :=
  Extent (low (e_left r) (e_left e)) (high (e_right r) (e_right e))
         (low (e_bottom r) (e_bottom e)) (high (e_top r) (e_top e)).

Lemma leb_Qle u v : nleb (XFin u) (XFin v) = Qle_bool u v.
Proof.
  apply eq_iff_eq_true. rewrite Qle_bool_iff. apply Exact.leb_fin.
Qed.

Lemma visible_proper a b l r : l < r → a < r → l < b → a < b → low a l < high b r.
Proof.
  intros. destruct (low_spec a l) as (_ & _ & [-> | ->]), (high_spec b r) as (_ & _ & [-> | ->]); lra.
Qed.

(** An image given by any two opposite corners is drawn when its extent
    meets the ranges of the axes; then the part of the extent that is in the
    ranges is drawn where the axes put it, from the pixels that are in the
    image where this part is in the extent; and the opacity of the context
    is restored. *)
Theorem draw_image_visible `{NumText xq} size options alpha al g axisx axisy img w h X1 Y1 X2 Y2 offl offt f r :
  size img = (XFin w, XFin h) → 0 < w → 0 < h → im_anchor options ≠ "center" → im_alpha options = XFin al →
  off_left g = XFin offl → off_top g = XFin offt → ¬ X1 == X2 → ¬ Y1 == Y2 →
  linear_view axisx (mx f) (kx f) → linear_view axisy (my f) (ky f) → 0 < kx f → ky f < 0 →
  ax_min axisx = XFin (e_left r) → ax_max axisx = XFin (e_right r) → e_left r < e_right r →
  ax_min axisy = XFin (e_bottom r) → ax_max axisy = XFin (e_top r) → e_bottom r < e_top r →
  let e := Extent (least X1 X2) (most X1 X2) (least Y1 Y2) (most Y1 Y2) in
  let n q := Number (XFin q) in
  let ops := draw_image size options (XFin alpha) g axisx axisy [Ref img; n X1; n Y1; n X2; n Y2] in
  if overlaps e r then
    ∃ sx sy sw sh dx dy dw dh, ops = Ok [OpGlobalAlpha (XFin (alpha * al));
      OpDrawImage img (XFin sx) (XFin sy) (XFin sw) (XFin sh) (XFin dx) (XFin dy) (XFin dw) (XFin dh);
      OpGlobalAlpha (XFin alpha)] ∧
    let v := visible e r in
    sx * (e_right e - e_left e) == w * (e_left v - e_left e) ∧
    sw * (e_right e - e_left e) == w * (e_right v - e_left v) ∧
    sy * (e_top e - e_bottom e) == h * (e_top e - e_top v) ∧
    sh * (e_top e - e_bottom e) == h * (e_top v - e_bottom v) ∧
    dx == (e_left v - mx f) * kx f + offl ∧ dw == (e_right v - e_left v) * kx f ∧
    dy == (e_top v - my f) * ky f + offt ∧ dh == (e_bottom v - e_top v) * ky f
  else ops = Ok [].
Proof.
  intros Hsize Hw Hh Hanchor Hal El Et HX HY Vx Vy Hkx Hky Ex1 Ex2 Hxr Ey1 Ey2 Hyr e n ops.
  unfold ops, draw_image. 
  change (aget [Ref img; n X1; n Y1; n X2; n Y2] 0) with (Ref (num := xq) img). cbn iota. rewrite Hsize.
  change (⟨0⟩%num : xq) with (XFin 0).
  assert (nleb (XFin w) (XFin 0) = false) as -> by (apply Exact.leb_fin_false; lra).
  assert (nleb (XFin h) (XFin 0) = false) as -> by (apply Exact.leb_fin_false; lra).
  cbn [truthy negb orb]. rewrite (proj2 (String.eqb_neq _ _) Hanchor). unfold widen_pixel.
  change (to_num (aget _ 1)) with (XFin X1). change (to_num (aget _ 2)) with (XFin Y1).
  change (to_num (aget _ 3)) with (XFin X2). change (to_num (aget _ 4)) with (XFin Y2).
  rewrite !ordered_fin. pose proof (proj2 (least_most X1 X2) HX) as Lx. pose proof (proj2 (least_most Y1 Y2) HY) as Ly.
  assert (Ee : e = Extent (least X1 X2) (most X1 X2) (least Y1 Y2) (most Y1 Y2)) by done. clearbody e.
  set (xl := least X1 X2) in *. set (xr := most X1 X2) in *. set (yb := least Y1 Y2) in *. set (yt := most Y1 Y2) in *.
  clearbody xl xr yb yt. clear ops n Hsize HX HY.
  assert (neqb (XFin xl) (XFin xr) = false) as -> by (apply Exact.eqb_fin_false; lra).
  assert (neqb (XFin yb) (XFin yt) = false) as -> by (apply Exact.eqb_fin_false; lra).
  rewrite Ex1, Ex2, Ey1, Ey2, !leb_Qle. subst e. unfold overlaps. cbn [e_left e_right e_bottom e_top orb].
  destruct (Qle_bool (e_right r) xl) eqn:C1; [done|]. destruct (Qle_bool xr (e_left r)) eqn:C2; [done|].
  destruct (Qle_bool (e_top r) yb) eqn:C3; [done|]. destruct (Qle_bool yt (e_bottom r)) eqn:C4; [done|].
  cbn [orb negb andb]. qle_cases.
  destruct (clip_x_spec w xl xr axisx (e_left r) (e_right r) Ex1 Ex2) as (s1 & s2 & -> & H1 & H2); [lra..|].
  destruct (clip_y_spec h yb yt axisy (e_bottom r) (e_top r) Ey1 Ey2) as (t1 & t2 & -> & H3 & H4); [lra..|].
  pose proof (visible_proper (e_left r) (e_right r) xl xr ltac:(lra) ltac:(lra) ltac:(lra) ltac:(lra)) as Px.
  pose proof (visible_proper (e_bottom r) (e_top r) yb yt ltac:(lra) ltac:(lra) ltac:(lra) ltac:(lra)) as Py.
  unfold visible. cbn [e_left e_right e_bottom e_top].
  set (x1 := low (e_left r) xl) in *. set (x2 := high (e_right r) xr) in *.
  set (y1 := low (e_bottom r) yb) in *. set (y2 := high (e_top r) yt) in *. clearbody x1 x2 y1 y2.
  rewrite (p2c_linear axisx (mx f) (kx f) x1), (p2c_linear axisx (mx f) (kx f) x2),
    (p2c_linear axisy (my f) (ky f) y1), (p2c_linear axisy (my f) (ky f) y2), !ordered_fin by done.
  unfold least, most.
  assert (Qle_bool ((x1 - mx f) * kx f) ((x2 - mx f) * kx f) = true) as -> by (apply Qle_bool_iff; nra).
  assert (Qle_bool ((y1 - my f) * ky f) ((y2 - my f) * ky f) = false) as ->.
  { apply not_true_is_false. intros E%Qle_bool_iff. nra. }
  rewrite El, Et, Hal. cbn [nadd nsub nmul Exact.xq_num Exact.add Exact.sub Exact.mul].
  do 8 eexists. split; [reflexivity|]. repeat split; lra.
Qed.

Lemma draw_image_visible_witness :
  let _ := Exact.exact_text in
  let r := Extent 0 10 0 20 in
  let e := Extent (least 8 (-(4))) (most 8 (-(4))) (least 5 15) (most 5 15) in
  let ops := draw_image (λ _, (XFin 24, XFin 10)) (ImagesOptions true (XFin (1 # 2)) "corner") (XFin 1) sample_geometry
    (sample_view DirX 0 10 0 40) (sample_view DirY 0 20 20 (-(10)))
    [Ref 7; Number (XFin 8); Number (XFin 5); Number (XFin (-(4))); Number (XFin 15)] in
  if overlaps e r then
    ∃ sx sy sw sh dx dy dw dh, ops = Ok [OpGlobalAlpha (XFin (1 * (1 # 2)));
      OpDrawImage 7 (XFin sx) (XFin sy) (XFin sw) (XFin sh) (XFin dx) (XFin dy) (XFin dw) (XFin dh);
      OpGlobalAlpha (XFin 1)] ∧
    let v := visible e r in
    sx * (e_right e - e_left e) == 24 * (e_left v - e_left e) ∧
    sw * (e_right e - e_left e) == 24 * (e_right v - e_left v) ∧
    sy * (e_top e - e_bottom e) == 10 * (e_top e - e_top v) ∧
    sh * (e_top e - e_bottom e) == 10 * (e_top v - e_bottom v) ∧
    dx == (e_left v - 0) * 40 + 40 ∧ dw == (e_right v - e_left v) * 40 ∧
    dy == (e_top v - 20) * -(10) + 10 ∧ dh == (e_bottom v - e_top v) * -(10)
  else ops = Ok [].
Proof.
  intros text r e ops.
  apply (@draw_image_visible text (λ _, (XFin 24, XFin 10)) (ImagesOptions true (XFin (1 # 2)) "corner") 1 (1 # 2)
    sample_geometry (sample_view DirX 0 10 0 40) (sample_view DirY 0 20 20 (-(10))) 7 24 10 8 5 (-(4)) 15 40 10
    sample_map r); try done; by split.
Defined.
