(* ===== verification/FlotPie.v ===== *)
(** The pie plugin, [static/flot/jquery.flot.pie.js]: the slices made of the
    data, the drawing with its attempts to fit the labels, and the slice under
    the mouse. *)

From S2P Require Import Prelude Numbers JsText JsValue Color FlotModel FlotAxis Canvas FlotLines FlotLayout.

(** ** Options *)

Record pie_options (num : Type) := PieOptions {
  pie_show : bool; pie_radius : option num;             (* [None]: 'auto' *)
  pie_innerRadius : num; pie_startAngle : num; pie_tilt : num;
  pie_offset_top : num; pie_offset_left : option num;   (* [None]: 'auto' *)
  pie_stroke_color : string; pie_stroke_width : num;
  pie_label_show : option bool;                         (* [None]: 'auto' *)
  pie_label_radius : num; pie_label_background : option string; pie_label_opacity : num;
  pie_label_threshold : num;
  pie_combine_threshold : num; pie_combine_color : option string; pie_combine_label : string;
  pie_highlight_opacity : num;
}.
Arguments PieOptions {num}. Arguments pie_show {num} _. Arguments pie_radius {num} _.
Arguments pie_innerRadius {num} _. Arguments pie_startAngle {num} _. Arguments pie_tilt {num} _.
Arguments pie_offset_top {num} _. Arguments pie_offset_left {num} _. Arguments pie_stroke_color {num} _.
Arguments pie_stroke_width {num} _. Arguments pie_label_show {num} _. Arguments pie_label_radius {num} _.
Arguments pie_label_background {num} _. Arguments pie_label_opacity {num} _. Arguments pie_label_threshold {num} _.
Arguments pie_combine_threshold {num} _. Arguments pie_combine_color {num} _. Arguments pie_combine_label {num} _.
Arguments pie_highlight_opacity {num} _.

(** The data of a series: a number; nothing, perhaps with a label; or points,
    the second value of the first one being what counts. *)
Inductive pie_data (num : Type) :=
  | PieNumber (x : num)
  | PieNothing (label : option string)
  | PiePoints (value : jsv num).
Arguments PieNumber {num} _. Arguments PieNothing {num} _. Arguments PiePoints {num} _.

Record pie_series (num : Type) := PieSeries {
  ps_data : pie_data num; ps_color : string; ps_label : option string;
}.
Arguments PieSeries {num} _ _ _. Arguments ps_data {num} _. Arguments ps_color {num} _. Arguments ps_label {num} _.

Record slice (num : Type) := Slice {
  sl_value : num; sl_color : string; sl_label : option string; sl_angle : num; sl_percent : num;
}.
Arguments Slice {num} _ _ _ _ _. Arguments sl_value {num} _. Arguments sl_color {num} _.
Arguments sl_label {num} _. Arguments sl_angle {num} _. Arguments sl_percent {num} _.

(** A label in the page, with the color behind it. *)
Record pie_label (num : Type) := PieLabel {
  pl_index : nat; pl_text : string; pl_top : num; pl_left : num; pl_background : option string;
}.
Arguments PieLabel {num} _ _ _ _ _. Arguments pl_index {num} _. Arguments pl_text {num} _.
Arguments pl_top {num} _. Arguments pl_left {num} _. Arguments pl_background {num} _.

(** The variables of the plugin, the labels in the page and the number of
    error messages put there. *)
Record pie_state (num : Type) := PieState {
  maxRadius : num; centerLeft : num; centerTop : num; redraw_flag : bool;
  labels : list (pie_label num); errors : nat; starts : list num;
}.
Arguments PieState {num} _ _ _ _ _ _ _. Arguments maxRadius {num} _. Arguments centerLeft {num} _.
Arguments centerTop {num} _. Arguments redraw_flag {num} _. Arguments labels {num} _.
Arguments errors {num} _. Arguments starts {num} _.

Section pie.
Context {num : Type} `{Num num} `{NumText num} `{MathLib num}.
Implicit Types (st : pie_state num) (s : slice num) (o : pie_options num).
Local Open Scope num_scope.

Definition default_pie : pie_options num :=
  PieOptions false None ⟨0⟩ (of_ratio 3 2) ⟨1⟩ ⟨0⟩ None "#FFF" ⟨1⟩ None ⟨1⟩ None ⟨0⟩ ⟨0⟩ ⟨-1⟩ None "Other"
    (of_ratio 1 2).

(** The text of a label, by default. *)
Definition default_formatter (label : string) s : string :=
  "<div " +:+ attr "style" ("font-size:x-small;text-align:center;padding:2px;color:" +:+ sl_color s +:+ ";") +:+
  ">" +:+ label +:+ "<br/>" +:+ to_string (nround (sl_percent s)) +:+ "%</div>".

(** [checkPieEnabled]: the options that depend on others, and [grid.show]. *)
Definition checkPieEnabled (legend_show grid_show : bool) o : pie_options num * bool :=
  if pie_show o then
    let label_show := match pie_label_show o with Some b => b | None => negb legend_show end in
    let radius := match pie_radius o with
                  | Some r => r
                  | None => if label_show then of_ratio 3 4 else ⟨1⟩
                  end in
    let tilt := if pie_tilt o >? ⟨1⟩ then ⟨1⟩ else pie_tilt o in
    let tilt := if tilt <? ⟨0⟩ then ⟨0⟩ else tilt in
    (PieOptions true (Some radius) (pie_innerRadius o) (pie_startAngle o) tilt (pie_offset_top o)
       (pie_offset_left o) (pie_stroke_color o) (pie_stroke_width o) (Some label_show) (pie_label_radius o)
       (pie_label_background o) (pie_label_opacity o) (pie_label_threshold o) (pie_combine_threshold o)
       (pie_combine_color o) (pie_combine_label o) (pie_highlight_opacity o), false)
  else (o, grid_show).

(** ** The slices *)

(** [fixData], as the value and the label that a series ends up with. *)
Definition fixData (s : pie_series num) : jsv num * string * option string :=
  match ps_data s with
  | PieNumber x => (Number x, ps_color s, ps_label s)
  | PieNothing label => (Number ⟨0⟩, ps_color s, match label with Some _ => label | None => ps_label s end)
  | PiePoints v => (v, ps_color s, ps_label s)
  end.

(** [parseFloat] of any value. *)
Definition parseFloat (v : jsv num) : num :=
  match v with Number x => x | Str s => parse_float s | _ => nnan end.

(** [item || 0] *)
Definition or_zero (x : num) : num := if ntruthy x then x else ⟨0⟩.

Definition calcTotal (total : num) (data : list (jsv num * string * option string)) : num :=
  foldl (λ total d, let item := parseFloat d.1.1 in if ntruthy item then total + item else total) total data.

Definition make_slice (total value : num) (color : string) (label : option string) : slice num :=
  Slice value color label (value * (math_pi * ⟨2⟩) / total) (value / total * ⟨100⟩).

(** The slices so far, the sum and number of those to combine, and their color. *)
Definition combine_state : Type := list (slice num) * (num * nat * option string).

Definition set_color (c : option string) : bool := match c with None | Some "" => false | _ => true end.

Definition combine_step o (total : num) (st : combine_state) (d : jsv num * string * option string) : combine_state :=
  let '(newdata, (combined, numCombined, color)) := st in
  let '(v, c, label) := d in
  let value := or_zero (parseFloat v) in
  if value / total <=? pie_combine_threshold o
  then (newdata, (combined + value, S numCombined, if set_color color then color else Some c))
  else (newdata ++ [make_slice total value c label], (combined, numCombined, color)).

Definition combine o (data : list (pie_series num)) : list (slice num) :=
  let data := map fixData data in
  let total := calcTotal ⟨0⟩ data in
  let '(newdata, (combined, numCombined, color)) :=
    foldl (combine_step o total) ([], (⟨0⟩, 0%nat, pie_combine_color o)) data in
  if (0 <? numCombined)%nat
  then newdata ++ [make_slice total combined (default "" color) (Some (pie_combine_label o))]
  else newdata.

(** The hook runs once: [processed] stays set. *)
Definition processDatapoints o (processed : bool) (data : list (pie_series num)) : bool * option (list (slice num)) :=
  if processed then (true, None) else (true, Some (combine o data)).
End pie.

(** ** Drawing *)

Section drawing.
Context {num : Type} `{Num num} `{NumText num} `{MathLib num}.
Implicit Types (st : pie_state num) (s : slice num).
Local Open Scope num_scope.

(** The options after [checkPieEnabled], the size of the canvas, whether the
    browser is Internet Explorer, the formatters, the size of a label in the
    page, the width of the legend and its position. *)
Variable o : pie_options num.
Variables canvas_width canvas_height : num.
Variable msie : bool.
Variable labelFormatter : option (option string → slice num → string).
Variable formatter : option (string → slice num → string).
Variable label_size : string → num * num.
Variables (legendWidth : num) (legend_position : string).

Definition two_pi : num := math_pi * ⟨2⟩.

(** A circle or an arc around the origin; the context refuses a negative radius. *)
Definition arc (radius from to : num) : result (list (canvas_op num)) :=
  if radius <? ⟨0⟩ then Throw "IndexSizeError" else Ok [OpArc ⟨0⟩ ⟨0⟩ radius from to false].

(** A radius option: pixels above 1, else a fraction of the greatest radius. *)
Definition radius_of (r : num) st : num := if r >? ⟨1⟩ then r else maxRadius st * r.
Definition pieRadius st : num := radius_of (default nnan (pie_radius o)) st.

Definition with_center st (m l t : num) : pie_state num :=
  PieState m l t (redraw_flag st) (labels st) (errors st) (starts st).
Definition with_redraw st (b : bool) : pie_state num :=
  PieState (maxRadius st) (centerLeft st) (centerTop st) b (labels st) (errors st) (starts st).
Definition with_labels st (ls : list (pie_label num)) : pie_state num :=
  PieState (maxRadius st) (centerLeft st) (centerTop st) (redraw_flag st) ls (errors st) (starts st).
Definition with_starts st (l : list num) : pie_state num :=
  PieState (maxRadius st) (centerLeft st) (centerTop st) (redraw_flag st) (labels st) (errors st) l.
Definition with_error st : pie_state num :=
  PieState (maxRadius st) (centerLeft st) (centerTop st) (redraw_flag st) (labels st) (S (errors st)) (starts st).

Definition pie0 : pie_state num := PieState nnan nnan nnan true [] 0 [].

Definition setupPie st : pie_state num :=
  let m := nmin canvas_width (canvas_height / pie_tilt o) / ⟨2⟩ in
  let top := canvas_height / ⟨2⟩ + pie_offset_top o in
  let left := canvas_width / ⟨2⟩ in
  let left := match pie_offset_left o with
              | None => if bool_decide (is_Some (String.index 0 "w" legend_position))
                        then left + legendWidth / ⟨2⟩ else left - legendWidth / ⟨2⟩
              | Some x => left + x
              end in
  let left := if left <? m then m else if left >? canvas_width - m then canvas_width - m else left in
  with_center st m left top.

(** [clear]: the operations, and the labels that remain. *)
Definition clear_ops : list (canvas_op num) := [OpClearRect ⟨0⟩ ⟨0⟩ canvas_width canvas_height].

(** The discs of the shadow, [i] from [edge - n + 1] to [edge]. *)
Definition edge : nat := 10.
Fixpoint shadow_discs (n : nat) (radius : num) : result (list (canvas_op num)) :=
  match n with
  | 0%nat => Ok []
  | S n' =>
      disc ← arc radius ⟨0⟩ two_pi;
      rest ← shadow_discs n' (radius - of_Z (Z.of_nat (edge - n')));
      Ok ([OpBeginPath] ++ disc ++ [OpFill] ++ rest)
  end.

Definition shadowLeft : num := ⟨5⟩.
Definition shadowTop : num := ⟨15⟩.

(** Whether the shadow would lie outside of the canvas. *)
Definition shadow_outside (radius : num) : bool :=
  (radius >=? canvas_width / ⟨2⟩ - shadowLeft)
  || (radius * pie_tilt o >=? canvas_height / ⟨2⟩ - shadowTop) || (radius <=? of_Z (Z.of_nat edge)).

Definition drawShadow st : result (list (canvas_op num)) :=
  let radius := pieRadius st in
  if shadow_outside radius then Ok []
  else
    discs ← shadow_discs edge radius;
    Ok ([OpSave; OpTranslate shadowLeft shadowTop; OpGlobalAlpha (of_ratio 2 100); OpFillStyle (PaintText "#000");
         OpTranslate (centerLeft st) (centerTop st); OpScale ⟨1⟩ (pie_tilt o)] ++ discs ++ [OpRestore]).

(** One slice from [currentAngle]: the operations, and the angle after it. *)
Definition drawSlice (radius currentAngle angle : num) (color : string) (fill : bool)
    : result (list (canvas_op num) * num) :=
  if angle <=? ⟨0⟩ then Ok ([], currentAngle)
  else
    let partial := nabs (angle - two_pi) >? of_ratio 1 1000000000 in
    let angle := if negb partial && msie then angle - of_ratio 1 10000 else angle in
    path ← arc radius currentAngle (currentAngle + angle);
    Ok ((if fill then [OpFillStyle (PaintText color)] else [OpStrokeStyle (PaintText color); OpLineJoin "round"]) ++
        [OpBeginPath] ++ (if partial then [OpMoveTo ⟨0⟩ ⟨0⟩] else []) ++ path ++
        [OpClosePath; if fill then OpFill else OpStroke], currentAngle + angle).

(** All the slices: the operations and the start of each. *)
Fixpoint drawSlices (radius currentAngle : num) (color : slice num → string) (fill : bool) (ss : list (slice num))
    : result (list (canvas_op num) * list num) :=
  match ss with
  | [] => Ok ([], [])
  | s :: ss =>
      '(ops, next) ← drawSlice radius currentAngle (sl_angle s) (color s) fill;
      '(rest, starts) ← drawSlices radius next color fill ss;
      Ok (ops ++ rest, currentAngle :: starts)
  end.

Definition drawDonutHole st : result (list (canvas_op num)) :=
  if pie_innerRadius o >? ⟨0⟩ then
    let paint := PaintText (pie_stroke_color o) in
    hole ← arc (radius_of (pie_innerRadius o) st) ⟨0⟩ two_pi;
    Ok ([OpSave; OpComposite "destination-out"; OpBeginPath; OpFillStyle paint] ++ hole ++
        [OpFill; OpClosePath; OpRestore; OpSave; OpBeginPath; OpStrokeStyle paint] ++ hole ++
        [OpStroke; OpClosePath; OpRestore])
  else Ok [].

Definition label_text s : string :=
  let text := match labelFormatter with Some lf => lf (sl_label s) s | None => default "undefined" (sl_label s) end in
  match formatter with Some plf => plf text s | None => text end.

(** A label at the middle of its slice; it asks for another attempt when it
    is not inside the canvas. *)
Definition drawLabel (radius startAngle : num) (index : nat) s st : pie_state num :=
  if sl_value s =? ⟨0⟩ then st
  else
    let text := label_text s in
    let halfAngle := (startAngle + sl_angle s + startAngle) / ⟨2⟩ in
    let x := centerLeft st + nround (math_cos halfAngle * radius) in
    let y := centerTop st + nround (math_sin halfAngle * radius) * pie_tilt o in
    let '(w, h) := label_size text in
    let top := y - h / ⟨2⟩ in
    let left := x - w / ⟨2⟩ in
    let outside := (⟨0⟩ - top >? ⟨0⟩) || (⟨0⟩ - left >? ⟨0⟩) || (canvas_height - (top + h) <? ⟨0⟩)
                   || (canvas_width - (left + w) <? ⟨0⟩) in
    let background :=
      if pie_label_opacity o ≠? ⟨0⟩
      then Some match pie_label_background o with Some c => c | None => sl_color s end else None in
    with_redraw (with_labels st (labels st ++ [PieLabel index text top left background]))
      (redraw_flag st || outside).

Fixpoint drawLabels (radius currentAngle : num) (index : nat) (ss : list (slice num)) st : pie_state num :=
  match ss with
  | [] => st
  | s :: ss =>
      let st := if sl_percent s >=? pie_label_threshold o * ⟨100⟩ then drawLabel radius currentAngle index s st else st in
      drawLabels radius (currentAngle + sl_angle s) (S index) ss st
  end.

Definition drawPie (slices : list (slice num)) st : result (pie_state num * list (canvas_op num)) :=
  let startAngle := math_pi * pie_startAngle o in
  let radius := pieRadius st in
  '(fills, starts) ← drawSlices radius startAngle (@sl_color num) true slices;
  '(outlines, _) ← drawSlices radius startAngle (λ _, pie_stroke_color o) false slices;
  hole ← drawDonutHole st;
  let st := with_starts st starts in
  let st := if default false (pie_label_show o)
            then drawLabels (radius_of (pie_label_radius o) st) startAngle 0 slices st else st in
  Ok (st, [OpSave; OpTranslate (centerLeft st) (centerTop st); OpScale ⟨1⟩ (pie_tilt o)] ++
          [OpSave] ++ fills ++ [OpRestore] ++
          [OpSave; OpLineWidth (pie_stroke_width o)] ++ outlines ++ [OpRestore] ++ hole ++ [OpRestore]).

Definition redrawAttempts : nat := 10.
Definition shrink : num := of_ratio 95 100.

(** The attempts: [attempts] have been made, [more] may follow. *)
Fixpoint pie_loop (more attempts : nat) (slices : list (slice num)) st
    : result (pie_state num * list (canvas_op num) * nat) :=
  match more, redraw_flag st with
  | S more, true =>
      let st := with_redraw st false in
      let st := if (0 <? attempts)%nat then with_center st (maxRadius st * shrink) (centerLeft st) (centerTop st) else st in
      let st := with_labels st [] in
      shadow ← (if pie_tilt o <=? of_ratio 8 10 then drawShadow st else Ok []);
      '(st, ops) ← drawPie slices st;
      '(st, rest, n) ← pie_loop more (S attempts) slices st;
      Ok (st, clear_ops ++ shadow ++ ops ++ rest, n)
  | _, _ => Ok (st, [], attempts)
  end.

(** The [draw] hook; it does nothing until some series was processed. *)
Definition pie_draw (processed : bool) (slices : list (slice num)) st : result (pie_state num * list (canvas_op num)) :=
  if negb processed then Ok (st, [])
  else
    '(st, ops, attempts) ← pie_loop redrawAttempts 0 slices (setupPie st);
    Ok (if (redrawAttempts <=? attempts)%nat
        then (with_error (with_labels st []), ops ++ clear_ops) else (st, ops)).

(** The highlights of the overlay; they are slices by index. *)
Definition drawHighlight (radius start : num) s : result (list (canvas_op num)) :=
  if sl_angle s <? ⟨0⟩ then Ok []
  else
    path ← arc radius start (start + sl_angle s);
    Ok ([OpFillStyle (PaintText ("rgba(255, 255, 255, " +:+ to_string (pie_highlight_opacity o) +:+ ")"));
         OpBeginPath] ++
        (if nabs (sl_angle s - two_pi) >? of_ratio 1 1000000000 then [OpMoveTo ⟨0⟩ ⟨0⟩] else []) ++ path ++
        [OpClosePath; OpFill]).

Fixpoint draw_highlights (radius : num) (hs : list (num * slice num)) : result (list (canvas_op num)) :=
  match hs with
  | [] => Ok []
  | (start, s) :: hs =>
      ops ← drawHighlight radius start s; rest ← draw_highlights radius hs; Ok (ops ++ rest)
  end.

Definition drawOverlay (hs : list (num * slice num)) st : result (list (canvas_op num)) :=
  ops ← draw_highlights (pieRadius st) hs;
  hole ← drawDonutHole st;
  Ok ([OpSave; OpTranslate (centerLeft st) (centerTop st); OpScale ⟨1⟩ (pie_tilt o)] ++ ops ++ hole ++ [OpRestore]).
End drawing.

(** ** The slice under the mouse, and its highlight *)

(** A highlight: the index of the slice and the event that set it. *)
Record pie_highlight := PieHighlight { ph_slice : nat; ph_auto : option string }.

Section interaction.
Context {num : Type} `{Num num} `{NumText num} `{MathLib num}.
Implicit Types (s : slice num) (hs : list pie_highlight).
Local Open Scope num_scope.

(** Whether a ray from the point crosses an odd number of sides: the sides go
    from each vertex to the one before, the first to the last. *)
Definition crosses (pt a b : num * num) : bool :=
  ((a.2 <=? pt.2) && (pt.2 <? b.2) || (b.2 <=? pt.2) && (pt.2 <? a.2))
  && (pt.1 <? (b.1 - a.1) * (pt.2 - a.2) / (b.2 - a.2) + a.1).

Fixpoint count_crossings (pt previous : num * num) (poly : list (num * num)) (c : bool) : bool :=
  match poly with
  | [] => c
  | a :: poly => count_crossings pt a poly (if crosses pt a previous then negb c else c)
  end.

Definition isPointInPoly (poly : list (num * num)) (pt : num * num) : bool :=
  match last poly with Some l => count_crossings pt l poly false | None => false end.

(** The polygon that stands for a slice. *)
Definition slice_poly (radius start angle : num) : list (num * num) :=
  let at_ a := (radius * math_cos a, radius * math_sin a) in
  [(⟨0⟩, ⟨0⟩); at_ start; at_ (start + angle / ⟨4⟩); at_ (start + angle / ⟨2⟩);
   at_ (start + angle / of_ratio 3 2); at_ (start + angle)].

(** [ctx.isPointInPath] for the sector of a slice, where the browser has it. *)
Variable isPointInPath : option (num → num → num → num → num → bool).

(** The first slice that contains the position; each slice comes with its
    start and whether its series shows a pie. *)
Fixpoint findNearbySlice (radius x y : num) (i : nat) (ss : list (num * bool * slice num)) : option nat :=
  match ss with
  | [] => None
  | (start, show, s) :: ss =>
      let inside :=
        show && match isPointInPath with
                | Some f => f radius start (start + sl_angle s) x y
                | None => isPointInPoly (slice_poly radius start (sl_angle s)) (x, y)
                end in
      if inside then Some i else findNearbySlice radius x y (S i) ss
  end.

Definition indexOfHighlight (i : nat) hs : option nat := fst <$> list_find (λ h, ph_slice h = i) hs.

(** [highlight] and [unhighlight] of a slice of the plot; whether the overlay is redrawn. *)
Definition highlight (i : nat) (auto : option string) hs : list pie_highlight * bool :=
  match indexOfHighlight i hs with
  | None => (hs ++ [PieHighlight i auto], true)
  | Some k => (match auto with None => alter (λ h, PieHighlight (ph_slice h) None) k hs | Some _ => hs end, false)
  end.

Definition unhighlight (i : nat) hs : list pie_highlight * bool :=
  match indexOfHighlight i hs with Some k => (delete k hs, true) | None => (hs, false) end.

Fixpoint clear_auto (fuel : nat) (eventname : string) (item : option nat) (k : nat) hs : list pie_highlight * bool :=
  match fuel, hs !! k with
  | S fuel, Some h =>
      let '(hs, drawn) :=
        if bool_decide (ph_auto h = Some eventname) && negb (bool_decide (item = Some (ph_slice h)))
        then unhighlight (ph_slice h) hs else (hs, false) in
      let '(hs, drawn') := clear_auto fuel eventname item (S k) hs in (hs, drawn || drawn')
  | _, _ => (hs, false)
  end.

(** [bindEvents]: the events of the page that the plugin takes over, and what each sends. *)
Definition bindEvents (show hoverable clickable : bool) : list (string * string) :=
  (if show && hoverable then [("mousemove", "plothover")] else []) ++
  (if show && clickable then [("click", "plotclick")] else []).

(** The event is sent with the slice found. *)
Definition triggerClickHoverEvent (autoHighlight : bool) (eventname : string) (centerLeft centerTop radius : num)
    (left top pageX pageY : num) (ss : list (num * bool * slice num)) hs
    : list pie_highlight * bool * option nat :=
  let canvasX := parse_int_num (pageX - left) in
  let canvasY := parse_int_num (pageY - top) in
  let item := findNearbySlice radius (canvasX - centerLeft) (canvasY - centerTop) 0 ss in
  let '(hs, drawn) := if autoHighlight then clear_auto (length hs) eventname item 0 hs else (hs, false) in
  let '(hs, drawn') := match item with Some i => highlight i (Some eventname) hs | None => (hs, false) end in
  (hs, drawn || drawn', item).
End interaction.
