(* ===== verification/FlotPieSpec.v ===== *)
(** What the pie plugin does: the slices share the whole, they are drawn around
    the circle without a gap, the attempts end, and two ways in which nothing
    is drawn. *)

From Stdlib Require Import QArith Lqa.
From S2P Require Import Prelude Numbers ExactNum JsText JsValue FlotModel FlotLineSpec FlotMarkSpec Canvas FlotLines FlotImageSpec FlotPie.

#[local] Open Scope Q_scope.

(** ** The slices *)

Definition sumQ (l : list Q) : Q := foldr Qplus 0 l.

Lemma sumQ_app l l' : sumQ (l ++ l') == sumQ l + sumQ l'.
Proof. induction l as [|x l IH]; simpl; [lra|]. rewrite IH. lra. Qed.

Definition pi2 : Q := (3141592653589793 # 1000000000000000) * 2.

(** A slice of value [v] in a whole of [T]: its angle and its percentage. *)
Definition share (T : Q) (s : slice xq) (v : Q * Q * Q) : Prop :=
  let '(v, angle, percent) := v in
  0 <= v ∧ sl_value s = XFin v ∧ sl_angle s = XFin angle ∧ sl_percent s = XFin percent ∧
  angle * T == v * pi2 ∧ percent * T == v * 100.

Section combining.
Context `{NumText xq} `{MathLib xq}.
Implicit Types (o : pie_options xq) (qs : list Q).

Definition worth (d : jsv xq * string * option string) (q : Q) : Prop := parseFloat d.1.1 = XFin q ∧ 0 <= q.

Lemma truthy_fin q : ntruthy (XFin q) = negb (Qeq_bool q 0).
Proof.
  unfold ntruthy. rewrite Exact.nis_nan_fin. cbn [orb]. f_equal. apply eq_iff_eq_true.
  change (of_Z 0 : xq) with (XFin 0). rewrite Qeq_bool_iff. apply Exact.eqb_fin.
Qed.

Lemma total_spec data qs t : Forall2 worth data qs → ∃ T, calcTotal (XFin t) data = XFin T ∧ T == t + sumQ qs.
Proof.
  intros HD. revert t. unfold calcTotal. induction HD as [|d q data qs [Hd Hq] HD IH]; intros t.
  { exists t. split; [done|]. simpl. lra. }
  cbn [foldl]. rewrite Hd, truthy_fin. destruct (Qeq_bool q 0) eqn:E; cbn [negb].
  - apply Qeq_bool_iff in E. destruct (IH t) as (T & -> & ET). exists T. split; [done|]. simpl. lra.
  - destruct (IH (t + q)) as (T & ET1 & ET). exists T. split; [exact ET1|]. simpl. lra.
Qed.

Lemma or_zero_fin q : ∃ q', or_zero (XFin q) = XFin q' ∧ q' == q.
Proof.
  unfold or_zero. rewrite truthy_fin. destruct (Qeq_bool q 0) eqn:E; cbn [negb].
  - exists 0. apply Qeq_bool_iff in E. split; [done|]. by symmetry.
  - by exists q.
Qed.

Lemma make_slice_share T v c l : ¬ T == 0 → 0 <= v → ∃ t, share T (make_slice (XFin T) (XFin v) c l) t ∧ t.1.1 = v.
Proof.
  intros HT Hv. unfold make_slice, share.
  assert (E1 : (XFin v * (math_pi * ⟨2⟩) / XFin T)%num = XFin (v * pi2 / T)).
  { change (XFin v * (math_pi * ⟨2⟩))%num with (XFin (v * pi2)). by apply Exact.div_fin. }
  assert (E2 : (XFin v / XFin T * ⟨100⟩)%num = XFin (v / T * 100)) by (by rewrite Exact.div_fin).
  cbn [sl_value sl_angle sl_percent]. exists (v, v * pi2 / T, v / T * 100).
  rewrite E1, E2. split; [|done]. split; [done|]. repeat (split; [reflexivity|]). split; by field.
Qed.

(** The state of the loop: the slices made, and the value put aside. *)
Definition combining T (st : combine_state (num := xq)) qs : Prop :=
  let '(newdata, (combined, n, _)) := st in
  ∃ vs C, Forall2 (share T) newdata vs ∧ combined = XFin C ∧ 0 <= C ∧
    sumQ (map (λ v, v.1.1) vs) + C == sumQ qs ∧ (n = 0%nat → C == 0).

Lemma combine_step_spec o T st qs d q : ¬ T == 0 → combining T st qs → worth d q →
  combining T (combine_step o (XFin T) st d) (qs ++ [q]).
Proof.
  intros HT. destruct st as [newdata [[combined n] color]]. intros (vs & C & Hvs & -> & HC & Hsum & Hn) [Hd Hq].
  destruct d as [[v c] label]. cbn [fst] in Hd. unfold combine_step. rewrite Hd.
  destruct (or_zero_fin q) as (q' & -> & Eq). 
  assert (S : sumQ (qs ++ [q]) == sumQ qs + q) by (rewrite sumQ_app; simpl; lra).
  destruct (nleb _ _).
  - exists vs, (C + q'). split; [done|]. split; [done|]. split; [lra|]. split; [lra|done].
  - destruct (make_slice_share T q' c label HT ltac:(lra)) as ([[v' a] pc] & Hs & Ev). simpl in Ev. subst v'.
    exists (vs ++ [(q', a, pc)]), C. split; [by apply Forall2_app; [|constructor]|]. split; [done|].
    split; [done|]. split; [|done]. rewrite map_app, sumQ_app. simpl. lra.
Qed.

Lemma combine_fold o T st qs data qs' : ¬ T == 0 → combining T st qs → Forall2 worth data qs' →
  combining T (foldl (combine_step o (XFin T)) st data) (qs ++ qs').
Proof.
  intros HT Hst HD. revert st qs Hst. induction HD as [|d q data qs' Hd HD IH]; intros st qs Hst.
  { by rewrite app_nil_r. }
  cbn [foldl]. replace (qs ++ q :: qs') with ((qs ++ [q]) ++ qs') by by rewrite <- app_assoc.
  apply IH. by apply combine_step_spec.
Qed.
End combining.

Lemma combine_shares `{NumText xq} `{MathLib xq} (o : pie_options xq) data qs :
  Forall2 worth (map fixData data) qs → 0 < sumQ qs →
  ∃ T vs, T == sumQ qs ∧ Forall2 (share T) (combine o data) vs ∧
    sumQ (map (λ v, v.1.1) vs) == T ∧ sumQ (map (λ v, v.1.2) vs) == pi2 ∧ sumQ (map snd vs) == 100.
Proof.
  intros HD Hpos. unfold combine. destruct (total_spec _ _ 0 HD) as (T & ET & HT).
  change (⟨0⟩%num : xq) with (XFin 0). rewrite ET. assert (HT0 : ¬ T == 0) by lra.
  assert (C0 : combining T ([], (XFin 0, 0%nat, pie_combine_color o)) []).
  { exists [], 0. split; [constructor|]. split; [done|]. simpl. split; [lra|]. split; [lra|]. intros _. lra. }
  pose proof (combine_fold o T _ _ _ _ HT0 C0 HD) as F. rewrite app_nil_l in F.
  destruct (foldl _ _ _) as [newdata [[combined n] color]]. destruct F as (vs & C & Hvs & -> & HC & Hsum & Hn).
  assert (G : ∀ slices vs, Forall2 (share T) slices vs → sumQ (map (λ v, v.1.1) vs) == T →
    sumQ (map (λ v, v.1.2) vs) == pi2 ∧ sumQ (map snd vs) == 100).
  { intros slices ws Hw Hs. assert (L : sumQ (map (λ v, v.1.2) ws) * T == sumQ (map (λ v, v.1.1) ws) * pi2 ∧
      sumQ (map snd ws) * T == sumQ (map (λ v, v.1.1) ws) * 100).
    { clear Hs. induction Hw as [|s [[v a] pc] ss ws (_ & _ & _ & _ & Ha & Hp) Hw [IH1 IH2]]; simpl; [split; ring|].
      rewrite !Qmult_plus_distr_l, Ha, Hp, IH1, IH2. by split. }
    destruct L as [L1 L2]. rewrite Hs in L1, L2.
    split; (apply (Qmult_inj_r _ _ T); [done|]); [rewrite L1|rewrite L2]; ring. }
  exists T. destruct (0 <? n)%nat eqn:En.
  - destruct (make_slice_share T C (default "" color) (Some (pie_combine_label o)) HT0 HC) as ([[v a] pc] & Hs & Ev).
    simpl in Ev. subst v. exists (vs ++ [(C, a, pc)]).
    assert (Hall : Forall2 (share T) (newdata ++ [make_slice (XFin T) (XFin C) (default "" color) (Some (pie_combine_label o))])
      (vs ++ [(C, a, pc)])) by (by apply Forall2_app; [|constructor]).
    assert (Htot : sumQ (map (λ v, v.1.1) (vs ++ [(C, a, pc)])) == T).
    { rewrite map_app, sumQ_app. simpl. lra. }
    split; [lra|]. split; [done|]. split; [done|]. by eapply G.
  - apply Nat.ltb_ge in En. assert (C == 0) by (apply Hn; lia).
    assert (Htot : sumQ (map (λ v, v.1.1) vs) == T) by lra.
    exists vs. split; [lra|]. split; [done|]. split; [done|]. by eapply G.
Qed.

(** The slices share the whole: for values that are not negative and do
    not all vanish, and whatever the threshold for combining, the values of the
    slices add up to the total, their angles to a full turn and their
    percentages to one hundred. *)
Theorem combine_total `{NumText xq} `{MathLib xq} (o : pie_options xq) data qs :
  Forall2 worth (map fixData data) qs → 0 < sumQ qs →
  ∃ T vs, T == sumQ qs ∧ Forall2 (share T) (combine o data) vs ∧
    sumQ (map (λ v, v.1.1) vs) == T ∧ sumQ (map (λ v, v.1.2) vs) == pi2 ∧ sumQ (map snd vs) == 100.
Proof. apply combine_shares. Qed.

(** ** Drawing the slices *)

(** The arcs of a sequence of operations, and when they follow each other from
    one angle to another. *)
Definition arcs (ops : list (canvas_op xq)) : list (xq * xq) :=
  omap (λ op, match op with OpArc _ _ _ from to _ => Some (from, to) | _ => None end) ops.

Fixpoint tiles (c : Q) (l : list (xq * xq)) (e : Q) : Prop :=
  match l with
  | [] => c == e
  | (from, to) :: l => from = XFin c ∧ ∃ q, to = XFin q ∧ c < q ∧ tiles q l e
  end.

Section slices.
Context `{NumText xq} `{MathLib xq}.

Lemma arc_ok r from to : 0 <= r → arc (XFin r) from to = Ok [OpArc ⟨0⟩%num ⟨0⟩%num (XFin r) from to false].
Proof.
  intros Hr. unfold arc. change (⟨0⟩%num : xq) with (XFin 0).
  by rewrite (proj2 (Exact.ltb_fin_false r 0)) by done.
Qed.

Lemma arcs_app l l' : arcs (l ++ l') = arcs l ++ arcs l'.
Proof. apply omap_app. Qed.

Lemma slice_arcs (fill partial : bool) color r from to :
  arcs ((if fill then [OpFillStyle (PaintText color)] else [OpStrokeStyle (PaintText color); OpLineJoin "round"]) ++
        [OpBeginPath] ++ (if partial then [OpMoveTo ⟨0⟩%num ⟨0⟩%num] else []) ++
        [OpArc ⟨0⟩%num ⟨0⟩%num r from to false] ++ [OpClosePath; if fill then OpFill else OpStroke]) = [(from, to)].
Proof. by destruct fill, partial. Qed.

Lemma drawSlices_tile r c color fill slices angles : 0 <= r →
  Forall2 (λ s a, sl_angle s = XFin a ∧ 0 <= a) slices angles →
  ∃ ops starts e, drawSlices false (XFin r) (XFin c) color fill slices = Ok (ops, starts) ∧
    length starts = length slices ∧ tiles c (arcs ops) e ∧ e == c + sumQ angles.
Proof.
  intros Hr HS. revert c. induction HS as [|s a slices angles [Ha Hpos] HS IH]; intros c.
  { exists [], [], c. simpl. repeat split; lra. }
  cbn [drawSlices]. unfold drawSlice. rewrite Ha. change (⟨0⟩%num : xq) with (XFin 0). rewrite leb_Qle.
  destruct (Qle_bool a 0) eqn:E; qle_cases.
  - destruct (IH c) as (ops & starts & e & Eq & Hl & Ht & He). cbn [mbind result_bind]. rewrite Eq.
    eexists _, _, e. split; [done|]. simpl. split; [by rewrite Hl|]. split; [done|]. lra.
  - rewrite andb_false_r. change (XFin c + XFin a)%num with (XFin (c + a)). rewrite arc_ok by done.
    destruct (IH (c + a)) as (ops & starts & e & Eq & Hl & Ht & He). cbn [mbind result_bind]. rewrite Eq.
    eexists _, _, e. split; [done|]. split; [simpl; by rewrite Hl|]. split; [|simpl; lra].
    rewrite arcs_app. change (XFin 0) with (⟨0⟩%num : xq). rewrite slice_arcs. simpl.
    split; [done|]. exists (c + a). split; [done|]. split; [lra|done].
Qed.
End slices.

(** C22: the slices fill the circle: drawn from any angle, for a radius that is
    not negative, the arcs of the slices that are not empty follow each other
    without a gap or an overlap, and end a full turn later.  The values are not
    negative and not all zero, the numbers are exact, and the browser
    is not IE (where a slice of a full turn is shortened by a hair). *)
Theorem pie_circle `{NumText xq} `{MathLib xq} (o : pie_options xq) data qs r c color fill :
  Forall2 worth (map fixData data) qs → 0 < sumQ qs → 0 <= r →
  ∃ ops starts e, drawSlices false (XFin r) (XFin c) color fill (combine o data) = Ok (ops, starts) ∧
    length starts = length (combine o data) ∧ tiles c (arcs ops) e ∧ e == c + pi2.
Proof.
  intros HD Hpos Hr. destruct (combine_shares o data qs HD Hpos) as (T & vs & HT & Hvs & _ & Hturn & _).
  assert (HA : Forall2 (λ s a, sl_angle s = XFin a ∧ 0 <= a) (combine o data) (map (λ v, v.1.2) vs)).
  { apply Forall2_fmap_r. eapply Forall2_impl; [exact Hvs|]. intros s [[v a] p] (Hv & _ & Ha & _ & Hk & _).
    split; [done|]. simpl. destruct (Qlt_le_dec a 0) as [Hn|]; [|done]. exfalso.
    assert (0 <= v * pi2) by (apply Qmult_le_0_compat; [done|by vm_compute]).
    assert (a * T < 0) by nra. lra. }
  destruct (drawSlices_tile r c color fill _ _ Hr HA) as (ops & starts & e & E & Hl & Ht & He).
  exists ops, starts, e. split; [done|]. split; [done|]. split; [done|]. by rewrite He, Hturn.
Qed.

(** ** The attempts *)

Section attempts.
Context {num : Type} `{Num num} `{NumText num} `{MathLib num}.
Implicit Types (o : pie_options num) (st : pie_state num) (slices : list (slice num)).
Local Open Scope num_scope.

(** A label that lies in the canvas, by the test of the code. *)
Definition label_inside (w h : num) (label_size : string → num * num) (l : pie_label num) : Prop :=
  let '(lw, lh) := label_size (pl_text l) in
  (⟨0⟩ - pl_top l >? ⟨0⟩) = false ∧ (⟨0⟩ - pl_left l >? ⟨0⟩) = false ∧
  (h - (pl_top l + lh) <? ⟨0⟩) = false ∧ (w - (pl_left l + lw) <? ⟨0⟩) = false.

Section labels.
Variables (o : pie_options num) (w h : num) (lf : option (option string → slice num → string))
  (plf : option (string → slice num → string)) (label_size : string → num * num).

(** What an attempt keeps, and what it says of its labels. *)
Definition kept st st' : Prop :=
  maxRadius st' = maxRadius st ∧ centerLeft st' = centerLeft st ∧ centerTop st' = centerTop st ∧ errors st' = errors st.
Definition fits st : Prop := redraw_flag st = false → Forall (label_inside w h label_size) (labels st).

Lemma drawLabel_spec r a i s st : fits st →
  let st' := drawLabel o w h lf plf label_size r a i s st in kept st st' ∧ fits st'.
Proof.
  intros HF. cbv zeta. unfold drawLabel. destruct (sl_value s =? ⟨0⟩)%num; [by split|].
  destruct (label_size _) as [lw lh] eqn:E. split; [done|]. intros [Hr Ho]%orb_false_iff.
  rewrite !orb_false_iff in Ho. destruct Ho as [[[H1' H2'] H3] H4]. apply Forall_app. split; [by apply HF|].
  constructor; [|done]. unfold label_inside. cbn [pl_text pl_top pl_left]. by rewrite E.
Qed.

Lemma drawLabels_spec r a i slices st : fits st →
  let st' := drawLabels o w h lf plf label_size r a i slices st in kept st st' ∧ fits st'.
Proof.
  revert a i st. induction slices as [|s slices IH]; intros a i st HF; [by split|]. cbn [drawLabels].
  destruct (_ >=? _)%num; [|by apply IH].
  destruct (drawLabel_spec r a i s st HF) as [(K1 & K2 & K3 & K4) HF'].
  destruct (IH (a + sl_angle s) (S i) _ HF') as [(L1 & L2 & L3 & L4) HF''].
  split; [|done]. unfold kept. by rewrite L1, L2, L3, L4.
Qed.
End labels.

Section loop.
Variables (o : pie_options num) (w h : num) (msie : bool) (lf : option (option string → slice num → string))
  (plf : option (string → slice num → string)) (label_size : string → num * num) (legend : num) (position : string).

Lemma drawPie_spec slices st st' ops : labels st = [] →
  drawPie o w h msie lf plf label_size slices st = Ok (st', ops) → kept st st' ∧ fits w h label_size st'.
Proof.
  intros Hl ([fills starts] & _ & ([outlines starts'] & _ & (hole & _ & [= <- <-])%result_bind_ok)%result_bind_ok)%result_bind_ok.
  assert (HF : fits w h label_size (with_starts st starts)) by (intros _; simpl; rewrite Hl; constructor).
  destruct (default _ _); [|by split]. by apply (drawLabels_spec o w h lf plf label_size _ _ _ _ (with_starts st starts)).
Qed.

Lemma pie_loop_spec slices more a st st' ops n :
  pie_loop o w h msie lf plf label_size more a slices st = Ok (st', ops, n) →
  (a <= n <= a + more)%nat ∧ errors st' = errors st ∧
  maxRadius st' = Nat.iter (n - max 1 a) (λ r, r * shrink) (maxRadius st) ∧
  ((0 < more)%nat → redraw_flag st = true → (a < n)%nat) ∧
  ((a < n < a + more)%nat → redraw_flag st' = false ∧ Forall (label_inside w h label_size) (labels st')).
Proof.
  revert a st ops. induction more as [|more IH]; intros a st ops.
  { cbn [pie_loop]. intros [= <- <- <-]. replace (a - max 1 a)%nat with 0%nat by lia. repeat split; (done || lia). }
  cbn [pie_loop]. destruct (redraw_flag st) eqn:Er.
  2: { intros [= <- <- <-]. replace (a - max 1 a)%nat with 0%nat by lia. repeat split; (done || lia). }
  set (st1 := with_labels _ []).
  intros (shadow & _ & ([st2 ops2] & Ed & ([[st3 rest] n'] & El & [= <- <- <-])%result_bind_ok)%result_bind_ok)%result_bind_ok.
  destruct (drawPie_spec _ st1 _ _ eq_refl Ed) as [(K1 & K2 & K3 & K4) HF].
  destruct (IH _ _ _ El) as (Hn & He & Hm & Hlt & Hf).
  split; [lia|]. split; [rewrite He, K4; unfold st1; by case_match|]. split; [|split; [lia|]].
  - rewrite Hm, K1. unfold st1. destruct a as [|a]; [f_equal; lia|].
    cbn [Nat.ltb Nat.leb with_labels with_center maxRadius].
    replace (n' - max 1 (S a))%nat with (S (n' - max 1 (S (S a)))) by lia. by rewrite Nat.iter_succ_r.
  - intros Hna. destruct (decide (S a < n')%nat); [by apply Hf; lia|]. assert (n' = S a) as -> by lia.
    destruct more as [|more]; [lia|]. destruct (redraw_flag st2) eqn:E2; [specialize (Hlt ltac:(lia) eq_refl); lia|].
    cbn [pie_loop] in El. rewrite E2 in El. injection El as <- _. split; [done|]. by apply HF.
Qed.

(** The first draw of a pie makes from one to ten attempts, each on a radius
    smaller by a twentieth than the one before.  Fewer than ten end with every
    label inside the canvas and no error, and from then on drawing again only
    places the pie anew and paints nothing; the tenth ends with the labels
    removed and an error message, whether it fitted or not. *)
Theorem pie_draw_attempts slices st st' ops : redraw_flag st = true →
  pie_draw o w h msie lf plf label_size legend position true slices st = Ok (st', ops) →
  ∃ n, (1 <= n <= redrawAttempts)%nat ∧
    maxRadius st' = Nat.iter (n - 1) (λ r, r * shrink) (maxRadius (setupPie o w h legend position st)) ∧
    ((n = redrawAttempts ∧ errors st' = S (errors st) ∧ labels st' = []) ∨
     ((n < redrawAttempts)%nat ∧ errors st' = errors st ∧ Forall (label_inside w h label_size) (labels st') ∧
      ∀ slices', pie_draw o w h msie lf plf label_size legend position true slices' st'
                 = Ok (setupPie o w h legend position st', []))).
Proof.
  intros Hr. unfold pie_draw. cbn [negb].
  intros ([[st1 ops1] n] & El%pie_loop_spec & E)%result_bind_ok. destruct El as (Hn & He & Hm & Hlt & Hf).
  assert (0 < n)%nat by (apply Hlt; [unfold redrawAttempts; lia|done]).
  exists n. split; [lia|]. destruct (Nat.leb_spec redrawAttempts n) as [Hle|Hlt']; injection E as <- _.
  - split; [exact Hm|]. left. split; [lia|]. split; [exact (f_equal S He)|done].
  - split; [exact Hm|]. right. destruct Hf as [Hf1 Hf2]; [lia|]. repeat (split; [done|]).
    intros slices'. unfold pie_draw. unfold redrawAttempts at 2. cbn [negb pie_loop].
    change (redraw_flag (setupPie o w h legend position st1)) with (redraw_flag st1). by rewrite Hf1.
Qed.
End loop.
End attempts.

(** ** The shadow *)

(** How much the radius of the discs goes down over [n] of them. *)
Fixpoint dip (n : nat) : nat :=
  match n with 0%nat | 1%nat => 0%nat | S n' => (edge - n' + dip n')%nat end.

Section shadow.
Context `{NumText xq} `{MathLib xq}.

Lemma arc_throws r from to : r < 0 → arc (XFin r) from to = Throw "IndexSizeError".
Proof. intros Hr. unfold arc. change (⟨0⟩%num : xq) with (XFin 0). by rewrite (proj2 (Exact.ltb_fin r 0)). Qed.

Lemma shadow_discs_spec n r :
  (inject_Z (Z.of_nat (dip (S n))) <= r → ∃ ops, shadow_discs (S n) (XFin r) = Ok ops ∧ length (arcs ops) = S n) ∧
  (r < inject_Z (Z.of_nat (dip (S n))) → shadow_discs (S n) (XFin r) = Throw "IndexSizeError").
Proof.
  revert r. induction n as [|n IH]; intros r.
  { cbn [dip]. change (inject_Z (Z.of_nat 0)) with 0. split; intros Hr; cbn [shadow_discs].
    - rewrite arc_ok by done. cbn [mbind result_bind]. by eexists.
    - by rewrite arc_throws. }
  change (dip (S (S n))) with (edge - S n + dip (S n))%nat. rewrite Nat2Z.inj_add, inject_Z_plus.
  set (k := (edge - S n)%nat). set (d := inject_Z (Z.of_nat (dip (S n)))) in *.
  assert (Hd : 0 <= d) by (unfold d; change 0 with (inject_Z 0); rewrite <- Zle_Qle; lia).
  assert (Hk : 0 <= inject_Z (Z.of_nat k)) by (change 0 with (inject_Z 0); rewrite <- Zle_Qle; lia).
  change (shadow_discs (S (S n)) (XFin r)) with
    (disc ← arc (XFin r) ⟨0⟩%num two_pi;
     rest ← shadow_discs (S n) (XFin (r - inject_Z (Z.of_nat k)));
     Ok ([OpBeginPath] ++ disc ++ [OpFill] ++ rest)).
  destruct (IH (r - inject_Z (Z.of_nat k))) as [IH1 IH2]. split; intros Hr.
  - rewrite arc_ok by lra. cbn [mbind result_bind]. destruct IH1 as (ops & -> & Hl); [lra|].
    cbn [mbind result_bind]. eexists. split; [done|]. simpl. by rewrite Hl.
  - destruct (Qlt_le_dec r 0); [by rewrite arc_throws|]. rewrite arc_ok by done. cbn [mbind result_bind].
    by rewrite IH2 by lra.
Qed.
End shadow.

(** The shadow of a pie whose radius is below 45 cannot be drawn: where
    there is room for the shadow, its ten discs are drawn for a radius from 45
    on, and for a smaller one (more than 10) the canvas refuses a negative
    radius, so drawing the plot fails. *)
Theorem small_shadow `{NumText xq} `{MathLib xq} (o : pie_options xq) w h msie lf plf label_size legend position r slices st :
  let st' := setupPie o w h legend position st in
  pieRadius o st' = XFin r → shadow_outside o w h (XFin r) = false →
  (45 <= r → ∃ ops, drawShadow o w h st' = Ok ops ∧ length (arcs ops) = edge) ∧
  (r < 45 → (pie_tilt o <=? of_ratio 8 10)%num = true → redraw_flag st = true →
   pie_draw o w h msie lf plf label_size legend position true slices st = Throw "IndexSizeError").
Proof.
  intros st' Er Hout. destruct (shadow_discs_spec 9 r) as [S1 S2].
  split.
  - intros Hr. unfold drawShadow. rewrite Er, Hout. destruct (S1 Hr) as (ops & E & Hl).
    change edge with 10%nat. rewrite E. cbn [mbind result_bind]. eexists. split; [done|].
    rewrite !arcs_app, !length_app, Hl. done.
  - intros Hr Ht Hf. unfold pie_draw. cbn [negb]. fold st'. unfold redrawAttempts. cbn [pie_loop].
    replace (redraw_flag st') with true by (by rewrite <- Hf). rewrite Ht. cbn [Nat.ltb Nat.leb].
    assert (E : drawShadow o w h (with_labels (with_redraw st' false) []) = Throw "IndexSizeError").
    { unfold drawShadow. change (pieRadius o (with_labels _ _)) with (pieRadius o st'). rewrite Er, Hout.
      change edge with 10%nat. by rewrite (S2 Hr). }
    by rewrite E.
Qed.

(** ** Examples *)

Definition sample_pie_options (threshold radius tilt : Q) : pie_options xq :=
  PieOptions true (Some (XFin radius)) (XFin 0) (XFin (3 # 2)) (XFin tilt) (XFin 0) None "#FFF" (XFin 1) (Some true)
    (XFin 1) None (XFin 0) (XFin 0) (XFin threshold) None "Other" (XFin (1 # 2)).

Definition sample_pie : list (pie_series xq) :=
  [PieSeries (PieNumber (XFin 30)) "red" (Some "a"); PieSeries (PiePoints (Str "50")) "green" (Some "b");
   PieSeries (PieNothing None) "blue" None; PieSeries (PieNumber (XFin 15)) "black" None;
   PieSeries (PieNumber (XFin 5)) "white" None].

Lemma sample_worth : let _ := Exact.exact_text in Forall2 worth (map fixData sample_pie) [30; 50; 0; 15; 5].
Proof. intros text. repeat (constructor; [by split|]). constructor. Qed.

Lemma combine_total_witness :
  let _ := Exact.exact_text in let _ := Exact.exact_math in
  let o := sample_pie_options (1 # 10) 1 1 in
  ∃ T vs, T == 30 + (50 + (0 + (15 + (5 + 0)))) ∧ Forall2 (share T) (combine o sample_pie) vs ∧
    sumQ (map (λ v, v.1.1) vs) == T ∧ sumQ (map (λ v, v.1.2) vs) == pi2 ∧ sumQ (map snd vs) == 100.
Proof.
  intros text math o. apply (combine_total o sample_pie [30; 50; 0; 15; 5]); [apply sample_worth|by vm_compute].
Defined.

Lemma pie_circle_witness :
  let _ := Exact.exact_text in let _ := Exact.exact_math in
  let o := sample_pie_options (1 # 10) 1 1 in
  ∃ ops starts e, drawSlices false (XFin 75) (XFin 2) (@sl_color xq) true (combine o sample_pie) = Ok (ops, starts) ∧
    length starts = length (combine o sample_pie) ∧ tiles 2 (arcs ops) e ∧ e == 2 + pi2.
Proof.
  intros text math o. apply (pie_circle o sample_pie [30; 50; 0; 15; 5]); [apply sample_worth|by vm_compute..].
Defined.

(** Labels all to the right of the center. *)
Definition flat_math : MathLib xq :=
  {| math_log := id; math_pow := λ x _, x; math_sqrt := id; math_sin := λ _, XFin 0; math_cos := λ _, XFin 1 |}.

(** The labels are out of the canvas at first: it takes four attempts. *)
Definition sample_draw `{NumText xq} `{MathLib xq} (slices : list (slice xq)) (st : pie_state xq) :=
  pie_draw (sample_pie_options (1 # 10) (3 # 4) 1) (XFin 100) (XFin 100) false None None
    (λ _, (XFin 12, XFin 12)) (XFin 0) "ne" true slices st.

Lemma pie_draw_attempts_witness :
  let _ := Exact.exact_text in let _ := flat_math in
  let o := sample_pie_options (1 # 10) (3 # 4) 1 in
  let slices := combine o sample_pie in
  match sample_draw slices pie0 with
  | Ok (st', _) =>
      ∃ n, (1 <= n <= redrawAttempts)%nat ∧
        maxRadius st' = Nat.iter (n - 1) (λ r, (r * shrink)%num) (maxRadius (setupPie o (XFin 100) (XFin 100) (XFin 0) "ne" pie0)) ∧
        ((n = redrawAttempts ∧ errors st' = 1%nat ∧ labels st' = []) ∨
         ((n < redrawAttempts)%nat ∧ errors st' = 0%nat ∧
          Forall (label_inside (XFin 100) (XFin 100) (λ _, (XFin 12, XFin 12))) (labels st') ∧
          ∀ slices', sample_draw slices' st' = Ok (setupPie o (XFin 100) (XFin 100) (XFin 0) "ne" st', [])))
  | _ => False
  end.
Proof.
  intros text math o slices. unfold sample_draw at 1. destruct (pie_draw _ _ _ _ _ _ _ _ _ _ _ _) as [[st' ops]| |] eqn:E.
  2-3: vm_compute in E; congruence.
  by apply (pie_draw_attempts (sample_pie_options (1 # 10) (3 # 4) 1) (XFin 100) (XFin 100) false None None
    (λ _, (XFin 12, XFin 12)) (XFin 0) "ne" slices pie0 st' ops).
Defined.

(** Forty pixels are enough for a shadow in the canvas, and too few for its discs. *)
Lemma small_shadow_witness :
  let _ := Exact.exact_text in let _ := Exact.exact_math in
  let o := sample_pie_options (1 # 10) 40 (1 # 2) in
  (45 <= 40 → ∃ ops, drawShadow o (XFin 300) (XFin 200) (setupPie o (XFin 300) (XFin 200) (XFin 0) "ne" pie0) = Ok ops ∧
     length (arcs ops) = edge) ∧
  (40 < 45 → (pie_tilt o <=? of_ratio 8 10)%num = true → redraw_flag (num := xq) pie0 = true →
   pie_draw o (XFin 300) (XFin 200) false None None (λ _, (XFin 12, XFin 12)) (XFin 0) "ne" true
     (combine o sample_pie) pie0 = Throw "IndexSizeError").
Proof.
  intros text math o. by apply (small_shadow o (XFin 300) (XFin 200) false None None (λ _, (XFin 12, XFin 12))
    (XFin 0) "ne" 40 (combine o sample_pie) pie0).
Defined.

Example sample_draw_clears :
  let _ := Exact.exact_text in let _ := flat_math in
  match sample_draw (combine (sample_pie_options (1 # 10) (3 # 4) 1) sample_pie) pie0 with
  | Ok (st', ops) => (errors st', length (labels st'), length (omap (λ op, match op with OpClearRect _ _ _ _ => Some op | _ => None end) ops))
  | _ => (0, 0, 0)%nat
  end = (0, 4, 4)%nat.
Proof. vm_compute. reflexivity. Qed.
