(* ===== verification/VmlStyle.v ===== *)
(** The styles of the canvas emulation, [static/flot/excanvas.js]: CSS colors
    as VML colors with an opacity, fonts, line caps, gradients, patterns and
    the exceptions of the interface. *)

From S2P Require Import Prelude Numbers JsText JsValue Color.
From Stdlib Require Import Ascii.

(** ** Text operations *)

Definition dq : string := String (ascii_of_nat 34) "".

(** [s.indexOf(p, from)] and [s.substring(a, b)] *)
Definition index_of (p s : string) (from : nat) : Z :=
  match String.index from p s with Some n => Z.of_nat n | None => -1 end.
Definition includes (s p : string) : bool := negb (index_of p s 0 =? -1)%Z.
Definition js_substring (s : string) (a b : Z) : string :=
  let cut z := Z.to_nat (Z.max 0 (Z.min z (Z.of_nat (String.length s)))) in
  let lo := Nat.min (cut a) (cut b) in
  String.substring lo (Nat.max (cut a) (cut b) - lo) s.

(** [s.replace(/c/g, t)] *)
Fixpoint replace_char (c : ascii) (t s : string) : string :=
  match s with
  | "" => ""
  | String d s => (if (d =? c)%char then t else String d "") +:+ replace_char c t s
  end.

Definition encodeHtmlAttribute (s : string) : string :=
  replace_char (ascii_of_nat 34) "&quot;" (replace_char "&" "&amp;" s).

(** ** Bytes in hexadecimal *)

Definition hex_digit (i : Z) : ascii :=
  ascii_of_N (Z.to_N (if (i <? 10)%Z then i + 48 else i + 87)).

(** [decToHex[i * 16 + j] = i.toString(16) + j.toString(16)] *)
Definition decToHex : list string :=
  (λ n, let z := Z.of_nat n in String (hex_digit (z / 16)) (String (hex_digit (z mod 16)) "")) <$> seq 0 256.

Definition colorData : list (string * string) :=
  [("aliceblue", "#F0F8FF"); ("antiquewhite", "#FAEBD7"); ("aquamarine", "#7FFFD4");
   ("azure", "#F0FFFF"); ("beige", "#F5F5DC"); ("bisque", "#FFE4C4"); ("black", "#000000");
   ("blanchedalmond", "#FFEBCD"); ("blueviolet", "#8A2BE2"); ("brown", "#A52A2A");
   ("burlywood", "#DEB887"); ("cadetblue", "#5F9EA0"); ("chartreuse", "#7FFF00");
   ("chocolate", "#D2691E"); ("coral", "#FF7F50"); ("cornflowerblue", "#6495ED");
   ("cornsilk", "#FFF8DC"); ("crimson", "#DC143C"); ("cyan", "#00FFFF"); ("darkblue", "#00008B");
   ("darkcyan", "#008B8B"); ("darkgoldenrod", "#B8860B"); ("darkgray", "#A9A9A9");
   ("darkgreen", "#006400"); ("darkgrey", "#A9A9A9"); ("darkkhaki", "#BDB76B");
   ("darkmagenta", "#8B008B"); ("darkolivegreen", "#556B2F"); ("darkorange", "#FF8C00");
   ("darkorchid", "#9932CC"); ("darkred", "#8B0000"); ("darksalmon", "#E9967A");
   ("darkseagreen", "#8FBC8F"); ("darkslateblue", "#483D8B"); ("darkslategray", "#2F4F4F");
   ("darkslategrey", "#2F4F4F"); ("darkturquoise", "#00CED1"); ("darkviolet", "#9400D3");
   ("deeppink", "#FF1493"); ("deepskyblue", "#00BFFF"); ("dimgray", "#696969");
   ("dimgrey", "#696969"); ("dodgerblue", "#1E90FF"); ("firebrick", "#B22222");
   ("floralwhite", "#FFFAF0"); ("forestgreen", "#228B22"); ("gainsboro", "#DCDCDC");
   ("ghostwhite", "#F8F8FF"); ("gold", "#FFD700"); ("goldenrod", "#DAA520"); ("grey", "#808080");
   ("greenyellow", "#ADFF2F"); ("honeydew", "#F0FFF0"); ("hotpink", "#FF69B4");
   ("indianred", "#CD5C5C"); ("indigo", "#4B0082"); ("ivory", "#FFFFF0"); ("khaki", "#F0E68C");
   ("lavender", "#E6E6FA"); ("lavenderblush", "#FFF0F5"); ("lawngreen", "#7CFC00");
   ("lemonchiffon", "#FFFACD"); ("lightblue", "#ADD8E6"); ("lightcoral", "#F08080");
   ("lightcyan", "#E0FFFF"); ("lightgoldenrodyellow", "#FAFAD2"); ("lightgreen", "#90EE90");
   ("lightgrey", "#D3D3D3"); ("lightpink", "#FFB6C1"); ("lightsalmon", "#FFA07A");
   ("lightseagreen", "#20B2AA"); ("lightskyblue", "#87CEFA"); ("lightslategray", "#778899");
   ("lightslategrey", "#778899"); ("lightsteelblue", "#B0C4DE"); ("lightyellow", "#FFFFE0");
   ("limegreen", "#32CD32"); ("linen", "#FAF0E6"); ("magenta", "#FF00FF");
   ("mediumaquamarine", "#66CDAA"); ("mediumblue", "#0000CD"); ("mediumorchid", "#BA55D3");
   ("mediumpurple", "#9370DB"); ("mediumseagreen", "#3CB371"); ("mediumslateblue", "#7B68EE");
   ("mediumspringgreen", "#00FA9A"); ("mediumturquoise", "#48D1CC");
   ("mediumvioletred", "#C71585"); ("midnightblue", "#191970"); ("mintcream", "#F5FFFA");
   ("mistyrose", "#FFE4E1"); ("moccasin", "#FFE4B5"); ("navajowhite", "#FFDEAD");
   ("oldlace", "#FDF5E6"); ("olivedrab", "#6B8E23"); ("orange", "#FFA500");
   ("orangered", "#FF4500"); ("orchid", "#DA70D6"); ("palegoldenrod", "#EEE8AA");
   ("palegreen", "#98FB98"); ("paleturquoise", "#AFEEEE"); ("palevioletred", "#DB7093");
   ("papayawhip", "#FFEFD5"); ("peachpuff", "#FFDAB9"); ("peru", "#CD853F"); ("pink", "#FFC0CB");
   ("plum", "#DDA0DD"); ("powderblue", "#B0E0E6"); ("rosybrown", "#BC8F8F");
   ("royalblue", "#4169E1"); ("saddlebrown", "#8B4513"); ("salmon", "#FA8072");
   ("sandybrown", "#F4A460"); ("seagreen", "#2E8B57"); ("seashell", "#FFF5EE");
   ("sienna", "#A0522D"); ("skyblue", "#87CEEB"); ("slateblue", "#6A5ACD");
   ("slategray", "#708090"); ("slategrey", "#708090"); ("snow", "#FFFAFA");
   ("springgreen", "#00FF7F"); ("steelblue", "#4682B4"); ("tan", "#D2B48C");
   ("thistle", "#D8BFD8"); ("tomato", "#FF6347"); ("turquoise", "#40E0D0");
   ("violet", "#EE82EE"); ("wheat", "#F5DEB3"); ("whitesmoke", "#F5F5F5");
   ("yellowgreen", "#9ACD32")].

Section style.
Context {num : Type} `{Num num} `{NumText num} `{NumRem num}.
Local Open Scope num_scope.

(** [decToHex[x]] in a concatenation: only the integers of the table have an
    entry. *)
Definition hex_at (x : num) : string :=
  match to_integer x with
  | Some z => if (⟨z⟩ =? x) && (0 <=? z)%Z then default "undefined" (decToHex !! Z.to_nat z) else "undefined"
  | None => "undefined"
  end.

(** ** Colors *)

(** The components between the parentheses, and the opacity: the fourth of
    [rgba] and [hsla], as a text. *)
Definition getRgbHslContent (styleString : string) : list string * jsv num :=
  let start := index_of "(" styleString 3 in
  let stop := index_of ")" styleString (Z.to_nat (start + 1)) in
  let parts := split_char "," (js_substring styleString (start + 1) stop) in
  (parts,
   match parts with
   | [_; _; _; p3] => if String.eqb (String.substring 3 1 styleString) "a" then Str p3 else Number ⟨1⟩
   | _ => Number ⟨1⟩
   end).

Definition percent (s : string) : num := parse_float s / ⟨100⟩.

Definition clamp (v min max : num) : num := nmin max (nmax min v).

Definition hueToRgb (m1 m2 h : num) : num :=
  let h := if h <? ⟨0⟩ then h + ⟨1⟩ else h in
  let h := if h >? ⟨1⟩ then h - ⟨1⟩ else h in
  if ⟨6⟩ * h <? ⟨1⟩ then m1 + (m2 - m1) * ⟨6⟩ * h
  else if ⟨2⟩ * h <? ⟨1⟩ then m2
  else if ⟨3⟩ * h <? ⟨2⟩ then m1 + (m2 - m1) * (⟨2⟩ / ⟨3⟩ - h) * ⟨6⟩
  else m1.

(** A component that is missing reads as the text of [undefined]. *)
Definition part (parts : list string) (i : nat) : string := default "undefined" (parts !! i).

(** The red, green and blue of the components, from 0 to 1. *)
Definition hsl_components (parts : list string) : num * num * num :=
  let h := nrem (parse_float (part parts 0) / ⟨360⟩) ⟨360⟩ in
  let h := if h <? ⟨0⟩ then h + ⟨1⟩ else h in
  let s := clamp (percent (part parts 1)) ⟨0⟩ ⟨1⟩ in
  let l := clamp (percent (part parts 2)) ⟨0⟩ ⟨1⟩ in
  if s =? ⟨0⟩ then (l, l, l)
  else
    let q := if l <? of_ratio 1 2 then l * (⟨1⟩ + s) else l + s - l * s in
    let p := ⟨2⟩ * l - q in
    (hueToRgb p q (h + ⟨1⟩ / ⟨3⟩), hueToRgb p q h, hueToRgb p q (h - ⟨1⟩ / ⟨3⟩)).

Definition hslToRgb (parts : list string) : string :=
  let '(r, g, b) := hsl_components parts in
  "#" +:+ hex_at (nfloor (r * ⟨255⟩)) +:+ hex_at (nfloor (g * ⟨255⟩)) +:+ hex_at (nfloor (b * ⟨255⟩)).

(** A component of [rgb]: a percentage of 255 or a number.  Reading a missing
    one throws. *)
Definition rgb_part (parts : list string) (i : nat) : result string :=
  match parts !! i with
  | None => Throw "TypeError"
  | Some s =>
      let n := if includes s "%" then nfloor (percent s * ⟨255⟩) else string_to_num s in
      Ok (hex_at (clamp n ⟨0⟩ ⟨255⟩))
  end.

(** [String(styleString)] is done by the callers. *)
Definition processStyle (styleString : string) : result (string * jsv num) :=
  match styleString with
  | String "#" _ => Ok (styleString, Number ⟨1⟩)
  | _ =>
      match starts_with "rgb" styleString, starts_with "hsl" styleString with
      | Some _, _ =>
          let '(parts, alpha) := getRgbHslContent styleString in
          r ← rgb_part parts 0; g ← rgb_part parts 1; b ← rgb_part parts 2;
          Ok ("#" +:+ r +:+ g +:+ b, alpha)
      | None, Some _ => let '(parts, alpha) := getRgbHslContent styleString in Ok (hslToRgb parts, alpha)
      | None, None => Ok (default styleString (assoc styleString colorData), Number ⟨1⟩)
      end
  end.

(** ** Fonts *)

Record font := Font {
  f_style : string; f_variant : string; f_weight : string; f_size : jsv num; f_family : string;
}.

Definition DEFAULT_STYLE : font := Font "normal" "normal" "normal" (Number ⟨10⟩) "sans-serif".

(** The browser: [css_font] reads a CSS font into the style, variant, weight,
    size and family of an element, empty where the text sets none. *)
Variable css_font : string → string * string * string * string * string.

Definition text_or {A} (s : string) (k : string → A) (d : A) : A := if String.eqb s "" then d else k s.

Definition read_font (styleString : string) : font :=
  let '(st, va, we, si, fa) := css_font styleString in
  Font (text_or st (λ s, s) (f_style DEFAULT_STYLE)) (text_or va (λ s, s) (f_variant DEFAULT_STYLE))
    (text_or we (λ s, s) (f_weight DEFAULT_STYLE)) (text_or si Str (f_size DEFAULT_STYLE))
    (text_or fa (λ s, s) (f_family DEFAULT_STYLE)).

(** The cache of the fonts that were read is an argument and a result. *)
Definition processFontStyle (fontStyleCache : list (string * font)) (styleString : string)
    : font * list (string * font) :=
  match assoc styleString fontStyleCache with
  | Some f => (f, fontStyleCache)
  | None => let f := read_font styleString in (f, (styleString, f) :: fontStyleCache)
  end.

(** The size of the font in pixels; [fontSize] is the size of the element. *)
Definition getComputedStyle (style : font) (fontSize : string) : font :=
  let canvasFontSize := parse_float fontSize in
  let size := parse_float (to_text (f_size style)) in
  let computed :=
    match f_size style with
    | Number x => x
    | v =>
        let t := to_text v in
        if includes t "px" then size
        else if includes t "em" then canvasFontSize * size
        else if includes t "%" then canvasFontSize / ⟨100⟩ * size
        else if includes t "pt" then size / of_ratio 3 4
        else canvasFontSize
    end in
  Font (f_style style) (f_variant style) (f_weight style) (Number (computed * of_ratio 981 1000)) (f_family style).

Definition buildStyle (style : font) : string :=
  f_style style +:+ " " +:+ f_variant style +:+ " " +:+ f_weight style +:+ " " +:+
  to_text (f_size style) +:+ "px " +:+ f_family style.
End style.
Arguments font num : clear implicits.

Definition processLineCap (lineCap : string) : string :=
  if String.eqb lineCap "butt" then "flat"
  else if String.eqb lineCap "round" then "round"
  else "square".

(** ** Exceptions *)

Definition dom_codes : list (string * Z) :=
  [("INDEX_SIZE_ERR", 1); ("DOMSTRING_SIZE_ERR", 2); ("HIERARCHY_REQUEST_ERR", 3); ("WRONG_DOCUMENT_ERR", 4);
   ("INVALID_CHARACTER_ERR", 5); ("NO_DATA_ALLOWED_ERR", 6); ("NO_MODIFICATION_ALLOWED_ERR", 7);
   ("NOT_FOUND_ERR", 8); ("NOT_SUPPORTED_ERR", 9); ("INUSE_ATTRIBUTE_ERR", 10); ("INVALID_STATE_ERR", 11);
   ("SYNTAX_ERR", 12); ("INVALID_MODIFICATION_ERR", 13); ("NAMESPACE_ERR", 14); ("INVALID_ACCESS_ERR", 15);
   ("VALIDATION_ERR", 16); ("TYPE_MISMATCH_ERR", 17)]%Z.

(** The message of the exception. *)
Definition DOMException_ (s : string) : string :=
  s +:+ ": DOM Exception " +:+
  match assoc s dom_codes with Some code => dec_string code | None => "undefined" end.

Definition throwException {A} (s : string) : result A := Throw (DOMException_ s).

(** ** Patterns *)

(** What the code reads of the element that is passed as an image. *)
Record image_el (num : Type) := ImageEl {
  im_nodeType : Z; im_tagName : string; im_readyState : string;
  im_src : string; im_width : num; im_height : num;
}.
Arguments ImageEl {num} _ _ _ _ _ _. Arguments im_nodeType {num} _. Arguments im_tagName {num} _.
Arguments im_readyState {num} _. Arguments im_src {num} _. Arguments im_width {num} _.
Arguments im_height {num} _.

Record pattern (num : Type) := CanvasPattern {
  repetition_ : string; src_ : string; width_ : num; height_ : num;
}.
Arguments CanvasPattern {num} _ _ _ _. Arguments repetition_ {num} _. Arguments src_ {num} _.
Arguments width_ {num} _. Arguments height_ {num} _.

Section pattern.
Context {num : Type}.

Definition assertImageIsValid (img : option (image_el num)) : result (image_el num) :=
  match img with
  | None => throwException "TYPE_MISMATCH_ERR"
  | Some img =>
      if negb (im_nodeType img =? 1)%Z || negb (String.eqb (im_tagName img) "IMG")
      then throwException "TYPE_MISMATCH_ERR"
      else if negb (String.eqb (im_readyState img) "complete") then throwException "INVALID_STATE_ERR"
      else Ok img
  end.

Definition CanvasPattern_ (image : option (image_el num)) (repetition : jsv num) : result (pattern num) :=
  img ← assertImageIsValid image;
  rep ← match repetition with
        | Null => Ok "repeat"
        | Str s =>
            if String.eqb s "repeat" || String.eqb s "" then Ok "repeat"
            else if String.eqb s "repeat-x" || String.eqb s "repeat-y" || String.eqb s "no-repeat" then Ok s
            else throwException "SYNTAX_ERR"
        | _ => throwException "SYNTAX_ERR"
        end;
  Ok (CanvasPattern rep (im_src img) (im_width img) (im_height img)).

(** [createPattern(image, repetition)] *)
Definition createPattern (image : option (image_el num)) (repetition : jsv num) : result (pattern num) :=
  CanvasPattern_ image repetition.
End pattern.

(** ** Gradients *)

Record stop (num : Type) := Stop { st_offset : num; st_color : string; st_alpha : jsv num }.
Arguments Stop {num} _ _ _. Arguments st_offset {num} _. Arguments st_color {num} _. Arguments st_alpha {num} _.

Record gradient (num : Type) := Gradient {
  type_ : string; x0_ : num; y0_ : num; r0_ : num; x1_ : num; y1_ : num; r1_ : num;
  colors_ : list (stop num);
}.
Arguments Gradient {num} _ _ _ _ _ _ _ _. Arguments type_ {num} _. Arguments x0_ {num} _.
Arguments y0_ {num} _. Arguments r0_ {num} _. Arguments x1_ {num} _. Arguments y1_ {num} _.
Arguments r1_ {num} _. Arguments colors_ {num} _.

Section gradient.
Context {num : Type} `{Num num} `{NumText num} `{NumRem num}.
Local Open Scope num_scope.

Definition CanvasGradient_ (aType : string) : gradient num :=
  Gradient aType ⟨0⟩ ⟨0⟩ ⟨0⟩ ⟨0⟩ ⟨0⟩ ⟨0⟩ [].

Definition with_colors (cs : list (stop num)) (g : gradient num) : gradient num :=
  Gradient (type_ g) (x0_ g) (y0_ g) (r0_ g) (x1_ g) (y1_ g) (r1_ g) cs.

Definition addColorStop (aOffset : num) (aColor : string) (g : gradient num) : result (gradient num) :=
  '(color, alpha) ← processStyle aColor;
  Ok (with_colors (colors_ g ++ [Stop aOffset color alpha]) g).

(** [stops.sort(...)] by [cs1.offset - cs2.offset]: insertion after the stops
    that are not greater. *)
Fixpoint insert_stop (s : stop num) (l : list (stop num)) : list (stop num) :=
  match l with
  | [] => [s]
  | t :: l' => if st_offset t - st_offset s >? ⟨0⟩ then s :: l else t :: insert_stop s l'
  end.
Definition sort_stops (l : list (stop num)) : list (stop num) := foldl (λ acc s, insert_stop s acc) [] l.
End gradient.
