(* ===== verification/VmlStyleSpec.v ===== *)
(** Colors in the canvas emulation: the colors that the plot prints are read
    back as the same color, the conversion of HSL colors, the order of the
    stops of gradients, the errors of patterns, the cache of fonts. *)

From S2P Require Import Prelude JsText Numbers Float64 Float64Int ExactNum JsValue Color VmlStyle.
From Stdlib Require Import Ascii QArith Qround Lqa SpecFloat Sorted.

(** ** Texts *)

(** Texts that hold neither a comma nor a closing parenthesis. *)
Definition plain (c : ascii) : bool := negb (c =? ",")%char && negb (c =? ")")%char.

Lemma digits_any f n : all_chars is_digit (dec_fuel f n "") = true.
Proof.
  revert n. induction f as [|f IH]; intros n; [done|]. cbn [dec_fuel].
  assert (D : is_digit (digit_char (n mod 10)) = true).
  { apply digit_char_spec. pose proof (Z.mod_pos_bound n 10). lia. }
  destruct (n <? 10)%Z; [by cbn; rewrite D|].
  rewrite dec_fuel_app, all_chars_app, IH. cbn. by rewrite D.
Qed.

Lemma all_chars_weaken (p q : ascii → bool) s :
  (∀ c, p c = true → q c = true) → all_chars p s = true → all_chars q s = true.
Proof.
  intros W. induction s as [|c s IH]; [done|]. cbn. intros [C S]%andb_prop. by rewrite (W c C), IH.
Qed.

Lemma digit_plain c : is_digit c = true → plain c = true.
Proof. by destruct c as [[] [] [] [] [] [] [] []]. Qed.

Lemma dec_plain n : all_chars plain (dec_nat n) = true.
Proof. apply (all_chars_weaken is_digit); [apply digit_plain|apply digits_any]. Qed.

Lemma take_chars p n s : all_chars p s = true → all_chars p (F64.string_take n s) = true.
Proof.
  revert n. induction s as [|c s IH]; intros [|n]; [done..|]. cbn. intros [-> S]%andb_prop. by apply IH.
Qed.
Lemma drop_chars p n s : all_chars p s = true → all_chars p (F64.string_drop n s) = true.
Proof. revert n. induction s as [|c s IH]; intros [|n]; [done..|]. cbn. intros [_ S]%andb_prop. by apply IH. Qed.
Lemma zeros_plain n : all_chars plain (F64.zeros n) = true.
Proof. by induction n. Qed.

(** The texts of numbers are plain. *)
Lemma number_plain (x : f64) : all_chars plain (to_string x) = true.
Proof.
  assert (F : ∀ s k n, all_chars plain (F64.format_decimal s k n) = true).
  { intros s k n. unfold F64.format_decimal.
    repeat case_match; rewrite ?all_chars_app; cbn [all_chars];
    rewrite ?dec_plain, ?zeros_plain, ?take_chars, ?drop_chars by apply dec_plain; done. }
  destruct x as [s|[]| |s m e]; [done..|]. change (all_chars plain (F64.to_string (S754_finite s m e)) = true).
  unfold F64.to_string.
  destruct (F64.frac m e) as [a b]. rewrite all_chars_app. apply andb_true_iff. split; [by destruct s|].
  destruct (F64.small_integer m e); [apply dec_plain|].
  destruct (F64.shortest 17 1 m e (F64.dec_exponent a (Zpos b))) as [[ds k] n]. apply F.
Qed.

(** The position of the parenthesis that closes. *)
Lemma index_here c s t :
  all_chars (λ d, negb (d =? c)%char) s = true →
  String.index 0 (String c "") (s +:+ String c t) = Some (String.length s).
Proof.
  induction s as [|d s IH]; cbn.
  - intros _. destruct (ascii_dec c c); [by destruct t|done].
  - intros [D S]%andb_prop. apply negb_true_iff, Ascii.eqb_neq in D.
    destruct (ascii_dec c d) as [->|]; [done|]. by rewrite (IH S).
Qed.

Lemma index_skip s t n p :
  String.index (String.length s + n) p (s +:+ t) = (λ i, String.length s + i)%nat <$> String.index n p t.
Proof.
  induction s as [|c s IH]; [cbn; by destruct (String.index n p t)|].
  change (String.index (S (String.length s + n)) p (String c (s +:+ t)) =
          (λ i, String.length (String c s) + i)%nat <$> String.index n p t).
  cbn [String.index]. rewrite IH. by destruct (String.index n p t).
Qed.

Lemma substring_all s t : String.substring 0 (String.length s) (s +:+ t) = s.
Proof. induction s as [|c s IH]; cbn; [by destruct t|]. by rewrite IH. Qed.

Lemma length_append a b : String.length (a +:+ b) = (String.length a + String.length b)%nat.
Proof. induction a; cbn; [done|]. by f_equal. Qed.

Lemma substring_skip s t k : String.substring (String.length s) k (s +:+ t) = String.substring 0 k t.
Proof. induction s as [|c s IH]; [done|exact IH]. Qed.

(** The components of a color that is written with its function: three
    letters and a suffix. *)
Lemma content_parts {num} `{Num num} fn sfx body :
  String.length fn = 3%nat →
  all_chars (λ d, negb (d =? "(")%char) sfx = true →
  all_chars (λ d, negb (d =? ")")%char) body = true →
  (getRgbHslContent (num := num) (fn +:+ sfx +:+ "(" +:+ body +:+ ")")).1 = split_char "," body.
Proof.
  intros Hf Hs Hb. unfold getRgbHslContent. cbn [fst]. set (text := fn +:+ _).
  set (open := (fn +:+ sfx)).
  assert (Et : text = (open +:+ "(") +:+ (body +:+ ")")) by (unfold text, open; by rewrite !string_app_assoc).
  assert (Eo : index_of "(" text 3 = Z.of_nat (String.length open)).
  { unfold index_of, text, open. pose proof (index_skip fn (sfx +:+ "(" +:+ body +:+ ")") 0 "(") as I.
    rewrite Hf in I. change (3 + 0)%nat with 3%nat in I. rewrite I.
    change ("(" +:+ body +:+ ")") with (String "(" (body +:+ ")")). rewrite (index_here "(" sfx (body +:+ ")") Hs). cbn [fmap option_fmap option_map]. by rewrite length_append, Hf. }
  rewrite Eo. replace (Z.to_nat (Z.of_nat (String.length open) + 1)) with (String.length (open +:+ "(") + 0)%nat
    by (rewrite length_append; cbn; lia).
  assert (Ec : index_of ")" text (String.length (open +:+ "(") + 0) =
               (Z.of_nat (String.length open) + 1 + Z.of_nat (String.length body))%Z).
  { unfold index_of. rewrite Et, index_skip, (index_here ")" body "" Hb). cbn [fmap option_fmap option_map].
    rewrite length_append. cbn. lia. }
  rewrite Ec. f_equal. unfold js_substring.
  assert (El : String.length text = (String.length open + 1 + String.length body + 1)%nat)
    by (rewrite Et, !length_append; cbn; lia).
  rewrite El, !Z.min_l, !Z.max_r, Nat.min_l, Nat.max_r by lia.
  replace (Z.to_nat (Z.of_nat (String.length open) + 1)) with (String.length (open +:+ "("))
    by (rewrite length_append; cbn; lia).
  rewrite Et, substring_skip.
  replace (_ - _)%nat with (String.length body); [apply substring_all|rewrite length_append; cbn; lia].
Qed.

(** ** Bytes *)

(** The two digits of a byte. *)
Definition hex_pair (z : Z) : string := String (hex_digit (z / 16)) (String (hex_digit (z mod 16)) "").

Definition byte (z : Z) : Prop := (0 ≤ z ≤ 255)%Z.

(** A decidable fact on all bytes. *)
Lemma on_bytes (P : Z → bool) :
  forallb (λ n, P (Z.of_nat n)) (seq 0 256) = true → ∀ z, byte z → P z = true.
Proof.
  intros F z Hz. rewrite forallb_forall in F. replace z with (Z.of_nat (Z.to_nat z)) by (unfold byte in Hz; lia).
  apply F. apply in_seq. unfold byte in Hz. lia.
Qed.

Definition f64_eqb (x y : f64) : bool :=
  match x, y with
  | S754_zero s, S754_zero t => Bool.eqb s t
  | S754_finite s m e, S754_finite t n f => Bool.eqb s t && Pos.eqb m n && Z.eqb e f
  | _, _ => false
  end.
Lemma f64_eqb_eq x y : f64_eqb x y = true → x = y.
Proof.
  destruct x as [s|s| |s m e], y as [t|t| |t n f]; try done; cbn.
  - by intros ->%Bool.eqb_prop.
  - intros [[-> %Bool.eqb_prop ->%Pos.eqb_eq]%andb_prop ->%Z.eqb_eq]%andb_prop. done.
Qed.

Lemma byte_text z : byte z → to_string (⟨z⟩%num : f64) = dec_nat z.
Proof. intros Hz. apply int_to_string. unfold safe, byte in *. lia. Qed.

(** A component that is printed is read back. *)
Lemma byte_part z l i : byte z → l !! i = Some (dec_nat z) → rgb_part (num := f64) l i = Ok (hex_pair z).
Proof.
  intros Hz E. unfold rgb_part. rewrite E.
  assert (B : ∀ z, byte z → match @rgb_part f64 _ _ [dec_nat z] 0 with Ok s => String.eqb s (hex_pair z) | _ => false end = true)
    by (apply on_bytes; by vm_compute).
  specialize (B z Hz). unfold rgb_part in B. cbn [lookup list_lookup] in B. by apply String.eqb_eq in B as ->.
Qed.

Lemma hex_pair_scan z t : byte z → hex2 (hex_pair z +:+ t) = Some (z, t).
Proof.
  intros Hz.
  assert (B : ∀ z, byte z →
    match hex_val (hex_digit (z / 16)), hex_val (hex_digit (z mod 16)) with
    | Some a, Some b => Z.eqb (a * 16 + b) z | _, _ => false end = true) by (apply on_bytes; by vm_compute).
  specialize (B z Hz). unfold hex2, hex1, bind, hex_pair. cbn [String.append].
  destruct (hex_val (hex_digit (z / 16))) as [a'|]; [|done].
  destruct (hex_val (hex_digit (z mod 16))) as [b'|]; [|done]. by apply Z.eqb_eq in B as ->.
Qed.

Lemma hex_pair_plain z : byte z → all_chars (λ c, negb (c =? "r")%char) (hex_pair z) = true.
Proof. revert z. apply (on_bytes (λ z, all_chars (λ c, negb (c =? "r")%char) (hex_pair z))). by vm_compute. Qed.

(** [parse] of a color in hexadecimal. *)
Definition parse_component (z : Z) : f64 :=
  Color.clamp ⟨0⟩%num (parse_int_num (or_zero (Numbers.of_decimal z 0))) ⟨255⟩%num.

Lemma parse_component_byte z : byte z → parse_component z = ⟨z⟩%num.
Proof.
  intros Hz. apply f64_eqb_eq. revert z Hz. apply (on_bytes (λ z, f64_eqb (parse_component z) ⟨z⟩%num)). by vm_compute.
Qed.

(** A regular expression that starts with [r] finds nothing in a text
    without it. *)
Lemma exec_no_r {A} (m : scanner A) s :
  (∀ t, head_ok (λ c, negb (c =? "r")%char) t = true → m t = None) →
  all_chars (λ c, negb (c =? "r")%char) s = true → exec m s = None.
Proof.
  intros Hm. induction s as [|c s IH]; intros Hs.
  - cbn [exec]. by rewrite Hm.
  - pose proof Hs as [Hc Hs']%andb_prop. cbn [exec]. rewrite Hm by done. by apply IH.
Qed.

Lemma no_r_lit p t : head_ok (λ c, negb (c =? "r")%char) t = true → lit (String "r" p) t = None.
Proof.
  destruct t as [|c t]; [done|]. cbn [head_ok]. intros Hc%negb_true_iff. unfold lit. cbn [starts_with].
  rewrite Ascii.eqb_sym in Hc. by rewrite Hc.
Qed.
Lemma no_r_rgb {A} (m : scanner A) t : head_ok (λ c, negb (c =? "r")%char) t = true → rgb_re m t = None.
Proof. intros Ht. unfold rgb_re, three, bind. by rewrite no_r_lit. Qed.
Lemma no_r_rgba {A} (m : scanner A) t : head_ok (λ c, negb (c =? "r")%char) t = true → rgba_re m t = None.
Proof. intros Ht. unfold rgba_re, three, bind. by rewrite no_r_lit. Qed.

Lemma exec_rgb {A} (m : scanner A) s : all_chars (λ c, negb (c =? "r")%char) s = true → exec (rgb_re m) s = None.
Proof. apply exec_no_r, no_r_rgb. Qed.
Lemma exec_rgba {A} (m : scanner A) s : all_chars (λ c, negb (c =? "r")%char) s = true → exec (rgba_re m) s = None.
Proof. apply exec_no_r, no_r_rgba. Qed.

Lemma parse_hex x y z :
  byte x → byte y → byte z →
  parse (num := f64) ("#" +:+ hex_pair x +:+ hex_pair y +:+ hex_pair z) = Color ⟨x⟩%num ⟨y⟩%num ⟨z⟩%num ⟨1⟩%num.
Proof.
  intros Hx Hy Hz. set (s := "#" +:+ _).
  assert (N : all_chars (λ c, negb (c =? "r")%char) s = true)
    by (unfold s; rewrite !all_chars_app, !hex_pair_plain by done; done).
  unfold parse. rewrite !exec_rgb, !exec_rgba by done.
  assert (E : exec (hash hex2) s = Some (x, y, z)).
  { assert (M : hash hex2 s = Some ((x, y, z), "")).
    { unfold hash, bind, s. change (lit "#" ("#" +:+ ?t)) with (Some (tt, t)). cbn beta iota.
      rewrite hex_pair_scan by done. rewrite hex_pair_scan by done.
      rewrite <- (string_app_nil_r (hex_pair z)). by rewrite hex_pair_scan. }
    unfold s in *. cbn [String.append exec] in *. by rewrite M. }
  rewrite E. unfold make, normalize. cbn [r g b a].
  change (Color (parse_component x) (parse_component y) (parse_component z)
    (Color.clamp ⟨0⟩%num (default ⟨1⟩%num None) ⟨1⟩%num) = Color ⟨x⟩%num ⟨y⟩%num ⟨z⟩%num (⟨1⟩%num : f64)).
  by rewrite !parse_component_byte.
Qed.

Lemma plain_no (c : ascii) s : plain c = false → all_chars plain s = true → all_chars (λ d, negb (d =? c)%char) s = true.
Proof. intros Hc. apply all_chars_weaken. intros d Hd. apply negb_true_iff, Ascii.eqb_neq. intros ->. congruence. Qed.

Lemma join_no_close l :
  Forall (λ s, all_chars plain s = true) l → all_chars (λ d, negb (d =? ")")%char) (str_join "," l) = true.
Proof.
  induction 1 as [|s [|t l] Hs _ IH]; [done|by apply plain_no|].
  change (str_join "," (s :: t :: l)) with (s +:+ "," +:+ str_join "," (t :: l)).
  rewrite !all_chars_app, IH, (plain_no ")"%char s) by done. done.
Qed.

(** The components of a color that was printed from plain texts. *)
Lemma printed_parts {num} `{Num num} fn sfx l :
  String.length fn = 3%nat → all_chars (λ d, negb (d =? "(")%char) sfx = true → l ≠ [] → Forall (λ s, all_chars plain s = true) l →
  (getRgbHslContent (num := num) (fn +:+ sfx +:+ "(" +:+ str_join "," l +:+ ")")).1 = l.
Proof.
  intros Hf Hs Hl F. rewrite content_parts; [|done..|by apply join_no_close].
  apply split_join; [done|]. eapply Forall_impl; [exact F|]. intros s. by apply plain_no.
Qed.

(** The first three components, when they are bytes. *)
Lemma byte_parts x y z rest (k : string → result (string * jsv f64)) :
  byte x → byte y → byte z → let l := dec_nat x :: dec_nat y :: dec_nat z :: rest in
  (r ← rgb_part l 0; g ← rgb_part l 1; b ← rgb_part l 2; k ("#" +:+ r +:+ g +:+ b)) =
  k ("#" +:+ hex_pair x +:+ hex_pair y +:+ hex_pair z).
Proof.
  intros Hx Hy Hz l. rewrite (byte_part x l 0), (byte_part y l 1), (byte_part z l 2) by done. done.
Qed.

Lemma plain_bytes x y z rest :
  Forall (λ s, all_chars plain s = true) rest →
  Forall (λ s, all_chars plain s = true) (dec_nat x :: dec_nat y :: dec_nat z :: rest).
Proof. intros F. repeat (constructor; [apply dec_plain|]). exact F. Qed.

(** C19: the colors that the plot prints are understood by the canvas
    emulation: it reads them as a color in hexadecimal that is the same color,
    with the opacity that was printed, none when the color is opaque. *)
Theorem color_roundtrip (x y z : Z) (alpha : f64) :
  byte x → byte y → byte z →
  ∃ color, processStyle (num := f64) (toString (Color ⟨x⟩%num ⟨y⟩%num ⟨z⟩%num alpha)) =
             Ok (color, if (alpha >=? ⟨1⟩)%num then Number ⟨1⟩%num else Str (to_string alpha)) ∧
           parse color = Color ⟨x⟩%num ⟨y⟩%num ⟨z⟩%num (⟨1⟩%num : f64).
Proof.
  intros Hx Hy Hz. exists ("#" +:+ hex_pair x +:+ hex_pair y +:+ hex_pair z).
  split; [|by apply parse_hex]. unfold toString. cbn [r g b a]. rewrite !byte_text by done.
  destruct (alpha >=? ⟨1⟩)%num.
  - pose proof (printed_parts (num := f64) "rgb" "" [dec_nat x; dec_nat y; dec_nat z] eq_refl eq_refl ltac:(done) (plain_bytes _ _ _ [] ltac:(constructor))) as C.
    set (body := str_join "," _) in *.
    change (match getRgbHslContent (num := f64) ("rgb(" +:+ body +:+ ")") with (parts, alpha) =>
      r ← rgb_part parts 0; g ← rgb_part parts 1; b ← rgb_part parts 2; Ok ("#" +:+ r +:+ g +:+ b, alpha) end =
      Ok ("#" +:+ hex_pair x +:+ hex_pair y +:+ hex_pair z, Number ⟨1⟩%num)).
    change ("rgb" +:+ "" +:+ "(" +:+ body +:+ ")") with ("rgb(" +:+ body +:+ ")") in C.
    unfold getRgbHslContent in *. cbn [fst] in C. rewrite C.
    by apply (byte_parts x y z [] (λ s, Ok (s, Number ⟨1⟩%num))).
  - pose proof (printed_parts (num := f64) "rgb" "a" [dec_nat x; dec_nat y; dec_nat z; to_string alpha] eq_refl eq_refl ltac:(done)
      (plain_bytes _ _ _ [to_string alpha] ltac:(constructor; [apply number_plain|constructor]))) as C.
    set (body := str_join "," _) in *.
    change (match getRgbHslContent (num := f64) ("rgba(" +:+ body +:+ ")") with (parts, alpha) =>
      r ← rgb_part parts 0; g ← rgb_part parts 1; b ← rgb_part parts 2; Ok ("#" +:+ r +:+ g +:+ b, alpha) end =
      Ok ("#" +:+ hex_pair x +:+ hex_pair y +:+ hex_pair z, Str (to_string alpha))).
    change ("rgb" +:+ "a" +:+ "(" +:+ body +:+ ")") with ("rgba(" +:+ body +:+ ")") in C.
    unfold getRgbHslContent in *. cbn [fst] in C. rewrite C.
    by apply (byte_parts x y z [to_string alpha] (λ s, Ok (s, Str (to_string alpha)))).
Qed.

(** A half-transparent [#edc240], the first color of the plot. *)
Lemma color_roundtrip_witness :
  processStyle (num := f64) (toString (Color ⟨237⟩%num ⟨194⟩%num ⟨64⟩%num (of_ratio 1 2))) = Ok ("#edc240", Str "0.5") ∧
  ∃ color, processStyle (num := f64) (toString (Color ⟨237⟩%num ⟨194⟩%num ⟨64⟩%num (of_ratio 1 2))) =
             Ok (color, Str "0.5") ∧
           parse color = Color ⟨237⟩%num ⟨194⟩%num ⟨64⟩%num (⟨1⟩%num : f64).
Proof.
  split; [by vm_compute|].
  destruct (color_roundtrip 237 194 64 (of_ratio 1 2)) as (color & E & F); [by unfold byte..|].
  exists color. split; [|exact F]. rewrite E. by vm_compute.
Defined.

(** ** HSL *)

(** Case analysis on the comparisons of rationals. *)
Ltac qcases := repeat match goal with
  | |- context [Qlt_le_dec ?x ?y] => destruct (Qlt_le_dec x y)
  | H : context [Qlt_le_dec ?x ?y] |- _ => destruct (Qlt_le_dec x y)
  end.

Section hsl.
Context `{NumText xq}.
Local Open Scope Q_scope.

(** The conversion as CSS specifies it: the channel [n] (0 for red, 8 for
    green, 4 for blue) of the hue [hue] in degrees, the saturation [s] and the
    lightness [l]. *)
Definition css_k (hue n : Q) : Q :=
  let x := n + hue / 30 in x - 12 * inject_Z (Qfloor (x / 12)).
Definition qmin (x y : Q) : Q := if Qlt_le_dec x y then x else y.
Definition qmax (x y : Q) : Q := if Qlt_le_dec x y then y else x.
Definition css_wave (k : Q) : Q := qmax (-1) (qmin (qmin (k - 3) (9 - k)) 1).
Definition css_channel (hue s l n : Q) : Q := l - s * qmin l (1 - l) * css_wave (css_k hue n).

(** The ramp that [hueToRgb] follows, from 0 to 1. *)
Definition ramp (u : Q) : Q :=
  if Qlt_le_dec (6 * u) 1 then 6 * u
  else if Qlt_le_dec (2 * u) 1 then 1
  else if Qlt_le_dec (3 * u) 2 then ((2 # 3) - u) * 6 else 0.

(** The hue brought in the unit interval. *)
Definition wrap (h : Q) : Q :=
  let h := if Qlt_le_dec h 0 then h + 1 else h in if Qlt_le_dec 1 h then h - 1 else h.


Lemma ltb_dec (x y : Q) : nltb (XFin x) (XFin y) = if Qlt_le_dec x y then true else false.
Proof. destruct (Qlt_le_dec x y); [by apply Exact.ltb_fin|by apply Exact.ltb_fin_false]. Qed.

Lemma hueToRgb_ramp (m1 m2 h : Q) :
  ∃ v, hueToRgb (XFin m1) (XFin m2) (XFin h) = XFin v ∧ v == m1 + (m2 - m1) * ramp (wrap h).
Proof.
  unfold hueToRgb. change (⟨0⟩%num : xq) with (XFin (0 # 1)). change (⟨1⟩%num : xq) with (XFin (1 # 1)).
  assert (E : ∃ u, (let h := if nltb (XFin h) (XFin (0 # 1)) then (XFin h + XFin (1 # 1))%num else XFin h in
                    if nltb (XFin (1 # 1)) h then (h - XFin (1 # 1))%num else h) = XFin u ∧ u == wrap h).
  { rewrite ltb_dec. unfold wrap. destruct (Qlt_le_dec h (0 # 1)), (Qlt_le_dec h 0); try (exfalso; lra);
      cbv zeta; change (XFin h + XFin (1 # 1))%num with (XFin (h + (1 # 1))); rewrite ltb_dec; qcases;
      try (exfalso; lra); eexists; (split; [reflexivity|lra]). }
  destruct E as (u & Eu & Hu). cbv zeta in *. rewrite Eu.
  change (⟨6⟩ * XFin u)%num with (XFin ((6 # 1) * u)). change (⟨2⟩ * XFin u)%num with (XFin ((2 # 1) * u)).
  change (⟨3⟩ * XFin u)%num with (XFin ((3 # 1) * u)). change (⟨2⟩%num : xq) with (XFin (2 # 1)).
  rewrite !ltb_dec. unfold ramp. qcases; try (exfalso; lra).
  - eexists; (split; [reflexivity|]). rewrite <- Hu. cbn. ring.
  - eexists; (split; [reflexivity|]). ring.
  - eexists; (split; [reflexivity|]). rewrite <- Hu. cbn. field.
  - eexists; (split; [reflexivity|]). ring.
Qed.

(** The wave of the specification and the ramp. *)
Lemma wave_ramp (u k : Q) :
  0 <= u <= 1 → 0 <= k <= 12 → k == 12 * u - 4 ∨ k == 12 * u + 8 → css_wave k == 1 - 2 * ramp u.
Proof.
  intros Hu Hk C. unfold css_wave, ramp, qmax, qmin. destruct C as [C|C]; qcases; lra.
Qed.

(** The remainder modulo twelve. *)
Lemma css_k_spec (hue n : Q) : ∃ f : Z, css_k hue n == n + hue / 30 - 12 * inject_Z f ∧ 0 <= css_k hue n < 12.
Proof.
  unfold css_k. set (x := n + hue / 30). exists (Qfloor (x / 12)). split; [reflexivity|].
  pose proof (Qfloor_le (x / 12)) as A. pose proof (Qlt_floor (x / 12)) as B. rewrite inject_Z_plus in B.
  change (inject_Z 1) with 1 in B. set (f := inject_Z (Qfloor (x / 12))) in *.
  assert (E : x == 12 * (x / 12)) by field. split; lra.
Qed.

(** A channel: [d] is its shift in turns. *)
Lemma channel_css (hue h s l n d p q x : Q) :
  x == h + d →
  0 <= h <= 1 → (h == hue / 360 ∨ h == hue / 360 + 1) → (d == 1 # 3) ∧ n == 0 ∨ d == 0 ∧ n == 8 ∨ (d == - (1 # 3) ∧ n == 4) →
  q == l + s * qmin l (1 - l) → p == l - s * qmin l (1 - l) →
  ∃ v, hueToRgb (XFin p) (XFin q) (XFin x) = XFin v ∧ v == css_channel hue s l n.
Proof.
  intros Hx Hh Hhue Hd Hq Hp. destruct (hueToRgb_ramp p q x) as (v & -> & Ev). exists v. split; [done|].
  unfold css_channel. set (a := s * qmin l (1 - l)) in *.
  destruct (css_k_spec hue n) as (f & Ek & Kb).
  assert (Eh : hue / 30 == 12 * (hue / 360)) by field. rewrite Eh in Ek. set (t := hue / 360) in *.
  assert (Hn : 0 <= n <= 8 ∧ n == 12 * (d - (1 # 3)) ∨ 0 <= n <= 8 ∧ n == 12 * (d - (1 # 3)) + 12)
    by (destruct Hd as [[? ?]|[[? ?]|[? ?]]]; first [left; repeat split; lra|right; repeat split; lra]).
  assert (Ht : -1 <= t <= 1) by (destruct Hhue; lra).
  assert (Hf : (f = -1 ∨ f = 0 ∨ f = 1)%Z).
  { assert (F1 : inject_Z (-2) < inject_Z f) by (change (inject_Z (-2)) with (-2 # 1); destruct Hn; lra).
    assert (F2 : inject_Z f < inject_Z 2) by (change (inject_Z 2) with (2 # 1); destruct Hn; lra).
    rewrite <- Zlt_Qlt in F1, F2. lia. }
  assert (Hd' : - (1 # 3) <= d <= 1 # 3) by (destruct Hd as [[? ?]|[[? ?]|[? ?]]]; lra).
  assert (W : css_wave (css_k hue n) == 1 - 2 * ramp (wrap x)).
  { apply wave_ramp; [unfold wrap; qcases; lra|lra|]. unfold wrap. clear - Hx Hf Ek Kb Hn Hhue Hh Hd'.
    assert (Ef : inject_Z f == -1 ∨ inject_Z f == 0 ∨ inject_Z f == 1) by (destruct Hf as [-> | [-> | ->]]; auto using Qeq_refl).
    destruct Ef as [Ef|[Ef|Ef]], Hn as [[? ?]|[? ?]], Hhue; qcases;
      first [exfalso; lra|left; lra|right; lra]. }
  rewrite Ev, W, Hp, Hq. ring.
Qed.

Lemma css_bounds (hue s l n : Q) : 0 <= s <= 1 → 0 <= l <= 1 → 0 <= css_channel hue s l n <= 1.
Proof.
  intros Hs Hl. unfold css_channel. set (w := css_wave (css_k hue n)).
  assert (W : -1 <= w <= 1) by (unfold w, css_wave, qmax, qmin; qcases; lra).
  assert (A : 0 <= qmin l (1 - l) ∧ qmin l (1 - l) <= l ∧ qmin l (1 - l) <= 1 - l) by (unfold qmin; qcases; lra).
  assert (B : 0 <= s * qmin l (1 - l) <= qmin l (1 - l)) by nra. nra.
Qed.

(** The digits of a component. *)
Lemma hex_component (v : Q) :
  0 <= v <= 1 → byte (Qfloor (v * 255)) ∧ hex_at (nfloor (XFin v * ⟨255⟩)%num) = hex_pair (Qfloor (v * 255)).
Proof.
  intros Hv. set (z := Qfloor (v * 255)).
  assert (Hz : byte z).
  { pose proof (Qfloor_le (v * 255)) as A. pose proof (Qlt_floor (v * 255)) as B. fold z in A, B. unfold byte.
    assert (C : inject_Z (-1) < inject_Z z) by (rewrite inject_Z_plus in B; change (inject_Z (-1)) with (-1); change (inject_Z 1) with 1 in B; lra).
    assert (D : inject_Z z <= inject_Z 255) by (change (inject_Z 255) with (255 # 1); lra).
    rewrite <- Zlt_Qlt in C. rewrite <- Zle_Qle in D. lia. }
  split; [done|]. change (nfloor (XFin v * ⟨255⟩)%num) with (XFin (inject_Z z)).
  unfold hex_at. change (to_integer (XFin (inject_Z z))) with (Some (Z.quot z 1)). rewrite Z.quot_1_r.
  change (⟨z⟩%num : xq) with (XFin (inject_Z z)). rewrite (proj2 (Exact.eqb_fin _ _)) by reflexivity.
  replace (0 <=? z)%Z with true by (symmetry; apply Z.leb_le; unfold byte in Hz; lia). cbn [andb].
  unfold decToHex. rewrite list_lookup_fmap, lookup_seq_lt by (unfold byte in Hz; lia).
  cbv beta zeta iota delta [fmap option_fmap option_map default from_option id]. rewrite Nat.add_0_l.
  rewrite (Z2Nat.id z) by (unfold byte in Hz; lia). done.
Qed.
End hsl.

(** A percentage brought between 0 and 1. *)
Definition unit_clamp (v : Q) : Q := qmin 1 (qmax 0 v).

Lemma clamp_fin (v : Q) : ∃ w, clamp (XFin v) ⟨0⟩%num ⟨1⟩%num = XFin w ∧ (w == unit_clamp v ∧ 0 <= w <= 1)%Q.
Proof.
  unfold clamp, nmin, nmax, unit_clamp, qmin, qmax. change (⟨0⟩%num : xq) with (XFin 0). change (⟨1⟩%num : xq) with (XFin 1).
  rewrite !Exact.nis_nan_fin. rewrite ltb_dec. destruct (Qlt_le_dec 0 v);
    rewrite Exact.nis_nan_fin, ltb_dec; repeat match goal with |- context [Qlt_le_dec ?x ?y] => destruct (Qlt_le_dec x y) end;
    try (exfalso; lra); eexists; (split; [reflexivity|]); repeat split; lra.
Qed.

Section hsl_color.
Context `{NumText xq}.
Local Open Scope Q_scope.

Lemma quot_small (t : Q) : -1 < t < 1 → Z.quot (Qnum t) (Zpos (Qden t)) = 0%Z.
Proof.
  intros [A B]. apply Z.quot_small_iff; [done|]. destruct t as [n d]. unfold Qlt in A, B. cbn in *. lia.
Qed.

(** Hues within a turn: the remainder of turns by 360 leaves them. *)
Lemma turns (hue : Q) : -360 <= hue <= 360 →
  ∃ t, nrem (XFin hue / ⟨360⟩)%num ⟨360⟩%num = XFin t ∧ t == hue / 360.
Proof.
  intros Hh. change (XFin hue / ⟨360⟩)%num with (XFin (hue / (360 # 1))). change (⟨360⟩%num : xq) with (XFin (360 # 1)).
  unfold nrem, Exact.xq_rem. change (Exact.sign (360 # 1)) with Gt. cbv beta iota zeta.
  set (t := hue / (360 # 1) / (360 # 1)). eexists. split; [reflexivity|].
  assert (Et : t == hue * (1 # 129600)) by (unfold t; field). assert (Ht : -1 < t < 1) by lra.
  rewrite (quot_small t Ht). change (inject_Z 0) with 0. unfold t. field.
Qed.

(** The hue in turns, between 0 and 1. *)
Lemma unit_hue (hue t : Q) : -360 <= hue <= 360 → t == hue / 360 →
  ∃ h, (if nltb (XFin t) ⟨0⟩%num then (XFin t + ⟨1⟩)%num else XFin t) = XFin h ∧
       0 <= h <= 1 ∧ (h == hue / 360 ∨ h == hue / 360 + 1).
Proof.
  intros Hh Ht. change (⟨0⟩%num : xq) with (XFin 0). rewrite ltb_dec.
  assert (E : hue / 360 == hue * (1 # 360)) by field. rewrite E in *.
  destruct (Qlt_le_dec t 0).
  - exists (t + 1). split; [reflexivity|]. split; [lra|right; lra].
  - exists t. split; [reflexivity|]. split; [lra|left; lra].
Qed.

(** The greatest component. *)
Lemma lightness_top (s l : Q) :
  ∃ q, (if (XFin l <? of_ratio 1 2)%num then XFin l * (⟨1⟩ + XFin s) else XFin l + XFin s - XFin l * XFin s)%num = XFin q ∧
       q == l + s * qmin l (1 - l).
Proof.
  change (of_ratio 1 2 : xq) with (XFin (1 # 2)). rewrite ltb_dec. unfold qmin.
  qcases; try (exfalso; lra); eexists; (split; [reflexivity|]); cbn; ring.
Qed.

Global Instance css_channel_proper (hue : Q) : Proper (Qeq ==> Qeq ==> eq ==> Qeq) (css_channel hue).
Proof.
  intros s s' Es l l' El n _ <-. unfold css_channel. set (w := css_wave _). unfold qmin.
  qcases; try (exfalso; lra); rewrite Es, El; reflexivity.
Qed.

Lemma css_gray (hue s l n : Q) : s == 0 → css_channel hue s l n == l.
Proof. intros Hs. unfold css_channel. generalize (css_wave (css_k hue n)), (qmin l (1 - l)). intros w m. rewrite Hs. ring. Qed.

Lemma hsl_components_css (hs ss ls : string) (hue sp lp : Q) :
  parse_float hs = XFin hue → parse_float ss = XFin sp → parse_float ls = XFin lp → -360 <= hue <= 360 →
  let s := unit_clamp (sp / 100) in let l := unit_clamp (lp / 100) in
  ∃ r g b, hsl_components [hs; ss; ls] = (XFin r, XFin g, XFin b) ∧
    r == css_channel hue s l 0 ∧ g == css_channel hue s l 8 ∧ b == css_channel hue s l 4.
Proof.
  intros Eh Es El Hhue s l. unfold hsl_components, part, percent. cbn [lookup list_lookup default from_option id].
  rewrite Eh, Es, El. destruct (turns hue Hhue) as (t & -> & Ht).
  change (XFin sp / ⟨100⟩)%num with (XFin (sp / (100 # 1))). change (XFin lp / ⟨100⟩)%num with (XFin (lp / (100 # 1))).
  destruct (clamp_fin (sp / (100 # 1))) as (s' & -> & Es' & Bs). destruct (clamp_fin (lp / (100 # 1))) as (l' & -> & El' & Bl).
  fold s in Es'. fold l in El'. destruct (unit_hue hue t Hhue Ht) as (h & -> & Hh & Hhh).
  change (⟨0⟩%num : xq) with (XFin 0). destruct (neqb (XFin s') (XFin 0)) eqn:E0; xq_hyps.
  { exists l', l', l'. split; [done|]. rewrite <- Es', <- El'. split; [|split]; symmetry; by apply css_gray. }
  destruct (lightness_top s' l') as (q & Eq & Hq). cbv zeta. rewrite Eq.
  change (⟨2⟩ * XFin l' - XFin q)%num with (XFin ((2 # 1) * l' - q)). set (p := (2 # 1) * l' - q).
  assert (Hp : p == l' - s' * qmin l' (1 - l')) by (unfold p; rewrite Hq; ring).
  change (XFin h + ⟨1⟩ / ⟨3⟩)%num with (XFin (h + (1 # 1) / (3 # 1))).
  change (XFin h - ⟨1⟩ / ⟨3⟩)%num with (XFin (h - (1 # 1) / (3 # 1))).
  destruct (channel_css hue h s' l' 0 (1 # 3) p q (h + (1 # 1) / (3 # 1))) as (r & -> & Hr);
    [field|exact Hh|exact Hhh|left; split; reflexivity|exact Hq|exact Hp|].
  destruct (channel_css hue h s' l' 8 0 p q h) as (g & -> & Hg);
    [ring|exact Hh|exact Hhh|right; left; split; reflexivity|exact Hq|exact Hp|].
  destruct (channel_css hue h s' l' 4 (- (1 # 3)) p q (h - (1 # 1) / (3 # 1))) as (b & -> & Hb);
    [field|exact Hh|exact Hhh|right; right; split; reflexivity|exact Hq|exact Hp|].
  exists r, g, b. rewrite <- Es', <- El'. split; [reflexivity|]. split; [exact Hr|]. split; [exact Hg|exact Hb].
Qed.

(** A color in HSL is read as CSS specifies it: for a hue within a turn in
    either direction, a saturation and a lightness in percents, which are
    limited to the range from 0 to 100, the red, green and blue are those of
    the reference conversion, and the color is their digits, rounded down. *)
Theorem hsl_css (hs ss ls : string) (hue sp lp : Q) :
  Forall (λ s, all_chars plain s = true) [hs; ss; ls] →
  parse_float hs = XFin hue → parse_float ss = XFin sp → parse_float ls = XFin lp → -360 <= hue <= 360 →
  let channel n := Qfloor (css_channel hue (unit_clamp (sp / 100)) (unit_clamp (lp / 100)) n * 255) in
  (∀ n, byte (channel n)) ∧
  processStyle ("hsl(" +:+ str_join "," [hs; ss; ls] +:+ ")") =
    Ok ("#" +:+ hex_pair (channel 0) +:+ hex_pair (channel 8) +:+ hex_pair (channel 4), Number (⟨1⟩%num : xq)).
Proof.
  intros F Eh Es El Hhue channel.
  assert (B : ∀ n, 0 <= css_channel hue (unit_clamp (sp / 100)) (unit_clamp (lp / 100)) n <= 1).
  { intros n. apply css_bounds.
    - destruct (clamp_fin (sp / 100)) as (? & _ & <- & ?). done.
    - destruct (clamp_fin (lp / 100)) as (? & _ & <- & ?). done. }
  split; [intros n; by apply (hex_component _ (B n))|].
  pose proof (printed_parts (num := xq) "hsl" "" [hs; ss; ls] eq_refl eq_refl ltac:(done) F) as C.
  set (body := str_join "," _) in *.
  change (match getRgbHslContent (num := xq) ("hsl(" +:+ body +:+ ")") with (parts, alpha) => Ok (hslToRgb parts, alpha) end =
    Ok ("#" +:+ hex_pair (channel 0) +:+ hex_pair (channel 8) +:+ hex_pair (channel 4), Number (⟨1⟩%num : xq))).
  change ("hsl" +:+ "" +:+ "(" +:+ body +:+ ")") with ("hsl(" +:+ body +:+ ")") in C.
  unfold getRgbHslContent in *. cbn [fst] in C. rewrite C. unfold hslToRgb.
  destruct (hsl_components_css hs ss ls hue sp lp) as (r & g & b & -> & Hr & Hg & Hb); [done..|].
  assert (X : ∀ v n, v == css_channel hue (unit_clamp (sp / 100)) (unit_clamp (lp / 100)) n →
    hex_at (nfloor (XFin v * ⟨255⟩)%num) = hex_pair (channel n)).
  { intros v n Hv. rewrite (proj2 (hex_component v ltac:(rewrite Hv; apply B))). unfold channel. by rewrite Hv. }
  by rewrite (X r 0 Hr), (X g 8 Hg), (X b 4 Hb).
Qed.
End hsl_color.

(** A light blue. *)
Lemma hsl_css_witness :
  let processStyle := processStyle (num := xq) (H0 := Exact.exact_text) in
  processStyle "hsl(200,50%,75%)" = Ok ("#9fc9df", Number ⟨1⟩%num) ∧
  let channel n := Qfloor (css_channel 200 (unit_clamp (50 / 100)) (unit_clamp (75 / 100)) n * 255) in
  (∀ n, byte (channel n)) ∧
  processStyle ("hsl(" +:+ str_join "," ["200"; "50%"; "75%"] +:+ ")") =
    Ok ("#" +:+ hex_pair (channel 0%Q) +:+ hex_pair (channel 8%Q) +:+ hex_pair (channel 4%Q), Number ⟨1⟩%num).
Proof.
  split; [by vm_compute|].
  apply (@hsl_css Exact.exact_text "200" "50%" "75%" 200 50 75); [repeat constructor|by vm_compute..|].
  split; by vm_compute.
Defined.

(** Two turns are not a whole number of turns for the code: the hue is divided
    by 360 before the remainder by 360.  Red is read as black. *)
Example hue_not_wrapped :
  processStyle (num := xq) (H0 := Exact.exact_text) "hsl(0,100%,50%)" = Ok ("#ff0000", Number ⟨1⟩%num) ∧
  processStyle (num := xq) (H0 := Exact.exact_text) "hsl(720,100%,50%)" = Ok ("#000000", Number ⟨1⟩%num).
Proof. by split; vm_compute. Qed.

(** ** Gradients *)

Section stops.
Local Open Scope Q_scope.

Lemma insert_stop_perm {num} `{Num num} (s : stop num) l : insert_stop s l ≡ₚ s :: l.
Proof.
  induction l as [|t l IH]; [done|]. cbn. case_match; [done|]. rewrite IH. apply Permutation_swap.
Qed.
Lemma sort_stops_perm {num} `{Num num} (l : list (stop num)) : sort_stops l ≡ₚ l.
Proof.
  unfold sort_stops. assert (G : ∀ l acc, foldl (λ acc s, insert_stop s acc) acc l ≡ₚ acc ++ l); [|apply (G l [])].
  clear l. intros l. induction l as [|s l IH]; intros acc; cbn; [by rewrite app_nil_r|].
  rewrite IH, insert_stop_perm. apply Permutation_middle.
Qed.

(** The offsets of the stops, when they are finite. *)
Definition offset_le (s t : stop xq) : Prop :=
  ∃ a b, st_offset s = XFin a ∧ st_offset t = XFin b ∧ a <= b.
Definition finite_stop (s : stop xq) : Prop := ∃ a, st_offset s = XFin a.

Lemma insert_stop_sorted s l :
  finite_stop s → Forall finite_stop l → StronglySorted offset_le l → StronglySorted offset_le (insert_stop s l).
Proof.
  intros [a Ha] F. induction 1 as [|t l Hl IH Ht]; [by repeat constructor|]. apply Forall_cons in F as [[b Hb] F].
  cbn [insert_stop]. rewrite Ha, Hb. change (XFin b - XFin a)%num with (XFin (b - a)). change (⟨0⟩%num : xq) with (XFin 0).
  destruct (nltb (XFin 0) (XFin (b - a))) eqn:E; xq_hyps.
  - constructor; [by constructor|]. assert (A : offset_le s t) by (exists a, b; split; [done|split; [done|lra]]).
    constructor; [done|]. eapply Forall_impl; [exact Ht|]. intros u (b' & c & Eb & Ec & L).
    exists a, c. split; [done|]. split; [done|]. rewrite Hb in Eb. injection Eb as <-. lra.
  - constructor; [by apply IH|]. rewrite insert_stop_perm. constructor; [|done].
    exists b, a. split; [done|split; [done|lra]].
Qed.

Lemma sort_stops_sorted l : Forall finite_stop l → StronglySorted offset_le (sort_stops l).
Proof.
  unfold sort_stops. intros F.
  assert (G : ∀ acc, Forall finite_stop acc → StronglySorted offset_le acc →
              StronglySorted offset_le (foldl (λ acc s, insert_stop s acc) acc l)); [|apply G; constructor].
  induction F as [|s l Hs F IH]; intros acc Fa Sa; [done|]. cbn. apply IH; [|by apply insert_stop_sorted].
  rewrite insert_stop_perm. by constructor.
Qed.
End stops.

(** ** Patterns *)

(** The repetitions that are accepted. *)
Definition repetitions : list string := ["repeat"; "repeat-x"; "repeat-y"; "no-repeat"].
Definition repetition_ok {num} (v : jsv num) : bool :=
  match v with Null => true | Str s => String.eqb s "" || existsb (String.eqb s) repetitions | _ => false end.

(** A pattern is made exactly of the images that are loaded, with a
    repetition of the interface; what is not an image is refused before an
    image that is not loaded, which is refused before a bad repetition, each
    with its own exception. *)
Theorem pattern_errors {num} (img : option (image_el num)) (rep : jsv num) :
  createPattern img rep =
  match img with
  | None => Throw "TYPE_MISMATCH_ERR: DOM Exception 17"
  | Some i =>
      if negb ((im_nodeType i =? 1)%Z && String.eqb (im_tagName i) "IMG") then Throw "TYPE_MISMATCH_ERR: DOM Exception 17"
      else if negb (String.eqb (im_readyState i) "complete") then Throw "INVALID_STATE_ERR: DOM Exception 11"
      else if repetition_ok rep then
        Ok (CanvasPattern (match rep with Str s => if String.eqb s "" then "repeat" else s | _ => "repeat" end)
              (im_src i) (im_width i) (im_height i))
      else Throw "SYNTAX_ERR: DOM Exception 12"
  end.
Proof.
  unfold createPattern, CanvasPattern_, assertImageIsValid. destruct img as [i|]; [|done].
  destruct (im_nodeType i =? 1)%Z; [|done]. destruct (String.eqb (im_tagName i) "IMG"); [|done].
  destruct (String.eqb (im_readyState i) "complete"); [|done]. cbn [negb orb andb].
  destruct rep as [| |x|s|b|n]; try done. cbn [mbind result_bind repetition_ok].
  unfold repetitions. cbn [existsb].
  destruct (String.eqb s "repeat") eqn:E1; [by apply String.eqb_eq in E1 as ->|].
  destruct (String.eqb s "") eqn:E2; [done|].
  by destruct (String.eqb s "repeat-x"), (String.eqb s "repeat-y"), (String.eqb s "no-repeat").
Qed.

(** ** Fonts *)

Section fonts.
Context {num : Type} `{Num num}.
Variable css_font : string → string * string * string * string * string.

(** The cache holds fonts as they would be read again. *)
Definition cache_ok (cache : list (string * font num)) : Prop :=
  ∀ s f, assoc s cache = Some f → f = read_font css_font s.

(** Reading through the cache gives what reading gives, and the cache holds
    what was read: the cache is not observable. *)
Lemma processFontStyle_cache cache s :
  cache_ok cache →
  let '(f, cache') := processFontStyle css_font cache s in
  f = read_font css_font s ∧ cache_ok cache' ∧ assoc s cache' = Some f.
Proof.
  intros C. unfold processFontStyle. destruct (assoc s cache) as [f|] eqn:E; [split; [by apply C|done]|].
  split; [done|]. split; [|cbn; by rewrite String.eqb_refl].
  intros t f. cbn. destruct (String.eqb t s) eqn:Et; [|apply C]. apply String.eqb_eq in Et as ->. by intros [= <-].
Qed.
End fonts.
