(* ===== verification/VmlContext.v ===== *)
(** The drawing context of the canvas emulation, [static/flot/excanvas.js]:
    the operations of the interface as actions on the state of the context,
    which end with the VML markup that is inserted in the page. *)

From S2P Require Import Prelude Numbers JsText JsValue VmlStyle.

(** ** Matrices *)

Section matrix.
Context {num : Type} `{Num num}.
Local Open Scope num_scope.

(** Arrays of arrays. *)
Definition matrix : Type := list (list num).

Definition createMatrixIdentity : matrix :=
  [[⟨1⟩; ⟨0⟩; ⟨0⟩];
   [⟨0⟩; ⟨1⟩; ⟨0⟩];
   [⟨0⟩; ⟨0⟩; ⟨1⟩]].

(** [m[x][y]] *)
Definition at_ (m : matrix) (x y : nat) : num := default nnan (m !! x ≫= λ row, row !! y).

Definition matrixMultiply (m1 m2 : matrix) : matrix :=
  (λ x, (λ y, foldl (λ sum z, sum + at_ m1 x z * at_ m2 z y) ⟨0⟩ [0; 1; 2]%nat) <$> [0; 1; 2]%nat)
    <$> [0; 1; 2]%nat.

Definition matrixIsFinite (m : matrix) : bool :=
  nis_finite (at_ m 0 0) && nis_finite (at_ m 0 1) &&
  nis_finite (at_ m 1 0) && nis_finite (at_ m 1 1) &&
  nis_finite (at_ m 2 0) && nis_finite (at_ m 2 1).
End matrix.
Arguments matrix num : clear implicits.

(** ** The state *)

(** Fill and stroke styles; gradients are objects, named by their index among
    the gradients that were created. *)
Inductive style (num : Type) :=
  | StyleText (s : string)
  | StyleGradient (id : nat)
  | StylePattern (p : pattern num).
Arguments StyleText {num} _. Arguments StyleGradient {num} _. Arguments StylePattern {num} _.

(** The properties that [save] copies. *)
Record attrs (num : Type) := Attrs {
  fillStyle : style num; lineCap : string; lineJoin : string; lineWidth : num; miterLimit : num;
  shadowBlur : jsv num; shadowColor : jsv num; shadowOffsetX : jsv num; shadowOffsetY : jsv num;
  strokeStyle : style num; globalAlpha : num; font_ : string; textAlign : string; textBaseline : string;
  arcScaleX_ : num; arcScaleY_ : num; lineScale_ : num;
}.
Arguments Attrs {num} _ _ _ _ _ _ _ _ _ _ _ _ _ _ _ _ _.
Arguments fillStyle {num} _. Arguments lineCap {num} _. Arguments lineJoin {num} _.
Arguments lineWidth {num} _. Arguments miterLimit {num} _. Arguments shadowBlur {num} _.
Arguments shadowColor {num} _. Arguments shadowOffsetX {num} _. Arguments shadowOffsetY {num} _.
Arguments strokeStyle {num} _. Arguments globalAlpha {num} _. Arguments font_ {num} _.
Arguments textAlign {num} _. Arguments textBaseline {num} _. Arguments arcScaleX_ {num} _.
Arguments arcScaleY_ {num} _. Arguments lineScale_ {num} _.

(** [copyState(o1, o2)]: [o2] after the copy. *)
Definition copyState {num} (o1 o2 : attrs num) : attrs num :=
  Attrs (fillStyle o1) (lineCap o1) (lineJoin o1) (lineWidth o1) (miterLimit o1)
    (shadowBlur o1) (shadowColor o1) (shadowOffsetX o1) (shadowOffsetY o1)
    (strokeStyle o1) (globalAlpha o1) (font_ o1) (textAlign o1) (textBaseline o1)
    (arcScaleX_ o1) (arcScaleY_ o1) (lineScale_ o1).

(** The elements of the current path, in tenths of pixels. *)
Inductive seg (num : Type) :=
  | SMoveTo (x y : num)
  | SLineTo (x y : num)
  | SClose
  | SBezier (cp1x cp1y cp2x cp2y x y : num)
  | SArc (type : string) (x y radius xStart yStart xEnd yEnd : num).
Arguments SMoveTo {num} _ _. Arguments SLineTo {num} _ _. Arguments SClose {num}.
Arguments SBezier {num} _ _ _ _ _ _. Arguments SArc {num} _ _ _ _ _ _ _ _.

Record ectx (num : Type) := Ectx {
  m_ : matrix num;
  mStack_ : list (matrix num);           (* latest first *)
  aStack_ : list (attrs num);            (* latest first *)
  currentPath_ : list (seg num);
  currentX_ : num; currentY_ : num;      (* NaN before the first position *)
  props : attrs num;
  globalCompositeOperation : jsv num;    (* a property the code never reads *)
  element_ : list string;                (* the markup inserted, in order *)
  textMeasureEl_ : option string;        (* the text of the element that measures texts *)
  gradients : list (gradient num);
  fontStyleCache : list (string * font num);
}.
Arguments Ectx {num} _ _ _ _ _ _ _ _ _ _ _ _. Arguments m_ {num} _. Arguments mStack_ {num} _.
Arguments aStack_ {num} _. Arguments currentPath_ {num} _. Arguments currentX_ {num} _.
Arguments currentY_ {num} _. Arguments props {num} _. Arguments globalCompositeOperation {num} _.
Arguments element_ {num} _. Arguments textMeasureEl_ {num} _. Arguments gradients {num} _.
Arguments fontStyleCache {num} _.

(** ** Actions *)

(** An action ends with a value or an exception, and in both cases with a
    state. *)
Definition act (num A : Type) : Type := ectx num → result A * ectx num.

#[export] Instance act_ret num : MRet (act num) := λ A x c, (Ok x, c).
#[export] Instance act_bind num : MBind (act num) := λ A B k m c,
  match m c with
  | (Ok x, c) => k x c
  | (Throw e, c) => (Throw e, c)
  | (NoFuel, c) => (NoFuel, c)
  end.

Definition get {num} : act num (ectx num) := λ c, (Ok c, c).
Definition modify {num} (f : ectx num → ectx num) : act num () := λ c, (Ok (), f c).
Definition lift {num A} (r : result A) : act num A := λ c, (r, c).

Section state.
Context {num : Type}.
Implicit Types c : ectx num.

Definition with_m (m : matrix num) c : ectx num :=
  Ectx m (mStack_ c) (aStack_ c) (currentPath_ c) (currentX_ c) (currentY_ c) (props c)
    (globalCompositeOperation c) (element_ c) (textMeasureEl_ c) (gradients c) (fontStyleCache c).
Definition with_stacks (ms : list (matrix num)) (as_ : list (attrs num)) c : ectx num :=
  Ectx (m_ c) ms as_ (currentPath_ c) (currentX_ c) (currentY_ c) (props c)
    (globalCompositeOperation c) (element_ c) (textMeasureEl_ c) (gradients c) (fontStyleCache c).
Definition with_path (p : list (seg num)) c : ectx num :=
  Ectx (m_ c) (mStack_ c) (aStack_ c) p (currentX_ c) (currentY_ c) (props c)
    (globalCompositeOperation c) (element_ c) (textMeasureEl_ c) (gradients c) (fontStyleCache c).
Definition with_current (x y : num) c : ectx num :=
  Ectx (m_ c) (mStack_ c) (aStack_ c) (currentPath_ c) x y (props c)
    (globalCompositeOperation c) (element_ c) (textMeasureEl_ c) (gradients c) (fontStyleCache c).
Definition with_props (a : attrs num) c : ectx num :=
  Ectx (m_ c) (mStack_ c) (aStack_ c) (currentPath_ c) (currentX_ c) (currentY_ c) a
    (globalCompositeOperation c) (element_ c) (textMeasureEl_ c) (gradients c) (fontStyleCache c).
Definition with_composite (v : jsv num) c : ectx num :=
  Ectx (m_ c) (mStack_ c) (aStack_ c) (currentPath_ c) (currentX_ c) (currentY_ c) (props c)
    v (element_ c) (textMeasureEl_ c) (gradients c) (fontStyleCache c).
Definition with_element (e : list string) c : ectx num :=
  Ectx (m_ c) (mStack_ c) (aStack_ c) (currentPath_ c) (currentX_ c) (currentY_ c) (props c)
    (globalCompositeOperation c) e (textMeasureEl_ c) (gradients c) (fontStyleCache c).
Definition with_measure (t : option string) c : ectx num :=
  Ectx (m_ c) (mStack_ c) (aStack_ c) (currentPath_ c) (currentX_ c) (currentY_ c) (props c)
    (globalCompositeOperation c) (element_ c) t (gradients c) (fontStyleCache c).
Definition with_gradients (gs : list (gradient num)) c : ectx num :=
  Ectx (m_ c) (mStack_ c) (aStack_ c) (currentPath_ c) (currentX_ c) (currentY_ c) (props c)
    (globalCompositeOperation c) (element_ c) (textMeasureEl_ c) gs (fontStyleCache c).
Definition with_fonts (fs : list (string * font num)) c : ectx num :=
  Ectx (m_ c) (mStack_ c) (aStack_ c) (currentPath_ c) (currentX_ c) (currentY_ c) (props c)
    (globalCompositeOperation c) (element_ c) (textMeasureEl_ c) (gradients c) fs.

(** The assignments of properties by the program that draws. *)
Definition on_props (f : attrs num → attrs num) : act num () := modify (λ c, with_props (f (props c)) c).

Definition set_fillStyle (v : style num) (a : attrs num) : attrs num :=
  Attrs v (lineCap a) (lineJoin a) (lineWidth a) (miterLimit a) (shadowBlur a) (shadowColor a)
    (shadowOffsetX a) (shadowOffsetY a) (strokeStyle a) (globalAlpha a) (font_ a) (textAlign a)
    (textBaseline a) (arcScaleX_ a) (arcScaleY_ a) (lineScale_ a).
Definition set_strokeStyle (v : style num) (a : attrs num) : attrs num :=
  Attrs (fillStyle a) (lineCap a) (lineJoin a) (lineWidth a) (miterLimit a) (shadowBlur a) (shadowColor a)
    (shadowOffsetX a) (shadowOffsetY a) v (globalAlpha a) (font_ a) (textAlign a)
    (textBaseline a) (arcScaleX_ a) (arcScaleY_ a) (lineScale_ a).
Definition set_lineWidth (v : num) (a : attrs num) : attrs num :=
  Attrs (fillStyle a) (lineCap a) (lineJoin a) v (miterLimit a) (shadowBlur a) (shadowColor a)
    (shadowOffsetX a) (shadowOffsetY a) (strokeStyle a) (globalAlpha a) (font_ a) (textAlign a)
    (textBaseline a) (arcScaleX_ a) (arcScaleY_ a) (lineScale_ a).
Definition set_lineJoin (v : string) (a : attrs num) : attrs num :=
  Attrs (fillStyle a) (lineCap a) v (lineWidth a) (miterLimit a) (shadowBlur a) (shadowColor a)
    (shadowOffsetX a) (shadowOffsetY a) (strokeStyle a) (globalAlpha a) (font_ a) (textAlign a)
    (textBaseline a) (arcScaleX_ a) (arcScaleY_ a) (lineScale_ a).
Definition set_globalAlpha (v : num) (a : attrs num) : attrs num :=
  Attrs (fillStyle a) (lineCap a) (lineJoin a) (lineWidth a) (miterLimit a) (shadowBlur a) (shadowColor a)
    (shadowOffsetX a) (shadowOffsetY a) (strokeStyle a) v (font_ a) (textAlign a)
    (textBaseline a) (arcScaleX_ a) (arcScaleY_ a) (lineScale_ a).
Definition set_arcScale (x y : num) (a : attrs num) : attrs num :=
  Attrs (fillStyle a) (lineCap a) (lineJoin a) (lineWidth a) (miterLimit a) (shadowBlur a) (shadowColor a)
    (shadowOffsetX a) (shadowOffsetY a) (strokeStyle a) (globalAlpha a) (font_ a) (textAlign a)
    (textBaseline a) x y (lineScale_ a).
Definition set_lineScale (v : num) (a : attrs num) : attrs num :=
  Attrs (fillStyle a) (lineCap a) (lineJoin a) (lineWidth a) (miterLimit a) (shadowBlur a) (shadowColor a)
    (shadowOffsetX a) (shadowOffsetY a) (strokeStyle a) (globalAlpha a) (font_ a) (textAlign a)
    (textBaseline a) (arcScaleX_ a) (arcScaleY_ a) v.

(** [this.currentPath_.push(p)] *)
Definition push (p : seg num) : act num () := modify (λ c, with_path (currentPath_ c ++ [p]) c).

(** [this.element_.insertAdjacentHTML('beforeEnd', s)] *)
Definition insert_html (s : string) : act num () := modify (λ c, with_element (element_ c ++ [s]) c).
End state.

Section context.
Context {num : Type} `{Num num} `{MathLib num} `{MathAtan num} `{NumText num} `{NumRem num}.
Local Open Scope num_scope.
Implicit Types (c : ectx num) (m : matrix num).

(** Tenths of pixels, for the precision of the positions. *)
Definition Z_ : num := ⟨10⟩.
Definition Z2 : num := Z_ / ⟨2⟩.

Definition CanvasRenderingContext2D_ : ectx num :=
  Ectx createMatrixIdentity [] [] [] nnan nnan
    (Attrs (StyleText "#000") "butt" "miter" ⟨1⟩ (Z_ * ⟨1⟩) Undef Undef Undef Undef
       (StyleText "#000") ⟨1⟩ "10px sans-serif" "left" "alphabetic" ⟨1⟩ ⟨1⟩ ⟨1⟩)
    Undef [] None [] [].

(** The arguments are ignored: everything is cleared. *)
Definition clearRect : act num () := modify (λ c, with_element [] (with_measure None c)).

Definition beginPath : act num () := modify (with_path []).

Definition getCoords_ m (aX aY : num) : num * num :=
  (Z_ * (aX * at_ m 0 0 + aY * at_ m 1 0 + at_ m 2 0) - Z2,
   Z_ * (aX * at_ m 0 1 + aY * at_ m 1 1 + at_ m 2 1) - Z2).

(** ** Paths *)

Definition moveTo (aX aY : num) : act num () :=
  c ← get;
  let p := getCoords_ (m_ c) aX aY in
  push (SMoveTo p.1 p.2);; modify (with_current p.1 p.2).

Definition lineTo (aX aY : num) : act num () :=
  c ← get;
  let p := getCoords_ (m_ c) aX aY in
  push (SLineTo p.1 p.2);; modify (with_current p.1 p.2).

(** The helper that takes converted coordinates. *)
Definition bezier_to (cp1 cp2 p : num * num) : act num () :=
  push (SBezier cp1.1 cp1.2 cp2.1 cp2.2 p.1 p.2);; modify (with_current p.1 p.2).

Definition bezierCurveTo (aCP1x aCP1y aCP2x aCP2y aX aY : num) : act num () :=
  c ← get;
  let p := getCoords_ (m_ c) aX aY in
  let cp1 := getCoords_ (m_ c) aCP1x aCP1y in
  let cp2 := getCoords_ (m_ c) aCP2x aCP2y in
  bezier_to cp1 cp2 p.

Definition quadraticCurveTo (aCPx aCPy aX aY : num) : act num () :=
  c ← get;
  let cp := getCoords_ (m_ c) aCPx aCPy in
  let p := getCoords_ (m_ c) aX aY in
  let cp1 := (currentX_ c + ⟨2⟩ / ⟨3⟩ * (cp.1 - currentX_ c),
              currentY_ c + ⟨2⟩ / ⟨3⟩ * (cp.2 - currentY_ c)) in
  let cp2 := (cp1.1 + (p.1 - currentX_ c) / ⟨3⟩,
              cp1.2 + (p.2 - currentY_ c) / ⟨3⟩) in
  bezier_to cp1 cp2 p.

Definition arc (aX aY aRadius aStartAngle aEndAngle : num) (aClockwise : bool) : act num () :=
  let aRadius := aRadius * Z_ in
  let arcType := if aClockwise then "at" else "wa" in
  let xStart := aX + math_cos aStartAngle * aRadius - Z2 in
  let yStart := aY + math_sin aStartAngle * aRadius - Z2 in
  let xEnd := aX + math_cos aEndAngle * aRadius - Z2 in
  let yEnd := aY + math_sin aEndAngle * aRadius - Z2 in
  let xStart := if (xStart =? xEnd) && negb aClockwise then xStart + of_ratio 1 8 else xStart in
  c ← get;
  let p := getCoords_ (m_ c) aX aY in
  let pStart := getCoords_ (m_ c) xStart yStart in
  let pEnd := getCoords_ (m_ c) xEnd yEnd in
  push (SArc arcType p.1 p.2 aRadius pStart.1 pStart.2 pEnd.1 pEnd.2).

Definition closePath : act num () := push SClose.

(** The path of [rect], [strokeRect] and [fillRect]. *)
Definition rect (aX aY aWidth aHeight : num) : act num () :=
  moveTo aX aY;;
  lineTo (aX + aWidth) aY;;
  lineTo (aX + aWidth) (aY + aHeight);;
  lineTo aX (aY + aHeight);;
  closePath.

(** ** Transformations *)

Definition save : act num () := modify (λ c,
  with_m (matrixMultiply createMatrixIdentity (m_ c))
    (with_stacks (m_ c :: mStack_ c) (copyState (props c) (props c) :: aStack_ c) c)).

Definition restore : act num () := modify (λ c,
  match aStack_ c with
  | o :: as_ =>
      with_m (default [] (head (mStack_ c)))
        (with_stacks (tail (mStack_ c)) as_ (with_props (copyState o (props c)) c))
  | [] => c
  end).

Definition setM m (updateLineScale : bool) : act num () := modify (λ c,
  if negb (matrixIsFinite m) then c
  else
    let c := with_m m c in
    if updateLineScale then
      let det := at_ m 0 0 * at_ m 1 1 - at_ m 0 1 * at_ m 1 0 in
      with_props (set_lineScale (math_sqrt (nabs det)) (props c)) c
    else c).

Definition translate (aX aY : num) : act num () :=
  let m1 := [[⟨1⟩; ⟨0⟩; ⟨0⟩]; [⟨0⟩; ⟨1⟩; ⟨0⟩]; [aX; aY; ⟨1⟩]] in
  c ← get; setM (matrixMultiply m1 (m_ c)) false.

Definition rotate (aRot : num) : act num () :=
  let co := math_cos aRot in
  let s := math_sin aRot in
  let m1 := [[co; s; ⟨0⟩]; [- s; co; ⟨0⟩]; [⟨0⟩; ⟨0⟩; ⟨1⟩]] in
  c ← get; setM (matrixMultiply m1 (m_ c)) false.

Definition scale (aX aY : num) : act num () :=
  on_props (λ a, set_arcScale (arcScaleX_ a * aX) (arcScaleY_ a * aY) a);;
  let m1 := [[aX; ⟨0⟩; ⟨0⟩]; [⟨0⟩; aY; ⟨0⟩]; [⟨0⟩; ⟨0⟩; ⟨1⟩]] in
  c ← get; setM (matrixMultiply m1 (m_ c)) true.

Definition transform (m11 m12 m21 m22 dx dy : num) : act num () :=
  let m1 := [[m11; m12; ⟨0⟩]; [m21; m22; ⟨0⟩]; [dx; dy; ⟨1⟩]] in
  c ← get; setM (matrixMultiply m1 (m_ c)) true.

Definition setTransform (m11 m12 m21 m22 dx dy : num) : act num () :=
  setM [[m11; m12; ⟨0⟩]; [m21; m22; ⟨0⟩]; [dx; dy; ⟨1⟩]] true.

(** ** Gradients *)

(** Creates a gradient object; the result names it. *)
Definition new_gradient (g : gradient num) : act num nat :=
  c ← get;
  modify (with_gradients (gradients c ++ [g]));; mret (length (gradients c)).

Definition createLinearGradient (aX0 aY0 aX1 aY1 : num) : act num nat :=
  let g := CanvasGradient_ "gradient" in
  new_gradient (Gradient (type_ g) aX0 aY0 (r0_ g) aX1 aY1 (r1_ g) (colors_ g)).

Definition createRadialGradient (aX0 aY0 aR0 aX1 aY1 aR1 : num) : act num nat :=
  let g := CanvasGradient_ "gradientradial" in
  new_gradient (Gradient (type_ g) aX0 aY0 aR0 aX1 aY1 aR1 (colors_ g)).

(** [gradient.addColorStop(aOffset, aColor)] *)
Definition add_color_stop (id : nat) (aOffset : num) (aColor : string) : act num () :=
  c ← get;
  match gradients c !! id with
  | Some g => g ← lift (addColorStop aOffset aColor g); modify (with_gradients (<[id := g]> (gradients c)))
  | None => lift (Throw "TypeError")
  end.

(** ** Markup *)

(** [name="value"] *)
Definition attr (name value : string) : string := name +:+ "=" +:+ dq +:+ value +:+ dq.
Definition bool_text (b : bool) : string := if b then "true" else "false".

(** [String(style)] *)
Definition style_text (s : style num) : string :=
  match s with StyleText s => s | _ => "[object Object]" end.

(** The commands of a VML path, with their rounded positions. *)
Inductive cmd :=
  | CmdMove (x y : num)
  | CmdLine (x y : num)
  | CmdClose
  | CmdCurve (cp1x cp1y cp2x cp2y x y : num)
  | CmdArc (type : string) (l t r b xStart yStart xEnd yEnd : num).

Definition pair_text (x y : num) : string := to_string x +:+ "," +:+ to_string y.

Definition cmd_text (k : cmd) : string :=
  match k with
  | CmdMove x y => " m " +:+ pair_text x y
  | CmdLine x y => " l " +:+ pair_text x y
  | CmdClose => " x "
  | CmdCurve a b d e x y => " c " +:+ pair_text a b +:+ "," +:+ pair_text d e +:+ "," +:+ pair_text x y
  | CmdArc type l t r b xs ys xe ye =>
      " " +:+ type +:+ " " +:+ pair_text l t +:+ " " +:+ pair_text r b +:+ " " +:+
      pair_text xs ys +:+ " " +:+ pair_text xe ye
  end.

Definition seg_cmd (arcScaleX arcScaleY : num) (p : seg num) : cmd :=
  match p with
  | SMoveTo x y => CmdMove (nround x) (nround y)
  | SLineTo x y => CmdLine (nround x) (nround y)
  | SClose => CmdClose
  | SBezier a b d e x y => CmdCurve (nround a) (nround b) (nround d) (nround e) (nround x) (nround y)
  | SArc type x y r xs ys xe ye =>
      CmdArc type (nround (x - arcScaleX * r)) (nround (y - arcScaleY * r))
        (nround (x + arcScaleX * r)) (nround (y + arcScaleY * r))
        (nround xs) (nround ys) (nround xe) (nround ye)
  end.

(** [p.x] and [p.y]; a close has none. *)
Definition seg_xy (p : seg num) : option (num * num) :=
  match p with
  | SMoveTo x y | SLineTo x y | SBezier _ _ _ _ x y | SArc _ x y _ _ _ _ _ => Some (x, y)
  | SClose => None
  end.

(** The bounds of the positions: [null] before the first. *)
Record bounds := Bounds { min_x : option num; min_y : option num; max_x : option num; max_y : option num }.
Definition no_bounds : bounds := Bounds None None None None.

(** [if (b == null || v < b) b = v] and its opposite. *)
Definition lower (b : option num) (v : num) : option num :=
  match b with Some w => if v <? w then Some v else b | None => Some v end.
Definition upper (b : option num) (v : num) : option num :=
  match b with Some w => if v >? w then Some v else b | None => Some v end.
Definition extend_bounds (b : bounds) (p : seg num) : bounds :=
  match seg_xy p with
  | Some (x, y) =>
      Bounds (lower (min_x b) x) (lower (min_y b) y) (upper (max_x b) x) (upper (max_y b) y)
  | None => b
  end.

(** A bound in arithmetic: [null] is zero. *)
Definition bound (b : option num) : num := default ⟨0⟩ b.

(** The stroke of a shape: its color, opacity and width. *)
Definition stroke_brush (a : attrs num) : result (string * num * num) :=
  '(color, alpha) ← processStyle (style_text (strokeStyle a));
  let opacity := to_num alpha * globalAlpha a in
  let width := lineScale_ a * lineWidth a in
  let opacity := if width <? ⟨1⟩ then opacity * width else opacity in
  Ok (color, opacity, width).

Definition appendStroke (lineStr : string) : act num string :=
  c ← get;
  let a := props c in
  '(color, opacity, width) ← lift (stroke_brush a);
  mret (lineStr +:+ "<g_vml_:stroke" +:+ attr " opacity" (to_string opacity) +:+
        attr " joinstyle" (lineJoin a) +:+ attr " miterlimit" (to_string (miterLimit a)) +:+
        attr " endcap" (processLineCap (lineCap a)) +:+ attr " weight" (to_string width +:+ "px") +:+
        attr " color" color +:+ " />").

(** The direction of a linear gradient, in degrees. *)
Definition gradient_angle c (g : gradient num) : num :=
  let x0 := x0_ g / arcScaleX_ (props c) in
  let y0 := y0_ g / arcScaleY_ (props c) in
  let x1 := x1_ g / arcScaleX_ (props c) in
  let y1 := y1_ g / arcScaleY_ (props c) in
  let p0 := getCoords_ (m_ c) x0 y0 in
  let p1 := getCoords_ (m_ c) x1 y1 in
  let dx := p1.1 - p0.1 in
  let dy := p1.2 - p0.2 in
  let angle := math_atan2 dx dy * ⟨180⟩ / math_pi in
  let angle := if angle <? ⟨0⟩ then angle + ⟨360⟩ else angle in
  if angle <? of_ratio 1 1000000 then ⟨0⟩ else angle.

(** The angle, focus, shift and expansion of a gradient in a shape. *)
Definition gradient_frame c (g : gradient num) (b : bounds) : num * (num * num) * num * num :=
  let width := bound (max_x b) - bound (min_x b) in
  let height := bound (max_y b) - bound (min_y b) in
  if String.eqb (type_ g) "gradient" then (gradient_angle c g, (⟨0⟩, ⟨0⟩), ⟨0⟩, ⟨1⟩)
  else
    let p0 := getCoords_ (m_ c) (x0_ g) (y0_ g) in
    let focus := ((p0.1 - bound (min_x b)) / width, (p0.2 - bound (min_y b)) / height) in
    let width := width / (arcScaleX_ (props c) * Z_) in
    let height := height / (arcScaleY_ (props c) * Z_) in
    let dimension := nmax width height in
    let shift := ⟨2⟩ * r0_ g / dimension in
    (⟨0⟩, focus, shift, ⟨2⟩ * r1_ g / dimension - shift).

Definition appendFill (lineStr : string) (b : bounds) : act num string :=
  c ← get;
  let a := props c in
  let width := bound (max_x b) - bound (min_x b) in
  let height := bound (max_y b) - bound (min_y b) in
  match fillStyle a with
  | StyleGradient id =>
      match gradients c !! id with
      | None => lift (Throw "TypeError")
      | Some g =>
          let '(angle, focus, shift, expansion) := gradient_frame c g b in
          let stops := sort_stops (colors_ g) in
          modify (with_gradients (<[id := with_colors stops g]> (gradients c)));;
          match head stops, last stops with
          | Some first, Some final =>
              let colors := (λ s, to_string (st_offset s * expansion + shift) +:+ " " +:+ st_color s) <$> stops in
              mret (lineStr +:+ attr "<g_vml_:fill type" (type_ g) +:+ attr " method" "none" +:+
                    attr " focus" "100%" +:+ attr " color" (st_color first) +:+
                    attr " color2" (st_color final) +:+ attr " colors" (str_join "," colors) +:+
                    attr " opacity" (to_string (to_num (st_alpha final) * globalAlpha a)) +:+
                    attr " g_o_:opacity2" (to_string (to_num (st_alpha first) * globalAlpha a)) +:+
                    attr " angle" (to_string angle) +:+ attr " focusposition" (pair_text focus.1 focus.2) +:+ " />")
          | _, _ => lift (Throw "TypeError")
          end
      end
  | StylePattern p =>
      mret (if ntruthy width && ntruthy height then
              let deltaLeft := - bound (min_x b) in
              let deltaTop := - bound (min_y b) in
              lineStr +:+ "<g_vml_:fill" +:+
              attr " position" (pair_text (deltaLeft / width * arcScaleX_ a * arcScaleX_ a)
                                          (deltaTop / height * arcScaleY_ a * arcScaleY_ a)) +:+
              attr " type" "tile" +:+ attr " src" (src_ p) +:+ " />"
            else lineStr)
  | StyleText s =>
      '(color, alpha) ← lift (processStyle s);
      mret (lineStr +:+ attr "<g_vml_:fill color" color +:+
            attr " opacity" (to_string (to_num alpha * globalAlpha a)) +:+ " />")
  end.

(** ** Stroking and filling *)

Definition chunkSize : nat := Z.to_nat 5000.

(** The commands of the elements from [j], up to [chunkSize] of them; a chunk
    that is not the first moves to the last position of the one before. *)
Definition chunk_cmds (a : attrs num) (path : list (seg num)) (j : nat) : list cmd :=
  concat ((λ i,
    (if (i mod chunkSize =? 0)%nat && (0 <? i)%nat then
       let '(x, y) := default (nnan, nnan) (path !! pred i ≫= seg_xy) in [CmdMove (nround x) (nround y)]
     else []) ++
    match path !! i with Some p => [seg_cmd (arcScaleX_ a) (arcScaleY_ a) p] | None => [] end)
  <$> seq j (Nat.min (j + chunkSize) (length path) - j)).

Definition chunk_bounds (path : list (seg num)) (j : nat) (b : bounds) : bounds :=
  foldl extend_bounds b (take chunkSize (drop j path)).

Definition shape_open (aFill : bool) : string :=
  "<g_vml_:shape" +:+ attr " filled" (bool_text aFill) +:+
  attr " style" "position:absolute;width:10px;height:10px;" +:+
  attr " coordorigin" "0,0" +:+ attr " coordsize" "100,100" +:+
  attr " stroked" (bool_text (negb aFill)) +:+ " path=" +:+ dq.

(** One shape of the loop; the bounds go on from chunk to chunk. *)
Definition stroke_chunk (aFill : bool) (j : nat) (b : bounds) : act num bounds :=
  c ← get;
  let b := chunk_bounds (currentPath_ c) j b in
  let lineStr := shape_open aFill +:+ str_join "" (cmd_text <$> chunk_cmds (props c) (currentPath_ c) j) +:+
                 " " +:+ dq +:+ ">" in
  lineStr ← (if aFill then appendFill lineStr b else appendStroke lineStr);
  insert_html (lineStr +:+ "</g_vml_:shape>");; mret b.

(** [for (j = 0; j < length; j += chunkSize)] *)
Fixpoint stroke_loop (aFill : bool) (fuel j : nat) (b : bounds) : act num () :=
  c ← get;
  if (j <? length (currentPath_ c))%nat then
    match fuel with
    | O => lift NoFuel
    | S fuel => b ← stroke_chunk aFill j b; stroke_loop aFill fuel (j + chunkSize)%nat b
    end
  else mret ().

Definition stroke (aFill : bool) : act num () :=
  c ← get; stroke_loop aFill (length (currentPath_ c)) 0 no_bounds.

Definition fill : act num () := stroke true.

Definition strokeRect (aX aY aWidth aHeight : num) : act num () :=
  c ← get;
  beginPath;; rect aX aY aWidth aHeight;; stroke false;;
  modify (with_path (currentPath_ c)).

Definition fillRect (aX aY aWidth aHeight : num) : act num () :=
  c ← get;
  beginPath;; rect aX aY aWidth aHeight;; fill;;
  modify (with_path (currentPath_ c)).
End context.
Arguments chunkSize : simpl never.
