(* ===== verification/VmlPage.v ===== *)
(** Images and text in the canvas emulation, [static/flot/excanvas.js], and
    the canvas elements of the page: their initialization and their events. *)

From S2P Require Import Prelude Numbers JsText JsValue VmlStyle VmlContext.

Section page.
Context {num : Type} `{Num num} `{MathLib num} `{MathAtan num} `{NumText num} `{NumRem num}.
Local Open Scope num_scope.
Implicit Types (c : ectx num) (m : matrix num).

(** What the browser computes: how it reads fonts, the size of the font and
    the direction of the element of the context, the width of a text in a
    font. *)
Variable css_font : string → string * string * string * string * string.
Variable currentFontSize : string.
Variable direction : string.
Variable offsetWidth : string → string → num.

(** ** Images *)

(** The source rectangle and the destination rectangle, by the number of
    arguments after the image, whose own size is [w] by [h]. *)
Definition image_args (w h : num) (args : list num) : result ((num * num * num * num) * (num * num * num * num)) :=
  match args with
  | [dx; dy] => Ok ((⟨0⟩, ⟨0⟩, w, h), (dx, dy, w, h))
  | [dx; dy; dw; dh] => Ok ((⟨0⟩, ⟨0⟩, w, h), (dx, dy, dw, dh))
  | [sx; sy; sw; sh; dx; dy; dw; dh] => Ok ((sx, sy, sw, sh), (dx, dy, dw, dh))
  | _ => Throw "Invalid number of arguments"
  end.

Definition nmax4 (a b x y : num) : num := nmax (nmax (nmax a b) x) y.

(** The matrix needs a filter unless it only translates. *)
Definition needs_filter m : bool :=
  (at_ m 0 0 ≠? ⟨1⟩) || ntruthy (at_ m 0 1) || (at_ m 1 1 ≠? ⟨1⟩) || ntruthy (at_ m 1 0).

(** Where the image goes: its position, or a filter and the padding that
    bounds the rectangle it covers. *)
Definition image_place m (dx dy dw dh : num) : string :=
  let d := getCoords_ m dx dy in
  if needs_filter m then
    let filter := "M11=" +:+ to_string (at_ m 0 0) +:+ ",M12=" +:+ to_string (at_ m 1 0) +:+
                  ",M21=" +:+ to_string (at_ m 0 1) +:+ ",M22=" +:+ to_string (at_ m 1 1) +:+
                  ",Dx=" +:+ to_string (nround (d.1 / Z_)) +:+ ",Dy=" +:+ to_string (nround (d.2 / Z_)) in
    let c2 := getCoords_ m (dx + dw) dy in
    let c3 := getCoords_ m dx (dy + dh) in
    let c4 := getCoords_ m (dx + dw) (dy + dh) in
    "padding:0 " +:+ to_string (nround (nmax4 d.1 c2.1 c3.1 c4.1 / Z_)) +:+ "px " +:+
    to_string (nround (nmax4 d.2 c2.2 c3.2 c4.2 / Z_)) +:+
    "px 0;filter:progid:DXImageTransform.Microsoft.Matrix(" +:+ filter +:+ ", sizingmethod='clip');"
  else
    "top:" +:+ to_string (nround (d.2 / Z_)) +:+ "px;left:" +:+ to_string (nround (d.1 / Z_)) +:+ "px;".

(** [drawImage(image, ...args)]; the style of the image is overridden while
    its size is read, and put back. *)
Definition drawImage (image : image_el num) (args : list num) : act num () :=
  let w := im_width image in
  let h := im_height image in
  '((sx, sy, sw, sh), (dx, dy, dw, dh)) ← lift (image_args w h args);
  c ← get;
  insert_html
    (" <g_vml_:group" +:+ attr " coordsize" "100,100" +:+ attr " coordorigin" "0,0" +:+
     " style=" +:+ dq +:+ "width:10px;height:10px;position:absolute;" +:+ image_place (m_ c) dx dy dw dh +:+
     " " +:+ dq +:+ ">" +:+ attr "<g_vml_:image src" (im_src image) +:+
     attr " style" ("width:" +:+ to_string (Z_ * dw) +:+ "px; height:" +:+ to_string (Z_ * dh) +:+ "px") +:+
     attr " cropleft" (to_string (sx / w)) +:+ attr " croptop" (to_string (sy / h)) +:+
     attr " cropright" (to_string ((w - sx - sw) / w)) +:+
     attr " cropbottom" (to_string ((h - sy - sh) / h)) +:+ " />" +:+ "</g_vml_:group>").

(** ** Text *)

Definition process_font (s : string) : act num (font num) :=
  c ← get;
  let '(f, cache) := processFontStyle css_font (fontStyleCache c) s in
  modify (with_fonts cache);; mret f.

(** [left], [center] or [right]. *)
Definition text_align (textAlign : string) : string :=
  match to_lower textAlign with
  | "left" => "left" | "center" => "center" | "right" => "right"
  | "end" => if String.eqb direction "ltr" then "right" else "left"
  | "start" => if String.eqb direction "rtl" then "right" else "left"
  | _ => "left"
  end.

(** The shift of the text for its baseline; [size] is the size of the font. *)
Definition baseline_offset (textBaseline : string) (size : num) : num :=
  match textBaseline with
  | "hanging" | "top" => size / of_ratio 7 4
  | "middle" => ⟨0⟩
  | _ => - size / of_ratio 9 4
  end.

(** The ends of the line on which the text is laid. *)
Definition text_span (align : string) : num * num :=
  let delta := ⟨1000⟩ in
  match align with
  | "right" => (delta, of_ratio 1 20)
  | "center" => (delta / ⟨2⟩, delta / ⟨2⟩)
  | _ => (⟨0⟩, delta)
  end.

Definition drawText_ (text : string) (x y : num) (stroke : bool) : act num () :=
  c ← get;
  let m := m_ c in
  fontStyle ← process_font (font_ (props c));
  let fontStyle := getComputedStyle fontStyle currentFontSize in
  let align := text_align (textAlign (props c)) in
  let size := to_num (f_size fontStyle) in
  let '(left_, right_) := text_span align in
  let d := getCoords_ m (x + ⟨0⟩) (y + baseline_offset (textBaseline (props c)) size) in
  let lineStr :=
    "<g_vml_:line from=" +:+ dq +:+ to_string (- left_) +:+ " 0" +:+ dq +:+
    " to=" +:+ dq +:+ to_string right_ +:+ " 0.05" +:+ dq +:+ " " +:+
    attr " coordsize" "100 100" +:+ attr " coordorigin" "0 0" +:+
    attr " filled" (bool_text (negb stroke)) +:+ attr " stroked" (bool_text stroke) +:+
    attr " style" "position:absolute;width:1px;height:1px;" +:+ ">" in
  lineStr ← (if stroke then appendStroke lineStr
             else appendFill lineStr (Bounds (Some (- left_)) (Some ⟨0⟩) (Some right_) (Some size)));
  let skewM := str_join "," [to_fixed (at_ m 0 0) 3; to_fixed (at_ m 1 0) 3;
                             to_fixed (at_ m 0 1) 3; to_fixed (at_ m 1 1) 3; "0"; "0"] in
  let skewOffset := pair_text (nround (d.1 / Z_)) (nround (d.2 / Z_)) in
  insert_html
    (lineStr +:+ attr "<g_vml_:skew on" "t" +:+ attr " matrix" skewM +:+ " " +:+
     attr " offset" skewOffset +:+ attr " origin" (to_string left_ +:+ " 0") +:+ " />" +:+
     attr "<g_vml_:path textpathok" "true" +:+ " />" +:+ attr "<g_vml_:textpath on" "true" +:+
     attr " string" (encodeHtmlAttribute text) +:+
     attr " style" ("v-text-align:" +:+ align +:+ ";font:" +:+ encodeHtmlAttribute (buildStyle fontStyle)) +:+
     " /></g_vml_:line>").

Definition fillText (text : string) (x y : num) : act num () := drawText_ text x y false.
Definition strokeText (text : string) (x y : num) : act num () := drawText_ text x y true.

Definition measure_span : string :=
  attr "<span style" "position:absolute;top:-20000px;left:0;padding:0;margin:0;border:none;white-space:pre;"
  +:+ "></span>".

(** The width of the text, measured in an element that is created once. *)
Definition measureText (text : string) : act num num :=
  c ← get;
  match textMeasureEl_ c with Some _ => mret () | None => insert_html measure_span end;;
  modify (with_measure (Some text));;
  mret (offsetWidth (font_ (props c)) text).

(** Not implemented by the code. *)
Definition clip : act num () := mret ().
Definition arcTo : act num () := mret ().

(** ** Elements *)

(** A canvas element: whether it has [getContext], its context, its
    attributes (where they are specified), the sizes that are assigned to its
    properties and styles, its listeners, and the size of the element of the
    context, its first child. *)
Record canvas_el := CanvasEl {
  el_getContext : bool; context_ : option (ectx num);
  attr_width : option string; attr_height : option string;
  el_width : option num; el_height : option num;
  style_width : string; style_height : string;
  listeners : list string;
  child_width : string; child_height : string;
}.

(** The document: namespaces, style sheets, listeners. *)
Record document := Document {
  namespaces : list (string * string); styleSheets : list string; doc_listeners : list string;
}.

Definition add_namespace (name uri : string) (doc : document) : document :=
  if existsb (λ n, String.eqb (fst n) name) (namespaces doc) then doc
  else Document (namespaces doc ++ [(name, uri)]) (styleSheets doc) (doc_listeners doc).

Definition addNamespacesAndStylesheet (doc : document) : document :=
  let doc := add_namespace "g_vml_" "urn:schemas-microsoft-com:vml" doc in
  let doc := add_namespace "g_o_" "urn:schemas-microsoft-com:office:office" doc in
  if existsb (String.eqb "ex_canvas_") (styleSheets doc) then doc
  else Document (namespaces doc) (styleSheets doc ++ ["ex_canvas_"]) (doc_listeners doc).

(** The layout of the browser. *)
Variable clientWidth clientHeight : canvas_el → num.

Definition px (x : num) : string := to_string x +:+ "px".

(** [getContext()]: the context is created once, with an element of the size
    of the canvas. *)
Definition getContext (el : canvas_el) : ectx num * canvas_el :=
  match context_ el with
  | Some c => (c, el)
  | None =>
      let c := CanvasRenderingContext2D_ in
      (c, CanvasEl (el_getContext el) (Some c) (attr_width el) (attr_height el) (el_width el) (el_height el)
            (style_width el) (style_height el) (listeners el) (px (clientWidth el)) (px (clientHeight el)))
  end.

Definition with_context (c : ectx num) (el : canvas_el) : canvas_el :=
  CanvasEl (el_getContext el) (Some c) (attr_width el) (attr_height el) (el_width el) (el_height el)
    (style_width el) (style_height el) (listeners el) (child_width el) (child_height el).
Definition with_style_width (w : string) (el : canvas_el) : canvas_el :=
  CanvasEl (el_getContext el) (context_ el) (attr_width el) (attr_height el) (el_width el) (el_height el)
    w (style_height el) (listeners el) (child_width el) (child_height el).
Definition with_style_height (h : string) (el : canvas_el) : canvas_el :=
  CanvasEl (el_getContext el) (context_ el) (attr_width el) (attr_height el) (el_width el) (el_height el)
    (style_width el) h (listeners el) (child_width el) (child_height el).
Definition with_child (w h : string) (el : canvas_el) : canvas_el :=
  CanvasEl (el_getContext el) (context_ el) (attr_width el) (attr_height el) (el_width el) (el_height el)
    (style_width el) (style_height el) (listeners el) w h.

(** [initElement(el)], with the document of the element. *)
Definition initElement (el : canvas_el) (doc : document) : canvas_el * document :=
  if el_getContext el then (el, doc)
  else
    let doc := addNamespacesAndStylesheet doc in
    let el := CanvasEl true (context_ el) (attr_width el) (attr_height el) (el_width el) (el_height el)
                (style_width el) (style_height el) (listeners el ++ ["onpropertychange"; "onresize"])
                (child_width el) (child_height el) in
    let el := match attr_width el with
              | Some w => with_style_width (w +:+ "px") el
              | None => CanvasEl true (context_ el) (attr_width el) (attr_height el) (Some (clientWidth el))
                          (el_height el) (style_width el) (style_height el) (listeners el)
                          (child_width el) (child_height el)
              end in
    let el := match attr_height el with
              | Some h => with_style_height (h +:+ "px") el
              | None => CanvasEl true (context_ el) (attr_width el) (attr_height el) (el_width el)
                          (Some (clientHeight el)) (style_width el) (style_height el) (listeners el)
                          (child_width el) (child_height el)
              end in
    (el, doc).

(** [init_(doc)]: the canvas elements of the document. *)
Definition init_ (els : list canvas_el) (doc : document) : list canvas_el * document :=
  foldl (λ '(done, doc) el, let '(el, doc) := initElement el doc in (done ++ [el], doc)) ([], doc) els.

(** [init()]: on Internet Explorer the elements are initialized as the
    document loads. *)
Definition init (msie opera : bool) (doc : document) : document :=
  if msie && negb opera
  then Document (namespaces doc) (styleSheets doc) (doc_listeners doc ++ ["onreadystatechange"])
  else doc.

(** [el.getContext().clearRect()] *)
Definition clear_element (el : canvas_el) : canvas_el :=
  let '(c, el) := getContext el in with_context (clearRect c).2 el.

Definition onPropertyChange (propertyName : string) (el : canvas_el) : result canvas_el :=
  match propertyName with
  | "width" =>
      let el := clear_element el in
      match attr_width el with
      | Some w => let el := with_style_width (w +:+ "px") el in
                  Ok (with_child (px (clientWidth el)) (child_height el) el)
      | None => Throw "TypeError"
      end
  | "height" =>
      let el := clear_element el in
      match attr_height el with
      | Some h => let el := with_style_height (h +:+ "px") el in
                  Ok (with_child (child_width el) (px (clientHeight el)) el)
      | None => Throw "TypeError"
      end
  | _ => Ok el
  end.

(** The element of the context is there once the context was asked for. *)
Definition onResize (el : canvas_el) : canvas_el :=
  match context_ el with
  | Some _ => with_child (px (clientWidth el)) (px (clientHeight el)) el
  | None => el
  end.
End page.
