(* ===== verification/VmlMatrix.v ===== *)
(** Matrices and positions of the canvas emulation over exact numbers: the
    transformations compose as affine maps, and a quadratic curve is the cubic
    that stands for it. *)

From S2P Require Import Prelude Numbers ExactNum JsText JsValue VmlStyle VmlContext.
From Stdlib Require Import QArith Lqa Setoid Morphisms.

#[local] Open Scope Q_scope.

(** ** Equality of exact numbers *)

(** Rationals with several representations are the same number. *)
Definition xeq (x y : xq) : Prop :=
  match x, y with XFin a, XFin b => a == b | XFin _, _ | _, XFin _ => False | _, _ => x = y end.
Infix "≈" := xeq (at level 70, no associativity).

#[export] Instance xeq_equivalence : Equivalence xeq.
Proof.
  split.
  - intros [a|s|]; cbn; reflexivity.
  - intros [a|s|] [b|t|]; cbn; try done; intros E; by symmetry.
  - intros [a|s|] [b|t|] [d|u|]; cbn; try done; intros A B; first [by rewrite A|congruence].
Qed.

Ltac xeq_proper := intros [a|s|] [b|t|] E [d|u|] [e|v|] F; cbn in *; try done; simplify_eq; try done.

#[export] Instance sign_proper : Proper (Qeq ==> eq) Exact.sign.
Proof. intros a b E. unfold Exact.sign. by rewrite E. Qed.

#[export] Instance nadd_proper : Proper (xeq ==> xeq ==> xeq) (nadd (num := xq)).
Proof. xeq_proper; try (by rewrite E, F); by case_match. Qed.
#[export] Instance nneg_proper : Proper (xeq ==> xeq) (nneg (num := xq)).
Proof. intros [a|s|] [b|t|] E; cbn in *; try done; simplify_eq; try done. by rewrite E. Qed.
#[export] Instance nsub_proper : Proper (xeq ==> xeq ==> xeq) (nsub (num := xq)).
Proof. xeq_proper; try (by rewrite E, F); by repeat case_match. Qed.
#[export] Instance nmul_proper : Proper (xeq ==> xeq ==> xeq) (nmul (num := xq)).
Proof.
  xeq_proper; try (by rewrite E, F); try (by rewrite E; case_match); try (by rewrite F; case_match).
Qed.

Lemma xeq_fin x q : x ≈ XFin q → ∃ p, x = XFin p ∧ p == q.
Proof. destruct x as [p|s|]; [eauto|done..]. Qed.

(** ** Affine maps *)

(** [(x, y)] goes to [(x a + y c + e, x b + y d + f)]. *)
Record affine := Affine { af_a : Q; af_b : Q; af_c : Q; af_d : Q; af_e : Q; af_f : Q }.

Definition af_apply (T : affine) (p : Q * Q) : Q * Q :=
  (p.1 * af_a T + p.2 * af_c T + af_e T, p.1 * af_b T + p.2 * af_d T + af_f T).

(** First [S], then [T]. *)
Definition af_then (S T : affine) : affine :=
  Affine (af_a S * af_a T + af_b S * af_c T) (af_a S * af_b T + af_b S * af_d T)
         (af_c S * af_a T + af_d S * af_c T) (af_c S * af_b T + af_d S * af_d T)
         (af_e S * af_a T + af_f S * af_c T + af_e T) (af_e S * af_b T + af_f S * af_d T + af_f T).

Definition af_id : affine := Affine 1 0 0 1 0 0.
Definition af_translate (x y : Q) : affine := Affine 1 0 0 1 x y.
Definition af_scale (x y : Q) : affine := Affine x 0 0 y 0 0.

(** The positions as pairs, up to the representation of their coordinates. *)
Definition pt_eq (p q : Q * Q) : Prop := p.1 == q.1 ∧ p.2 == q.2.

Lemma af_then_apply S T p : pt_eq (af_apply (af_then S T) p) (af_apply T (af_apply S p)).
Proof. split; cbn; ring. Qed.

(** The matrix is that of the affine map. *)
Definition is_affine (m : matrix xq) (T : affine) : Prop :=
  (at_ m 0 0 ≈ XFin (af_a T) ∧ at_ m 0 1 ≈ XFin (af_b T) ∧ at_ m 0 2 ≈ XFin 0) ∧
  (at_ m 1 0 ≈ XFin (af_c T) ∧ at_ m 1 1 ≈ XFin (af_d T) ∧ at_ m 1 2 ≈ XFin 0) ∧
  (at_ m 2 0 ≈ XFin (af_e T) ∧ at_ m 2 1 ≈ XFin (af_f T) ∧ at_ m 2 2 ≈ XFin 1).

Lemma identity_affine : is_affine createMatrixIdentity af_id.
Proof. by repeat split. Qed.

Lemma at_multiply (m1 m2 : matrix xq) x y :
  (x < 3)%nat → (y < 3)%nat →
  at_ (matrixMultiply m1 m2) x y =
  (⟨0⟩ + at_ m1 x 0 * at_ m2 0 y + at_ m1 x 1 * at_ m2 1 y + at_ m1 x 2 * at_ m2 2 y)%num.
Proof. intros Hx Hy. destruct x as [|[|[|]]], y as [|[|[|]]]; try lia; reflexivity. Qed.

(** Multiplying by a matrix on the left applies its map first. *)
Lemma multiply_affine m1 m2 S T :
  is_affine m1 S → is_affine m2 T → is_affine (matrixMultiply m1 m2) (af_then S T).
Proof.
  intros ((A0 & A1 & A2) & (A3 & A4 & A5) & A6 & A7 & A8) ((B0 & B1 & B2) & (B3 & B4 & B5) & B6 & B7 & B8).
  unfold is_affine. rewrite !at_multiply by lia.
  rewrite A0, A1, A2, A3, A4, A5, A6, A7, A8, B0, B1, B2, B3, B4, B5, B6, B7, B8.
  repeat split; cbn; ring.
Qed.

(** The copy of the matrix that [save] makes. *)
Lemma identity_multiply_affine m T : is_affine m T → is_affine (matrixMultiply createMatrixIdentity m) T.
Proof.
  intros HT. pose proof (multiply_affine _ _ _ _ identity_affine HT) as ((A0 & A1 & A2) & (A3 & A4 & A5) & A6 & A7 & A8).
  unfold is_affine. rewrite A0, A1, A2, A3, A4, A5, A6, A7, A8. repeat split; cbn; ring.
Qed.

(** Positions are kept in tenths of pixels, shifted by half a pixel. *)
Definition device (p : Q * Q) : Q * Q := (10 * p.1 - 5, 10 * p.2 - 5).

Lemma getCoords_affine m T x y :
  is_affine m T →
  (getCoords_ m (XFin x) (XFin y)).1 ≈ XFin (device (af_apply T (x, y))).1 ∧
  (getCoords_ m (XFin x) (XFin y)).2 ≈ XFin (device (af_apply T (x, y))).2.
Proof.
  intros ((A0 & A1 & A2) & (A3 & A4 & A5) & A6 & A7 & A8). unfold getCoords_. cbn [fst snd].
  rewrite A0, A1, A3, A4, A6, A7. change (Z2 : xq) with (XFin ((10 # 1) / (2 # 1))). split; cbn; field.
Qed.

Lemma affine_finite m T : is_affine m T → matrixIsFinite m = true.
Proof.
  intros ((A0 & A1 & A2) & (A3 & A4 & A5) & A6 & A7 & A8). unfold matrixIsFinite.
  apply xeq_fin in A0 as (? & -> & _). apply xeq_fin in A1 as (? & -> & _). apply xeq_fin in A3 as (? & -> & _).
  apply xeq_fin in A4 as (? & -> & _). apply xeq_fin in A6 as (? & -> & _). apply xeq_fin in A7 as (? & -> & _).
  assert (F : ∀ q, nis_finite (XFin q) = true).
  { intros q. unfold nis_finite. by rewrite Exact.nis_nan_fin. }
  by rewrite !F.
Qed.

Section context.
Context `{MathLib xq} `{MathAtan xq} `{NumText xq}.

(** The transformations of the context, on a matrix that is an affine map. *)
Lemma translate_affine c T x y :
  is_affine (m_ c) T →
  ∃ m, translate (XFin x) (XFin y) c = (Ok (), with_m m c) ∧ is_affine m (af_then (af_translate x y) T).
Proof.
  intros HT. unfold translate, get, setM, modify, mbind, act_bind.
  set (m1 := [[_; _; _]; _; _]). assert (A : is_affine m1 (af_translate x y)) by (by repeat split).
  pose proof (multiply_affine _ _ _ _ A HT) as M. rewrite (affine_finite _ _ M). eauto.
Qed.

Lemma scale_affine c T x y :
  is_affine (m_ c) T →
  ∃ m l, scale (XFin x) (XFin y) c =
           (Ok (), with_m m (with_props (set_lineScale l (set_arcScale (arcScaleX_ (props c) * XFin x)%num
                                                           (arcScaleY_ (props c) * XFin y)%num (props c))) c)) ∧
         is_affine m (af_then (af_scale x y) T).
Proof.
  intros HT. unfold scale, on_props, get, setM, modify, mbind, act_bind. cbv zeta.
  set (m1 := [[_; _; _]; _; _]). assert (A : is_affine m1 (af_scale x y)) by (by repeat split).
  set (c1 := with_props _ c). change (m_ c1) with (m_ c).
  pose proof (multiply_affine _ _ _ _ A HT) as M. rewrite (affine_finite _ _ M). cbn [negb].
  eexists _, _. split; [reflexivity|exact M].
Qed.
End context.

(** ** Quadratic curves *)

(** The quadratic and the cubic curve of a coordinate, from its control
    values. *)
Definition quadratic (p0 p1 p2 t : Q) : Q := (1 - t) * (1 - t) * p0 + 2 * (1 - t) * t * p1 + t * t * p2.
Definition cubic (p0 p1 p2 p3 t : Q) : Q :=
  (1 - t) * (1 - t) * (1 - t) * p0 + 3 * (1 - t) * (1 - t) * t * p1 + 3 * (1 - t) * t * t * p2 + t * t * t * p3.

(** A quadratic curve is drawn as the cubic that is the same curve: from
    the last position, the element that is added to the path is a cubic whose
    point at every parameter is that of the quadratic curve with the control
    point and the end that were asked for; the end is the new position. *)
Theorem quadratic_is_cubic (c : ectx xq) T (qx qy cpx cpy x y : Q) :
  is_affine (m_ c) T → currentX_ c = XFin qx → currentY_ c = XFin qy →
  let '(cx, cy) := device (af_apply T (cpx, cpy)) in
  let '(ex, ey) := device (af_apply T (x, y)) in
  ∃ x1 y1 x2 y2 x3 y3,
    quadraticCurveTo (XFin cpx) (XFin cpy) (XFin x) (XFin y) c =
      (Ok (), with_current (XFin x3) (XFin y3)
         (with_path (currentPath_ c ++ [SBezier (XFin x1) (XFin y1) (XFin x2) (XFin y2) (XFin x3) (XFin y3)]) c)) ∧
    pt_eq (x3, y3) (ex, ey) ∧
    ∀ t, cubic qx x1 x2 x3 t == quadratic qx cx ex t ∧ cubic qy y1 y2 y3 t == quadratic qy cy ey t.
Proof.
  intros HT Ex Ey. destruct (device (af_apply T (cpx, cpy))) as [cx cy] eqn:Ecp.
  destruct (device (af_apply T (x, y))) as [ex ey] eqn:Ep.
  destruct (getCoords_affine _ T cpx cpy HT) as [Cx Cy]. destruct (getCoords_affine _ T x y HT) as [Px Py].
  rewrite Ecp in Cx, Cy. rewrite Ep in Px, Py. cbn [fst snd] in *.
  apply xeq_fin in Cx as (cx' & Ecx & Hcx). apply xeq_fin in Cy as (cy' & Ecy & Hcy).
  apply xeq_fin in Px as (ex' & Eex & Hex). apply xeq_fin in Py as (ey' & Eey & Hey).
  unfold quadraticCurveTo, bezier_to, push, get, modify, mbind, act_bind. cbn [fst snd].
  rewrite Ex, Ey, Ecx, Ecy, Eex, Eey.
  eexists _, _, _, _, _, _. split; [reflexivity|]. split; [by split|].
  intros t. unfold cubic, quadratic. rewrite <- Hcx, <- Hcy, <- Hex, <- Hey. split; field.
Qed.

(** A curve from the origin, moved to the right. *)
Lemma quadratic_is_cubic_witness :
  let T := af_translate 5 0 in
  let c := with_current (XFin (-5)) (XFin (-5)) (with_m [[⟨1⟩; ⟨0⟩; ⟨0⟩]; [⟨0⟩; ⟨1⟩; ⟨0⟩]; [⟨5⟩; ⟨0⟩; ⟨1⟩]]%num
             (CanvasRenderingContext2D_ (num := xq))) in
  ∃ x1 y1 x2 y2 x3 y3,
    quadraticCurveTo (XFin 1) (XFin 2) (XFin 3) (XFin 0) c =
      (Ok (), with_current (XFin x3) (XFin y3)
         (with_path (currentPath_ c ++ [SBezier (XFin x1) (XFin y1) (XFin x2) (XFin y2) (XFin x3) (XFin y3)]) c)) ∧
    pt_eq (x3, y3) (75, -5) ∧
    ∀ t, cubic (-5) x1 x2 x3 t == quadratic (-5) 55 75 t ∧ cubic (-5) y1 y2 y3 t == quadratic (-5) 15 (-5) t.
Proof.
  intros T c.
  assert (HT : is_affine (m_ c) T) by (by repeat split).
  destruct (quadratic_is_cubic c T (-5) (-5) 1 2 3 0 HT eq_refl eq_refl) as (x1 & y1 & x2 & y2 & x3 & y3 & E & P & B).
  exists x1, y1, x2, y2, x3, y3. split; [exact E|]. split.
  - destruct P as [P1 P2]. split; cbn [fst snd]; [rewrite P1|rewrite P2]; by vm_compute.
  - intros t. destruct (B t) as [B1 B2]. split; [rewrite B1|rewrite B2]; unfold quadratic; cbn; ring.
Defined.
