(* ===== verification/VmlRefine.v ===== *)
(** The canvas emulation implements the drawing context of [Canvas]: whatever
    the plot draws with it, the attributes, the transformation, the saved
    states and the path of the emulation are those of the specification. *)

From S2P Require Import Prelude Numbers ExactNum JsText JsValue Canvas VmlStyle VmlStyleSpec VmlContext VmlPage VmlMatrix.
From Stdlib Require Import QArith Lqa.

#[local] Open Scope Q_scope.

(** ** The specification *)

(** The transformation of a context: its translations and scalings, the
    latest first. *)
Fixpoint trans_of (ops : list (canvas_op xq)) : affine :=
  match ops with
  | OpTranslate (XFin x) (XFin y) :: ops => af_then (af_translate x y) (trans_of ops)
  | OpScale (XFin x) (XFin y) :: ops => af_then (af_scale x y) (trans_of ops)
  | _ :: ops => trans_of ops
  | [] => af_id
  end.

(** The elements of a path where they are on the canvas. *)
Inductive apath :=
  | AMove (p : Q * Q)
  | ALine (p : Q * Q)
  | AClose
  | AArc (center : Q * Q) (radius : Q).

(** What an operation adds to the path under a transformation; what is drawn
    does not change it. *)
Definition path_step (T : affine) (path : list apath) (op : canvas_op xq) : list apath :=
  match op with
  | OpBeginPath => []
  | OpClosePath => path ++ [AClose]
  | OpMoveTo (XFin x) (XFin y) => path ++ [AMove (af_apply T (x, y))]
  | OpLineTo (XFin x) (XFin y) => path ++ [ALine (af_apply T (x, y))]
  | OpArc (XFin x) (XFin y) (XFin r) _ _ _ => path ++ [AArc (af_apply T (x, y)) r]
  | OpRect (XFin x) (XFin y) (XFin w) (XFin h) =>
      path ++ [AMove (af_apply T (x, y)); ALine (af_apply T (x + w, y)); ALine (af_apply T (x + w, y + h));
               ALine (af_apply T (x, y + h)); AClose]
  | _ => path
  end.

(** The context of the specification with its path. *)
Definition spec : Type := Canvas.context xq * list apath.
Definition spec_op (s : spec) (op : canvas_op xq) : spec :=
  (run_op s.1 op, path_step (trans_of (gs_transform s.1.1)) s.2 op).
Definition spec_ops (s : spec) (ops : list (canvas_op xq)) : spec := foldl spec_op s ops.

(** ** The operations on the emulation *)

Section refine.
Context `{MathLib xq} `{MathAtan xq} `{NumText xq}.
Variable images : nat → image_el xq.

Fixpoint add_stops (id : nat) (stops : list (xq * string)) : act xq () :=
  match stops with
  | [] => mret ()
  | (o, color) :: stops => add_color_stop id o color;; add_stops id stops
  end.

(** The program that draws creates its gradients on the context. *)
Definition vml_style (p : paint xq) : act xq (style xq) :=
  match p with
  | PaintText s => mret (StyleText s)
  | PaintGradient x0 y0 x1 y1 stops =>
      id ← createLinearGradient x0 y0 x1 y1; add_stops id stops;; mret (StyleGradient id)
  end.

Definition vml_op (op : canvas_op xq) : act xq () :=
  match op with
  | OpSave => save
  | OpRestore => restore
  | OpTranslate x y => translate x y
  | OpScale x y => scale x y
  | OpBeginPath => beginPath
  | OpClosePath => closePath
  | OpMoveTo x y => moveTo x y
  | OpLineTo x y => lineTo x y
  | OpArc x y r from to acw => arc x y r from to acw
  | OpRect x y w h => rect x y w h
  | OpStroke => stroke false
  | OpFill => fill
  | OpFillRect x y w h => fillRect x y w h
  | OpStrokeRect x y w h => strokeRect x y w h
  | OpClearRect _ _ _ _ => clearRect
  | OpDrawImage i sx sy sw sh dx dy dw dh => drawImage (images i) [sx; sy; sw; sh; dx; dy; dw; dh]
  | OpFillStyle p => v ← vml_style p; on_props (set_fillStyle v)
  | OpStrokeStyle p => v ← vml_style p; on_props (set_strokeStyle v)
  | OpLineWidth w => on_props (set_lineWidth w)
  | OpLineJoin s => on_props (set_lineJoin s)
  | OpGlobalAlpha a => on_props (set_globalAlpha a)
  | OpComposite s => modify (with_composite (Str s))
  end.

Fixpoint vml_ops (ops : list (canvas_op xq)) : act xq () :=
  match ops with [] => mret () | op :: ops => vml_op op;; vml_ops ops end.

(** ** What is drawn properly *)

(** Texts that are read as colors. *)
Definition good_text (s : string) : bool := match processStyle (num := xq) s with Ok _ => true | _ => false end.
Definition good_paint (p : paint xq) : bool :=
  match p with
  | PaintText s => good_text s
  | PaintGradient _ _ _ _ stops => negb (bool_decide (stops = [])) && forallb (λ st, good_text st.2) stops
  end.

Definition fin (x : xq) : bool := match x with XFin _ => true | _ => false end.

(** Operations with finite positions and proper styles; the composition of
    what is drawn with what is there is not emulated. *)
Definition op_ok (op : canvas_op xq) : bool :=
  match op with
  | OpTranslate x y | OpScale x y | OpMoveTo x y | OpLineTo x y => fin x && fin y
  | OpArc x y r _ _ _ => fin x && fin y && fin r
  | OpRect x y w h | OpFillRect x y w h | OpStrokeRect x y w h => fin x && fin y && fin w && fin h
  | OpFillStyle p | OpStrokeStyle p => good_paint p
  | OpComposite _ => false
  | _ => true
  end.

(** ** The relation *)

Definition stop_of (st : xq * string) (s : stop xq) : Prop :=
  ∃ color alpha, processStyle st.2 = Ok (color, alpha) ∧ s = Stop st.1 color alpha.

(** A gradient object; stroking with it sorts its stops. *)
Definition gradient_rel (x0 y0 x1 y1 : xq) (stops : list (xq * string)) (g : gradient xq) : Prop :=
  type_ g = "gradient" ∧ x0_ g = x0 ∧ y0_ g = y0 ∧ x1_ g = x1 ∧ y1_ g = y1 ∧
  ∃ l, Forall2 stop_of stops l ∧ colors_ g ≡ₚ l.

Definition paint_rel (gs : list (gradient xq)) (p : paint xq) (s : style xq) : Prop :=
  match p, s with
  | PaintText t, StyleText t' => t = t' ∧ good_text t = true
  | PaintGradient x0 y0 x1 y1 stops, StyleGradient id =>
      stops ≠ [] ∧ ∃ g, gs !! id = Some g ∧ gradient_rel x0 y0 x1 y1 stops g
  | _, _ => False
  end.

Record state_rel (gs : list (gradient xq)) (g : gstate xq) (m : matrix xq) (a : attrs xq) : Prop := {
  sr_fill : paint_rel gs (gs_fillStyle g) (fillStyle a);
  sr_stroke : paint_rel gs (gs_strokeStyle g) (strokeStyle a);
  sr_width : lineWidth a = gs_lineWidth g;
  sr_join : lineJoin a = gs_lineJoin g;
  sr_alpha : globalAlpha a = gs_globalAlpha g;
  sr_trans : is_affine m (trans_of (gs_transform g));
}.

(** The saved states, the latest first on both sides. *)
Inductive stack_rel (gs : list (gradient xq)) : list (gstate xq) → list (matrix xq) → list (attrs xq) → Prop :=
  | stack_nil : stack_rel gs [] [] []
  | stack_cons g st m ms a as_ :
      state_rel gs g m a → stack_rel gs st ms as_ → stack_rel gs (g :: st) (m :: ms) (a :: as_).

Definition at_point (x y : xq) (p : Q * Q) : Prop := x ≈ XFin (device p).1 ∧ y ≈ XFin (device p).2.

Definition seg_rel (a : apath) (s : seg xq) : Prop :=
  match a, s with
  | AMove p, SMoveTo x y | ALine p, SLineTo x y => at_point x y p
  | AClose, SClose => True
  | AArc p r, SArc _ x y radius _ _ _ _ => at_point x y p ∧ radius ≈ XFin (10 * r)
  | _, _ => False
  end.

Record sim (s : spec) (c : ectx xq) : Prop := {
  sim_state : state_rel (gradients c) s.1.1 (m_ c) (props c);
  sim_stack : stack_rel (gradients c) s.1.2 (mStack_ c) (aStack_ c);
  sim_path : Forall2 seg_rel s.2 (currentPath_ c);
}.

(** ** Gradients that were sorted since *)

Definition grads_le (gs gs' : list (gradient xq)) : Prop :=
  ∀ id g, gs !! id = Some g →
    ∃ g', gs' !! id = Some g' ∧ type_ g' = type_ g ∧ x0_ g' = x0_ g ∧ y0_ g' = y0_ g ∧
          x1_ g' = x1_ g ∧ y1_ g' = y1_ g ∧ colors_ g' ≡ₚ colors_ g.

Lemma grads_le_refl gs : grads_le gs gs.
Proof. intros id g E. exists g. by repeat split. Qed.
Lemma grads_le_trans gs1 gs2 gs3 : grads_le gs1 gs2 → grads_le gs2 gs3 → grads_le gs1 gs3.
Proof.
  intros A B id g E. destruct (A id g E) as (g2 & E2 & A1 & A2 & A3 & A4 & A5 & A6).
  destruct (B id g2 E2) as (g3 & E3 & B1 & B2 & B3 & B4 & B5 & B6).
  exists g3. repeat split; try congruence. by rewrite B6.
Qed.
Lemma grads_le_app gs l : grads_le gs (gs ++ l).
Proof. intros id g E. exists g. split; [by apply lookup_app_l_Some|by repeat split]. Qed.
Lemma grads_le_sort gs id g :
  gs !! id = Some g → grads_le gs (<[id := with_colors (sort_stops (colors_ g)) g]> gs).
Proof.
  intros E id' g' E'. destruct (decide (id' = id)) as [-> |Hne].
  - rewrite E in E'. injection E' as <-. eexists. split; [apply list_lookup_insert_eq, (lookup_lt_Some _ _ _ E)|].
    repeat split. cbn. apply sort_stops_perm.
  - exists g'. split; [by rewrite list_lookup_insert_ne|by repeat split].
Qed.

Lemma paint_rel_le gs gs' p s : grads_le gs gs' → paint_rel gs p s → paint_rel gs' p s.
Proof.
  intros L. destruct p as [t|x0 y0 x1 y1 stops], s as [t'|id|pt]; cbn; try done.
  intros [Hs (g & E & T & X0 & Y0 & X1 & Y1 & l & F & P)]. split; [done|].
  destruct (L id g E) as (g' & E' & T' & X0' & Y0' & X1' & Y1' & P').
  exists g'. split; [done|]. repeat split; try congruence. exists l. split; [done|]. by rewrite P'.
Qed.
Lemma state_rel_le gs gs' g m a : grads_le gs gs' → state_rel gs g m a → state_rel gs' g m a.
Proof. intros L []. split; try done; by eapply paint_rel_le. Qed.
Lemma stack_rel_le gs gs' st ms as_ : grads_le gs gs' → stack_rel gs st ms as_ → stack_rel gs' st ms as_.
Proof. intros L. induction 1; constructor; [by eapply state_rel_le|done]. Qed.

(** The context is the same but for its path, its position, its markup, its
    caches and the order of the stops of its gradients. *)
Record same (c c' : ectx xq) : Prop := {
  same_m : m_ c' = m_ c; same_ms : mStack_ c' = mStack_ c; same_as : aStack_ c' = aStack_ c;
  same_props : props c' = props c; same_grads : grads_le (gradients c) (gradients c');
}.

#[local] Instance same_preorder : PreOrder same.
Proof.
  split.
  - intros c. split; try done. apply grads_le_refl.
  - intros c1 c2 c3 [] []. split; try congruence. by eapply grads_le_trans.
Qed.

Lemma sim_same s c c' path :
  sim s c → same c c' → Forall2 seg_rel path (currentPath_ c') → sim (s.1, path) c'.
Proof.
  intros [S T P] [Em Ems Eas Ep Lg] F. split; cbn [fst snd]; [| |done].
  - rewrite Em, Ep. by eapply state_rel_le.
  - rewrite Ems, Eas. by eapply stack_rel_le.
Qed.

(** ** Drawing *)

Lemma bind_ok {A B} (m : act xq A) (k : A → act xq B) c x c' : m c = (Ok x, c') → (m ≫= k) c = k x c'.
Proof. intros E. unfold mbind, act_bind. by rewrite E. Qed.

(** The styles can be drawn with. *)
Definition can_stroke (a : attrs xq) : Prop := good_text (style_text (strokeStyle a)) = true.
Definition can_fill (gs : list (gradient xq)) (a : attrs xq) : Prop :=
  match fillStyle a with
  | StyleText t => good_text t = true
  | StyleGradient id => ∃ g, gs !! id = Some g ∧ colors_ g ≠ []
  | StylePattern _ => True
  end.

Lemma sim_can_stroke s c : sim s c → can_stroke (props c).
Proof.
  intros [[_ S _ _ _ _] _ _]. unfold can_stroke. destruct (gs_strokeStyle _), (strokeStyle _); cbn in S |- *; try done.
  by destruct S as [-> S].
Qed.
Lemma sim_can_fill s c : sim s c → can_fill (gradients c) (props c).
Proof.
  intros [[S _ _ _ _ _] _ _]. unfold can_fill. destruct (gs_fillStyle _), (fillStyle _); cbn in S |- *; try done.
  - by destruct S as [-> S].
  - destruct S as [Hs (g & E & (_ & _ & _ & _ & _ & l & F & P))]. exists g. split; [done|].
    intros En. rewrite En in P. apply Permutation_nil_l in P. subst l. by apply Forall2_nil_inv_r in F.
Qed.

Lemma can_fill_same c c' : same c c' → can_fill (gradients c) (props c) → can_fill (gradients c') (props c').
Proof.
  intros [_ _ _ Ep Lg]. unfold can_fill. rewrite Ep. destruct (fillStyle _) as [|id|]; try done.
  intros (g & E & Hn). destruct (Lg id g E) as (g' & E' & _ & _ & _ & _ & _ & P). exists g'. split; [done|].
  intros En. rewrite En in P. by apply Permutation_nil_l in P.
Qed.

Lemma appendStroke_ok l c : can_stroke (props c) → ∃ s, appendStroke l c = (Ok s, c).
Proof.
  unfold can_stroke, good_text. intros G. unfold appendStroke, stroke_brush, get, lift, mbind, act_bind.
  destruct (processStyle _) as [[color alpha]| |]; try done. cbn. eauto.
Qed.

Lemma appendFill_ok l b c : can_fill (gradients c) (props c) → ∃ s c', appendFill l b c = (Ok s, c') ∧ same c c' ∧ currentPath_ c' = currentPath_ c.
Proof.
  intros F. unfold appendFill, get, lift, modify, mbind, act_bind. unfold can_fill in F.
  destruct (fillStyle (props c)) as [t|id|p].
  - unfold good_text in F. destruct (processStyle t) as [[color alpha]| |]; try done. eexists _, c. split; [reflexivity|split; reflexivity].
  - destruct F as (g & E & Hn). rewrite E. destruct (gradient_frame c g b) as [[[angle focus] shift] expansion].
    pose proof (sort_stops_perm (colors_ g)) as P.
    destruct (sort_stops (colors_ g)) as [|s0 stops] eqn:Es.
    { apply Permutation_nil_l in P. congruence. }
    destruct (last (s0 :: stops)) as [s1|] eqn:El; [|apply last_None in El; discriminate].
    cbn [head]. eexists _, _. split; [reflexivity|]. split; [|done].
    split; try done. cbn. rewrite <- Es. by apply grads_le_sort.
  - eexists _, c. split; [reflexivity|split; reflexivity].
Qed.

(** Actions that draw: they end, and change neither the state nor the path. *)
Definition draws (m : act xq ()) (c : ectx xq) : Prop :=
  ∃ c', m c = (Ok (), c') ∧ same c c' ∧ currentPath_ c' = currentPath_ c.

Lemma sim_draws s c m : sim s c → draws m c → ∃ c', m c = (Ok (), c') ∧ sim s c'.
Proof.
  intros S (c' & E & Hs & Ep). exists c'. split; [done|]. destruct s as [a path].
  apply (sim_same (a, path) c); [done..|]. rewrite Ep. apply S.
Qed.

(** The styles that a stroke or a fill needs. *)
Definition can_draw (aFill : bool) (c : ectx xq) : Prop :=
  if aFill then can_fill (gradients c) (props c) else can_stroke (props c).

Lemma can_draw_same aFill c c' : same c c' → can_draw aFill c → can_draw aFill c'.
Proof.
  intros S. destruct aFill; [by apply can_fill_same|]. cbn. unfold can_stroke. by rewrite (same_props _ _ S).
Qed.

Lemma stroke_chunk_ok aFill j b c :
  can_draw aFill c → ∃ b' c', stroke_chunk aFill j b c = (Ok b', c') ∧ same c c' ∧ currentPath_ c' = currentPath_ c.
Proof.
  intros D. unfold stroke_chunk, get, mbind, act_bind. cbv zeta. set (b' := chunk_bounds _ _ _). set (text := _ +:+ _).
  assert (A : ∃ t c1, (if aFill then appendFill text b' else appendStroke text) c = (Ok t, c1) ∧ same c c1 ∧ currentPath_ c1 = currentPath_ c).
  { destruct aFill; [by apply appendFill_ok|]. destruct (appendStroke_ok text c D) as [t ->].
    exists t, c. split; [reflexivity|split; reflexivity]. }
  destruct A as (t & c1 & -> & S & Ep). eexists _, _. split; [reflexivity|]. split; [|exact Ep].
  destruct S. by split.
Qed.

Lemma chunkSize_pos : (0 < chunkSize)%nat.
Proof. unfold chunkSize. lia. Qed.

(** The loop ends: every chunk brings it nearer to the end of the path. *)
Lemma stroke_loop_draws aFill fuel j b c :
  (length (currentPath_ c) ≤ j + fuel)%nat → can_draw aFill c → draws (stroke_loop aFill fuel j b) c.
Proof.
  revert j b c. induction fuel as [|fuel IH]; intros j b c Hf D; unfold draws; cbn [stroke_loop];
    unfold get, mbind, act_bind; destruct (Nat.ltb_spec j (length (currentPath_ c))); try lia;
    try (exists c; split; [reflexivity|split; reflexivity]).
  destruct (stroke_chunk_ok aFill j b c D) as (b' & c1 & -> & S1 & P1).
  destruct (IH (j + chunkSize)%nat b' c1) as (c2 & E2 & S2 & P2).
  { rewrite P1. pose proof chunkSize_pos. lia. } { by eapply can_draw_same. }
  unfold get, mbind, act_bind in E2. exists c2. split; [exact E2|]. split; [by transitivity c1|congruence].
Qed.

Lemma stroke_draws aFill c : can_draw aFill c → draws (stroke aFill) c.
Proof. intros D. apply stroke_loop_draws; [lia|done]. Qed.

Lemma drawImage_draws i sx sy sw sh dx dy dw dh c : draws (drawImage i [sx; sy; sw; sh; dx; dy; dw; dh]) c.
Proof. eexists. split; [reflexivity|]. split; [|done]. split; try done. apply grads_le_refl. Qed.
Lemma clearRect_draws c : draws clearRect c.
Proof. eexists. split; [reflexivity|]. split; [|done]. split; try done. apply grads_le_refl. Qed.

(** ** Paths *)

Lemma at_getCoords m T x y :
  is_affine m T → at_point (getCoords_ m (XFin x) (XFin y)).1 (getCoords_ m (XFin x) (XFin y)).2 (af_apply T (x, y)).
Proof. intros HT. by apply getCoords_affine. Qed.

(** Actions that add to the path. *)
Definition adds (m : act xq ()) (c : ectx xq) (segs : list (seg xq)) : Prop :=
  ∃ c', m c = (Ok (), c') ∧ same c c' ∧ currentPath_ c' = currentPath_ c ++ segs ∧ gradients c' = gradients c.

Lemma sim_adds s c m segs added :
  sim s c → adds m c segs → Forall2 seg_rel added segs → ∃ c', m c = (Ok (), c') ∧ sim (s.1, s.2 ++ added) c'.
Proof.
  intros S (c' & E & Hs & Ep & _) F. exists c'. split; [done|]. apply (sim_same s c); [done..|].
  rewrite Ep. apply Forall2_app; [apply S|done].
Qed.

Lemma adds_then m1 m2 c l1 l2 :
  adds m1 c l1 → (∀ c', same c c' → adds m2 c' l2) → adds (m1;; m2) c (l1 ++ l2).
Proof.
  intros (c1 & E1 & S1 & P1 & G1) H2. destruct (H2 c1 S1) as (c2 & E2 & S2 & P2 & G2).
  exists c2. split; [unfold mbind, act_bind; by rewrite E1|]. split; [by transitivity c1|].
  split; [by rewrite P2, P1, app_assoc|congruence].
Qed.

Lemma adds_simple (m : act xq ()) c segs x y :
  m c = (Ok (), with_current x y (with_path (currentPath_ c ++ segs) c)) → adds m c segs.
Proof. intros E. eexists. split; [exact E|]. split; [|by split]. split; try done. apply grads_le_refl. Qed.

Lemma moveTo_adds x y c : let p := getCoords_ (m_ c) x y in adds (moveTo x y) c [SMoveTo p.1 p.2].
Proof. intros p. apply (adds_simple _ _ _ p.1 p.2). reflexivity. Qed.
Lemma lineTo_adds x y c : let p := getCoords_ (m_ c) x y in adds (lineTo x y) c [SLineTo p.1 p.2].
Proof. intros p. apply (adds_simple _ _ _ p.1 p.2). reflexivity. Qed.
Lemma closePath_adds c : adds closePath c [SClose].
Proof. apply (adds_simple _ _ _ (currentX_ c) (currentY_ c)). destruct c. reflexivity. Qed.

Definition rect_segs (m : matrix xq) (x y w h : xq) : list (seg xq) :=
  let p := getCoords_ m in
  [SMoveTo (p x y).1 (p x y).2; SLineTo (p (x + w)%num y).1 (p (x + w)%num y).2;
   SLineTo (p (x + w)%num (y + h)%num).1 (p (x + w)%num (y + h)%num).2;
   SLineTo (p x (y + h)%num).1 (p x (y + h)%num).2; SClose].

Lemma rect_adds x y w h c : adds (rect x y w h) c (rect_segs (m_ c) x y w h).
Proof.
  apply (adds_then _ _ _ [_] [_; _; _; _]); [apply moveTo_adds|]. intros c1 S1.
  apply (adds_then _ _ _ [_] [_; _; _]); [rewrite <- (same_m _ _ S1); apply lineTo_adds|]. intros c2 S2.
  apply (adds_then _ _ _ [_] [_; _]); [rewrite <- (same_m _ _ S1), <- (same_m _ _ S2); apply lineTo_adds|]. intros c3 S3.
  apply (adds_then _ _ _ [_] [_]);
    [rewrite <- (same_m _ _ S1), <- (same_m _ _ S2), <- (same_m _ _ S3); apply lineTo_adds|].
  intros c4 S4. apply closePath_adds.
Qed.

Lemma rect_rel m T x y w h :
  is_affine m T →
  Forall2 seg_rel [AMove (af_apply T (x, y)); ALine (af_apply T (x + w, y)); ALine (af_apply T (x + w, y + h));
                   ALine (af_apply T (x, y + h)); AClose] (rect_segs m (XFin x) (XFin y) (XFin w) (XFin h)).
Proof.
  intros HT. pose proof (λ x y, at_getCoords m T x y HT) as G.
  constructor; [exact (G x y)|]. constructor; [exact (G (x + w) y)|]. constructor; [exact (G (x + w) (y + h))|].
  constructor; [exact (G x (y + h))|]. by repeat constructor.
Qed.

(** [beginPath(); rect(...); draw; this.currentPath_ = oldPath] *)
Lemma draw_rect_draws aFill x y w h c :
  can_draw aFill c →
  draws (c0 ← get; beginPath;; rect x y w h;; stroke aFill;; modify (with_path (currentPath_ c0))) c.
Proof.
  intros D. unfold draws.
  set (c1 := with_path [] c). assert (S1 : same c c1) by (split; try done; apply grads_le_refl).
  destruct (rect_adds x y w h c1) as (c2 & E2 & S2 & _ & _).
  destruct (stroke_draws aFill c2) as (c3 & E3 & S3 & _).
  { eapply can_draw_same; [|exact D]. by transitivity c1. }
  exists (with_path (currentPath_ c) c3). split.
  - rewrite (bind_ok get _ c c c eq_refl), (bind_ok beginPath _ c () c1 eq_refl).
    by rewrite (bind_ok _ _ _ _ _ E2), (bind_ok _ _ _ _ _ E3).
  - split; [|done]. assert (S : same c c3) by (transitivity c1; [done|by transitivity c2]). destruct S. by split.
Qed.

(** ** Styles *)

Lemma add_stops_ok stops gs g c :
  gradients c = gs ++ [g] → forallb (λ st, good_text st.2) stops = true →
  ∃ l, Forall2 stop_of stops l ∧
       add_stops (length gs) stops c = (Ok (), with_gradients (gs ++ [with_colors (colors_ g ++ l) g]) c).
Proof.
  revert g c. induction stops as [|[o color] stops IH]; intros g c Eg Hg.
  - exists []. split; [constructor|]. rewrite app_nil_r. destruct g, c. cbn in *. by rewrite Eg.
  - cbn [forallb] in Hg. apply andb_prop in Hg as [Hc Hg]. cbn [snd] in Hc. unfold good_text in Hc.
    destruct (processStyle color) as [[col alpha]| |] eqn:Es; try done.
    set (g1 := with_colors (colors_ g ++ [Stop o col alpha]) g).
    assert (E1 : add_color_stop (length gs) o color c = (Ok (), with_gradients (gs ++ [g1]) c)).
    { unfold add_color_stop, get, lift, modify, mbind, act_bind. rewrite Eg, list_lookup_middle by done.
      unfold addColorStop. rewrite Es. cbn [mbind result_bind]. rewrite insert_app_r_alt by lia.
      by rewrite Nat.sub_diag. }
    destruct (IH g1 (with_gradients (gs ++ [g1]) c) eq_refl Hg) as (l & F & E).
    exists (Stop o col alpha :: l). split; [constructor; [by exists col, alpha|done]|].
    cbn [add_stops]. rewrite (bind_ok _ _ _ _ _ E1), E. unfold g1. cbn [colors_ with_colors type_ x0_ y0_ r0_ x1_ y1_ r1_].
    by rewrite <- app_assoc.
Qed.

Lemma vml_style_ok p c :
  good_paint p = true →
  ∃ v c', vml_style p c = (Ok v, c') ∧ same c c' ∧ currentPath_ c' = currentPath_ c ∧ paint_rel (gradients c') p v.
Proof.
  destruct p as [t|x0 y0 x1 y1 stops]; cbn [good_paint]; intros G.
  - eexists _, c. split; [reflexivity|]. split; [reflexivity|]. split; [reflexivity|]. by split.
  - apply andb_prop in G as [Hs Hg]. apply negb_true_iff, bool_decide_eq_false in Hs.
    set (g := Gradient "gradient" x0 y0 ⟨0⟩%num x1 y1 ⟨0⟩%num []).
    set (c1 := with_gradients (gradients c ++ [g]) c).
    assert (E1 : createLinearGradient x0 y0 x1 y1 c = (Ok (length (gradients c)), c1)) by done.
    destruct (add_stops_ok stops (gradients c) g c1 eq_refl Hg) as (l & F & E2).
    eexists _, _. split; [cbn [vml_style]; rewrite (bind_ok _ _ _ _ _ E1), (bind_ok _ _ _ _ _ E2); reflexivity|].
    split; [split; try done; apply grads_le_app|]. split; [done|]. split; [done|].
    exists (with_colors l g). split; [by apply list_lookup_middle|]. repeat split. by exists l.
Qed.

(** ** The simulation *)

Lemma save_sim s c : sim s c → ∃ c', save c = (Ok (), c') ∧ sim (spec_op s OpSave) c'.
Proof.
  intros [S T P]. eexists. split; [reflexivity|]. destruct s as [[g st] path]. cbn [fst snd] in *.
  split; [|by constructor; [destruct S; split|]|exact P]. destruct S. split; try done. by apply identity_multiply_affine.
Qed.

Lemma restore_sim s c : sim s c → ∃ c', restore c = (Ok (), c') ∧ sim (spec_op s OpRestore) c'.
Proof.
  intros S0. pose proof S0 as [S T P]. destruct s as [[g st] path]. cbn [fst snd] in *.
  eexists. split; [reflexivity|]. unfold spec_op. cbn [fst snd]. inversion T as [E1 E2 E3|g' st' m ms a as_ S' T' E1 E2 E3].
  - cbn. by rewrite <- E1 in S0.
  - cbn. split; cbn; [|done|done]. destruct S'. by split.
Qed.

Lemma fin_spec x : fin x = true → ∃ q, x = XFin q.
Proof. destruct x; [eauto|done..]. Qed.

(** Operations on the path and operations that draw leave the attributes. *)
Definition idle (op : canvas_op xq) : bool :=
  match op with
  | OpBeginPath | OpClosePath | OpMoveTo _ _ | OpLineTo _ _ | OpArc _ _ _ _ _ _ | OpRect _ _ _ _
  | OpStroke | OpFill | OpFillRect _ _ _ _ | OpStrokeRect _ _ _ _ | OpClearRect _ _ _ _
  | OpDrawImage _ _ _ _ _ _ _ _ _ => true
  | _ => false
  end.

Lemma idle_run op cx : idle op = true → run_op cx op = cx.
Proof. destruct cx as [[] st], op; done. Qed.

Lemma path_sim s c op :
  idle op = true → op_ok op = true → sim s c → ∃ c', vml_op op c = (Ok (), c') ∧ sim (spec_op s op) c'.
Proof.
  intros Hi Ho S. pose proof (sr_trans _ _ _ _ (sim_state _ _ S)) as HT. unfold spec_op. rewrite (idle_run op) by done.
  pose proof (λ x y, at_getCoords _ _ x y HT) as G.
  assert (D : ∀ aFill, can_draw aFill c) by (intros []; [by apply (sim_can_fill s)|by apply (sim_can_stroke s)]).
  destruct s as [cx path], op; try done; cbn [op_ok] in Ho; cbn [vml_op];
    repeat match goal with
    | H : _ && _ = true |- _ => apply andb_prop in H as [? ?]
    | H : fin _ = true |- _ => apply fin_spec in H as [? ->]
    end; cbn [path_step fst snd] in *.
  - eexists. split; [reflexivity|]. apply (sim_same (cx, path) c); [done|split; try done; apply grads_le_refl|constructor].
  - apply (sim_adds _ _ _ _ _ S (closePath_adds c)). by repeat constructor.
  - apply (sim_adds _ _ _ _ _ S (moveTo_adds _ _ c)). constructor; [apply G|constructor].
  - apply (sim_adds _ _ _ _ _ S (lineTo_adds _ _ c)). constructor; [apply G|constructor].
  - unfold arc. cbv zeta. unfold get, push, modify, mbind, act_bind. eexists. split; [reflexivity|].
    apply (sim_same (cx, path) c); [done|split; try done; apply grads_le_refl|]. cbn [currentPath_ with_path].
    apply Forall2_app; [apply S|]. constructor; [|constructor]. split; [apply G|].
    change (XFin x1 * Z_)%num with (XFin (x1 * (10 # 1))). cbn. ring.
  - apply (sim_adds _ _ _ _ _ S (rect_adds _ _ _ _ c)). by apply rect_rel.
  - apply (sim_draws (cx, path)); [done|]. by apply stroke_draws.
  - apply (sim_draws (cx, path)); [done|]. by apply stroke_draws.
  - apply (sim_draws (cx, path)); [done|]. by apply (draw_rect_draws true).
  - apply (sim_draws (cx, path)); [done|]. by apply (draw_rect_draws false).
  - apply (sim_draws (cx, path)); [done|]. apply clearRect_draws.
  - apply (sim_draws (cx, path)); [done|]. apply drawImage_draws.
Qed.

(** Assignments of properties. *)
Lemma sim_props g st path c c1 g' a :
  sim ((g, st), path) c → same c c1 → currentPath_ c1 = currentPath_ c →
  (∀ gs, state_rel gs g (m_ c) (props c) → (gs = gradients c1) → state_rel gs g' (m_ c) a) →
  sim ((g', st), path) (with_props a c1).
Proof.
  intros [S T P] [Em Ems Eas Ep Lg] E R. split; cbn [fst snd m_ mStack_ aStack_ props gradients currentPath_ with_props] in *.
  - rewrite Em. apply R; [by eapply state_rel_le|done].
  - rewrite Ems, Eas. by eapply stack_rel_le.
  - by rewrite E.
Qed.

Lemma set_sim g st path c g' f :
  sim ((g, st), path) c →
  (state_rel (gradients c) g (m_ c) (props c) → state_rel (gradients c) g' (m_ c) (f (props c))) →
  ∃ c', on_props f c = (Ok (), c') ∧ sim ((g', st), path) c'.
Proof.
  intros S R. eexists. split; [reflexivity|]. apply (sim_props g st path c c); [done|reflexivity|done|].
  intros gs S' ->. by apply R.
Qed.

(** An operation of the specification is carried out by the emulation. *)
Lemma op_sim s c op :
  op_ok op = true → sim s c → ∃ c', vml_op op c = (Ok (), c') ∧ sim (spec_op s op) c'.
Proof.
  intros Ho S. destruct (idle op) eqn:Hi; [by apply path_sim|].
  destruct (tame op) eqn:Ht; [|destruct op; try done; [by apply save_sim|by apply restore_sim]].
  pose proof (sim_state _ _ S) as SS. pose proof (sr_trans _ _ _ _ SS) as HT.
  destruct s as [[[f k w j a o t] st] path]. cbn [fst snd gs_transform] in *.
  destruct op; try done; cbn [op_ok] in Ho; cbn [vml_op]; unfold spec_op; cbn [fst snd run_op set_state path_step];
    repeat match goal with
    | H : _ && _ = true |- _ => apply andb_prop in H as [? ?]
    | H : fin _ = true |- _ => apply fin_spec in H as [? ->]
    end.
  - match goal with |- context [translate (XFin ?u) (XFin ?v)] => destruct (translate_affine c _ u v HT) as (m & -> & M) end. eexists. split; [reflexivity|].
    destruct S as [S T P]. split; [|done|done]. destruct S. by split.
  - match goal with |- context [scale (XFin ?u) (XFin ?v)] => destruct (scale_affine c _ u v HT) as (m & l & -> & M) end. eexists. split; [reflexivity|].
    destruct S as [S T P]. split; [|done|done]. destruct S. by split.
  - destruct (vml_style_ok p c Ho) as (v & c1 & E1 & S1 & P1 & R1). rewrite (bind_ok _ _ _ _ _ E1).
    eexists. split; [reflexivity|]. eapply sim_props; [exact S|done|done|]. intros gs [] ->. rewrite (same_props _ _ S1). by split.
  - destruct (vml_style_ok p c Ho) as (v & c1 & E1 & S1 & P1 & R1). rewrite (bind_ok _ _ _ _ _ E1).
    eexists. split; [reflexivity|]. eapply sim_props; [exact S|done|done|]. intros gs [] ->. rewrite (same_props _ _ S1). by split.
  - eapply set_sim; [exact S|]. intros []. by split.
  - eapply set_sim; [exact S|]. intros []. by split.
  - eapply set_sim; [exact S|]. intros []. by split.
Qed.

Lemma ops_sim s c ops :
  forallb op_ok ops = true → sim s c → ∃ c', vml_ops ops c = (Ok (), c') ∧ sim (spec_ops s ops) c'.
Proof.
  revert s c. induction ops as [|op ops IH]; intros s c Ho S; [by exists c|].
  cbn [forallb] in Ho. apply andb_prop in Ho as [Ho Hos]. destruct (op_sim s c op Ho S) as (c1 & E1 & S1).
  destruct (IH _ _ Hos S1) as (c2 & E2 & S2). exists c2. split; [|done].
  cbn [vml_ops]. by rewrite (bind_ok _ _ _ _ _ E1).
Qed.

Lemma spec_ops_context s ops : (spec_ops s ops).1 = run_ops s.1 ops.
Proof. revert s. induction ops as [|op ops IH]; intros s; [done|]. cbn. by rewrite IH. Qed.
End refine.

(** ** The theorems *)

(** The graphics state of a new context, in the specification. *)
Definition new_gstate : gstate xq :=
  GState (PaintText "#000") (PaintText "#000") ⟨1⟩%num "miter" ⟨1⟩%num "source-over" [].

Lemma new_sim `{NumText xq} : sim ((new_gstate, []), []) (CanvasRenderingContext2D_ (num := xq)).
Proof. split; [|constructor|constructor]. split; try done; apply identity_affine. Qed.

(** C4: the canvas emulation implements the drawing context.  From related
    states, every sequence of operations with finite positions and styles that
    are colors, except the choice of a composition, is carried out by the
    emulation: it raises no exception, and afterwards the fill and stroke
    styles, the line width and join, the opacity, the transformation, all the
    saved states and the path (each element where the transformation puts it,
    in tenths of pixels shifted by half a pixel) are those of the
    specification.  A gradient is an object whose stops are those that were
    added, in an order that drawing may change. *)
Theorem vml_refines `{MathLib xq} `{MathAtan xq} `{NumText xq} (images : nat → image_el xq) s c ops :
  forallb op_ok ops = true → sim s c →
  ∃ c', vml_ops images ops c = (Ok (), c') ∧ sim (spec_ops s ops) c'.
Proof. apply ops_sim. Qed.

(** A rough arc tangent, for examples. *)
Definition rough_atan : MathAtan xq := λ x y, (x / (nabs x + nabs y) * of_ratio 11 7)%num.

Definition sample_ops : list (canvas_op xq) :=
  [OpSave; OpTranslate ⟨20⟩ ⟨10⟩; OpLineWidth ⟨2⟩; OpLineJoin "round"; OpStrokeStyle (PaintText "rgba(0,0,0,0.1)");
   OpBeginPath; OpMoveTo ⟨0⟩ ⟨0⟩; OpLineTo ⟨50⟩ ⟨30⟩; OpStroke; OpScale ⟨1⟩ (of_ratio 1 2);
   OpFillStyle (PaintGradient ⟨0⟩ ⟨0⟩ ⟨0⟩ ⟨100⟩ [(⟨1⟩, "#ffffff"); (⟨0⟩, "rgb(10,20,30)")]);
   OpFillRect ⟨0⟩ ⟨0⟩ ⟨40⟩ ⟨40⟩; OpArc ⟨5⟩ ⟨6⟩ ⟨7⟩ ⟨0⟩ ⟨3⟩ false; OpClosePath; OpFill; OpRestore]%num.

(** A line and a rectangle filled with a gradient. *)
Lemma vml_refines_witness :
  (2 <? length (element_ (vml_ops (H := Exact.exact_math) (H0 := rough_atan) (H1 := Exact.exact_text)
     (λ _, ImageEl 1 "IMG" "complete" "a.png" ⟨10⟩ ⟨10⟩)%num sample_ops CanvasRenderingContext2D_).2))%nat = true ∧
  ∃ c', vml_ops (H := Exact.exact_math) (H0 := rough_atan) (H1 := Exact.exact_text)
          (λ _, ImageEl 1 "IMG" "complete" "a.png" ⟨10⟩ ⟨10⟩)%num sample_ops CanvasRenderingContext2D_ = (Ok (), c') ∧
        sim (H1 := Exact.exact_text) (spec_ops ((new_gstate, []), []) sample_ops) c'.
Proof.
  split; [by vm_compute|].
  apply (@vml_refines Exact.exact_math rough_atan Exact.exact_text); [by vm_compute|apply new_sim].
Defined.

(** The composition is neither used nor saved: after [save], an assignment
    and [restore], it stays. *)
Example composite_not_saved :
  let ops := [OpSave; OpComposite "destination-out"; OpRestore] in
  gs_composite (run_ops (new_gstate, []) ops).1 = "source-over" ∧
  globalCompositeOperation (vml_ops (H := Exact.exact_math) (H0 := rough_atan) (H1 := Exact.exact_text)
    (λ _, ImageEl 1 "IMG" "complete" "" ⟨1⟩ ⟨1⟩)%num ops CanvasRenderingContext2D_).2 = Str "destination-out".
Proof. by split; vm_compute. Qed.
