(* ===== verification/VmlStrokeSpec.v ===== *)
(** The markup of a stroke in the canvas emulation: the path is cut in shapes
    that go on from each other. *)

From S2P Require Import Prelude Numbers ExactNum JsText JsValue VmlStyle VmlContext.

Lemma chunkSize_nat : 0 < chunkSize.
Proof. unfold chunkSize. lia. Qed.

Section stroke.
Context {num : Type} `{Num num} `{MathAtan num} `{NumText num} `{NumRem num}.
Implicit Types (c : ectx num) (a : attrs num) (path : list (seg num)).

(** ** The reference *)

Definition move_to (p : seg num) : cmd :=
  let '(x, y) := default (nnan, nnan) (seg_xy p) in CmdMove (nround x) (nround y).

(** The shapes of the pieces of a path: each but the first starts where the
    last element of the piece before it ended. *)
Fixpoint shapes a (prev : option (seg num)) (pieces : list (list (seg num))) : list (list cmd) :=
  match pieces with
  | [] => []
  | piece :: pieces =>
      (match prev with Some p => [move_to p] | None => [] end ++ (seg_cmd (arcScaleX_ a) (arcScaleY_ a) <$> piece))
        :: shapes a (last piece) pieces
  end.

(** The markup of a shape with its stroke. *)
Definition brush_text a (brush : string * num * num) : string :=
  let '(color, opacity, width) := brush in
  "<g_vml_:stroke" +:+ attr " opacity" (to_string opacity) +:+
  attr " joinstyle" (lineJoin a) +:+ attr " miterlimit" (to_string (miterLimit a)) +:+
  attr " endcap" (processLineCap (lineCap a)) +:+ attr " weight" (to_string width +:+ "px") +:+
  attr " color" color +:+ " />".
Definition shape_text a (brush : string * num * num) (cmds : list cmd) : string :=
  shape_open false +:+ str_join "" (cmd_text <$> cmds) +:+ (" " +:+ dq +:+ ">") +:+ brush_text a brush +:+ "</g_vml_:shape>".

(** ** One shape *)

Lemma seq_cmds a path s n :
  concat ((λ i, match path !! i with Some p => [seg_cmd (arcScaleX_ a) (arcScaleY_ a) p] | None => [] end) <$> seq s n) =
  seg_cmd (arcScaleX_ a) (arcScaleY_ a) <$> take n (drop s path).
Proof.
  revert s. induction n as [|n IH]; intros s; [done|]. cbn [seq fmap list_fmap concat]. rewrite IH.
  destruct (path !! s) as [p|] eqn:E.
  - by rewrite (drop_S _ _ _ E).
  - apply lookup_ge_None in E. by rewrite !drop_ge, !take_nil by lia.
Qed.

(** The elements of a chunk, after the move that goes on from the one before. *)
Lemma chunk_cmds_spec a path j :
  j mod chunkSize = 0 → j < length path →
  chunk_cmds a path j =
    (if decide (j = 0) then [] else [move_to (default SClose (path !! pred j))]) ++
    (seg_cmd (arcScaleX_ a) (arcScaleY_ a) <$> take chunkSize (drop j path)).
Proof.
  intros Hj Hl. unfold chunk_cmds. pose proof chunkSize_nat as Hp.
  set (n := Nat.min (j + chunkSize) (length path) - j).
  assert (Ht : take chunkSize (drop j path) = take n (drop j path)).
  { destruct (decide (j + chunkSize ≤ length path)).
    - f_equal. unfold n. lia.
    - rewrite !take_ge; [done|rewrite length_drop; unfold n; lia..]. }
  rewrite Ht, <- seq_cmds. assert (Hn : n = S (pred n)) by (unfold n; lia). rewrite Hn. cbn [seq fmap list_fmap concat].
  rewrite Hj. cbn [Nat.eqb andb]. rewrite <- app_assoc. f_equal.
  - destruct (decide (j = 0)) as [-> |Hne]; [done|]. replace (0 <? j) with true by (symmetry; apply Nat.ltb_lt; lia).
    assert (Hlt : pred j < length path) by lia. apply lookup_lt_is_Some in Hlt as [p Ep]. rewrite Ep. cbn.
    unfold move_to. by destruct (seg_xy p) as [[x y]|].
  - f_equal. f_equal. apply list_fmap_ext. intros k i Ei. apply lookup_seq in Ei as [-> Hk].
    replace ((S j + k) mod chunkSize =? 0) with false; [done|]. symmetry. apply Nat.eqb_neq.
    apply Nat.Div0.mod_divides in Hj as [q ->]. replace (S (chunkSize * q) + k) with (S k + q * chunkSize) by lia.
    rewrite Nat.Div0.mod_add, Nat.mod_small by (unfold n in Hk; lia). lia.
Qed.

(** ** The loop *)

Lemma stroke_chunk_text c brush j b :
  stroke_brush (props c) = Ok brush → j mod chunkSize = 0 → j < length (currentPath_ c) →
  stroke_chunk false j b c =
    (Ok (chunk_bounds (currentPath_ c) j b),
     with_element (element_ c ++ [shape_text (props c) brush (chunk_cmds (props c) (currentPath_ c) j)]) c).
Proof.
  intros Eb Hj Hl. unfold stroke_chunk, appendStroke, get, lift, insert_html, modify, mbind, act_bind. cbv zeta.
  rewrite Eb. destruct brush as [[color opacity] width]. cbn [mret act_ret]. unfold shape_text, brush_text.
  by rewrite !string_app_assoc.
Qed.

(** The element before a position. *)
Definition before path (j : nat) : option (seg num) := if decide (j = 0) then None else path !! pred j.

Lemma shapes_chunk a path j :
  j mod chunkSize = 0 → j < length path →
  shapes a (before path j) (chunk chunkSize (drop j path)) =
    chunk_cmds a path j :: shapes a (before path (j + chunkSize)) (chunk chunkSize (drop (j + chunkSize) path)).
Proof.
  intros Hj Hl. pose proof chunkSize_nat as Hp. rewrite chunk_cons; [|done|].
  2: { intros E. apply (f_equal length) in E. rewrite length_drop in E. cbn in E. lia. }
  cbn [shapes]. rewrite drop_drop. f_equal.
  - rewrite chunk_cmds_spec by done. unfold before. destruct (decide (j = 0)); [done|].
    assert (Hlt : pred j < length path) by lia. apply lookup_lt_is_Some in Hlt as [p ->]. done.
  - destruct (decide (length path ≤ j + chunkSize)) as [Hge|Hlt].
    { by rewrite (drop_ge path (j + chunkSize)) by lia. }
    f_equal. unfold before. rewrite decide_False by lia. rewrite last_lookup, length_take, length_drop.
    rewrite Nat.min_l, lookup_take_lt, lookup_drop by lia. f_equal. lia.
Qed.

Lemma stroke_loop_text c brush fuel j b :
  stroke_brush (props c) = Ok brush → j mod chunkSize = 0 → length (currentPath_ c) ≤ j + fuel →
  stroke_loop false fuel j b c =
    (Ok (), with_element (element_ c ++ (shape_text (props c) brush <$>
              shapes (props c) (before (currentPath_ c) j) (chunk chunkSize (drop j (currentPath_ c))))) c).
Proof.
  pose proof chunkSize_nat as Hp.
  assert (Hend : ∀ c j, length (currentPath_ c) ≤ j →
    c = with_element (element_ c ++ (shape_text (props c) brush <$>
          shapes (props c) (before (currentPath_ c) j) (chunk chunkSize (drop j (currentPath_ c))))) c).
  { intros c0 j0 Hge. rewrite drop_ge by lia. cbn. rewrite app_nil_r. by destruct c0. }
  revert c j b. induction fuel as [|fuel IH]; intros c j b Eb Hj Hf; cbn [stroke_loop]; unfold get, mbind, act_bind;
    destruct (Nat.ltb_spec j (length (currentPath_ c))) as [Hl|Hl]; try lia; try (by rewrite <- (Hend c j Hl)).
  rewrite (stroke_chunk_text c brush) by done. set (c1 := with_element _ c).
  rewrite (IH c1 (j + chunkSize) _); [|exact Eb| |unfold c1; cbn; lia].
  2: { replace (j + chunkSize) with (j + 1 * chunkSize) by lia. by rewrite Nat.Div0.mod_add. }
  rewrite (shapes_chunk _ _ _ Hj Hl). unfold c1. cbn [element_ props currentPath_ with_element fmap list_fmap].
  rewrite <- app_assoc. done.
Qed.
End stroke.

(** The stroke of a path of any length, with a style that is a color, ends
    and inserts one shape for every piece of five thousand elements: the
    pieces are the path cut in order, so every element is drawn exactly once,
    all the pieces but the last are full, and a piece after the first moves
    first to the position where the one before it ended.  Every shape has the
    color, the opacity and the width of the stroke; nothing else changes. *)
Theorem stroke_shapes {num} `{Num num} `{MathAtan num} `{NumText num} `{NumRem num}
    (c : ectx num) brush :
  stroke_brush (props c) = Ok brush →
  let pieces := chunk chunkSize (currentPath_ c) in
  concat pieces = currentPath_ c ∧
  (∀ i piece, pieces !! i = Some piece → 0 < length piece ≤ chunkSize ∧ (S i < length pieces → length piece = chunkSize)) ∧
  stroke false c =
    (Ok (), with_element (element_ c ++ (shape_text (props c) brush <$> shapes (props c) None pieces)) c).
Proof.
  intros Eb pieces. pose proof chunkSize_nat as Hp. split; [by apply concat_chunk|]. split.
  - intros i piece Ei. split; [|by apply (chunk_full chunkSize (currentPath_ c) Hp i)].
    apply (chunk_sizes chunkSize (currentPath_ c)); [done|]. by apply list_elem_of_lookup_2 in Ei.
  - change (stroke false c) with (stroke_loop false (length (currentPath_ c)) 0 no_bounds c).
    rewrite (stroke_loop_text c brush) by (done || lia). done.
Qed.

(** A path of four elements. *)
Lemma stroke_shapes_witness :
  let c : ectx xq := with_path [SMoveTo ⟨5⟩ ⟨5⟩; SLineTo ⟨15⟩ ⟨5⟩; SLineTo ⟨15⟩ ⟨25⟩; SClose]%num
             CanvasRenderingContext2D_ in
  let stroke := stroke (H1 := λ _ _, ⟨0⟩%num) (H2 := Exact.exact_text) false in
  let pieces := chunk chunkSize (currentPath_ c) in
  length (element_ (stroke c).2) = 1 ∧
  concat pieces = currentPath_ c ∧
  (∀ i piece, pieces !! i = Some piece → 0 < length piece ≤ chunkSize ∧ (S i < length pieces → length piece = chunkSize)) ∧
  stroke c = (Ok (), with_element (element_ c ++
    (shape_text (H1 := Exact.exact_text) (props c) ("#000", ⟨1⟩, ⟨1⟩)%num <$> shapes (props c) None pieces)) c).
Proof.
  intros c stroke pieces. split; [by vm_compute|]. subst c stroke pieces.
  apply (stroke_shapes (H0 := λ _ _, ⟨0⟩%num) (H1 := Exact.exact_text)). by vm_compute.
Defined.

(** A closed figure has no last position: the shape after it starts at no
    position at all. *)
Example continue_after_close : move_to (num := xq) SClose = CmdMove XNaN XNaN.
Proof. reflexivity. Qed.
