(* ===== verification/VmlDraw.v ===== *)
(** The plot on the canvas emulation: drawing the plot over and over leaves
    the emulated context as it was found; the canvases survive being
    resized. *)

From S2P Require Import Prelude Numbers ExactNum JsText JsValue Canvas FlotModel FlotStyle FlotLines FlotLineSpec FlotMarks FlotMarkSpec FlotLayout FlotGrid FlotGridSpec.
From S2P Require Import VmlStyle VmlContext VmlPage VmlMatrix VmlRefine.
From Stdlib Require Import QArith.

Section draw.
Context `{MathLib xq} `{MathAtan xq} `{NumText xq}.
Variable images : nat → image_el xq.

(** Operations that leave the context of the specification leave that of the
    emulation. *)
Lemma balanced_emulated ops cx path c :
  balanced ops → forallb op_ok ops = true → sim (cx, path) c →
  ∃ c' path', vml_ops images ops c = (Ok (), c') ∧ sim (cx, path') c'.
Proof.
  intros B Ho S. destruct (ops_sim images _ _ ops Ho S) as (c' & E & S').
  exists c', (spec_ops (cx, path) ops).2. split; [done|]. pose proof (spec_ops_context (cx, path) ops) as C.
  destruct (spec_ops (cx, path) ops) as [cx' path']. cbn [fst snd] in *. by rewrite C, B in S'.
Qed.

(** A redraw: the plot and its geometry, and what it draws. *)
Definition redraw : Type := plot xq * geometry xq * list (canvas_op xq).

Variable grid : grid_options xq.
Variable handlers : list (string * symbol xq).
Variable hook_drawSeries : plot xq → geometry xq → series xq → list (canvas_op xq).
Variable hook_draw : plot xq → geometry xq → list (canvas_op xq).

Definition drawn (d : redraw) : Prop :=
  let '(p, g, ops) := d in
  draw grid handlers hook_drawSeries hook_draw p g = Ok ops ∧ forallb op_ok ops = true.
End draw.

(** C13: drawing a plot on the canvas emulation any number of times, whatever
    the series and the geometry of each time, raises no exception and leaves
    the context as it was found: its styles, its line settings, its
    transformation and its saved states are those from before, so that no
    redraw disturbs the next.  The symbols and the drawing hooks of the
    plugins are assumed to leave the context of the specification alone; the
    operations have finite positions and colors. *)
Theorem redraws_keep_context `{MathLib xq} `{MathAtan xq} `{NumText xq} images grid handlers hook_drawSeries hook_draw
    (redraws : list redraw) cx path c :
  (∀ name f x y r sh, Color.assoc name handlers = Some f → forallb tame (f x y r sh) = true) →
  (∀ p g s, balanced (hook_drawSeries p g s)) → (∀ p g, balanced (hook_draw p g)) →
  Forall (drawn grid handlers hook_drawSeries hook_draw) redraws → sim (cx, path) c →
  ∃ c' path', vml_ops images (concat (redraws.*2)) c = (Ok (), c') ∧ sim (cx, path') c'.
Proof.
  intros Hh Hs Hd F S.
  assert (B : balanced (concat (redraws.*2)) ∧ forallb op_ok (concat (redraws.*2)) = true); [|by eapply balanced_emulated; [apply B..|]].
  induction F as [|[[p g] ops] redraws [Hdraw Ho] F [IHb IHo]]; [split; [apply balanced_nil|done]|]. cbn [fmap list_fmap concat snd].
  split; [apply balanced_app; [by eapply draw_balanced|done]|]. by rewrite forallb_app, Ho, IHo.
Qed.

(** Two drawings of a plot with markings. *)
Lemma redraws_keep_context_witness :
  let _ := Exact.exact_text in let _ := Exact.exact_math in let _ := rough_atan in
  ∃ ops, draw marked_grid symbol_handlers (λ _ _ _, []) (λ _ _, []) sample_drawn sample_geometry = Ok ops ∧
    ∃ c' path', vml_ops (λ _, ImageEl 1 "IMG" "complete" "" ⟨1⟩ ⟨1⟩)%num
        (concat [ops; ops]) CanvasRenderingContext2D_ = (Ok (), c') ∧ sim ((new_gstate, []), path') c'.
Proof.
  eexists. split; [vm_compute; reflexivity|].
  match goal with |- context [concat [?l; ?l]] => set (ops := l) end.
  apply (@redraws_keep_context Exact.exact_math rough_atan Exact.exact_text
    (λ _, ImageEl 1 "IMG" "complete" "" ⟨1⟩ ⟨1⟩)%num marked_grid (@symbol_handlers xq _ Exact.exact_math)
    (λ _ _ _, []) (λ _ _, []) [(sample_drawn, sample_geometry, ops); (sample_drawn, sample_geometry, ops)] (new_gstate, []) []).
  - intros name h x y r sh. apply (@symbol_handlers_tame Exact.exact_math).
  - intros. apply balanced_nil.
  - intros. apply balanced_nil.
  - assert (D : @drawn Exact.exact_math Exact.exact_text marked_grid (@symbol_handlers xq _ Exact.exact_math) (λ _ _ _, []) (λ _ _, [])
      (sample_drawn, sample_geometry, ops)) by (split; vm_compute; reflexivity).
    by repeat constructor.
  - apply new_sim.
Defined.
