(* ===== verification/VmlPageSpec.v ===== *)
(** The canvas elements of the emulation: they are initialized once, a change
    of their size clears them and keeps the state of their context. *)

From S2P Require Import Prelude Numbers ExactNum JsText JsValue Canvas VmlStyle VmlContext VmlPage VmlMatrix VmlRefine VmlDraw.

Section page.
Context {num : Type} `{Num num} `{NumText num}.
Variable clientWidth clientHeight : canvas_el (num := num) → num.
Let initElement := initElement clientWidth clientHeight.

(** ** Initialization *)

Lemma initElement_getContext el doc : el_getContext (initElement el doc).1 = true.
Proof.
  unfold initElement, VmlPage.initElement. destruct (el_getContext el) eqn:E; [done|].
  by destruct (attr_width el), (attr_height el).
Qed.

Lemma add_namespace_twice name uri doc : add_namespace name uri (add_namespace name uri doc) = add_namespace name uri doc.
Proof.
  unfold add_namespace at 2 3. destruct (existsb _ (namespaces doc)) eqn:E; unfold add_namespace; [by rewrite E|].
  cbn [namespaces]. rewrite existsb_app. cbn. by rewrite String.eqb_refl, orb_true_r.
Qed.

(** A second initialization of an element does nothing. *)
Lemma initElement_done el doc : el_getContext el = true → initElement el doc = (el, doc).
Proof. intros E. unfold initElement, VmlPage.initElement. by rewrite E. Qed.
Lemma initElement_once el doc doc' :
  initElement (initElement el doc).1 doc' = ((initElement el doc).1, doc').
Proof. apply initElement_done, initElement_getContext. Qed.

Lemma init_all_spec els done doc :
  (∀ el, el ∈ done → el_getContext el = true) →
  let '(els', _) := foldl (λ '(done, doc) el, let '(el, doc) := initElement el doc in (done ++ [el], doc)) (done, doc) els in
  length els' = length done + length els ∧ ∀ el, el ∈ els' → el_getContext el = true.
Proof.
  revert done doc. induction els as [|el els IH]; intros don doc Hd; cbn [foldl]; [by rewrite Nat.add_0_r|].
  pose proof (initElement_getContext el doc) as E. destruct (initElement el doc) as [el' doc'] eqn:Ei. cbn [fst] in E.
  specialize (IH (don ++ [el']) doc'). destruct (foldl _ _ els) as [els' doc2].
  destruct IH as [L A]. { intros x [Hx|Hx%list_elem_of_singleton]%elem_of_app; [by apply Hd|by subst]. }
  split; [|done]. rewrite L, length_app. cbn. lia.
Qed.

(** The elements of the document are all initialized; doing it again, as the
    document goes through its states, changes none of them. *)
Lemma init_spec els doc :
  let '(els', doc') := init_ clientWidth clientHeight els doc in
  length els' = length els ∧ (∀ el, el ∈ els' → el_getContext el = true) ∧
  init_ clientWidth clientHeight els' doc' = (els', doc').
Proof.
  unfold init_. pose proof (init_all_spec els [] doc) as A. unfold initElement in A.
  destruct (foldl _ ([], doc) els) as [els' doc']. destruct A as [L A]; [by intros el ?%elem_of_nil|].
  split; [done|]. split; [done|].
  assert (G : ∀ els done, (∀ el, el ∈ els → el_getContext el = true) →
    foldl (λ '(done, doc) el, let '(el, doc) := VmlPage.initElement clientWidth clientHeight el doc in (done ++ [el], doc))
      (done, doc') els = (done ++ els, doc')); [|by apply (G els' [])].
  clear. intros els. induction els as [|el els IH]; intros don He; cbn [foldl]; [by rewrite app_nil_r|].
  unfold VmlPage.initElement at 2. rewrite (He el) by by left. rewrite IH by (intros x Hx; apply He; by right).
  by rewrite <- app_assoc.
Qed.

(** ** Sizes *)

(** The context of an element after its size changed: the markup is gone, the
    rest is as before. *)
Lemma onPropertyChange_keeps prop el el' c :
  prop = "width" ∨ prop = "height" → context_ el = Some c →
  onPropertyChange clientWidth clientHeight prop el = Ok el' →
  context_ el' = Some (with_element [] (with_measure None c)).
Proof.
  intros Hp Ec. unfold onPropertyChange. assert (E : context_ (clear_element clientWidth clientHeight el) = Some (with_element [] (with_measure None c))).
  { unfold clear_element, getContext. by rewrite Ec. }
  destruct Hp as [-> | ->]; case_match; intros [= <-]; exact E.
Qed.
End page.

Lemma restore_save_element `{MathLib xq} `{MathAtan xq} `{NumText xq} images c :
  element_ (vml_ops images [OpRestore; OpSave] c).2 = element_ c.
Proof. by destruct c as [? ? [|? ?]]. Qed.

(** Resizing a canvas of the plot on the emulation.  The context saved its
    first state when the canvas was made; the plot was drawn on it; the change
    of the size clears the canvas but, unlike that of a real canvas, does not
    reset the context; the [restore] and [save] with which the plot resets it
    do: the context is then as when it was made, with its first state saved,
    and nothing is drawn. *)
Theorem resize_resets `{MathLib xq} `{MathAtan xq} `{NumText xq} images clientWidth clientHeight
    (ops : list (canvas_op xq)) (el el' : canvas_el) prop c :
  balanced ops → forallb op_ok ops = true →
  vml_ops images (OpSave :: ops) CanvasRenderingContext2D_ = (Ok (), c) → context_ el = Some c →
  prop = "width" ∨ prop = "height" → onPropertyChange clientWidth clientHeight prop el = Ok el' →
  ∃ c1 c2 path, context_ el' = Some c1 ∧ element_ c1 = [] ∧
    vml_ops images [OpRestore; OpSave] c1 = (Ok (), c2) ∧ element_ c2 = [] ∧
    sim ((new_gstate, [new_gstate]), path) c2.
Proof.
  intros B Ho E Ec Hp Hc. pose proof (onPropertyChange_keeps _ _ _ _ _ _ Hp Ec Hc) as E1.
  set (c1 := with_element [] (with_measure None c)) in E1.
  assert (S : ∃ path, sim ((new_gstate, [new_gstate]), path) c).
  { destruct (ops_sim images _ _ (OpSave :: ops) Ho new_sim) as (c' & E' & S'). rewrite E in E'. injection E' as <-.
    pose proof (spec_ops_context ((new_gstate, []), []) (OpSave :: ops)) as R.
    destruct (spec_ops _ _) as [cx path]. cbn [fst] in R. subst cx. exists path.
    change (run_ops _ (OpSave :: ops)) with (run_ops (new_gstate, [new_gstate]) ops) in S'. by rewrite B in S'. }
  destruct S as [path S].
  assert (S1 : sim ((new_gstate, [new_gstate]), path) c1) by (destruct S as [S T P]; by split).
  destruct (ops_sim images _ _ [OpRestore; OpSave] eq_refl S1) as (c2 & E2 & S2).
  exists c1, c2, path. split; [done|]. split; [done|]. split; [done|]. split; [|exact S2].
  pose proof (restore_save_element images c1) as K. by rewrite E2 in K.
Qed.

(** A line is drawn with a translation, then the width changes. *)
Lemma resize_resets_witness :
  let ops := [OpSave; OpTranslate ⟨20⟩ ⟨10⟩; OpStrokeStyle (PaintText "red"); OpBeginPath; OpMoveTo ⟨0⟩ ⟨0⟩;
              OpLineTo ⟨50⟩ ⟨30⟩; OpStroke; OpRestore]%num in
  let images := λ _ : nat, ImageEl 1 "IMG" "complete" "" ⟨1⟩%num ⟨1⟩%num in
  let vml := vml_ops (H := Exact.exact_math) (H0 := rough_atan) (H1 := Exact.exact_text) images in
  let c := (vml (OpSave :: ops) CanvasRenderingContext2D_).2 in
  let el := CanvasEl true (Some c) (Some "400") (Some "300") None None "" "" [] "" "" in
  ∃ el', onPropertyChange (H2 := Exact.exact_text) (λ _, ⟨400⟩%num) (λ _, ⟨300⟩%num) "width" el = Ok el' ∧
  length (element_ c) = 1 ∧
  ∃ c1 c2 path, context_ el' = Some c1 ∧ element_ c1 = [] ∧
    vml [OpRestore; OpSave] c1 = (Ok (), c2) ∧ element_ c2 = [] ∧
    sim (H1 := Exact.exact_text) ((new_gstate, [new_gstate]), path) c2.
Proof.
  intros ops images vml c el. eexists. split; [reflexivity|]. split; [by vm_compute|]. subst vml.
  apply (@resize_resets Exact.exact_math rough_atan Exact.exact_text images (λ _, ⟨400⟩%num) (λ _, ⟨300⟩%num) ops el _ "width" c).
  - intros [g st]. by destruct g.
  - by vm_compute.
  - by vm_compute.
  - done.
  - by left.
  - reflexivity.
Defined.
