(* ===== verification/JQueryDeferred.v ===== *)
(** Deferred objects, [jQuery._Deferred], [jQuery.Deferred] and [jQuery.when]
    of [static/flot/jquery.js]: lists of callbacks that are called when a
    request ends.  A callback may itself register callbacks, resolve the
    object again or throw, so calling the callbacks is a machine with a stack
    of what remains to be done. *)

From S2P Require Import Prelude.

(** The two lists of a deferred: [done] and [fail]. *)
Inductive which := LDone | LFail.
Definition other (w : which) : which := match w with LDone => LFail | LFail => LDone end.
#[export] Instance which_eq_dec : EqDecision which.
Proof. solve_decision. Defined.

(** The arguments of [done] and [fail]: functions, arrays and the rest, which
    is ignored. *)
Inductive item := IFn (f : nat) | IArray (l : list item) | IOther.

(** The functions of nested arrays are registered in order. *)
Fixpoint flatten (i : item) : list nat :=
  match i with
  | IFn f => [f]
  | IArray l => (fix flat l := match l with [] => [] | i :: l => flatten i ++ flat l end) l
  | IOther => []
  end.

(** A registered function: one of the program, or the [cancel] of a list. *)
Inductive callback := User (f : nat) | Cancel (w : which).

Section deferred.
(** What callbacks are called with: a context and arguments. *)
Context {A : Type}.

(** A list of callbacks ([_Deferred]); [fired] holds the arguments once the
    callbacks were called. *)
Record dlist := DList { callbacks : list callback; fired : option A; firing : bool; cancelled : bool }.

(** What is done to a deferred from outside or by a callback:
    [done] or [fail], [resolveWith] or [rejectWith], an exception. *)
Inductive action := ARegister (w : which) (args : list item) | AFire (w : which) (a : A) | AThrow.

(** What remains: an action, the loop over the callbacks, its [finally]. *)
Inductive frame := FAct (x : action) | FLoop (w : which) (a : A) | FFinally (w : which) (a : A).

Record machine := Machine {
  dl_done : dlist; dl_fail : dlist;
  log : list (which * nat * A);      (* the calls, in order *)
  frames : list frame;               (* what remains, the next first *)
  throwing : bool;                   (* an exception is on its way *)
}.

Definition dl (w : which) (m : machine) : dlist := match w with LDone => dl_done m | LFail => dl_fail m end.
Definition set_dl (w : which) (l : dlist) (m : machine) : machine :=
  match w with
  | LDone => Machine l (dl_fail m) (log m) (frames m) (throwing m)
  | LFail => Machine (dl_done m) l (log m) (frames m) (throwing m)
  end.
Definition set_frames (k : list frame) (m : machine) : machine :=
  Machine (dl_done m) (dl_fail m) (log m) k (throwing m).

(** [_Deferred()] *)
Definition new_dlist : dlist := DList [] None false false.

(** [resolveWith(context, args)], up to the loop. *)
Definition resolveWith (w : which) (a : A) (k : list frame) (m : machine) : machine :=
  let l := dl w m in
  if cancelled l || bool_decide (is_Some (fired l)) || firing l then set_frames k m
  else set_frames (FLoop w a :: FFinally w a :: k) (set_dl w (DList (callbacks l) (fired l) true (cancelled l)) m).

(** [done(...)]: when the callbacks were called already, the new ones are
    called with the same arguments. *)
Definition done (w : which) (fs : list callback) (k : list frame) (m : machine) : machine :=
  let l := dl w m in
  if cancelled l then set_frames k m
  else
    let m := set_dl w (DList (callbacks l ++ fs) None (firing l) (cancelled l)) m in
    match fired l with
    | Some a => resolveWith w a k m
    | None => set_frames k m
    end.

(** [cancel()] *)
Definition cancel (w : which) (m : machine) : machine :=
  set_dl w (DList [] (fired (dl w m)) (firing (dl w m)) true) m.

(** [isResolved()] and [isRejected()] *)
Definition isResolved (w : which) (m : machine) : bool :=
  firing (dl w m) || bool_decide (is_Some (fired (dl w m))).

(** What the functions of the program do to the deferred. *)
Variable behavior : nat → list action.

(** One step: an exception leaves what remains up to the [finally] of the
    loop it is in, and goes on. *)
Definition step (m : machine) : option machine :=
  match frames m with
  | [] => None
  | FFinally w a :: k =>
      Some (set_frames k (set_dl w (DList (callbacks (dl w m)) (Some a) false (cancelled (dl w m))) m))
  | f :: k =>
      if throwing m then Some (set_frames k m)
      else
        match f with
        | FAct (ARegister w args) => Some (done w (User <$> concat (flatten <$> args)) k m)
        | FAct (AFire w a) => Some (resolveWith w a k m)
        | FAct AThrow => Some (Machine (dl_done m) (dl_fail m) (log m) k true)
        | FLoop w a =>
            match callbacks (dl w m) with
            | [] => Some (set_frames k m)
            | cb :: rest =>
                let m := set_dl w (DList rest (fired (dl w m)) (firing (dl w m)) (cancelled (dl w m))) m in
                match cb with
                | Cancel w' => Some (set_frames (FLoop w a :: k) (cancel w' m))
                | User f =>
                    Some (Machine (dl_done m) (dl_fail m) (log m ++ [(w, f, a)])
                            ((FAct <$> behavior f) ++ FLoop w a :: k) false)
                end
            end
        | FFinally _ _ => None
        end
  end.

(** Runs until nothing remains. *)
Fixpoint run (fuel : nat) (m : machine) : result machine :=
  match step m with
  | None => Ok m
  | Some m => match fuel with O => NoFuel | S fuel => run fuel m end
  end.

(** [Deferred()]: each list cancels the other first. *)
Definition Deferred : machine :=
  let m := Machine new_dlist new_dlist [] [] false in
  done LFail [Cancel LDone] [] (done LDone [Cancel LFail] [] m).

(** An action from outside, when nothing is under way. *)
Definition call (x : action) (m : machine) : machine :=
  Machine (dl_done m) (dl_fail m) (log m) [FAct x] false.

(** [then(doneCallbacks, failCallbacks)] *)
Definition then_ (d f : list item) : list action := [ARegister LDone d; ARegister LFail f].
End deferred.
Arguments dlist A : clear implicits. Arguments machine A : clear implicits.
Arguments action A : clear implicits. Arguments frame A : clear implicits.

(** ** [when] *)

(** An argument of [when]: a value, or a promise. *)
Inductive wait_arg (V : Type) := WValue (v : V) | WPromise.
Arguments WValue {V} v. Arguments WPromise {V}.

Section when.
Context {V : Type}.

(** The values so far, how many are missing, and the outcome of the new
    deferred: the values, or the index of the promise that was rejected. *)
Record when_state := When { w_array : list (option V); w_count : Z; w_outcome : option (list (option V) + nat) }.

(** [deferred.resolveWith] and [deferred.reject], of which the first counts. *)
Definition settle (o : list (option V) + nat) (s : when_state) : when_state :=
  When (w_array s) (w_count s) (Some (default o (w_outcome s))).

(** [iCallback(index)] *)
Definition iCallback (index : nat) (v : V) (s : when_state) : when_state :=
  let s := When (<[index := Some v]> (w_array s)) (w_count s - 1) (w_outcome s) in
  if (w_count s =? 0)%Z then settle (inl (w_array s)) s else s.

(** One argument of [when]; [already] says which of the promises are resolved,
    and with which value, or rejected when they are passed. *)
Definition when_arg (already : nat → option (option V)) (ix : nat * wait_arg V) (s : when_state) : when_state :=
  match ix.2 with
  | WPromise => match already ix.1 with
                | Some (Some v) => iCallback ix.1 v s
                | Some None => settle (inr ix.1) s
                | None => s
                end
  | WValue _ => When (w_array s) (w_count s - 1) (w_outcome s)
  end.

(** [when(...)] of more than one argument. *)
Definition when_all (already : nat → option (option V)) (args : list (wait_arg V)) : when_state :=
  let s := When ((λ x, match x with WValue v => Some v | WPromise => None end) <$> args) (Z.of_nat (length args)) None in
  let s := foldr (when_arg already) s (zip (seq 0 (length args)) args) in
  if (w_count s =? 0)%Z then settle (inl (w_array s)) s else s.

(** [when(...)]: a promise that is the only argument is returned itself;
    without an argument the value is [undefined]. *)
Definition when_ (already : nat → option (option V)) (args : list (wait_arg V)) : option when_state :=
  match args with
  | [] => Some (When [None] 0 (Some (inl [None])))
  | [WValue v] => Some (When [Some v] 0 (Some (inl [Some v])))
  | [WPromise] => None
  | _ => Some (when_all already args)
  end.

(** A promise is resolved or rejected later. *)
Inductive settled := Resolved (i : nat) (v : V) | Rejected (i : nat).
Definition when_step (s : when_state) (e : settled) : when_state :=
  match e with Resolved i v => iCallback i v s | Rejected i => settle (inr i) s end.
End when.
Arguments when_state V : clear implicits. Arguments settled V : clear implicits.
