(* ===== verification/JQueryDeferredSpec.v ===== *)
(** Deferred objects call every callback at most once, in the order of
    registration, with the same arguments, from one list only; and they come
    to an end. *)

From S2P Require Import Prelude JQueryDeferred.

Section spec.
Context {A : Type}.
Variable behavior : nat → list (action A).
Implicit Types (m : machine A) (w : which) (a : A).

(** ** Runs *)

(** A machine with its history: the functions that were registered, and
    whether an exception was ever thrown. *)
Record history := History { hm : machine A; registered : list (which * nat); threw : bool }.

(** What the next step registers. *)
Definition accepts m : list (which * nat) :=
  match frames m with
  | FAct (ARegister w args) :: _ =>
      if throwing m || cancelled (dl w m) then [] else (λ f, (w, f)) <$> concat (flatten <$> args)
  | _ => []
  end.
Definition throws m : bool := match frames m with FAct AThrow :: _ => true | _ => false end.

(** Steps of the machine, and actions from outside between them. *)
Inductive reachable : history → Prop :=
  | reach_new : reachable (History Deferred [] false)
  | reach_step h m' :
      reachable h → step behavior (hm h) = Some m' →
      reachable (History m' (registered h ++ accepts (hm h)) (threw h || throws (hm h)))
  | reach_call h x : reachable h → frames (hm h) = [] → reachable (History (call x (hm h)) (registered h) (threw h)).

(** The functions registered in a list, those called and those that wait. *)
Definition of_list {B} w (l : list (which * B)) : list B := omap (λ '(w', f), if decide (w' = w) then Some f else None) l.
Definition called w m : list nat := omap (λ '(w', f, _), if decide (w' = w) then Some f else None) (log m).
Definition waiting w m : list nat := omap (λ cb, match cb with User f => Some f | Cancel _ => None end) (callbacks (dl w m)).

Lemma of_list_app {B} w (l k : list (which * B)) : of_list w (l ++ k) = of_list w l ++ of_list w k.
Proof. apply omap_app. Qed.

(** ** The shape of the machine *)

(** What remains is a sequence of actions, and then the loop, if one is
    running. *)
Inductive tail_ok w (a : A) : bool → list (frame A) → Prop :=
  | tail_none : tail_ok w a false []
  | tail_loop : tail_ok w a true [FLoop w a; FFinally w a]
  | tail_finally : tail_ok w a true [FFinally w a].

(** Before anything happened: both lists wait, the first to be called cancels
    the other. *)
Record fresh (h : history) : Prop := {
  fr_list w : callbacks (dl w (hm h)) = Cancel (other w) :: (User <$> of_list w (registered h));
  fr_fired w : fired (dl w (hm h)) = None;
  fr_cancelled w : cancelled (dl w (hm h)) = false;
  fr_log : log (hm h) = [];
  fr_frames : (frames (hm h) = [] ∨ ∃ x, frames (hm h) = [FAct x]) ∧ (∀ w, firing (dl w (hm h)) = false) ∨
              ∃ w a, frames (hm h) = [FLoop w a; FFinally w a] ∧ firing (dl w (hm h)) = true ∧
                     firing (dl (other w) (hm h)) = false ∧ throwing (hm h) = false;
}.

(** Once a list was called: the other is cancelled for good. *)
Record decided w a (h : history) : Prop := {
  de_other : cancelled (dl (other w) (hm h)) = true ∧ callbacks (dl (other w) (hm h)) = [] ∧
             firing (dl (other w) (hm h)) = false ∧ fired (dl (other w) (hm h)) = None;
  de_self : cancelled (dl w (hm h)) = false;
  de_log e : e ∈ log (hm h) → e.1.1 = w ∧ e.2 = a;
  de_list : callbacks (dl w (hm h)) = User <$> waiting w (hm h);
  de_order : of_list w (registered h) = called w (hm h) ++ waiting w (hm h);
  de_frames : ∃ xs tail, frames (hm h) = (FAct <$> xs) ++ tail ∧ tail_ok w a (firing (dl w (hm h))) tail ∧
                (firing (dl w (hm h)) = false → length xs ≤ 1) ∧
                (throwing (hm h) = false → tail = [FFinally w a] → xs = []);
  de_fired : fired (dl w (hm h)) = if firing (dl w (hm h)) then None else Some a;
  de_done : threw h = false → (throwing (hm h) = false) ∧
     (∀ xs, frames (hm h) = (FAct <$> xs) ++ [FFinally w a] ∨ firing (dl w (hm h)) = false → waiting w (hm h) = []);
}.

(** ** Lists of a machine *)

Lemma dl_set_same w l m : dl w (set_dl w l m) = l.
Proof. by destruct w. Qed.
Lemma dl_set_other w l m : dl (other w) (set_dl w l m) = dl (other w) m.
Proof. by destruct w. Qed.
Lemma dl_set_other' w l m : dl w (set_dl (other w) l m) = dl w m.
Proof. by destruct w. Qed.
Lemma dl_frames w k m : dl w (set_frames k m) = dl w m.
Proof. by destruct w. Qed.
Lemma log_set w l m : log (set_dl w l m) = log m.
Proof. by destruct w. Qed.
Lemma frames_set w l m : frames (set_dl w l m) = frames m.
Proof. by destruct w. Qed.
Lemma throwing_set w l m : throwing (set_dl w l m) = throwing m.
Proof. by destruct w. Qed.
Lemma set_frames_set k k' m : set_frames k (set_frames k' m) = set_frames k m.
Proof. done. Qed.
Lemma other_other w : other (other w) = w.
Proof. by destruct w. Qed.
Lemma which_cases w w' : w' = w ∨ w' = other w.
Proof. destruct w, w'; auto. Qed.
Lemma dl_machine w m l k b : dl w (Machine (dl_done m) (dl_fail m) l k b) = dl w m.
Proof. by destruct w. Qed.

Lemma of_list_same w (fs : list nat) : of_list w ((λ f, (w, f)) <$> fs) = fs.
Proof. induction fs as [|f fs IH]; [done|]. cbn. rewrite decide_True by done. by f_equal. Qed.
Lemma of_list_other w (fs : list nat) : of_list (other w) ((λ f, (w, f)) <$> fs) = [].
Proof. induction fs as [|f fs IH]; [done|]. cbn. rewrite decide_False; [done|by destruct w]. Qed.
Lemma of_list_other' w (fs : list nat) : of_list w ((λ f, (other w, f)) <$> fs) = [].
Proof. rewrite <- (other_other w) at 1. apply of_list_other. Qed.

Lemma users_waiting (fs : list nat) : omap (λ cb, match cb with User f => Some f | Cancel _ => None end) (User <$> fs) = fs.
Proof. induction fs as [|f fs IH]; [done|]. cbn. by f_equal. Qed.

Lemma users_app (l : list callback) (k fs : list nat) : l = User <$> k → l ++ (User <$> fs) = User <$> (k ++ fs).
Proof. intros ->. by rewrite fmap_app. Qed.

Ltac machines :=
  repeat progress (rewrite ?dl_frames, ?dl_set_same, ?dl_set_other, ?dl_set_other', ?log_set, ?frames_set, ?throwing_set,
    ?dl_machine in *; cbn [callbacks fired firing cancelled log frames throwing set_frames hm registered threw] in * ).

(** ** Every step keeps the shape *)

Lemma fresh_new : fresh (History Deferred [] false).
Proof. split; try (by intros []); [done|]. left. split; [by left|by intros []]. Qed.

Lemma fresh_call h x : fresh h → frames (hm h) = [] → fresh (History (call x (hm h)) (registered h) (threw h)).
Proof.
  intros [FL FF FC LG FR] E. assert (Fi : ∀ w, firing (dl w (hm h)) = false).
  { destruct FR as [[_ FR]|(w & a & FR & _)]; [exact FR|congruence]. }
  split; cbn [hm registered]; unfold call; try (intros w; rewrite dl_machine; auto); [done|].
  left. split; [right; by exists x|]. intros w. rewrite dl_machine. apply Fi.
Qed.

(** The first function of a list cancels the other list. *)
Lemma fresh_loop h w a k :
  fresh h → frames (hm h) = FLoop w a :: k → throwing (hm h) = false →
  ∃ m', step behavior (hm h) = Some m' ∧ decided w a (History m' (registered h) (threw h)).
Proof.
  intros [FL FF FC LG FR] E Et. unfold step. rewrite E, Et, FL. eexists. split; [reflexivity|].
  destruct FR as [[FR _]|(w1 & a1 & FR & F1 & F2 & F3)]; [destruct FR as [FR|[x FR]]; congruence|].
  rewrite E in FR. injection FR as <- <- ->. unfold cancel.
  split; machines; rewrite ?FF, ?FC, ?F1, ?F2 in *.
  - done.
  - done.
  - intros e He. rewrite LG in He. by apply elem_of_nil in He.
  - unfold waiting. machines. by rewrite users_waiting.
  - unfold called, waiting. machines. rewrite LG. cbn [omap list_omap app]. by rewrite users_waiting.
  - exists [], [FLoop w a; FFinally w a]. by repeat split; try constructor.
  - done.
  - intros _. split; [done|]. intros xs [Hx|Hx]; [|done]. destruct xs as [|x [|? xs]]; discriminate.
Qed.

(** Nothing but what remains changes. *)
Lemma decided_frames h w a k acc th :
  decided w a h → of_list w acc = [] →
  (∃ xs tail, k = (FAct <$> xs) ++ tail ∧ tail_ok w a (firing (dl w (hm h))) tail ∧
     (firing (dl w (hm h)) = false → length xs ≤ 1) ∧ (throwing (hm h) = false → tail = [FFinally w a] → xs = [])) →
  (threw h || th = false → ∀ xs, k = (FAct <$> xs) ++ [FFinally w a] → waiting w (hm h) = []) →
  decided w a (History (set_frames k (hm h)) (registered h ++ acc) (threw h || th)).
Proof.
  intros [D1 D2 D3 D4 D5 D6 D7 D8] Ha Hk Hw.
  assert (Ew : waiting w (set_frames k (hm h)) = waiting w (hm h)) by (unfold waiting; by machines).
  split; machines; rewrite ?Ew; try done.
  - rewrite of_list_app, Ha, app_nil_r. exact D5.
  - intros Ht. pose proof Ht as [Ht1 _]%orb_false_iff. destruct (D8 Ht1) as [E8 W8]. split; [done|].
    intros xs [Hx|Hx]; [by apply (Hw Ht xs)|apply (W8 []); by right].
Qed.

Lemma tail_not_finally (xs ys : list (action A)) w a : (FAct <$> xs) ++ [FLoop w a; FFinally w a] ≠ (FAct <$> ys) ++ [FFinally w a].
Proof.
  revert ys. induction xs as [|x xs IH]; intros [|y ys]; cbn; try discriminate; injection 1.
  intros E _. by apply (IH ys).
Qed.
Lemma tail_drop (x : action A) xs tail ys w a :
  (FAct <$> xs) ++ tail = (FAct <$> ys) ++ [FFinally w a] → (FAct <$> x :: xs) ++ tail = (FAct <$> x :: ys) ++ [FFinally w a].
Proof. intros E. cbn. by rewrite E. Qed.

(** Registering functions while the callbacks are called. *)
Lemma decided_register h w a fs xs :
  decided w a h → firing (dl w (hm h)) = true →
  decided w a (History (set_frames ((FAct <$> xs) ++ [FLoop w a; FFinally w a])
                          (set_dl w (DList (callbacks (dl w (hm h)) ++ (User <$> fs)) None true false) (hm h)))
                 (registered h ++ ((λ f, (w, f)) <$> fs)) (threw h || false)).
Proof.
  intros [(D1 & D1' & D1'' & Df) D2 D3 D4 D5 D6 D7 D8] F.
  assert (Ew : ∀ m', callbacks (dl w m') = callbacks (dl w (hm h)) ++ (User <$> fs) → waiting w m' = waiting w (hm h) ++ fs).
  { intros m' E. unfold waiting. rewrite E, omap_app. by rewrite users_waiting. }
  split; machines; try done.
  - rewrite Ew by (by machines). rewrite D4 at 1. by rewrite fmap_app.
  - rewrite Ew by (by machines). rewrite of_list_app, of_list_same, D5, app_assoc. unfold called. by machines.
  - exists xs, [FLoop w a; FFinally w a]. by repeat split; try constructor.
  - rewrite orb_false_r. intros Ht. destruct (D8 Ht) as [E8 _]. split; [done|]. intros ys [Hy|Hy]; [|done].
    by apply tail_not_finally in Hy.
Qed.

(** Registering functions when the callbacks were called: they are called too. *)
Lemma decided_again h w a fs :
  decided w a h → firing (dl w (hm h)) = false → throwing (hm h) = false →
  decided w a (History (resolveWith w a [] (set_dl w (DList (callbacks (dl w (hm h)) ++ (User <$> fs)) None false false) (hm h)))
                 (registered h ++ ((λ f, (w, f)) <$> fs)) (threw h || false)).
Proof.
  intros [(D1 & D1' & D1'' & Df) D2 D3 D4 D5 D6 D7 D8] F Et.
  assert (Ew : ∀ m', callbacks (dl w m') = callbacks (dl w (hm h)) ++ (User <$> fs) → waiting w m' = waiting w (hm h) ++ fs).
  { intros m' E. unfold waiting. rewrite E, omap_app. by rewrite users_waiting. }
  unfold resolveWith. rewrite dl_set_same. cbn [cancelled fired firing callbacks orb]. rewrite bool_decide_eq_false_2 by (by intros []). cbn [orb].
  split; machines; try done.
  - rewrite Ew by (by machines). rewrite D4 at 1. by rewrite fmap_app.
  - rewrite Ew by (by machines). rewrite of_list_app, of_list_same, D5, app_assoc. unfold called. by machines.
  - exists [], [FLoop w a; FFinally w a]. by repeat split; try constructor.
  - intros _. split; [done|]. intros ys [Hy|Hy]; [|done]. by apply (tail_not_finally [] ys) in Hy.
Qed.

(** An action on the decided deferred, or one that is left by an exception. *)
Lemma decided_act h w a x xs tail m' :
  decided w a h → frames (hm h) = (FAct <$> x :: xs) ++ tail →
  tail_ok w a (firing (dl w (hm h))) tail → (firing (dl w (hm h)) = false → length (x :: xs) ≤ 1) →
  (throwing (hm h) = false → tail ≠ [FFinally w a]) → step behavior (hm h) = Some m' →
  decided w a (History m' (registered h ++ accepts (hm h)) (threw h || throws (hm h))).
Proof.
  intros D E Ht Hl Hf. unfold step, accepts, throws. rewrite E. cbn [fmap list_fmap app].
  pose proof D as [(D1 & D1' & D1'' & Df) D2 D3 D4 D5 D6 D7 D8].
  assert (Hk : ∃ ys t, (FAct <$> xs) ++ tail = (FAct <$> ys) ++ t ∧ tail_ok w a (firing (dl w (hm h))) t ∧
    (firing (dl w (hm h)) = false → length ys ≤ 1) ∧ (throwing (hm h) = false → t = [FFinally w a] → ys = [])).
  { exists xs, tail. split; [done|]. split; [done|]. split; [|intros Et Et'; by destruct (Hf Et)].
    intros F. specialize (Hl F). cbn in Hl. lia. }
  assert (Hw : ∀ th, threw h || th = false → ∀ ys, (FAct <$> xs) ++ tail = (FAct <$> ys) ++ [FFinally w a] → waiting w (hm h) = []).
  { intros th [Hn _]%orb_false_iff ys Hy. destruct (D8 Hn) as [_ W]. apply (W (x :: ys)). left. rewrite E. by apply tail_drop. }
  destruct (throwing (hm h)) eqn:Et.
  { intros [= <-]. destruct x; cbn [orb]; (apply decided_frames; [done|done|by rewrite Et|apply Hw]). }
  destruct x as [w1 args|w1 a1|].
  - intros [= <-]. unfold done. destruct (which_cases w w1) as [-> | ->].
    2: { rewrite D1. cbn [orb]. apply decided_frames; [done|done|by rewrite Et|apply Hw]. }
    rewrite D2. cbn [orb]. rewrite D7. destruct (firing (dl w (hm h))) eqn:F.
    + inversion Ht; subst; [by apply decided_register|by destruct (Hf eq_refl)].
    + inversion Ht; subst. assert (xs = []) as -> by (specialize (Hl eq_refl); destruct xs; [done|cbn in Hl; lia]).
      by apply decided_again.
  - intros [= <-]. cbn [orb]. unfold resolveWith. replace (_ || _ || _) with true; [by apply decided_frames; [| |rewrite Et; exact Hk|apply Hw]|].
    destruct (which_cases w w1) as [-> | ->]; [|by rewrite D1]. rewrite D7. destruct (firing (dl w (hm h))); [by rewrite orb_true_r|].
    by rewrite orb_true_r.
  - intros [= <-]. rewrite orb_true_r, app_nil_r. assert (Ew : ∀ k b, waiting w (Machine (dl_done (hm h)) (dl_fail (hm h)) (log (hm h)) k b) = waiting w (hm h))
      by (intros k b; unfold waiting; by machines).
    split; machines; rewrite ?Ew; try done. destruct Hk as (ys & t & E1 & E2 & E3 & E4). by exists ys, t.
Qed.

(** The loop and what ends it. *)
Lemma decided_tail h w a tail m' :
  decided w a h → frames (hm h) = tail → tail_ok w a (firing (dl w (hm h))) tail → step behavior (hm h) = Some m' →
  decided w a (History m' (registered h ++ accepts (hm h)) (threw h || throws (hm h))).
Proof.
  intros D E Ht. unfold step, accepts, throws. rewrite E. pose proof D as [(D1 & D1' & D1'' & Df) D2 D3 D4 D5 D6 D7 D8].
  inversion Ht as [F|F|F]; subst tail; [done|..].
  - rewrite app_nil_r, orb_false_r. destruct (throwing (hm h)) eqn:Et.
    { intros [= <-]. rewrite <- (app_nil_r (registered h)), <- (orb_false_r (threw h)). apply decided_frames; [done|done| |].
      - exists [], [FFinally w a]. rewrite <- F. by repeat split; try constructor.
      - rewrite orb_false_r. intros Hn. destruct (D8 Hn). congruence. }
    rewrite D4. destruct (waiting w (hm h)) as [|f ws] eqn:Ew.
    { intros [= <-]. rewrite <- (app_nil_r (registered h)), <- (orb_false_r (threw h)). apply decided_frames; [done|done| |done].
      exists [], [FFinally w a]. rewrite <- F. by repeat split; try constructor. }
    cbn [fmap list_fmap]. intros [= <-].
    assert (Ew' : ∀ m'', callbacks (dl w m'') = User <$> ws → waiting w m'' = ws).
    { intros m'' Em. unfold waiting. by rewrite Em, users_waiting. }
    split; machines; try done.
    + intros e [He|He%list_elem_of_singleton]%elem_of_app; [by apply D3|by subst].
    + by rewrite Ew' by (by machines).
    + rewrite Ew' by (by machines). rewrite D5. unfold called. machines. rewrite omap_app. cbn. rewrite decide_True by done.
      by rewrite <- app_assoc.
    + exists (behavior f), [FLoop w a; FFinally w a]. rewrite <- F. by repeat split; try constructor.
    + intros Hn. split; [done|]. intros xs [Hx|Hx]; [by apply tail_not_finally in Hx|congruence].
  - intros [= <-]. rewrite app_nil_r, orb_false_r.
    assert (Ew : waiting w (set_frames [] (set_dl w (DList (callbacks (dl w (hm h))) (Some a) false (cancelled (dl w (hm h)))) (hm h))) =
                 waiting w (hm h)) by (unfold waiting; by machines).
    split; machines; rewrite ?Ew; try done.
    + rewrite D5. unfold called. by machines.
    + exists [], []. repeat split; try constructor. cbn. lia.
    + intros Hn. destruct (D8 Hn) as [E8 W8]. split; [done|]. intros xs _. apply (W8 []). by left.
Qed.

Lemma decided_step h w a m' :
  decided w a h → step behavior (hm h) = Some m' →
  decided w a (History m' (registered h ++ accepts (hm h)) (threw h || throws (hm h))).
Proof.
  intros D. destruct (de_frames _ _ _ D) as (xs & tail & E & Ht & Hl & Hf). destruct xs as [|x xs]; [by apply decided_tail with tail|].
  apply (decided_act _ _ _ x xs tail); auto. intros Et E'. discriminate (Hf Et E').
Qed.

Lemma decided_call h w a x :
  decided w a h → frames (hm h) = [] → decided w a (History (call x (hm h)) (registered h) (threw h)).
Proof.
  intros [D1 D2 D3 D4 D5 D6 D7 D8] E. unfold call.
  assert (F : firing (dl w (hm h)) = false).
  { destruct D6 as (xs & tail & E' & Ht & _). rewrite E in E'. symmetry in E'. apply app_eq_nil in E' as [_ ->]. by inversion Ht. }
  assert (Ew : ∀ k b, waiting w (Machine (dl_done (hm h)) (dl_fail (hm h)) (log (hm h)) k b) = waiting w (hm h))
    by (intros k b; unfold waiting; by machines).
  split; machines; rewrite ?Ew; try done.
  - exists [x], []. rewrite F. by repeat split; try constructor.
  - intros Hn. destruct (D8 Hn) as [_ W8]. split; [done|]. intros ys _. apply (W8 []). by right.
Qed.

(** An action before anything happened: functions are added, or the list is
    called. *)
Lemma fresh_act h x m' :
  fresh h → frames (hm h) = [FAct x] → (∀ w, firing (dl w (hm h)) = false) → step behavior (hm h) = Some m' →
  fresh (History m' (registered h ++ accepts (hm h)) (threw h || throws (hm h))).
Proof.
  intros [FL FF FC LG FR] E Fi. unfold step, accepts, throws. rewrite E.
  destruct (throwing (hm h)) eqn:Et.
  { intros [= <-]. rewrite ?orb_true_l. destruct x; cbn [orb]; rewrite app_nil_r;
      (split; cbn [hm registered]; [apply FL|apply FF|apply FC|done|left; split; [by left|apply Fi]]). }
  destruct x as [w args|w a|]; intros [= <-].
  - unfold done. rewrite FC, FF. cbn [orb]. set (fs := concat (flatten <$> args)).
    split; machines; try (intros w'; destruct (which_cases w w') as [-> | ->]; machines; auto); try done.
    + rewrite FL, of_list_app, of_list_same, fmap_app. done.
    + by rewrite FL, of_list_app, of_list_other, app_nil_r.
    + left. split; [by left|]. intros w'. rewrite dl_frames. destruct (which_cases w w') as [-> | ->]; machines; apply Fi.
  - unfold resolveWith. rewrite FC, FF, Fi. rewrite bool_decide_eq_false_2 by (by intros []). cbn [orb]. rewrite app_nil_r.
    split; machines; try (intros w'; destruct (which_cases w w') as [-> | ->]; machines; auto); try done.
    right. exists w, a. machines. auto.
  - rewrite app_nil_r. split; cbn [hm registered]; [apply FL|apply FF|apply FC|done|left; split; [by left|apply Fi]].
Qed.

Lemma fresh_step h m' :
  fresh h → step behavior (hm h) = Some m' →
  let h' := History m' (registered h ++ accepts (hm h)) (threw h || throws (hm h)) in
  fresh h' ∨ ∃ w a, decided w a h'.
Proof.
  intros F E h'. destruct (fr_frames _ F) as [[[Ef|[x Ef]] Fi]|(w & a & Ef & _ & _ & Et)].
  - unfold step in E. by rewrite Ef in E.
  - left. by apply (fresh_act h x).
  - right. exists w, a. destruct (fresh_loop _ _ _ _ F Ef Et) as (m'' & E' & D). rewrite E in E'. injection E' as ->.
    unfold h', accepts, throws. by rewrite Ef, app_nil_r, orb_false_r.
Qed.

(** Every deferred is fresh or decided. *)
Lemma reachable_shape h : reachable h → fresh h ∨ ∃ w a, decided w a h.
Proof.
  induction 1 as [|h m' _ [F|(w & a & D)] E|h x _ [F|(w & a & D)] E].
  - left. exact fresh_new.
  - by apply fresh_step.
  - right. exists w, a. by apply decided_step.
  - left. by apply fresh_call.
  - right. exists w, a. by apply decided_call.
Qed.

(** C14: a deferred object calls the functions of one of its two lists only,
    each of them once, in the order in which they were registered and all
    with the same arguments, whatever the functions themselves register,
    resolve or throw; it is never both resolved and rejected; and unless a
    function threw, all functions of the list were called once it is idle. *)
Theorem deferred_calls h :
  reachable h →
  (∃ w, (∀ e e', e ∈ log (hm h) → e' ∈ log (hm h) → e.1.1 = w ∧ e.2 = e'.2) ∧
        of_list w (registered h) = called w (hm h) ++ waiting w (hm h)) ∧
  ¬ (isResolved LDone (hm h) ∧ isResolved LFail (hm h)) ∧
  (frames (hm h) = [] → threw h = false → ∀ w, isResolved w (hm h) → waiting w (hm h) = [] ∧ called w (hm h) = of_list w (registered h)).
Proof.
  intros R. unfold isResolved. destruct (reachable_shape h R) as [F|(w & a & D)].
  - destruct F as [FL FF FC LG FR]. assert (Fi : ∀ w, ¬ firing (dl (other w) (hm h)) ∨ ¬ firing (dl w (hm h))).
    { intros w. destruct FR as [[_ FR]|(w' & a & _ & _ & FR & _)]; [left; rewrite FR; by intros []|].
      destruct (which_cases w w') as [-> | ->]; [left|rewrite other_other in FR; right]; rewrite FR; by intros []. }
    split; [|split].
    + exists LDone. unfold called, waiting. rewrite LG, FL. cbn. rewrite users_waiting.
      split; [|done]. intros e e' He. by apply elem_of_nil in He.
    + rewrite !FF, !orb_false_r. intros [F1 F2]. destruct (Fi LDone) as [N|N]; by apply N.
    + intros E _ w. rewrite FF, orb_false_r. intros F1.
      destruct FR as [[_ FR]|(w' & a & FR & _)]; [by rewrite FR in F1|congruence].
  - destruct D as [(D1 & D1' & D1'' & Df) D2 D3 D4 D5 D6 D7 D8]. split; [|split].
    + exists w. split; [|done]. intros e e' [??]%D3 [??]%D3. split; congruence.
    + intros [F1 F2]. assert (N : ¬ (firing (dl (other w) (hm h)) || bool_decide (is_Some (fired (dl (other w) (hm h)))))).
      { rewrite D1'', Df. intros H%orb_prop_elim. destruct H as [[]|H%bool_decide_unpack]. by destruct H. }
      destruct w; contradiction.
    + intros E Hn w'. destruct (D8 Hn) as [_ W8]. destruct (which_cases w w') as [-> | ->].
      * intros _. destruct D6 as (xs & tail & E' & Ht & _). rewrite E in E'. symmetry in E'. apply app_eq_nil in E' as [_ ->].
        assert (Ew : waiting w (hm h) = []) by (apply (W8 []); right; by inversion Ht).
        rewrite D5, Ew, app_nil_r. done.
      * rewrite D1'', Df. intros H%orb_prop_elim. destruct H as [[]|H%bool_decide_unpack]. by destruct H.
Qed.

(** ** The machine comes to an end *)

(** What a function costs that is registered; functions register only
    cheaper ones. *)
Variable price : nat → nat.

Definition act_cost (x : action A) : nat :=
  match x with
  | ARegister _ args => 3 + sum_list (price <$> concat (flatten <$> args))
  | AFire _ _ => 3
  | AThrow => 1
  end.
Definition frame_cost (f : frame A) : nat := match f with FAct x => act_cost x | _ => 1 end.
Definition callback_cost (cb : callback) : nat := match cb with User f => price f | Cancel _ => 1 end.
Definition list_cost w m : nat := sum_list (callback_cost <$> callbacks (dl w m)).
Definition cost m : nat := sum_list (frame_cost <$> frames m) + list_cost LDone m + list_cost LFail m.
Definition costs (xs : list (action A)) : nat := sum_list (act_cost <$> xs).

Lemma sum_acts (xs : list (action A)) : sum_list (frame_cost <$> (FAct <$> xs)) = costs xs.
Proof. unfold costs. rewrite <- list_fmap_compose. done. Qed.
Lemma sum_users (fs : list nat) : sum_list (callback_cost <$> (User <$> fs)) = sum_list (price <$> fs).
Proof. rewrite <- list_fmap_compose. done. Qed.

(** The cost with the callbacks of one list changed. *)
Lemma cost_set w l k m :
  cost (set_frames k (set_dl w l m)) + list_cost w m =
  sum_list (frame_cost <$> k) + sum_list (callback_cost <$> callbacks l) + list_cost LDone m + list_cost LFail m.
Proof. unfold cost, list_cost. destruct w; cbn [set_dl set_frames frames dl dl_done dl_fail]; lia. Qed.
Lemma cost_frames k m : cost (set_frames k m) = sum_list (frame_cost <$> k) + list_cost LDone m + list_cost LFail m.
Proof. done. Qed.

Lemma act_cost_pos x : 1 ≤ act_cost x.
Proof. destruct x; cbn; lia. Qed.

Lemma resolveWith_cost w a k m : cost (resolveWith w a k m) ≤ 2 + cost (set_frames k m).
Proof.
  unfold resolveWith. case_match; [lia|]. 
  pose proof (cost_set w (DList (callbacks (dl w m)) (fired (dl w m)) true (cancelled (dl w m))) (FLoop w a :: FFinally w a :: k) m) as E.
  rewrite (cost_frames k m). cbn [callbacks fmap list_fmap sum_list sum_list_with frame_cost] in E. unfold list_cost at 1 in E.
  cbn [fmap list_fmap sum_list sum_list_with frame_cost id] in E. lia.
Qed.

Lemma done_cost w (fs : list nat) k m :
  cost (JQueryDeferred.done w (User <$> fs) k m) ≤ 2 + sum_list (price <$> fs) + cost (set_frames k m).
Proof.
  unfold JQueryDeferred.done. case_match; [lia|]. set (l := DList _ _ _ _). set (m1 := set_dl w l m).
  assert (E : cost (set_frames k m1) = sum_list (price <$> fs) + cost (set_frames k m)).
  { pose proof (cost_set w l k m) as E. fold m1 in E. cbn [callbacks l] in E. rewrite fmap_app, sum_list_with_app in E. rewrite (cost_frames k m).
    rewrite sum_users in E. unfold list_cost at 1 in E. lia. }
  destruct (fired (dl w m)) as [a|]; [pose proof (resolveWith_cost w a k m1)|]; lia.
Qed.

Lemma costs_app (xs ys : list (frame A)) : sum_list (frame_cost <$> (xs ++ ys)) = sum_list (frame_cost <$> xs) + sum_list (frame_cost <$> ys).
Proof. by rewrite fmap_app, sum_list_with_app. Qed.

Lemma cancel_cost w m : cost (cancel w m) ≤ cost m.
Proof.
  unfold cancel. pose proof (cost_set w (DList [] (fired (dl w m)) (firing (dl w m)) true) (frames m) m) as E.
  replace (set_frames (frames m) _) with (set_dl w (DList [] (fired (dl w m)) (firing (dl w m)) true) m) in E by (by destruct w).
  cbn [callbacks] in E. unfold cost at 2. cbn in E |- *. lia.
Qed.

Lemma loop_cost w a k m m' :
  (∀ f, costs (behavior f) < price f) → frames m = FLoop w a :: k → throwing m = false → step behavior m = Some m' → cost m' < cost m.
Proof.
  intros P E Et. unfold step. rewrite E, Et.
  assert (Em : cost m = 1 + sum_list (frame_cost <$> k) + list_cost LDone m + list_cost LFail m) by (unfold cost; by rewrite E).
  destruct (callbacks (dl w m)) as [|cb rest] eqn:Ec; [intros [= <-]; rewrite cost_frames; lia|].
  set (l := DList rest _ _ _). assert (El : list_cost w m = callback_cost cb + sum_list (callback_cost <$> rest)) by (unfold list_cost; by rewrite Ec).
  destruct cb as [f|w']; intros [= <-]; cbn [callback_cost] in El.
  - specialize (P f). set (k' := (FAct <$> behavior f) ++ _). pose proof (cost_set w l k' m) as E'.
    assert (Ek : sum_list (frame_cost <$> k') = costs (behavior f) + S (sum_list (frame_cost <$> k))) by (unfold k'; by rewrite costs_app, sum_acts).
    change (cost (Machine _ _ _ _ _)) with (cost (set_frames k' (set_dl w l m))). cbn [callbacks l] in E'. lia.
  - set (k' := FLoop w a :: k). change (set_frames k' (cancel w' (set_dl w l m))) with (set_frames k' (cancel w' (set_dl w l m))).
    replace (set_frames k' (cancel w' (set_dl w l m))) with (cancel w' (set_frames k' (set_dl w l m))) by (by destruct w, w').
    pose proof (cancel_cost w' (set_frames k' (set_dl w l m))). pose proof (cost_set w l k' m) as E'. cbn [callbacks l] in E'.
    assert (Ek : sum_list (frame_cost <$> k') = 1 + sum_list (frame_cost <$> k)) by done. lia.
Qed.

Lemma step_cost m m' : (∀ f, costs (behavior f) < price f) → step behavior m = Some m' → cost m' < cost m.
Proof.
  intros P. destruct (frames m) as [|fr k] eqn:E; [unfold step; by rewrite E|].
  assert (Em : cost m = frame_cost fr + cost (set_frames k m)) by (rewrite cost_frames; unfold cost; rewrite E; cbn; lia).
  destruct fr as [x|w a|w a].
  - unfold step. rewrite E. pose proof (act_cost_pos x). cbn [frame_cost] in Em. destruct (throwing m).
    { intros [= <-]. lia. }
    destruct x as [w args|w a|]; intros [= <-]; cbn [act_cost] in *.
    + pose proof (done_cost w (concat (flatten <$> args)) k m). lia.
    + pose proof (resolveWith_cost w a k m). lia.
    + change (cost (Machine _ _ _ _ _)) with (cost (set_frames k m)). lia.
  - destruct (throwing m) eqn:Et; [|by apply loop_cost with w a k].
    unfold step. rewrite E, Et. intros [= <-]. cbn [frame_cost] in Em. lia.
  - unfold step. rewrite E. intros [= <-]. cbn [frame_cost] in Em.
    pose proof (cost_set w (DList (callbacks (dl w m)) (Some a) false (cancelled (dl w m))) k m) as E'.
    cbn [callbacks] in E'. rewrite cost_frames in Em. unfold list_cost at 1 in E'. lia.
Qed.

Lemma step_none m : step behavior m = None → frames m = [].
Proof.
  unfold step. destruct (frames m) as [|[x|w a|w a] k]; [done|..]; destruct (throwing m); try done.
  - by destruct x.
  - case_match; [done|]. by case_match.
Qed.

(** Calling the functions of a deferred object comes to an end, with
    nothing left to do, when every function registers only functions that
    cost less than itself, as functions that register none do: [cost] steps
    are enough. *)
Theorem deferred_ends m :
  (∀ f, costs (behavior f) < price f) → ∃ m', run behavior (cost m) m = Ok m' ∧ frames m' = [].
Proof.
  intros P. remember (cost m) as n eqn:En. assert (Hn : cost m ≤ n) by lia. clear En. revert m Hn.
  induction n as [|n IH]; intros m Hn; cbn; destruct (step behavior m) as [m'|] eqn:E; try (exists m; by auto using step_none).
  - apply step_cost in E; [lia|done].
  - apply step_cost in E; [|done]. apply IH. lia.
Qed.
End spec.

(** A deferred whose function registers another: both are called, in order. *)
Definition nested : nat → list (action nat) := λ f, if (f =? 1)%nat then [ARegister LDone [IFn 3]; AFire LDone 8] else [].
Definition advance {A} (behavior : nat → list (action A)) (h : history (A := A)) : history :=
  match step behavior (hm h) with
  | Some m' => History m' (registered h ++ accepts (hm h)) (threw h || throws (hm h))
  | None => h
  end.
Lemma reachable_advance {A} behavior (h : history (A := A)) n : reachable behavior h → reachable behavior (Nat.iter n (advance behavior) h).
Proof.
  intros R. induction n as [|n IH]; [done|]. cbn. unfold advance at 1. case_match; [by constructor|done].
Qed.

Lemma deferred_calls_witness :
  let h0 := History (call (ARegister LDone [IFn 1; IArray [IOther; IFn 2]]) Deferred) [] false in
  let h1 := Nat.iter 1 (advance nested) h0 in
  let h := Nat.iter 20 (advance nested) (History (call (AFire LDone 5) (hm h1)) (registered h1) (threw h1)) in
  log (hm h) = [(LDone, 1, 5); (LDone, 2, 5); (LDone, 3, 5)] ∧ frames (hm h) = [] ∧
  called LDone (hm h) = of_list LDone (registered h).
Proof.
  intros h0 h1 h. split; [reflexivity|]. split; [reflexivity|].
  apply (deferred_calls nested h); [|reflexivity..|].
  - apply reachable_advance, reach_call; [|reflexivity]. apply reachable_advance, (reach_call nested (History Deferred [] false)); [|reflexivity].
    apply reach_new.
  - vm_compute. exact I.
Defined.

Lemma deferred_ends_witness :
  ∃ m', run nested (cost (λ f, if (f =? 1)%nat then 8 else 1) (call (AFire LDone 5) Deferred)) (call (AFire LDone 5) Deferred) = Ok m' ∧ frames m' = [].
Proof.
  apply (deferred_ends nested (λ f, if (f =? 1)%nat then 8 else 1) (call (AFire LDone 5) Deferred)).
  intros f. unfold nested. destruct (f =? 1)%nat; vm_compute; lia.
Defined.
