(* ===== verification/JQueryWhenSpec.v ===== *)
(** [jQuery.when] of several values and promises: the first rejection, or the
    values in the order of the arguments once all of them are there. *)

From S2P Require Import Prelude JQueryDeferred.

Section when.
Context {V : Type}.
Implicit Types (args : list (wait_arg V)) (es : list (settled V)) (s : when_state V).

(** ** What happened, in order, and what it means *)

Definition index (e : settled V) : nat := match e with Resolved i _ => i | Rejected i => i end.
Fixpoint resolved_with es (i : nat) : option V :=
  match es with
  | [] => None
  | Resolved j v :: es => if decide (i = j) then Some v else resolved_with es i
  | Rejected _ :: es => resolved_with es i
  end.
Fixpoint first_rejection es : option nat :=
  match es with [] => None | Resolved _ _ :: es => first_rejection es | Rejected i :: _ => Some i end.

(** The values that are there, in the order of the arguments. *)
Definition value_of es (i : nat) (x : wait_arg V) : option V :=
  match x with WValue v => Some v | WPromise => resolved_with es i end.
Definition values args es : list (option V) := imap (value_of es) args.
Definition missing (l : list (option V)) : nat := length (filter (λ x, x = None) l).

(** The outcome: the first rejection, or all values when none is missing. *)
Definition outcome args es : option (list (option V) + nat) :=
  match first_rejection es with
  | Some i => Some (inr i)
  | None => if (missing (values args es) =? 0)%nat then Some (inl (values args es)) else None
  end.

(** The promises that are settled when they are passed count from the last
    argument to the first. *)
Definition settled_at (already : nat → option (option V)) (i : nat) (x : wait_arg V) : list (settled V) :=
  match x, already i with
  | WPromise, Some (Some v) => [Resolved i v]
  | WPromise, Some None => [Rejected i]
  | _, _ => []
  end.
Definition at_call (already : nat → option (option V)) args : list (settled V) :=
  foldr (λ '(i, x) es, es ++ settled_at already i x) [] (zip (seq 0 (length args)) args).

(** ** One more event *)

Lemma resolved_app es es' i : resolved_with (es ++ es') i = match resolved_with es i with Some v => Some v | None => resolved_with es' i end.
Proof. induction es as [|[j v|j] es IH]; cbn; [done| |done]. by case_decide. Qed.
Lemma resolved_fresh es i : i ∉ index <$> es → resolved_with es i = None.
Proof.
  induction es as [|[j v|j] es IH]; cbn; [done| |]; rewrite not_elem_of_cons; intros [? ?]; [rewrite decide_False by done|]; auto.
Qed.
Lemma rejection_app es es' : first_rejection (es ++ es') = match first_rejection es with Some i => Some i | None => first_rejection es' end.
Proof. induction es as [|[j v|j] es IH]; cbn; done. Qed.

Lemma missing_first x (l : list (option V)) : missing (x :: l) = (if x then 0 else 1) + missing l.
Proof. unfold missing. destruct x; [rewrite filter_cons_False by done|rewrite filter_cons_True by done]; done. Qed.
Lemma missing_app (l k : list (option V)) : missing (l ++ k) = missing l + missing k.
Proof. unfold missing. by rewrite filter_app, length_app. Qed.
Lemma missing_insert (l : list (option V)) i v : l !! i = Some None → missing l = S (missing (<[i := Some v]> l)).
Proof.
  intros E. rewrite <- (take_drop_middle l i None E) at 1. rewrite (insert_take_drop l i (Some v)) by (by eapply lookup_lt_Some).
  rewrite !missing_app, !missing_first. lia.
Qed.

Lemma values_resolved args es i v :
  args !! i = Some WPromise → i ∉ index <$> es → values args (es ++ [Resolved i v]) = <[i := Some v]> (values args es).
Proof.
  intros Ei Hi. apply list_eq. intros j. unfold values. rewrite list_lookup_imap.
  destruct (decide (j = i)) as [-> | Hj].
  - rewrite list_lookup_insert_eq by (rewrite length_imap; by eapply lookup_lt_Some). rewrite Ei. cbn.
    rewrite resolved_app, (resolved_fresh es i Hi). cbn. by rewrite decide_True.
  - rewrite list_lookup_insert_ne by done. rewrite list_lookup_imap. destruct (args !! j) as [[w|]|]; [done| |done]. cbn.
    rewrite resolved_app. cbn. rewrite decide_False by done. by destruct (resolved_with es j).
Qed.
Lemma values_rejected args es i : values args (es ++ [Rejected i]) = values args es.
Proof.
  apply imap_ext. intros j [w|] _; [done|]. cbn. rewrite resolved_app. by destruct (resolved_with es j).
Qed.
Lemma value_missing args es i : args !! i = Some WPromise → i ∉ index <$> es → values args es !! i = Some None.
Proof. intros Ei Hi. unfold values. rewrite list_lookup_imap, Ei. cbn. by rewrite resolved_fresh. Qed.
Lemma missing_some (l : list (option V)) i : l !! i = Some None → missing l ≠ 0.
Proof. intros E. rewrite <- (take_drop_middle l i None E), missing_app, missing_first. lia. Qed.

(** An outcome stays. *)
Lemma outcome_stays args es e o :
  outcome args es = Some o → args !! index e = Some WPromise → index e ∉ index <$> es → outcome args (es ++ [e]) = Some o.
Proof.
  unfold outcome. intros Ho Ei Hi. rewrite rejection_app. destruct (first_rejection es); [done|].
  destruct (Nat.eqb_spec (missing (values args es)) 0) as [E|]; [|done].
  by destruct (missing_some _ _ (value_missing args es (index e) Ei Hi)).
Qed.

(** ** The state follows what happened *)

(** The first [k] arguments were not looked at yet. *)
Record tracks (k : nat) args es s : Prop := {
  tk_array : w_array s = values args es;
  tk_count : w_count s = Z.of_nat (k + missing (drop k (values args es)));
  tk_outcome o : w_outcome s = Some o → outcome args es = Some o;
  tk_rejected i : first_rejection es = Some i → w_outcome s = Some (inr i);
}.
Definition complete s : Prop := w_count s = 0%Z → is_Some (w_outcome s).

Lemma tracks_end args es s : tracks 0 args es s → complete s → w_outcome s = outcome args es.
Proof.
  intros [T1 T2 T3 T4] C. destruct (w_outcome s) as [o|] eqn:Eo; [symmetry; by apply T3|].
  unfold outcome. destruct (first_rejection es) as [i|]; [by specialize (T4 i eq_refl)|].
  destruct (Nat.eqb_spec (missing (values args es)) 0) as [E|]; [|done].
  rewrite drop_0 in T2. destruct C as [? C]; [|congruence]. by rewrite T2, E.
Qed.

Lemma settle_complete o s : complete (settle o s).
Proof. intros _. by eexists. Qed.
Lemma step_complete s e : complete s → complete (when_step s e).
Proof.
  intros C. destruct e as [i v|i]; [|apply settle_complete]. cbn. unfold iCallback. cbn. case_match eqn:E; [apply settle_complete|].
  intros E'. by apply Z.eqb_neq in E.
Qed.

Lemma missing_drop_insert (l : list (option V)) k i v :
  k ≤ i → l !! i = Some None → missing (drop k l) = S (missing (drop k (<[i := Some v]> l))).
Proof.
  intros Hk E. rewrite drop_insert_ge by done. apply missing_insert. rewrite lookup_drop. by replace (k + (i - k)) with i by lia.
Qed.

Lemma step_tracks k args es s e :
  tracks k args es s → k ≤ index e → args !! index e = Some WPromise → index e ∉ index <$> es →
  tracks k args (es ++ [e]) (when_step s e).
Proof.
  intros [T1 T2 T3 T4] Hk Ei Hi. pose proof (value_missing _ es _ Ei Hi) as Em.
  assert (Hs : ∀ o, w_outcome s = Some o → outcome args (es ++ [e]) = Some o) by (intros o Ho; apply outcome_stays; auto).
  destruct e as [i v|i]; cbn [when_step index] in *.
  - pose proof (values_resolved _ _ _ v Ei Hi) as Ev.
    assert (Ec : (w_count s - 1)%Z = Z.of_nat (k + missing (drop k (values args (es ++ [Resolved i v]))))).
    { rewrite T2, Ev, (missing_drop_insert _ k i v Hk Em). lia. }
    assert (Er : ∀ j, first_rejection (es ++ [Resolved i v]) = Some j → w_outcome s = Some (inr j)).
    { intros j. rewrite rejection_app. cbn. destruct (first_rejection es) eqn:E; [intros [= <-]; auto|done]. }
    unfold iCallback. cbn. destruct (Z.eqb_spec (w_count s - 1) 0) as [Ez|]; split; cbn; rewrite ?T1; auto.
    + intros o. destruct (w_outcome s) as [o'|] eqn:Eo; cbn; [intros [= <-]; auto|]. intros [= <-]. unfold outcome.
      destruct (first_rejection (es ++ _)) as [j|] eqn:Ej; [by specialize (Er _ eq_refl)|].
      assert (k = 0) as -> by lia. rewrite drop_0 in Ec. rewrite Ev in Ec |- *.
      replace (missing _) with 0 by lia. done.
    + intros j Hj. by rewrite (Er j Hj).
  - unfold settle. split; cbn; rewrite ?values_rejected; auto.
    + intros o. destruct (w_outcome s) as [o'|] eqn:Eo; cbn; [intros [= <-]; auto|]. intros [= <-]. unfold outcome. rewrite rejection_app.
      destruct (first_rejection es) as [j|] eqn:Ej; [by specialize (T4 _ eq_refl)|]. done.
    + intros j. rewrite rejection_app. destruct (first_rejection es) as [j'|] eqn:Ej; cbn; [intros [= <-]; by rewrite (T4 _ eq_refl)|].
      intros [= <-]. destruct (w_outcome s) as [o|] eqn:Eo; [|done]. pose proof (T3 _ eq_refl) as Ho. unfold outcome in Ho. rewrite Ej in Ho.
      destruct (Nat.eqb_spec (missing (values args es)) 0) as [E|]; [|done]. by destruct (missing_some _ _ Em).
Qed.

(** The arguments, from the last to the first. *)
Lemma tracks_value k args es s x :
  args !! k = Some (WValue x) → tracks (S k) args es s → tracks k args es (When (w_array s) (w_count s - 1) (w_outcome s)).
Proof.
  intros Ek [T1 T2 T3 T4]. split; cbn; auto. assert (Ev : values args es !! k = Some (Some x)) by (unfold values; by rewrite list_lookup_imap, Ek).
  rewrite (drop_S _ _ _ Ev), missing_first, T2. lia.
Qed.
Lemma tracks_promise k args es s :
  args !! k = Some WPromise → k ∉ index <$> es → tracks (S k) args es s → tracks k args es s.
Proof.
  intros Ek Hk [T1 T2 T3 T4]. split; auto. rewrite (drop_S _ _ _ (value_missing _ _ _ Ek Hk)), missing_first, T2. lia.
Qed.

Lemma tracks_arg already k args es s x :
  args !! k = Some x → k ∉ index <$> es → tracks (S k) args es s → tracks k args (es ++ settled_at already k x) (when_arg already (k, x) s).
Proof.
  intros Ek Hk T. destruct x as [v|]; cbn; [rewrite app_nil_r; by apply tracks_value with v|].
  pose proof (tracks_promise _ _ _ _ Ek Hk T) as T'. unfold when_arg. cbn. destruct (already k) as [[v|]|]; [| |by rewrite app_nil_r].
  - by apply (step_tracks k args es s (Resolved k v)).
  - by apply (step_tracks k args es s (Rejected k)).
Qed.

Definition arg_events (already : nat → option (option V)) : list (nat * wait_arg V) → list (settled V) :=
  foldr (λ '(i, x) es, es ++ settled_at already i x) [].

Lemma events_index already k args e :
  e ∈ arg_events already (zip (seq k (length args)) args) → k ≤ index e ∧ is_Some (already (index e)).
Proof.
  revert k. induction args as [|x args IH]; intros k; cbn; [by intros ?%elem_of_nil|].
  intros [He|He]%elem_of_app; [apply IH in He; split; [lia|apply He]|].
  unfold settled_at in He. destruct x; [by apply elem_of_nil in He|]. destruct (already k) as [[v|]|] eqn:E; [| |by apply elem_of_nil in He];
    apply list_elem_of_singleton in He as ->; cbn; rewrite E; eauto.
Qed.

Lemma args_tracks already pre suf s :
  tracks (length pre + length suf) (pre ++ suf) [] s →
  tracks (length pre) (pre ++ suf) (arg_events already (zip (seq (length pre) (length suf)) suf))
    (foldr (when_arg already) s (zip (seq (length pre) (length suf)) suf)).
Proof.
  revert pre. induction suf as [|x suf IH]; intros pre T; cbn.
  { by rewrite Nat.add_0_r in T. }
  specialize (IH (pre ++ [x])). rewrite length_app, <- app_assoc in IH. cbn in IH, T.
  replace (length pre + 1) with (S (length pre)) in IH by lia. apply tracks_arg.
  - rewrite lookup_app_r, Nat.sub_diag by lia. done.
  - intros (e & Ee & He)%list_elem_of_fmap. apply events_index in He. lia.
  - apply IH. by replace (S (length pre) + length suf) with (length pre + S (length suf)) by lia.
Qed.

Lemma tracks_start args :
  tracks (length args) args [] (When ((λ x, match x with WValue v => Some v | WPromise => None end) <$> args) (Z.of_nat (length args)) None).
Proof.
  assert (E : values args [] = (λ x, match x with WValue v => Some v | WPromise => None end) <$> args).
  { apply list_eq. intros i. unfold values. rewrite list_lookup_imap, list_lookup_fmap. by destruct (args !! i) as [[v|]|]. }
  split; cbn; rewrite ?E; [done| |done|done]. rewrite drop_ge by (by rewrite length_fmap). cbn. lia.
Qed.

Lemma all_tracks already args : tracks 0 args (at_call already args) (when_all already args) ∧ complete (when_all already args).
Proof.
  pose proof (args_tracks already [] args _ (tracks_start args)) as T. change (length []) with 0 in T. cbn [app] in T.
  change (arg_events already) with (foldr (λ '(i, x) es, es ++ settled_at already i x) []) in T. fold (at_call already args) in T.
  unfold when_all. set (s := foldr _ _ _) in *. destruct T as [T1 T2 T3 T4].
  destruct (Z.eqb_spec (w_count s) 0) as [E|E]; [|split; [by split|by intros ?]]. split; [|apply settle_complete].
  split; cbn; auto.
  - intros o. destruct (w_outcome s) as [o'|] eqn:Eo; cbn; [intros [= <-]; auto|]. intros [= <-]. unfold outcome.
    destruct (first_rejection (at_call already args)) as [j|] eqn:Ej; [by specialize (T4 _ eq_refl)|].
    rewrite drop_0 in T2. replace (missing _) with 0 by lia. by rewrite T1.
  - intros i Hi. by rewrite (T4 i Hi).
Qed.

Lemma steps_track args es0 es s :
  tracks 0 args es0 s → complete s →
  (∀ e, e ∈ es → args !! index e = Some WPromise ∧ index e ∉ index <$> es0) → NoDup (index <$> es) →
  tracks 0 args (es0 ++ es) (foldl when_step s es) ∧ complete (foldl when_step s es).
Proof.
  revert es0 s. induction es as [|e es IH]; intros es0 s T C He ND; cbn; [by rewrite app_nil_r|].
  apply NoDup_cons in ND as [N ND]. replace (es0 ++ e :: es) with ((es0 ++ [e]) ++ es) by (by rewrite <- app_assoc).
  apply IH; [| |intros e' He'|done].
  - destruct (He e) as [? ?]; [by constructor|]. apply step_tracks; [done|lia|done|done].
  - by apply step_complete.
  - destruct (He e') as [E1 E2]; [by constructor|]. split; [done|]. rewrite fmap_app. cbn. rewrite not_elem_of_app, list_elem_of_singleton.
    split; [done|]. intros E. apply N. rewrite <- E. by apply list_elem_of_fmap_2.
Qed.

(** C15: the promise that [jQuery.when] returns for several arguments is
    rejected by the first of their promises that is rejected, and otherwise
    resolved as soon as all are resolved, with the values in the order of the
    arguments, whatever the order in which they arrive, those that were there
    at the call included. *)
Theorem when_outcome already args es :
  (∀ e, e ∈ es → args !! index e = Some WPromise ∧ already (index e) = None) → NoDup (index <$> es) →
  w_outcome (foldl when_step (when_all already args) es) = outcome args (at_call already args ++ es).
Proof.
  intros He ND. destruct (all_tracks already args) as [T C].
  destruct (steps_track args _ es _ T C) as [T' C']; [|done|by apply tracks_end].
  intros e [Ei Ea]%He. split; [done|]. intros (e' & E & H)%list_elem_of_fmap. apply events_index in H as [_ [? H]].
  rewrite <- E in H. congruence.
Qed.
End when.

(** Two promises after a value; the second was resolved before the call. *)
Lemma when_outcome_witness :
  w_outcome (foldl when_step (when_all (λ i, if (i =? 2)%nat then Some (Some 30) else None) [WValue 10; WPromise; WPromise]) [Resolved 1 20]) =
  Some (inl [Some 10; Some 20; Some 30]).
Proof.
  rewrite (when_outcome (λ i, if (i =? 2)%nat then Some (Some 30) else None) [WValue 10; WPromise; WPromise] [Resolved 1 20]);
    [reflexivity| |repeat constructor; by intros ?%elem_of_nil].
  intros e ->%list_elem_of_singleton. by split.
Defined.
