(* ===== verification/JQueryEvent.v ===== *)
(** Events of jQuery ([jQuery.event] of [static/flot/jquery.js]): handlers are
    kept in a structure on each element, and one listener per type is given to
    the browser.  [add], [remove], [handle] and [trigger], with [bind], [one]
    and [unbind].

    The data of a handler, what the functions of the program do, the types for
    which the browser can call an element and its default action are
    arguments.  Of the special events, [mouseenter] and [mouseleave] bind a
    handler of their own; [live] events are not modelled, so data have no
    [selector].  Names of types are not those of the properties that every
    object has, and names of namespaces hold no characters that are special in
    regular expressions.  The types of an element are visited in the order of
    the map, where a browser visits them in the order of binding. *)

From S2P Require Import Prelude JsText.
From stdpp Require Import gmap.
From Stdlib Require Import Ascii.

(** A function: one of the program, what [one(type, f)] binds, [returnFalse],
    and the one that [mouseenter] and [mouseleave] bind. *)
Inductive func := Func (n : nat) | OnceOf (f : func) | ReturnFalse | WithinElement.
#[export] Instance func_eq_dec : EqDecision func.
Proof. solve_decision. Defined.

(** The [handler] argument: nothing, [false], a function, or an object with
    its function, data and unique number (0 when it has none). *)
Inductive handler_arg (D : Type) := HNone | HFalse | HFn (f : func) | HObj (f : func) (guid : nat) (data : D).
Arguments HNone {D}. Arguments HFalse {D}. Arguments HFn {D} f. Arguments HObj {D} f guid data.

(** What a handler returns. *)
Inductive ret := RUndefined | RFalse | RValue (v : nat).

Record event := Event {
  ev_type : string; ev_exclusive : bool; ev_result : ret;
  ev_prevented : bool; ev_stopped : bool; ev_immediate : bool;
}.

Record handle_obj (D : Type) := HandleObj {
  ho_handler : func; ho_data : D; ho_namespace : string; ho_type : string; ho_guid : nat;
}.
Arguments HandleObj {D} _ _ _ _ _. Arguments ho_handler {D} _. Arguments ho_data {D} _.
Arguments ho_namespace {D} _. Arguments ho_type {D} _. Arguments ho_guid {D} _.

(** An element: whether it is a text or a comment, whether no data can be kept
    for it, the structure of its handlers, whether it has its [handle], and
    the types for which the browser calls it. *)
Record element (D : Type) := Element {
  el_text : bool; el_no_data : bool;
  el_events : option (gmap string (list (handle_obj D)));
  el_handle : bool;
  el_listeners : gset string;
}.
Arguments Element {D} _ _ _ _ _. Arguments el_text {D} _. Arguments el_no_data {D} _.
Arguments el_events {D} _. Arguments el_handle {D} _. Arguments el_listeners {D} _.

(** The page: the next unique number, those given (0 for none), the elements
    and the types that were ever bound. *)
Record world (D : Type) := World {
  next_guid : nat; guids : func → nat; els : gmap nat (element D); global : gset string;
}.
Arguments World {D} _ _ _ _. Arguments next_guid {D} _. Arguments guids {D} _.
Arguments els {D} _. Arguments global {D} _.

(** ** Types and namespaces *)

(** A list of types ends at the first empty piece. *)
Fixpoint until_empty (l : list string) : list string :=
  match l with
  | "" :: _ => []
  | t :: l => t :: until_empty l
  | [] => []
  end.
Definition split_types (types : string) : list string := until_empty (split_char " "%char types).

(** A type and its namespaces. *)
Definition parse_type (t : string) : string * list string :=
  match split_char "."%char t with ty :: ns => (ty, ns) | [] => ("", []) end.
Definition has_namespace (t : string) : bool := bool_decide ((parse_type t).2 ≠ []).

(** [sort()] *)
Fixpoint insert_name (x : string) (l : list string) : list string :=
  match l with
  | [] => [x]
  | y :: l => if String.leb x y then x :: y :: l else y :: insert_name x l
  end.
Definition sort_names (l : list string) : list string := foldr insert_name [] l.

(** The expression [(^|\.)a\.(?:.*\.)?b(\.|$)] asks for the names in order,
    others between them. *)
Fixpoint subseq (l k : list string) : bool :=
  match l, k with
  | [], _ => true
  | _, [] => false
  | x :: l', y :: k' => if String.eqb x y then subseq l' k' else subseq l k'
  end.
Definition test (names : list string) (namespace : string) : bool := subseq names (split_char "."%char namespace).

(** Without a name, the expression of [handle] is [(^|\.)(\.|$)]. *)
Definition wanted (ns : list string) : list string := match ns with [] => [""] | _ => sort_names ns end.

Section events.
Context {D : Type}.
Implicit Types (w : world D) (el : element D) (e : nat).

Definition plain_element : element D := Element false false None false ∅.
Definition elem w e : element D := default plain_element (els w !! e).
Definition set_elem e el w : world D := World (next_guid w) (guids w) (<[e := el]> (els w)) (global w).
Definition with_events evs hd ls el : element D := Element (el_text el) (el_no_data el) evs hd ls.

(** [if (!handler.guid) handler.guid = jQuery.guid++] *)
Definition give_guid (f : func) w : world D :=
  if (guids w f =? 0) then
    World (S (next_guid w)) (λ g, if decide (g = f) then next_guid w else guids w g) (els w) (global w)
  else w.

(** [proxy] of a function: the new function gets the number of the old one,
    which has one afterwards. *)
Definition proxy (f p : func) w : world D :=
  let g := if (guids w f =? 0) then (if (guids w p =? 0) then next_guid w else guids w p) else guids w f in
  World (if (guids w f =? 0) && (guids w p =? 0) then S (next_guid w) else next_guid w)
    (λ h, if decide (h = f) then g else if decide (h = p) then g else guids w h) (els w) (global w).

(** The types for which the browser calls an element that has handlers of
    them; the others ([ready], the events of plugins) are set up otherwise. *)
Variable listened : string → bool.
(** The data of the handlers that special events bind: the type. *)
Variable type_data : string → D.

(** [jQuery.event.special] of [mouseenter] and [mouseleave]. *)
Definition special_fix (type : string) : option string :=
  match type with "mouseenter" => Some "mouseover" | "mouseleave" => Some "mouseout" | _ => None end.

Definition events_of el : gmap string (list (handle_obj D)) := default ∅ (el_events el).
Definition store e (type : string) (hs : list (handle_obj D)) w : world D :=
  let el := elem w e in
  set_elem e (with_events (Some (<[type := hs]> (events_of el))) (el_handle el) (el_listeners el) el) w.
Definition with_listeners e (f : gset string → gset string) w : world D :=
  let el := elem w e in set_elem e (with_events (el_events el) (el_handle el) (f (el_listeners el)) el) w.

(** ** [add] *)

(** One of the types; [setup] is what the first handler of a type needs. *)
Definition add_type (setup : nat → string → world D → world D)
    e (f : func) (own : nat) (data : D) w (piece : string) : world D :=
  let '(type, ns) := parse_type piece in
  let ho := HandleObj f data (str_join "." (sort_names ns)) type (if (own =? 0) then guids w f else own) in
  let w := match events_of (elem w e) !! type with
           | None => setup e type (store e type [] w)
           | Some _ => w
           end in
  let w := store e type (default [] (events_of (elem w e) !! type) ++ [ho]) w in
  World (next_guid w) (guids w) (els w) ({[type]} ∪ global w).

(** A function, with its own number when it came in an object. *)
Definition add_fn setup e (types : string) (f : func) (own : nat) (data : D) w : world D :=
  let w := give_guid f w in
  let el := elem w e in
  if el_no_data el then w
  else
    let w := set_elem e (with_events (Some (events_of el)) true (el_listeners el) el) w in
    foldl (add_type setup e f own data) w (split_types types).

(** The browser is asked to call the element, or a special event binds its
    own handler. *)
Definition listen e (type : string) w : world D :=
  if listened type then with_listeners e (λ ls, {[type]} ∪ ls) w else w.
Definition setup e (type : string) w : world D :=
  match special_fix type with
  | Some fix_ => add_fn listen e fix_ WithinElement 0 (type_data type) w
  | None => listen e type w
  end.

Definition add e (types : string) (handler : handler_arg D) (data : D) w : world D :=
  if el_text (elem w e) then w
  else match handler with
       | HNone => w
       | HFalse => add_fn setup e types ReturnFalse 0 data w
       | HFn f => add_fn setup e types f 0 data w
       | HObj f own data => add_fn setup e types f own data w
       end.

(** ** [remove] *)

(** The structure is taken away when it is empty. *)
Definition drop_empty e w : world D :=
  let el := elem w e in
  if bool_decide (events_of el = ∅) then set_elem e (with_events None false (el_listeners el) el) w else w.

(** The loop that takes out handlers, with those before the index and those
    left. *)
Fixpoint splice_loop (p : handle_obj D → bool) (before rest : list (handle_obj D)) : list (handle_obj D) :=
  match rest with
  | [] => before
  | h :: rest => if p h then splice_loop p before rest else splice_loop p (before ++ [h]) rest
  end.

Definition in_namespace (piece : string) (h : handle_obj D) : bool :=
  negb (has_namespace piece) || test (sort_names (parse_type piece).2) (ho_namespace h).

(** The type has no handlers any more; [teardown] undoes [setup]. *)
Definition detach (teardown : nat → string → world D → world D) e (type : string) w : world D :=
  let w := teardown e type w in
  let el := elem w e in
  set_elem e (with_events (Some (delete type (events_of el))) (el_handle el) (el_listeners el) el) w.

(** One of the types, for the handlers with a unique number, or the one at a
    position, which the caller takes out. *)
Definition remove_guid teardown e (guid : nat) (pos : option nat) w (piece : string) : world D :=
  let type := (parse_type piece).1 in
  match events_of (elem w e) !! type with
  | None => w
  | Some hs =>
      let hs := match pos with
                | None => splice_loop (λ h, (ho_guid h =? guid) && in_namespace piece h) [] hs
                | Some _ => hs
                end in
      let w := store e type hs w in
      if (length hs =? 0) || (bool_decide (is_Some pos) && (length hs =? 1)) then detach teardown e type w else w
  end.

(** The browser does not call the element any more, or the handler that a
    special event bound is removed. *)
Definition unlisten e (type : string) w : world D :=
  if listened type then with_listeners e (λ ls, ls ∖ {[type]}) w else w.
Definition teardown e (type : string) w : world D :=
  match special_fix type with
  | Some fix_ => drop_empty e (remove_guid unlisten e (guids w WithinElement) None w fix_)
  | None => unlisten e type w
  end.

(** One of the types, for all handlers: each is removed by a call of its own
    and then taken out of the list, which may be no one's by then. *)
Fixpoint clear_loop e (piece : string) (before rest : list (handle_obj D)) w : world D :=
  match rest with
  | [] => w
  | h :: rest =>
      if in_namespace piece h then
        let w := drop_empty e (remove_guid teardown e (guids w (ho_handler h)) (Some (length before)) w piece) in
        let w := match events_of (elem w e) !! (parse_type piece).1 with
                 | Some _ => store e (parse_type piece).1 (before ++ rest) w
                 | None => w
                 end in
        clear_loop e piece before rest w
      else clear_loop e piece (before ++ [h]) rest w
  end.
Definition remove_all e w (piece : string) : world D :=
  match events_of (elem w e) !! (parse_type piece).1 with
  | None => w
  | Some hs => clear_loop e piece [] hs w
  end.

(** The types of a text, for one function or for all. *)
Definition remove_types e (pieces : list string) (handler : option func) w : world D :=
  drop_empty e
    (match handler with
     | Some f => foldl (remove_guid teardown e (guids w f) None) w pieces
     | None => foldl (remove_all e) w pieces
     end).

(** Without a type, or with namespaces only, every type is removed by a call
    of its own. *)
Fixpoint remove (fuel : nat) e (types : string) (handler : option func) w : result (world D) :=
  match fuel with
  | O => NoFuel
  | S fuel =>
      let el := elem w e in
      if el_text el then Ok w
      else match el_events el with
           | None => Ok w
           | Some evs =>
               match types with
               | "" | String "."%char _ =>
                   foldl (λ r type, w ← r; remove fuel e (type +:+ types) None w) (Ok w) (map_to_list evs).*1
               | _ => Ok (remove_types e (split_types types) handler w)
               end
           end
  end.

(** ** [bind], [one] and [unbind] on one element *)

(** [bind(type, data, fn)]; the event [unload] is bound once. *)
Definition one e (type : string) (f : func) (data : D) w : world D :=
  add e type (HFn (OnceOf f)) data (proxy f (OnceOf f) w).
Definition bind e (type : string) (f : func) (data : D) w : world D :=
  if String.eqb type "unload" then one e type f data w else add e type (HFn f) data w.
Definition unbind fuel e (type : string) (f : option func) w : result (world D) := remove fuel e type f w.

(** ** [handle] *)

(** What the functions of the program do when an element calls them; whether
    the mouse came from outside of the element, or went there; the type that
    data stand for. *)
Variable program : nat → nat → D → event → world D → world D * event * ret.
Variable outside : nat → event → bool.
Variable data_type : D → string.

Definition with_type (type : string) (ev : event) : event :=
  Event type (ev_exclusive ev) (ev_result ev) (ev_prevented ev) (ev_stopped ev) (ev_immediate ev).

Section call.
(** [handle] for an event of another type. *)
Variable again : nat → event → world D → result (world D * event).

(** A function bound by [one] is unbound before it is called. *)
Fixpoint call_func (fuel : nat) (f : func) e (h : handle_obj D) (ev : event) w : result (world D * event * ret) :=
  match f with
  | Func n => Ok (program n e (ho_data h) ev w)
  | ReturnFalse => Ok (w, ev, RFalse)
  | WithinElement =>
      if outside e ev then '(w, ev) ← again e (with_type (data_type (ho_data h)) ev) w; Ok (w, ev, RUndefined)
      else Ok (w, ev, RUndefined)
  | OnceOf g =>
      w ← remove fuel e (ev_type ev) (Some (ho_handler h)) w;
      call_func fuel g e h ev w
  end.

(** What a handler returned. *)
Definition returned (r : ret) (ev : event) : event :=
  match r with
  | RUndefined => ev
  | RFalse => Event (ev_type ev) (ev_exclusive ev) RFalse true true (ev_immediate ev)
  | RValue v => Event (ev_type ev) (ev_exclusive ev) (RValue v) (ev_prevented ev) (ev_stopped ev) (ev_immediate ev)
  end.

(** The loop over the copy of the handlers. *)
Fixpoint dispatch (fuel : nat) (want : handle_obj D → bool) e (hs : list (handle_obj D)) (ev : event) w
    : result (world D * event) :=
  match hs with
  | [] => Ok (w, ev)
  | h :: hs =>
      if want h then
        '(w, ev, r) ← call_func fuel (ho_handler h) e h ev w;
        let ev := returned r ev in
        if ev_immediate ev then Ok (w, ev) else dispatch fuel want e hs ev w
      else dispatch fuel want e hs ev w
  end.
End call.

(** The type of the event loses its namespaces. *)
Fixpoint handle (fuel : nat) e (ev : event) w : result (world D * event) :=
  match fuel with
  | O => NoFuel
  | S fuel =>
      let all := negb (has_namespace (ev_type ev)) && negb (ev_exclusive ev) in
      let '(type, ns) := parse_type (ev_type ev) in
      dispatch (handle fuel) fuel (λ h, all || test (wanted ns) (ho_namespace h)) e
        (default [] (events_of (elem w e) !! type)) (with_type type ev) w
  end.

(** ** [trigger] *)

(** A script of the page ([onclick] and the like) with whether it returned
    [false], and the default action of the browser. *)
Variable inline : nat → string → world D → world D * bool.
Variable default_action : nat → string → world D → world D.

Definition prevented ev : event := Event (ev_type ev) (ev_exclusive ev) RFalse true (ev_stopped ev) (ev_immediate ev).

(** The element and its parents, as far as the event goes; [type] is that of
    the event when the element is reached. *)
Fixpoint bubble (fuel : nat) (target : nat) (path : list nat) (ev : event) w : result (world D * event) :=
  match path with
  | [] => Ok (w, ev)
  | e :: path =>
      let type := ev_type ev in
      '(w, ev) ← (if el_handle (elem w e) then handle fuel e ev w else Ok (w, ev));
      let '(w, refused) := inline e type w in
      let ev := if refused : bool then prevented ev else ev in
      if negb (ev_stopped ev) && bool_decide (path ≠ []) then bubble fuel target path ev w
      else if ev_prevented ev then Ok (w, ev)
      else Ok (default_action target (parse_type type).1 w, ev)
  end.

(** A type that ends with an exclamation mark asks for handlers without a
    namespace; the last character is dropped. *)
Definition new_event (type : string) : event :=
  if (count_char "!"%char type =? 0) then Event type false RUndefined false false false
  else Event (String.substring 0 (pred (String.length type)) type) true RUndefined false false false.

(** [trigger(type)] on an element; [path] is the element and its parents. *)
Definition trigger (fuel : nat) (type : string) (path : list nat) w : result (world D * event) :=
  match path with
  | [] => Ok (w, new_event type)
  | e :: _ => if el_text (elem w e) then Ok (w, new_event type) else bubble fuel e path (new_event type) w
  end.
End events.
