(* ===== verification/JQueryEventSpec.v ===== *)
(** Handlers of events: the structure of every element stays well formed, and
    removing takes out exactly the handlers that were named. *)

From S2P Require Import Prelude JsText JQueryEvent.
From stdpp Require Import gmap.
From Stdlib Require Import Ascii.

Section spec.
Context {D : Type}.
Implicit Types (w : world D) (el : element D) (e : nat) (h : handle_obj D) (hs : list (handle_obj D)).
Variable listened : string → bool.
#[local] Notation unlisten := (JQueryEvent.unlisten listened).
#[local] Notation teardown := (JQueryEvent.teardown listened).
#[local] Notation remove_all := (JQueryEvent.remove_all listened).
#[local] Notation clear_loop := (JQueryEvent.clear_loop listened).
#[local] Notation remove_types := (JQueryEvent.remove_types listened).
#[local] Notation remove := (JQueryEvent.remove listened).

(** The handlers of a type, in the order in which they are called. *)
Definition handlers el (t : string) : list (handle_obj D) := default [] (events_of el !! t).

(** The types for which the browser is asked to call an element. *)
Definition calls_for (t : string) : bool := bool_decide (special_fix t = None) && listened t.

(** The browser calls an element for the types that have handlers, and only
    for them; no list of handlers is empty; [handle] comes with the
    structure; what takes no handlers has none. *)
Record el_wf el : Prop := {
  ew_lists t hs : events_of el !! t = Some hs → hs ≠ [] ∧ Forall (λ h, ho_type h = t) hs;
  ew_listeners t : t ∈ el_listeners el ↔ calls_for t = true ∧ is_Some (events_of el !! t);
  ew_handle : el_handle el = bool_decide (is_Some (el_events el));
  ew_closed : el_text el || el_no_data el → el_events el = None;
}.

Lemma calls_for_plain t : special_fix t = None → calls_for t = listened t.
Proof. intros E. unfold calls_for. by rewrite bool_decide_eq_true_2. Qed.
Lemma calls_for_special t fx : special_fix t = Some fx → calls_for t = false.
Proof. intros E. unfold calls_for. by rewrite bool_decide_eq_false_2 by congruence. Qed.

Lemma fix_cases t fx : special_fix t = Some fx → t = "mouseenter" ∧ fx = "mouseover" ∨ t = "mouseleave" ∧ fx = "mouseout".
Proof.
  destruct (decide (t = "mouseenter")) as [-> | N1]; [intros [= <-]; by left|].
  destruct (decide (t = "mouseleave")) as [-> | N2]; [intros [= <-]; by right|].
  intros E. exfalso. unfold special_fix in E. repeat (case_match; try discriminate); by subst.
Qed.
Lemma fix_plain t fx : special_fix t = Some fx → special_fix fx = None ∧ fx ≠ t.
Proof. intros [[-> ->]|[-> ->]]%fix_cases; done. Qed.
Lemma fix_inj t t' fx : special_fix t = Some fx → special_fix t' = Some fx → t' = t.
Proof. intros [[-> ->]|[-> ->]]%fix_cases [[-> ?]|[-> ?]]%fix_cases; done. Qed.

(** ** Elements of a page *)

Lemma elem_set e el w : elem (set_elem e el w) e = el.
Proof. unfold elem, set_elem. cbn. by rewrite lookup_insert_eq. Qed.
Lemma elem_set_other e e' el w : e' ≠ e → elem (set_elem e el w) e' = elem w e'.
Proof. intros ?. unfold elem, set_elem. cbn. by rewrite lookup_insert_ne. Qed.

(** A change of one element. *)
Record changed w e el w' : Prop := {
  ch_elem : elem w' e = el;
  ch_other e' : e' ≠ e → elem w' e' = elem w e';
  ch_guids : guids w' = guids w;
  ch_next : next_guid w' = next_guid w;
}.
Lemma changed_refl w e : changed w e (elem w e) w.
Proof. done. Qed.
Lemma changed_set w e el : changed w e el (set_elem e el w).
Proof. split; [apply elem_set|intros ? ?; by apply elem_set_other|done|done]. Qed.
Lemma changed_trans w e el w1 el' w2 : changed w e el w1 → changed w1 e el' w2 → changed w e el' w2.
Proof.
  intros [A1 A2 A3 A4] [B1 B2 B3 B4]. split; [done| |congruence|congruence]. intros e' He. by rewrite B2, A2.
Qed.

(** ** Changes of one type *)

Definition stored (t : string) hs el : element D :=
  with_events (Some (<[t := hs]> (events_of el))) (el_handle el) (el_listeners el) el.
Definition deleted (t : string) el : element D :=
  with_events (Some (delete t (events_of el))) (el_handle el) (el_listeners el) el.
Definition unlistened (t : string) el : element D :=
  if listened t then with_events (el_events el) (el_handle el) (el_listeners el ∖ {[t]}) el else el.

(** The handlers of a type are replaced; a type without any is gone. *)
Definition put_plain (t : string) hs el : element D :=
  match hs with [] => deleted t (unlistened t el) | _ => stored t hs el end.

(** The handler that a special event bound goes with the last of its own. *)
Definition freed (g : nat) (t : string) el : element D :=
  match special_fix t with
  | Some fx => match events_of el !! fx with
               | Some hs => put_plain fx (filter (λ h, ¬ ho_guid h =? g) hs) el
               | None => el
               end
  | None => unlistened t el
  end.
Definition put (g : nat) (t : string) hs el : element D :=
  match hs with [] => deleted t (freed g t el) | _ => stored t hs el end.
Definition dropped el : element D :=
  if bool_decide (events_of el = ∅) then with_events None false (el_listeners el) el else el.

Lemma events_unlistened t el : events_of (unlistened t el) = events_of el.
Proof. unfold unlistened. by destruct (listened t). Qed.
Lemma events_stored t hs el : events_of (stored t hs el) = <[t := hs]> (events_of el).
Proof. done. Qed.
Lemma events_deleted t el : events_of (deleted t el) = delete t (events_of el).
Proof. done. Qed.
Lemma events_put_plain t t' hs el :
  events_of (put_plain t hs el) !! t' = if decide (t' = t) then (match hs with [] => None | _ => Some hs end) else events_of el !! t'.
Proof.
  destruct hs as [|h hs]; cbn [put_plain].
  - rewrite events_deleted, events_unlistened. case_decide; subst; [apply lookup_delete_eq|by apply lookup_delete_ne].
  - rewrite events_stored. case_decide; subst; [apply lookup_insert_eq|by apply lookup_insert_ne].
Qed.
Lemma events_freed g t t' el : events_of (freed g t el) !! t' =
  if decide (special_fix t = Some t') then
    match events_of el !! t' with
    | Some hs => match filter (λ h, ¬ ho_guid h =? g) hs with [] => None | hs => Some hs end
    | None => None
    end
  else events_of el !! t'.
Proof.
  unfold freed. destruct (special_fix t) as [fx|] eqn:E; [|by rewrite events_unlistened].
  destruct (events_of el !! fx) as [hs|] eqn:El.
  - rewrite events_put_plain. destruct (decide (t' = fx)) as [-> | Hne]; [rewrite decide_True by done; rewrite El; by destruct (filter _ hs)|].
    rewrite decide_False by congruence. done.
  - case_decide as Ed; [injection Ed as <-; by rewrite El|done].
Qed.
Lemma events_put g t t' hs el : events_of (put g t hs el) !! t' =
  if decide (t' = t) then (match hs with [] => None | _ => Some hs end)
  else match hs with [] => events_of (freed g t el) !! t' | _ => events_of el !! t' end.
Proof.
  destruct hs as [|h hs]; cbn [put].
  - rewrite events_deleted. case_decide; subst; [apply lookup_delete_eq|by apply lookup_delete_ne].
  - rewrite events_stored. case_decide; subst; [apply lookup_insert_eq|by apply lookup_insert_ne].
Qed.

Lemma put_same g t hs el : events_of el !! t = Some hs → hs ≠ [] → put g t hs el = el.
Proof.
  intros E Hn. destruct el as [tx nd [evs|] hd ls]; [|unfold events_of in E; cbn in E; by rewrite lookup_empty in E]. destruct hs; [done|].
  unfold put, stored, with_events, events_of in *. cbn in *. by rewrite insert_id.
Qed.

(** What was stored before does not matter for what is deleted. *)
Lemma deleted_stored g t hs el : deleted t (freed g t (stored t hs el)) = deleted t (freed g t el).
Proof.
  assert (Ef : ∀ k, k ≠ t → events_of (freed g t (stored t hs el)) !! k = events_of (freed g t el) !! k).
  { intros k Hk. rewrite !events_freed, events_stored, lookup_insert_ne by done. done. }
  assert (Em : delete t (events_of (freed g t (stored t hs el))) = delete t (events_of (freed g t el))).
  { apply map_eq. intros k. destruct (decide (k = t)) as [-> | Hk]; [by rewrite !lookup_delete_eq|]. rewrite !lookup_delete_ne by done. by apply Ef. }
  unfold deleted. rewrite Em. unfold freed, put_plain, unlistened. destruct (special_fix t) as [fx|] eqn:E.
  - rewrite events_stored, lookup_insert_ne by (by apply not_eq_sym, (fix_plain t)). destruct (events_of el !! fx) as [l|]; [|done].
    destruct (filter _ l); [|done]. by destruct (listened fx).
  - by destruct (listened t).
Qed.
Lemma put_put g t hs hs' el : hs' ≠ [] → put g t hs (put g t hs' el) = put g t hs el.
Proof.
  intros Hn. destruct hs' as [|h' hs']; [done|]. destruct hs; cbn [put]; [apply deleted_stored|].
  unfold stored, with_events, events_of. cbn. by rewrite insert_insert_eq.
Qed.

Lemma events_dropped el : events_of (dropped el) = events_of el.
Proof. unfold dropped. case_bool_decide as E; [by rewrite E|done]. Qed.
Lemma dropped_id el t : is_Some (events_of el !! t) → dropped el = el.
Proof.
  intros [hs E]. unfold dropped. rewrite bool_decide_eq_false_2; [done|]. intros E0. by rewrite E0, lookup_empty in E.
Qed.
Lemma handlers_dropped t el : handlers (dropped el) t = handlers el t.
Proof. unfold handlers. by rewrite events_dropped. Qed.
Lemma handlers_put g t t' hs el : handlers (put g t hs el) t' =
  if decide (t' = t) then hs
  else if decide (hs = [] ∧ special_fix t = Some t') then filter (λ h, ¬ ho_guid h =? g) (handlers el t') else handlers el t'.
Proof.
  unfold handlers. rewrite events_put. case_decide; [by destruct hs|].
  destruct hs; [|rewrite decide_False by (by intros [? _]); done]. rewrite events_freed.
  repeat case_decide; try tauto. destruct (events_of el !! t') as [l|]; [cbn|done]. by destruct (filter _ l).
Qed.

(** ** Well-formed elements stay so *)

Lemma unlistened_listeners t t' el : t' ∈ el_listeners (unlistened t el) ↔ t' ∈ el_listeners el ∧ (t' = t → listened t = false).
Proof. unfold unlistened. destruct (listened t) eqn:E; cbn; rewrite ?elem_of_difference, ?elem_of_singleton; intuition congruence. Qed.
Lemma flags_freed g t el :
  el_text (freed g t el) = el_text el ∧ el_no_data (freed g t el) = el_no_data el ∧ el_handle (freed g t el) = el_handle el ∧
  (is_Some (el_events el) → is_Some (el_events (freed g t el))).
Proof.
  unfold freed, put_plain, unlistened. repeat case_match; repeat split; try done; intros _; by eexists.
Qed.

Lemma wf_lookup el t : el_wf el → is_Some (events_of el !! t) → is_Some (el_events el) ∧ ¬ (el_text el || el_no_data el).
Proof.
  intros W [hs E]. assert (Ee : is_Some (el_events el)).
  { destruct (el_events el) eqn:Ev; [by eexists|]. unfold events_of in E. rewrite Ev in E. cbn in E. by rewrite lookup_empty in E. }
  split; [done|]. intros H%(ew_closed _ W). rewrite H in Ee. by destruct Ee.
Qed.

(** The listeners that go with the last handler of a type. *)
Lemma freed_listeners g t t' el :
  el_wf el → is_Some (events_of el !! t) →
  t' ∈ el_listeners (deleted t (freed g t el)) ↔ calls_for t' = true ∧ is_Some (events_of (deleted t (freed g t el)) !! t').
Proof.
  intros W Ht. pose proof (ew_listeners _ W t') as WL. rewrite events_deleted. cbn [deleted with_events el_listeners].
  destruct (special_fix t) as [fx|] eqn:E.
  - destruct (fix_plain _ _ E) as [Ep En]. pose proof (calls_for_special _ _ E) as Ec.
    destruct (decide (t' = t)) as [-> | Hne].
    { rewrite lookup_delete_eq, Ec. unfold freed. rewrite E. split; [|by intros [? _]].
      destruct (events_of el !! fx) as [l|]; [|rewrite WL, Ec; by intros [? _]].
      unfold put_plain. destruct (filter _ l); cbn [deleted stored with_events el_listeners];
        rewrite ?unlistened_listeners, WL, Ec; [by intros [[? _] _]|by intros [? _]]. }
    rewrite lookup_delete_ne, events_freed by done. unfold freed. rewrite E.
    destruct (decide (t' = fx)) as [-> | Hf].
    + rewrite decide_True by done. destruct (events_of el !! fx) as [l|] eqn:El; [|by rewrite WL].
      unfold put_plain. destruct (filter _ l) as [|h r]; cbn [deleted stored with_events el_listeners].
      * rewrite unlistened_listeners, WL, (calls_for_plain fx) by done. split; [intros [[? _] Hl]; by rewrite Hl in * |by intros [_ [? ?]]].
      * rewrite WL. split; intros [? _]; split; by eauto.
    + rewrite decide_False by congruence. rewrite <- WL. destruct (events_of el !! fx) as [l|]; [|done].
      unfold put_plain. destruct (filter _ l); cbn [deleted stored with_events el_listeners]; [|done].
      rewrite unlistened_listeners. split; [by intros [? _]|]. intros ?. by split.
  - unfold freed. rewrite E, unlistened_listeners, WL, events_unlistened. destruct (decide (t' = t)) as [-> | Hne].
    + rewrite lookup_delete_eq, (calls_for_plain t) by done. split; [intros [[? _] Hl]; by rewrite Hl in * |by intros [_ [? ?]]].
    + rewrite lookup_delete_ne by done. split; [by intros [? _]|]. intros ?. by split.
Qed.

Lemma put_wf g t hs el : el_wf el → is_Some (events_of el !! t) → Forall (λ h, ho_type h = t) hs → el_wf (put g t hs el).
Proof.
  intros W Ht F. destruct (wf_lookup _ _ W Ht) as [Ee Hc]. pose proof W as [W1 W2 W3 W4]. rewrite bool_decide_eq_true_2 in W3 by done.
  destruct hs as [|h hs]; cbn [put].
  - destruct (flags_freed g t el) as (F1 & F2 & F3 & F4).
    split; [|intros t'; by apply freed_listeners|cbn; by rewrite F3|cbn; by rewrite F1, F2].
    intros t' hs'. rewrite events_deleted. intros [Hne E]%lookup_delete_Some. rewrite events_freed in E.
    destruct (decide (special_fix t = Some t')); [|by apply W1]. destruct (events_of el !! t') as [l|] eqn:El; [|done].
    destruct (filter (λ h, ¬ ho_guid h =? g) l) as [|h r] eqn:Er; [done|]. injection E as <-. split; [done|]. rewrite <- Er.
    apply Forall_forall. intros h' [_ Hh]%list_elem_of_filter. destruct (W1 _ _ El) as [_ Fl]. by apply (proj1 (Forall_forall _ _) Fl).
  - split; [intros t' hs'|intros t'|done|by intros ?%Hc].
    + rewrite events_stored. destruct (decide (t' = t)) as [-> | Hne]; [rewrite lookup_insert_eq; by intros [= <-]|].
      rewrite lookup_insert_ne by done. apply W1.
    + rewrite events_stored. cbn [stored with_events el_listeners]. rewrite W2.
      destruct (decide (t' = t)) as [-> | Hne]; [rewrite lookup_insert_eq|by rewrite lookup_insert_ne].
      split; intros [? ?]; split; eauto.
Qed.
Lemma dropped_wf el : el_wf el → el_wf (dropped el).
Proof.
  intros W. unfold dropped. destruct (bool_decide (events_of el = ∅)) eqn:E; [|done]. apply bool_decide_eq_true in E.
  destruct W as [W1 W2 W3 W4]. split; cbn; [intros t hs|intros t|done|done].
  - unfold events_of. cbn. by rewrite lookup_empty.
  - rewrite W2, E. unfold events_of. cbn. done.
Qed.

(** ** The loops of [remove] *)

Lemma splice_loop_filter (p : handle_obj D → bool) before rest :
  splice_loop p before rest = before ++ filter (λ h, ¬ p h) rest.
Proof.
  revert before. induction rest as [|h rest IH]; intros before; cbn [splice_loop]; [by rewrite app_nil_r|].
  destruct (p h) eqn:E; rewrite IH.
  - rewrite filter_cons_False; [done|]. rewrite E. intros N. by apply N.
  - rewrite filter_cons_True; [by rewrite <- app_assoc|]. rewrite E. by intros [].
Qed.

Lemma changed_store w e t hs : changed w e (stored t hs (elem w e)) (store e t hs w).
Proof. apply changed_set. Qed.
Lemma changed_unlisten w e t : changed w e (unlistened t (elem w e)) (unlisten e t w).
Proof. unfold JQueryEvent.unlisten, unlistened. destruct (listened t); [apply changed_set|apply changed_refl]. Qed.
Lemma changed_drop w e : changed w e (dropped (elem w e)) (drop_empty e w).
Proof. unfold drop_empty, dropped. case_bool_decide; [apply changed_set|apply changed_refl]. Qed.
Lemma changed_detach td w e t el :
  changed w e el (td e t w) → changed w e (deleted t el) (detach td e t w).
Proof.
  intros C. eapply changed_trans; [exact C|]. unfold detach. rewrite (ch_elem _ _ _ _ C). apply changed_set.
Qed.

(** The loop over one type, for what undoes the set-up. *)
Lemma remove_guid_none td w e guid pos piece : events_of (elem w e) !! (parse_type piece).1 = None → remove_guid td e guid pos w piece = w.
Proof. intros E. unfold remove_guid. by rewrite E. Qed.

Definition hit (guid : nat) (piece : string) h : bool := (ho_guid h =? guid) && in_namespace piece h.

Lemma remove_guid_each td undone w e guid piece hs :
  (∀ w, changed w e (undone (elem w e)) (td e (parse_type piece).1 w)) →
  events_of (elem w e) !! (parse_type piece).1 = Some hs →
  let r := filter (λ h, ¬ hit guid piece h) hs in
  changed w e (match r with [] => deleted (parse_type piece).1 (undone (stored (parse_type piece).1 [] (elem w e)))
               | _ => stored (parse_type piece).1 r (elem w e) end) (remove_guid td e guid None w piece).
Proof.
  intros Htd E. unfold remove_guid. rewrite E, splice_loop_filter. cbn [app]. fold (hit guid piece).
  rewrite bool_decide_eq_false_2 by (by intros []). cbn [andb]. rewrite orb_false_r. cbv zeta.
  change (λ h, (ho_guid h =? guid) && in_namespace piece h) with (hit guid piece).
  set (r := filter _ hs). destruct r as [|h r]; cbn [length Nat.eqb]; [|apply changed_store].
  eapply changed_trans; [apply changed_store|]. rewrite <- (elem_set e (stored (parse_type piece).1 [] (elem w e)) w).
  apply changed_detach, Htd.
Qed.

Lemma parse_fix t fx : special_fix t = Some fx → (parse_type fx).1 = fx ∧ has_namespace fx = false.
Proof. intros [[-> ->]|[-> ->]]%fix_cases; done. Qed.

(** What undoes a set-up, for an element that still has the type. *)
Lemma changed_teardown w e t :
  is_Some (events_of (elem w e) !! t) → changed w e (freed (guids w WithinElement) t (elem w e)) (teardown e t w).
Proof.
  intros Ht. unfold JQueryEvent.teardown, freed. destruct (special_fix t) as [fx|] eqn:E; [|apply changed_unlisten].
  destruct (parse_fix _ _ E) as [Ep En]. destruct (fix_plain _ _ E) as [Es Ne]. set (g := guids w WithinElement).
  assert (D0 : changed w e (elem w e) (drop_empty e w)) by (rewrite <- (dropped_id _ _ Ht) at 1; apply changed_drop).
  destruct (events_of (elem w e) !! fx) as [hs|] eqn:El; [|by rewrite remove_guid_none by (by rewrite Ep)].
  pose proof (remove_guid_each unlisten (unlistened fx) w e g fx hs) as C. rewrite Ep in C. specialize (C (λ w, changed_unlisten w e fx) El).
  cbv zeta in C. assert (Eh : filter (λ h, ¬ hit g fx h) hs = filter (λ h, ¬ ho_guid h =? g) hs).
  { apply list_filter_iff. intros h. unfold hit, in_namespace. rewrite En. cbn. by rewrite andb_true_r. }
  rewrite Eh in C. set (r := filter (λ h, ¬ ho_guid h =? g) hs) in *.
  assert (C1 : changed w e (put_plain fx r (elem w e)) (remove_guid unlisten e g None w fx)).
  { destruct r as [|h r]; [|exact C]. cbn [put_plain]. replace (deleted fx (unlistened fx (stored fx [] (elem w e)))) with (deleted fx (unlistened fx (elem w e))) in C; [exact C|].
    pose proof (deleted_stored g fx [] (elem w e)) as Ed. unfold freed in Ed. rewrite Es in Ed. done. }
  eapply changed_trans; [exact C1|]. rewrite <- (dropped_id (put_plain fx r (elem w e)) t), <- (ch_elem _ _ _ _ C1); [apply changed_drop|].
  rewrite events_put_plain, decide_False by (by apply not_eq_sym). done.
Qed.

(** The last handlers of a type. *)
Lemma changed_last w e t hs : changed w e (put (guids w WithinElement) t [] (elem w e)) (detach teardown e t (store e t hs w)).
Proof.
  cbn [put]. rewrite <- (deleted_stored _ t hs), <- (elem_set e (stored t hs (elem w e)) w).
  eapply changed_trans; [apply changed_store|]. apply changed_detach. apply (changed_teardown (store e t hs w)).
  unfold store. rewrite elem_set. unfold with_events, events_of. cbn. rewrite lookup_insert_eq. by eexists.
Qed.

Lemma remove_guid_put w e guid piece hs :
  events_of (elem w e) !! (parse_type piece).1 = Some hs →
  changed w e (put (guids w WithinElement) (parse_type piece).1 (filter (λ h, ¬ hit guid piece h) hs) (elem w e))
    (remove_guid teardown e guid None w piece).
Proof.
  intros E. unfold remove_guid. rewrite E, splice_loop_filter. cbn [app].
  change (λ h, (ho_guid h =? guid) && in_namespace piece h) with (hit guid piece).
  rewrite bool_decide_eq_false_2 by (by intros []). cbn [andb]. rewrite orb_false_r.
  destruct (filter _ hs) as [|h r]; cbn [length Nat.eqb]; [apply changed_last|apply changed_store].
Qed.

(** The call for the handler at a position only looks at the length. *)
Lemma remove_guid_at w e guid i piece hs :
  events_of (elem w e) !! (parse_type piece).1 = Some hs → hs ≠ [] →
  changed w e (put (guids w WithinElement) (parse_type piece).1 (if (length hs =? 1) then [] else hs) (elem w e))
    (remove_guid teardown e guid (Some i) w piece).
Proof.
  intros E Hn. unfold remove_guid. rewrite E. rewrite bool_decide_eq_true_2 by (by eexists). cbn [andb].
  destruct hs as [|h hs]; [done|]. cbn [length Nat.eqb orb]. destruct (length hs =? 0); [apply changed_last|apply changed_store].
Qed.

(** What is left of a type; the structure goes with its last handler. *)
Definition cleared (g : nat) (t : string) hs el : element D := match hs with [] => dropped (put g t [] el) | _ => put g t hs el end.

(** One turn of the loop over all handlers of a type. *)
Lemma clear_turn w e piece before h rest :
  let t := (parse_type piece).1 in
  let w1 := drop_empty e (remove_guid teardown e (guids w (ho_handler h)) (Some (length before)) w piece) in
  events_of (elem w e) !! t = Some (before ++ h :: rest) →
  changed w e (cleared (guids w WithinElement) t (before ++ rest) (elem w e))
    (match events_of (elem w1 e) !! t with Some _ => store e t (before ++ rest) w1 | None => w1 end).
Proof.
  intros t w1 E. set (g := guids w WithinElement). assert (Hn : before ++ h :: rest ≠ []) by (by destruct before).
  pose proof (remove_guid_at w e (guids w (ho_handler h)) (length before) piece _ E Hn) as C. fold t g in C.
  assert (C1 : changed w e (dropped (put g t (if (length (before ++ h :: rest) =? 1) then [] else before ++ h :: rest) (elem w e))) w1).
  { unfold w1. eapply changed_trans; [exact C|]. rewrite <- (ch_elem _ _ _ _ C). apply changed_drop. }
  destruct (length (before ++ h :: rest) =? 1) eqn:El.
  - assert (before ++ rest = []) as ->.
    { rewrite length_app in El. cbn in El. apply Nat.eqb_eq in El. destruct before, rest; cbn in El; (done || lia). }
    rewrite (ch_elem _ _ _ _ C1), events_dropped, events_put, decide_True by done. exact C1.
  - rewrite (put_same g t), (dropped_id _ t) in C1 by (done || by eexists). rewrite (ch_elem _ _ _ _ C1), E.
    assert (Hn' : before ++ rest ≠ []).
    { rewrite length_app in El. cbn in El. apply Nat.eqb_neq in El. destruct before, rest; cbn in *; (done || lia). }
    eapply changed_trans; [exact C1|]. rewrite <- (ch_elem _ _ _ _ C1). unfold cleared, put. destruct (before ++ rest); [done|apply changed_store].
Qed.

Lemma clear_loop_spec e piece before rest w :
  before ++ rest ≠ [] → events_of (elem w e) !! (parse_type piece).1 = Some (before ++ rest) →
  changed w e (cleared (guids w WithinElement) (parse_type piece).1 (before ++ filter (λ h, ¬ in_namespace piece h) rest) (elem w e))
    (clear_loop e piece before rest w).
Proof.
  revert before w. induction rest as [|h rest IH]; intros before w Hn E; cbn [JQueryEvent.clear_loop].
  { cbn. rewrite app_nil_r in *. unfold cleared. destruct before; [done|]. rewrite put_same by done. apply changed_refl. }
  destruct (in_namespace piece h) eqn:En.
  - rewrite filter_cons_False by (rewrite En; intros N; by apply N).
    pose proof (clear_turn w e piece before h rest E) as C. cbv zeta in C. set (w2 := match events_of _ !! _ with Some _ => _ | None => _ end) in *.
    set (t := (parse_type piece).1) in *. set (g := guids w WithinElement) in *. cbv zeta. fold w2.
    destruct (decide (before ++ rest = [])) as [Er|Hn'].
    { apply app_eq_nil in Er as [-> ->]. exact C. }
    assert (Ec : cleared g t (before ++ rest) (elem w e) = put g t (before ++ rest) (elem w e)) by (unfold cleared; by destruct (before ++ rest)).
    rewrite Ec in C. eapply changed_trans; [exact C|].
    assert (Eq : ∀ r, cleared g t r (elem w e) = cleared g t r (put g t (before ++ rest) (elem w e))).
    { intros r. unfold cleared. destruct r; by rewrite put_put. }
    rewrite Eq, <- (ch_elem _ _ _ _ C). unfold g. rewrite <- (ch_guids _ _ _ _ C). apply IH; [done|].
    rewrite (ch_elem _ _ _ _ C), events_put, decide_True by done. by destruct (before ++ rest).
  - rewrite filter_cons_True by (rewrite En; by intros []).
    specialize (IH (before ++ [h]) w). rewrite <- !app_assoc in IH. cbn [app] in IH. by apply IH.
Qed.

Lemma remove_all_none w e piece : events_of (elem w e) !! (parse_type piece).1 = None → remove_all e w piece = w.
Proof. intros E. unfold JQueryEvent.remove_all. by rewrite E. Qed.
Lemma remove_all_each w e piece hs :
  events_of (elem w e) !! (parse_type piece).1 = Some hs → hs ≠ [] →
  changed w e (cleared (guids w WithinElement) (parse_type piece).1 (filter (λ h, ¬ in_namespace piece h) hs) (elem w e)) (remove_all e w piece).
Proof. intros E Hn. unfold JQueryEvent.remove_all. rewrite E. by apply (clear_loop_spec e piece []). Qed.
End spec.
