(* ===== verification/JQueryRemoveSpec.v ===== *)
(** What [remove] takes out of the handlers of an element. *)

From S2P Require Import Prelude JsText JQueryEvent JQueryEventSpec.
From stdpp Require Import gmap.
From Stdlib Require Import Ascii.

(** A list that had elements, all of which are named. *)
Definition emptied {A} (p : A → bool) (l : list A) : bool := bool_decide (l ≠ []) && forallb p l.

Lemma filter_forallb {A} (p : A → bool) (l : list A) : filter (λ x, ¬ p x) l = [] ↔ forallb p l = true.
Proof.
  induction l as [|x l IH]; [done|]. cbn [forallb]. rewrite filter_cons. destruct (p x) eqn:E; cbn [andb].
  - rewrite decide_False by (intros N; by apply N). exact IH.
  - rewrite decide_True by (by intros []). done.
Qed.
Lemma forallb_filter {A} (p q : A → bool) (l : list A) : forallb q (filter (λ x, ¬ p x) l) = forallb (λ x, p x || q x) l.
Proof.
  induction l as [|x l IH]; [done|]. cbn [forallb]. rewrite filter_cons. destruct (p x) eqn:E; cbn [andb orb].
  - rewrite decide_False by (intros N; by apply N). exact IH.
  - rewrite decide_True by (by intros []). cbn. by rewrite IH.
Qed.
Lemma emptied_or {A} (p q : A → bool) (l : list A) :
  emptied p l || emptied q (filter (λ x, ¬ p x) l) = emptied (λ x, p x || q x) l.
Proof.
  unfold emptied. rewrite forallb_filter. destruct (decide (l = [])) as [-> | Hn]; [done|].
  rewrite (bool_decide_eq_true_2 (l ≠ [])) by done. cbn [andb].
  destruct (forallb p l) eqn:Ep; cbn [orb].
  - symmetry. apply forallb_forall. intros x Hx. by rewrite (proj1 (forallb_forall p l) Ep x Hx).
  - rewrite bool_decide_eq_true_2; [done|]. intros E%filter_forallb. congruence.
Qed.

Lemma emptied_ext {A} (p q : A → bool) (l : list A) : (∀ x, p x = q x) → emptied p l = emptied q l.
Proof. intros E. unfold emptied. f_equal. induction l as [|x l IH]; [done|]. cbn. by rewrite E, IH. Qed.
Lemma emptied_false {A} (p : A → bool) (l : list A) : (∀ x, p x = false) → emptied p l = false.
Proof. intros E. unfold emptied. destruct l as [|x l]; [done|]. cbn [forallb]. by rewrite E, andb_false_l, andb_false_r. Qed.

Section spec.
Context {D : Type}.
Implicit Types (w : world D) (el : element D) (e : nat) (h : handle_obj D) (hs : list (handle_obj D)).
Variable listened : string → bool.
#[local] Notation unlisten := (JQueryEvent.unlisten listened).
#[local] Notation teardown := (JQueryEvent.teardown listened).
#[local] Notation remove_all := (JQueryEvent.remove_all listened).
#[local] Notation remove_types := (JQueryEvent.remove_types listened).
#[local] Notation remove := (JQueryEvent.remove listened).
#[local] Notation el_wf := (JQueryEventSpec.el_wf listened).
#[local] Notation put := (JQueryEventSpec.put listened).
#[local] Notation put_wf := (JQueryEventSpec.put_wf listened).

(** The special event that binds a handler to a type. *)
Definition unfix (t : string) : option string :=
  match t with "mouseover" => Some "mouseenter" | "mouseout" => Some "mouseleave" | _ => None end.
Lemma unfix_fix t orig : unfix t = Some orig ↔ special_fix orig = Some t.
Proof.
  split; [|by intros [[-> ->]|[-> ->]]%fix_cases].
  destruct (decide (t = "mouseover")) as [-> | N1]; [by intros [= <-]|].
  destruct (decide (t = "mouseout")) as [-> | N2]; [by intros [= <-]|].
  intros E. exfalso. unfold unfix in E. repeat (case_match; try discriminate); by subst.
Qed.
Lemma unfix_orig t orig : unfix t = Some orig → unfix orig = None.
Proof. intros [[-> ->]|[-> ->]]%unfix_fix%fix_cases; done. Qed.

(** The handlers that go: those that are named, and that of a special event
    with the last of its own. *)
Definition gone (g : nat) el (named : string → handle_obj D → bool) (t : string) h : bool :=
  named t h || match unfix t with Some orig => (ho_guid h =? g) && emptied (named orig) (handlers el orig) | None => false end.

(** The handlers of an element that are named are gone, the rest is as
    before. *)
Record removed w e (named : string → handle_obj D → bool) w' : Prop := {
  rm_handlers t : handlers (elem w' e) t = filter (λ h, ¬ gone (guids w WithinElement) (elem w e) named t h) (handlers (elem w e) t);
  rm_wf : el_wf (elem w' e);
  rm_other e' : e' ≠ e → elem w' e' = elem w e';
  rm_guids : guids w' = guids w;
  rm_next : next_guid w' = next_guid w;
  rm_flags : el_text (elem w' e) = el_text (elem w e) ∧ el_no_data (elem w' e) = el_no_data (elem w e);
}.

Lemma gone_ext g el P Q t h :
  (∀ t h, h ∈ handlers el t → P t h = Q t h) → h ∈ handlers el t → gone g el P t h = gone g el Q t h.
Proof.
  intros E Hh. unfold gone. rewrite (E t h Hh). f_equal. destruct (unfix t) as [orig|]; [|done]. f_equal. unfold emptied. f_equal.
  specialize (E orig). revert E. generalize (handlers el orig). induction l as [|h' l IH]; intros E; [done|]. cbn.
  rewrite E by (by left). rewrite IH by (intros ? ?; apply E; by right). done.
Qed.
Lemma filter_gone_ext g g' el el' P Q t hs :
  (∀ h, h ∈ hs → gone g el P t h = gone g' el' Q t h) → filter (λ h, ¬ gone g el P t h) hs = filter (λ h, ¬ gone g' el' Q t h) hs.
Proof.
  induction hs as [|h hs IH]; intros E; [done|]. rewrite !filter_cons, (E h) by (by left).
  rewrite IH by (intros h' Hh; apply E; by right). done.
Qed.
Lemma removed_ext w e P Q w' :
  (∀ t h, h ∈ handlers (elem w e) t → P t h = Q t h) → removed w e P w' → removed w e Q w'.
Proof.
  intros E [A1 A2 A3 A4 A5 A6]. split; try done. intros t. rewrite A1. apply filter_gone_ext. intros h Hh. by apply gone_ext.
Qed.

Lemma gone_none g el t h : gone g el (λ _ _, false) t h = false.
Proof.
  unfold gone. cbn. destruct (unfix t) as [orig|]; [|done]. by rewrite emptied_false, andb_false_r.
Qed.
Lemma removed_nothing w e w' : el_wf (elem w e) → changed w e (elem w e) w' → removed w e (λ _ _, false) w'.
Proof.
  intros W [C1 C2 C3 C4]. split; try done; [|by rewrite C1|by rewrite C1]. intros t. rewrite C1. symmetry. apply filter_keeps. intros h _. rewrite gone_none. by intros [].
Qed.
Lemma removed_none w e P : el_wf (elem w e) → (∀ t h, h ∈ handlers (elem w e) t → P t h = false) → removed w e P w.
Proof.
  intros W HP. eapply removed_ext; [|by apply removed_nothing]. intros t h Hh. by rewrite HP.
Qed.

Lemma removed_trans w e P Q w1 w2 :
  removed w e P w1 → removed w1 e Q w2 → removed w e (λ t h, P t h || Q t h) w2.
Proof.
  intros [A1 A2 A3 A4 A5 A6] [B1 B2 B3 B4 B5 B6].
  split; [|exact B2|intros e' He; by rewrite B3, A3|congruence|congruence|split; destruct A6, B6; congruence].
  intros t. rewrite B1, A1, list_filter_filter, A4. set (g := guids w WithinElement). apply list_filter_iff. intros h.
  enough (E : gone g (elem w e) P t h || gone g (elem w1 e) Q t h = gone g (elem w e) (λ t h, P t h || Q t h) t h).
  { rewrite <- E. destruct (gone g (elem w e) P t h), (gone g (elem w1 e) Q t h); cbn; tauto. }
  unfold gone. destruct (unfix t) as [orig|] eqn:Eu; [|by rewrite !orb_false_r].
  rewrite <- (emptied_or (P orig) (Q orig)).
  assert (E1 : handlers (elem w1 e) orig = filter (λ h, ¬ P orig h) (handlers (elem w e) orig)).
  { rewrite A1. apply list_filter_iff. intros h'. unfold gone. by rewrite (unfix_orig t), orb_false_r by done. }
  rewrite E1. destruct (P t h), (Q t h), (ho_guid h =? g); cbn; rewrite ?orb_true_r; done.
Qed.

(** The change of one type, with or without its structure. *)
Lemma removed_put w e t (p : handle_obj D → bool) hs el' w' :
  el_wf (elem w e) → events_of (elem w e) !! t = Some hs → changed w e el' w' →
  el' = put (guids w WithinElement) t (filter (λ h, ¬ p h) hs) (elem w e) ∨
  el' = dropped (put (guids w WithinElement) t (filter (λ h, ¬ p h) hs) (elem w e)) →
  removed w e (λ t' h, String.eqb t t' && p h) w'.
Proof.
  intros W E [C1 C2 C3 C4] He. set (g := guids w WithinElement) in *. set (r := filter (λ h, ¬ p h) hs) in *.
  assert (Wp : el_wf (put g t r (elem w e))).
  { apply put_wf; [done|by rewrite E|]. apply Forall_forall. intros h [_ Hh]%list_elem_of_filter. revert h Hh.
    by apply Forall_forall, (ew_lists _ _ W). }
  assert (Eh : ∀ t', handlers el' t' = handlers (put g t r (elem w e)) t') by (intros t'; destruct He as [-> | ->]; [done|apply handlers_dropped]).
  assert (Et : handlers (elem w e) t = hs) by (unfold handlers; by rewrite E).
  assert (Fl : ∀ el, el_text (dropped el) = el_text el ∧ el_no_data (dropped el) = el_no_data el) by (intros el; unfold dropped; by case_bool_decide).
  assert (Fp : el_text (put g t r (elem w e)) = el_text (elem w e) ∧ el_no_data (put g t r (elem w e)) = el_no_data (elem w e)).
  { destruct r; cbn; [|done]. destruct (flags_freed listened g t (elem w e)) as (F1 & F2 & _). by rewrite F1, F2. }
  split; [|rewrite C1; destruct He as [-> | ->]; [done|by apply dropped_wf]|done|done|done|].
  2: { rewrite C1. destruct He as [-> | ->]; [done|]. destruct (Fl (put g t r (elem w e))) as [-> ->]. done. }
  intros t'. rewrite C1, Eh, handlers_put. fold g. destruct (decide (t' = t)) as [-> | Hne].
  - rewrite Et. apply list_filter_iff. intros h. unfold gone. rewrite String.eqb_refl. cbn [andb].
    destruct (unfix t) as [orig|] eqn:Eu; [|by rewrite orb_false_r].
    rewrite emptied_false; [by rewrite andb_false_r, orb_false_r|]. intros h'.
    rewrite (proj2 (String.eqb_neq t orig)); [done|]. intros ->. by rewrite (unfix_orig orig orig) in Eu.
  - assert (En : String.eqb t t' = false) by (by apply String.eqb_neq). case_decide as Hd.
    + destruct Hd as [Er Ef]. apply list_filter_iff. intros h. unfold gone. rewrite En. cbn [andb orb].
      rewrite (proj2 (unfix_fix t' t) Ef), (emptied_ext _ p) by (intros h'; by rewrite String.eqb_refl).
      destruct (ew_lists _ _ W _ _ E) as [Hn _]. unfold emptied. rewrite Et, bool_decide_eq_true_2 by done.
      rewrite (proj1 (filter_forallb p hs) Er). by rewrite andb_true_r.
    + symmetry. apply filter_keeps. intros h _. unfold gone. rewrite En. cbn [andb orb].
      destruct (unfix t') as [orig|] eqn:Eu; [|by intros []]. destruct (decide (t = orig)) as [<- | No].
      * rewrite (emptied_ext _ p) by (intros h'; by rewrite String.eqb_refl). unfold emptied. rewrite Et.
        destruct (forallb p hs) eqn:Ep; [|rewrite !andb_false_r; by intros []].
        destruct Hd. split; [by apply filter_forallb|by apply unfix_fix].
      * rewrite emptied_false; [rewrite andb_false_r; by intros []|]. intros h'. by rewrite (proj2 (String.eqb_neq t orig)).
Qed.

(** The handlers that one of the types names, those with a unique number or
    all. *)
Definition named_by (who : option nat) (piece t : string) h : bool :=
  String.eqb (parse_type piece).1 t && (match who with Some g => ho_guid h =? g | None => true end && in_namespace piece h).
Definition named (who : option nat) (pieces : list string) (t : string) h : bool :=
  existsb (λ piece, named_by who piece t h) pieces.

Lemma removed_no_type w e P t :
  el_wf (elem w e) → events_of (elem w e) !! t = None → removed w e (λ t' h, String.eqb t t' && P h) w.
Proof.
  intros W E. apply removed_none; [done|]. intros t' h Hh. destruct (String.eqb_spec t t') as [-> | ]; [|done].
  unfold handlers in Hh. rewrite E in Hh. by apply elem_of_nil in Hh.
Qed.

Lemma remove_guid_removed w e g piece :
  el_wf (elem w e) → removed w e (named_by (Some g) piece) (remove_guid teardown e g None w piece).
Proof.
  intros W. unfold named_by. destruct (events_of (elem w e) !! (parse_type piece).1) as [hs|] eqn:E.
  - eapply (removed_put w e _ (hit g piece)); [done|exact E|by apply remove_guid_put|by left].
  - rewrite remove_guid_none by done. by apply removed_no_type.
Qed.
Lemma remove_all_removed w e piece : el_wf (elem w e) → removed w e (named_by None piece) (remove_all e w piece).
Proof.
  intros W. unfold named_by. destruct (events_of (elem w e) !! (parse_type piece).1) as [hs|] eqn:E.
  - pose proof (proj1 (ew_lists _ _ W _ _ E)) as Hn.
    eapply removed_put; [done|exact E|by apply remove_all_each|]. cbn [andb]. unfold cleared.
    destruct (filter _ hs); [by right|by left].
  - rewrite remove_all_none by done. by apply removed_no_type.
Qed.

Lemma fold_removed e who (f : world D → string → world D) :
  (∀ w piece, el_wf (elem w e) → removed w e (named_by who piece) (f w piece)) →
  ∀ pieces w, el_wf (elem w e) → removed w e (named who pieces) (foldl f w pieces).
Proof.
  intros Hf pieces. induction pieces as [|piece pieces IH]; intros w W; cbn [foldl]; [by apply removed_none|].
  pose proof (Hf w piece W) as R. specialize (IH (f w piece) (rm_wf _ _ _ _ R)).
  exact (removed_trans _ _ _ _ _ _ R IH).
Qed.

Lemma drop_removed w e : el_wf (elem w e) → removed w e (λ _ _, false) (drop_empty e w).
Proof.
  intros W. destruct (changed_drop w e) as [C1 C2 C3 C4]. split; [|rewrite C1; by apply dropped_wf|done|done|done|rewrite C1; unfold dropped; by case_bool_decide].
  intros t. rewrite C1, handlers_dropped. symmetry. apply filter_keeps. intros h _. rewrite gone_none. by intros [].
Qed.

(** Whom a function stands for. *)
Definition who w (handler : option func) : option nat := guids w <$> handler.

Lemma remove_types_removed w e pieces handler :
  el_wf (elem w e) → removed w e (named (who w handler) pieces) (remove_types e pieces handler w).
Proof.
  intros W. unfold JQueryEvent.remove_types, who.
  set (w1 := match handler with Some f => _ | None => _ end).
  assert (R : removed w e (named (guids w <$> handler) pieces) w1).
  { destruct handler as [f|]; apply fold_removed; try done; intros; [by apply remove_guid_removed|by apply remove_all_removed]. }
  eapply removed_ext; [intros t h _; apply orb_false_r|]. exact (removed_trans _ _ _ _ _ _ R (drop_removed w1 e (rm_wf _ _ _ _ R))).
Qed.

(** ** [remove] of any text *)

(** The types that a text stands for: all those of the element when it is
    empty or names namespaces only. *)
Definition for_all (types : string) : bool := match types with "" | String "."%char _ => true | _ => false end.
Definition meant el (types : string) : list string :=
  if for_all types then concat ((λ t, split_types (t +:+ types)) <$> (map_to_list (events_of el)).*1) else split_types types.

Lemma remove_fuel fuel e types handler w :
  for_all types = false → remove (S fuel) e types handler w =
    if el_text (elem w e) then Ok w else match el_events (elem w e) with
    | None => Ok w | Some _ => Ok (remove_types e (split_types types) handler w) end.
Proof. intros E. cbn [JQueryEvent.remove]. destruct types as [|[[] [] [] [] [] [] [] []] s]; try discriminate; done. Qed.
Lemma remove_fuel_all fuel e types handler w :
  for_all types = true → remove (S fuel) e types handler w =
    if el_text (elem w e) then Ok w else match el_events (elem w e) with
    | None => Ok w
    | Some evs => foldl (λ r type, w ← r; remove fuel e (type +:+ types) None w) (Ok w) (map_to_list evs).*1 end.
Proof. intros E. cbn [JQueryEvent.remove]. destruct types as [|[[] [] [] [] [] [] [] []] s]; try discriminate; done. Qed.

Lemma no_events w e : el_events (elem w e) = None → ∀ t, handlers (elem w e) t = [].
Proof. intros E t. unfold handlers, events_of. rewrite E. cbn. by rewrite lookup_empty. Qed.
Lemma removed_no_events w e P : el_wf (elem w e) → el_events (elem w e) = None → removed w e P w.
Proof. intros W E. apply removed_none; [done|]. intros t h. rewrite no_events by done. by intros ?%elem_of_nil. Qed.
Lemma text_no_events el : el_wf el → el_text el = true → el_events el = None.
Proof. intros W E. apply (ew_closed _ _ W). by rewrite E. Qed.

Lemma remove_leaf fuel e types handler w :
  el_wf (elem w e) → for_all types = false →
  ∃ w', remove (S fuel) e types handler w = Ok w' ∧ removed w e (named (who w handler) (split_types types)) w'.
Proof.
  intros W E. rewrite remove_fuel by done. destruct (el_text (elem w e)) eqn:Et; [|destruct (el_events (elem w e)) eqn:Ee]; eexists; (split; [done|]).
  - apply removed_no_events; [done|by apply text_no_events].
  - by apply remove_types_removed.
  - by apply removed_no_events.
Qed.

Lemma fold_leaf fuel e types ts w :
  el_wf (elem w e) → Forall (λ t, for_all (t +:+ types) = false) ts →
  ∃ w', foldl (λ r type, w ← r; remove (S fuel) e (type +:+ types) None w) (Ok w) ts = Ok w' ∧
        removed w e (named None (concat ((λ t, split_types (t +:+ types)) <$> ts))) w'.
Proof.
  intros W F. revert w W. induction F as [|t ts Ht F IH]; intros w W; [exists w; split; [done|by apply removed_none]|].
  cbn [foldl mbind result_bind]. destruct (remove_leaf fuel e (t +:+ types) None w W Ht) as (w1 & E1 & R1).
  change (w ← Ok w; remove (S fuel) e (t +:+ types) None w) with (remove (S fuel) e (t +:+ types) None w). rewrite E1.
  destruct (IH w1 (rm_wf _ _ _ _ R1)) as (w2 & E2 & R2). exists w2. split; [done|].
  eapply removed_ext; [|exact (removed_trans _ _ _ _ _ _ R1 R2)]. intros t' h _. unfold named. cbn. by rewrite existsb_app.
Qed.

(** Handlers without a type, bound by a namespace only, cannot be removed
    with the others. *)
Definition typed w e : Prop := map_Forall (λ t _, for_all t = false) (events_of (elem w e)).

Lemma for_all_app t s : for_all t = false → for_all (t +:+ s) = false.
Proof. destruct t as [|[[] [] [] [] [] [] [] []] t]; done. Qed.

(** Unbinding takes out of the handlers of an element exactly those that
    the text names (by their type, their namespaces and, when a function is
    given, its unique number), and the handler that [mouseenter] or
    [mouseleave] had bound when the last of theirs goes; it keeps the order of
    the others and leaves the element well formed: the browser goes on calling
    it for the types that still have handlers, and for them only.  Nothing
    changes elsewhere. *)
Lemma remove_exact fuel e types handler w :
  el_wf (elem w e) → (for_all types = true → typed w e) →
  let who := if for_all types then None else who w handler in
  ∃ w', remove (S (S fuel)) e types handler w = Ok w' ∧ removed w e (named who (meant (elem w e) types)) w'.
Proof.
  intros W T. cbv zeta. unfold meant. destruct (for_all types) eqn:E; [|by apply remove_leaf].
  rewrite remove_fuel_all by done. destruct (el_text (elem w e)) eqn:Et; [|destruct (el_events (elem w e)) as [evs|] eqn:Ee].
  - exists w. split; [done|]. apply removed_no_events; [done|by apply text_no_events].
  - assert (Ev : events_of (elem w e) = evs) by (unfold events_of; by rewrite Ee). rewrite Ev.
    apply fold_leaf; [done|]. apply Forall_forall. intros t ([t' hs] & -> & Ht%elem_of_map_to_list)%list_elem_of_fmap.
    apply for_all_app, (T eq_refl t' hs). by rewrite Ev.
  - exists w. split; [done|]. by apply removed_no_events.
Qed.
End spec.
