(* ===== verification/JQueryBindSpec.v ===== *)
(** Binding handlers: what [add] appends, and the state of every page on which
    handlers are bound and unbound. *)

From S2P Require Import Prelude JsText JQueryEvent JQueryEventSpec JQueryRemoveSpec.
From stdpp Require Import gmap.
From Stdlib Require Import Ascii.

(** ** Texts of types and namespaces *)

Lemma split_char_pieces sep s : Forall (λ p, all_chars (λ c, negb (c =? sep)%char) p = true) (split_char sep s).
Proof.
  induction s as [|c s IH]; cbn; [by repeat constructor|]. destruct (c =? sep)%char eqn:E; [by constructor|].
  destruct (split_char sep s) as [|p ps]; [by repeat constructor; cbn; rewrite E|].
  apply Forall_cons in IH as [Hp Hps]. constructor; [|done]. cbn. by rewrite E.
Qed.

Lemma insert_name_perm x l : insert_name x l ≡ₚ x :: l.
Proof.
  induction l as [|y l IH]; cbn; [done|]. destruct (String.leb x y); [done|]. rewrite IH. by constructor.
Qed.
Lemma sort_names_perm l : sort_names l ≡ₚ l.
Proof. induction l as [|x l IH]; cbn; [done|]. by rewrite insert_name_perm, IH. Qed.

Lemma subseq_refl l : subseq l l = true.
Proof. induction l as [|x l IH]; [done|]. cbn. by rewrite String.eqb_refl. Qed.

(** The namespaces of a type are found again in what is kept of them. *)
Lemma test_own piece : (parse_type piece).2 ≠ [] → test (sort_names (parse_type piece).2) (str_join "." (sort_names (parse_type piece).2)) = true.
Proof.
  intros Hn. unfold test. rewrite split_join; [apply subseq_refl| |].
  - intros E. apply Hn. apply Permutation_nil_r. by rewrite <- sort_names_perm, E.
  - rewrite sort_names_perm. unfold parse_type. pose proof (split_char_pieces "."%char piece) as F.
    destruct (split_char "."%char piece); [done|]. by apply Forall_cons in F as [_ F].
Qed.

Section bind.
Context {D : Type}.
Implicit Types (w : world D) (el : element D) (e : nat) (h : handle_obj D) (hs : list (handle_obj D)).
Variable listened : string → bool.
Variable type_data : string → D.
#[local] Notation listen := (JQueryEvent.listen listened).
#[local] Notation setup := (JQueryEvent.setup listened type_data).
#[local] Notation add := (JQueryEvent.add listened type_data).
#[local] Notation el_wf := (JQueryEventSpec.el_wf listened).
#[local] Notation calls_for := (JQueryEventSpec.calls_for listened).

(** ** One more handler *)

Definition bound (f : func) (data : D) (guid : nat) (piece : string) : handle_obj D :=
  HandleObj f data (str_join "." (sort_names (parse_type piece).2)) (parse_type piece).1 guid.

(** The element with a handler more; the browser is asked to call it when it
    is the first of its type. *)
Definition pushed (t : string) h el : element D :=
  with_events (Some (<[t := handlers el t ++ [h]]> (events_of el))) (el_handle el)
    (match events_of el !! t with
     | None => if calls_for t then {[t]} ∪ el_listeners el else el_listeners el
     | Some _ => el_listeners el
     end) el.

(** An element to which handlers can be bound, and one that has its
    structure. *)
Definition accepting el : Prop := el_text el = false ∧ el_no_data el = false.
Definition ready el : Prop := el_wf el ∧ accepting el ∧ is_Some (el_events el).

Lemma events_pushed t h el : events_of (pushed t h el) = <[t := handlers el t ++ [h]]> (events_of el).
Proof. done. Qed.
Lemma listeners_pushed t h el : el_listeners (pushed t h el) =
  match events_of el !! t with None => if calls_for t then {[t]} ∪ el_listeners el else el_listeners el | Some _ => el_listeners el end.
Proof. done. Qed.
Lemma handlers_pushed t t' h el : handlers (pushed t h el) t' = handlers el t' ++ (if decide (t' = t) then [h] else []).
Proof.
  unfold handlers at 1. rewrite events_pushed. case_decide; subst; [by rewrite lookup_insert_eq|].
  rewrite lookup_insert_ne by done. by rewrite app_nil_r.
Qed.
Lemma pushed_ready t h el : ready el → ho_type h = t → ready (pushed t h el).
Proof.
  intros ([W1 W2 W3 W4] & [A1 A2] & [evs Ee]) Et. split; [|split; [done|by eexists]]. split.
  - intros t' hs. rewrite events_pushed. destruct (decide (t' = t)) as [-> | Hne]; [|rewrite lookup_insert_ne by done; apply W1].
    rewrite lookup_insert_eq. intros [= <-]. split; [by destruct (handlers el t)|]. apply Forall_app. split; [|by repeat constructor].
    unfold handlers. destruct (events_of el !! t) as [l|] eqn:El; [|done]. by apply W1.
  - intros t'. rewrite events_pushed, listeners_pushed. specialize (W2 t').
    destruct (decide (t' = t)) as [-> | Hne].
    + rewrite lookup_insert_eq. destruct (events_of el !! t) eqn:El; [rewrite W2; split; intros [? ?]; split; eauto|].
      destruct (calls_for t) eqn:En; [set_solver by eauto|]. rewrite W2. split; intros [? ?]; done.
    + rewrite lookup_insert_ne by done. rewrite <- W2. repeat case_match; set_solver.
  - cbn. by rewrite W3, Ee.
  - cbn. by rewrite A1, A2.
Qed.

(** ** Unique numbers *)

Lemma guids_give f g w : guids (give_guid f w) g = if decide (g = f ∧ guids w f = 0) then next_guid w else guids w g.
Proof.
  unfold give_guid. destruct (Nat.eqb_spec (guids w f) 0); cbn; repeat case_decide; try done; tauto.
Qed.
Lemma elem_give f w e : elem (give_guid f w) e = elem w e.
Proof. unfold give_guid. by case_match. Qed.
Lemma give_known f w : guids w f ≠ 0 → give_guid f w = w.
Proof. intros Hn. unfold give_guid. by rewrite (proj2 (Nat.eqb_neq _ _)). Qed.
Lemma give_pos f w : 0 < next_guid w → guids (give_guid f w) f ≠ 0.
Proof. intros Hp. rewrite guids_give. case_decide as Hd; [lia|]. intros E. by apply Hd. Qed.
Lemma next_give f w : next_guid w ≤ next_guid (give_guid f w).
Proof. unfold give_guid. case_match; cbn; lia. Qed.

(** ** The steps of [add] *)

(** Storing the list of the type again and again only counts once. *)
Lemma stored_twice t hs hs' el : stored t hs (stored t hs' el) = stored t hs el.
Proof. unfold stored, with_events, events_of. cbn. by rewrite insert_insert_eq. Qed.

Lemma pushed_set w0 w e t h n :
  guids w0 = guids w → next_guid w0 = next_guid w → (∀ e', e' ≠ e → elem w0 e' = elem w e') →
  pushed t h (elem w e) = stored t (handlers (elem w0 e) t ++ [h]) (elem w0 e) →
  changed w e (pushed t h (elem w e))
    (let w1 := store e t (default [] (events_of (elem w0 e) !! t) ++ [h]) w0 in World (next_guid w1) (guids w1) (els w1) n).
Proof.
  intros G N O E. split; [|intros e' He|done|done]; unfold elem at 1; cbn.
  - rewrite lookup_insert_eq. cbn. by rewrite E.
  - rewrite lookup_insert_ne by done. by apply O.
Qed.

Lemma add_type_known setup w e f own data piece :
  is_Some (events_of (elem w e) !! (parse_type piece).1) →
  changed w e (pushed (parse_type piece).1 (bound f data (if own =? 0 then guids w f else own) piece) (elem w e)) (add_type setup e f own data w piece).
Proof.
  intros [hs E]. unfold add_type, bound. destruct (parse_type piece) as [t ns]. cbn [fst snd] in *. rewrite E.
  apply pushed_set; [done..|]. unfold pushed, stored. by rewrite E.
Qed.

Lemma add_type_listen w e f own data piece :
  special_fix (parse_type piece).1 = None →
  changed w e (pushed (parse_type piece).1 (bound f data (if own =? 0 then guids w f else own) piece) (elem w e)) (add_type listen e f own data w piece).
Proof.
  intros Es. destruct (events_of (elem w e) !! (parse_type piece).1) as [hs|] eqn:E; [by apply add_type_known|].
  unfold add_type, bound. destruct (parse_type piece) as [t ns]. cbn [fst snd] in *. rewrite E.
  set (w0 := listen e t (store e t [] w)).
  assert (C : changed w e (with_events (Some (<[t := []]> (events_of (elem w e)))) (el_handle (elem w e))
                  (if listened t then {[t]} ∪ el_listeners (elem w e) else el_listeners (elem w e)) (elem w e)) w0).
  { eapply changed_trans; [apply changed_store|]. unfold w0, JQueryEvent.listen. destruct (listened t).
    - unfold with_listeners. rewrite (ch_elem _ _ _ _ (changed_store w e t [])). apply changed_set.
    - change (with_events _ _ _ _) with (stored t [] (elem w e)). rewrite <- (ch_elem _ _ _ _ (changed_store w e t [])). apply changed_refl. }
  destruct C as [C1 C2 C3 C4]. apply pushed_set; [done..|]. rewrite C1.
  unfold pushed, stored, with_events, handlers, events_of. cbn. rewrite insert_insert_eq, lookup_insert_eq.
  unfold events_of in E. rewrite E. cbn. by rewrite calls_for_plain.
Qed.

(** The handler that a special event binds. *)
Definition inner (t fx : string) (g : nat) : handle_obj D := bound WithinElement (type_data t) g fx.
Definition setting_up el : Prop := el_no_data el = false ∧ is_Some (el_events el) ∧ el_handle el = true.

Lemma add_fn_inner w e t fx :
  special_fix t = Some fx → setting_up (elem w e) →
  let w1 := give_guid WithinElement w in
  changed w1 e (pushed fx (inner t fx (guids w1 WithinElement)) (elem w e)) (add_fn listen e fx WithinElement 0 (type_data t) w).
Proof.
  intros Ef (S1 & [evs S2] & S3) w1. destruct (parse_fix _ _ Ef) as [Ep _]. destruct (fix_plain _ _ Ef) as [Es _].
  unfold add_fn. fold w1. assert (E1 : elem w1 e = elem w e) by apply elem_give. rewrite E1, S1.
  assert (Es' : split_types fx = [fx]) by (by destruct (fix_cases _ _ Ef) as [[-> ->]|[-> ->]]).
  rewrite Es'. cbn [foldl]. set (w2 := set_elem e _ w1).
  assert (C : changed w1 e (elem w e) w2).
  { replace (elem w e) with (with_events (Some (events_of (elem w e))) true (el_listeners (elem w e)) (elem w e)) at 1; [apply changed_set|].
    unfold with_events, events_of. rewrite S2, <- S3. cbn. rewrite <- S2. by destruct (elem w e). }
  eapply changed_trans; [exact C|]. pose proof (add_type_listen w2 e WithinElement 0 (type_data t) fx) as A. rewrite Ep in A.
  rewrite (ch_elem _ _ _ _ C) in A. cbn [Nat.eqb] in A. rewrite (ch_guids _ _ _ _ C) in A. by apply A.
Qed.

(** The first handler of [mouseenter] or [mouseleave]. *)
Lemma add_type_fix w e f own data piece fx :
  let t := (parse_type piece).1 in
  let w1 := give_guid WithinElement w in
  special_fix t = Some fx → events_of (elem w e) !! t = None → ready (elem w e) →
  changed w1 e (pushed t (bound f data (if own =? 0 then guids w f else own) piece) (pushed fx (inner t fx (guids w1 WithinElement)) (elem w e)))
    (add_type setup e f own data w piece).
Proof.
  intros t w1 Ef E (W & [A1 A2] & R). destruct (fix_plain _ _ Ef) as [Es Ne]. unfold add_type, bound. subst t.
  destruct (parse_type piece) as [t ns]. cbn [fst snd] in *. rewrite E. set (w0 := store e t [] w). set (hi := inner t fx (guids w1 WithinElement)).
  set (ho := HandleObj f data _ t _). assert (E0 : elem w0 e = stored t [] (elem w e)) by apply elem_set.
  assert (G0 : give_guid WithinElement w0 = store e t [] w1) by (unfold w0, w1, give_guid, store, set_elem; cbn; by destruct (guids w WithinElement =? 0)).
  assert (C : changed w1 e (pushed fx hi (stored t [] (elem w e))) (setup e t w0)).
  { unfold JQueryEvent.setup. rewrite Ef. pose proof (add_fn_inner w0 e t fx Ef) as C. cbv zeta in C. rewrite G0, E0 in C.
    eapply changed_trans; [|apply C].
    - apply changed_store.
    - split; [exact A2|]. split; [by eexists|]. cbn. rewrite (ew_handle _ _ W). by apply bool_decide_eq_true. }
  destruct C as [C1 C2 C3 C4].
  assert (Eq : pushed t ho (pushed fx hi (elem w e)) = stored t (handlers (pushed fx hi (stored t [] (elem w e))) t ++ [ho]) (pushed fx hi (stored t [] (elem w e)))).
  { unfold pushed at 1, stored at 1. rewrite !handlers_pushed. rewrite !decide_False by (by apply not_eq_sym). rewrite !app_nil_r.
    assert (H1 : handlers (elem w e) t = []) by (unfold handlers; by rewrite E).
    assert (H2 : handlers (stored t [] (elem w e)) t = []) by (unfold handlers; rewrite events_stored; by rewrite lookup_insert_eq).
    assert (H3 : handlers (stored t [] (elem w e)) fx = handlers (elem w e) fx) by (unfold handlers; rewrite events_stored; by rewrite lookup_insert_ne by done).
    rewrite H1, H2, !events_pushed, H3, lookup_insert_ne, E, (calls_for_special _ _ _ Ef) by (by apply not_eq_sym).
    unfold with_events. f_equal.
    - f_equal. rewrite events_stored. apply map_eq. intros k. destruct (decide (k = t)) as [-> | Hk]; [by rewrite !lookup_insert_eq|].
      rewrite !(lookup_insert_ne _ t) by done. destruct (decide (k = fx)) as [-> | Hk']; [by rewrite !lookup_insert_eq|].
      by rewrite !lookup_insert_ne by done.
    - rewrite !listeners_pushed, events_stored, lookup_insert_ne by done. done. }
  split; [|intros e' He|exact C3|exact C4]; unfold elem at 1; cbn.
  - rewrite lookup_insert_eq. cbn. rewrite Eq, <- C1. done.
  - rewrite lookup_insert_ne by done. by apply C2.
Qed.

(** ** What [add] appends *)

Definition of_type (t : string) hs : list (handle_obj D) := filter (λ h, ho_type h = t) hs.

(** Unique numbers after more of them were given, at most to the handler of
    special events. *)
Definition numbered w w' : Prop :=
  (guids w' = guids w ∧ next_guid w' = next_guid w) ∨
  (guids w' = guids (give_guid WithinElement w) ∧ next_guid w' = next_guid (give_guid WithinElement w)).
Lemma numbered_known w w' f : numbered w w' → guids w f ≠ 0 → guids w' f = guids w f.
Proof.
  intros [[-> _]|[-> _]]; [done|]. intros Hn. rewrite guids_give. case_decide as Hd; [by destruct Hd as [-> ?]|done].
Qed.
Lemma give_same w w' f : guids w' = guids w → next_guid w' = next_guid w →
  guids (give_guid f w') = guids (give_guid f w) ∧ next_guid (give_guid f w') = next_guid (give_guid f w).
Proof. intros E N. unfold give_guid. rewrite E, N. by destruct (guids w f =? 0). Qed.
Lemma numbered_trans w w1 w2 : 0 < next_guid w → numbered w w1 → numbered w1 w2 → numbered w w2.
Proof.
  intros Hp [[G1 N1]|[G1 N1]] [[G2 N2]|[G2 N2]].
  - left. split; congruence.
  - right. destruct (give_same w w1 WithinElement) as [E1 E2]; [done..|]. split; congruence.
  - right. split; congruence.
  - right. destruct (give_same (give_guid WithinElement w) w1 WithinElement) as [E1 E2]; [done..|].
    rewrite (give_known WithinElement (give_guid WithinElement w)) in E1, E2 by (by apply give_pos). split; congruence.
Qed.
Lemma numbered_next w w' : numbered w w' → next_guid w ≤ next_guid w'.
Proof. intros [[_ ->]|[_ ->]]; [done|apply next_give]. Qed.

(** Handlers were appended to those of an element. *)
Record added w e hs w' : Prop := {
  ad_handlers t : handlers (elem w' e) t = handlers (elem w e) t ++ of_type t hs;
  ad_ready : ready (elem w' e);
  ad_other e' : e' ≠ e → elem w' e' = elem w e';
  ad_numbered : numbered w w';
}.

Lemma added_nil w e : ready (elem w e) → added w e [] w.
Proof. intros R. split; [|done|done|by left]. intros t. by rewrite app_nil_r. Qed.
Lemma added_trans w e hs w1 hs' w2 : 0 < next_guid w → added w e hs w1 → added w1 e hs' w2 → added w e (hs ++ hs') w2.
Proof.
  intros Hp [A1 A2 A3 A4] [B1 B2 B3 B4]. split; [|done|intros e' He; by rewrite B3, A3|by eapply numbered_trans].
  intros t. rewrite B1, A1, <- app_assoc. unfold of_type. by rewrite filter_app.
Qed.

(** What a type of the text appends, on an element as it is. *)
Definition new_handlers (f : func) (data : D) (guid g : nat) el (piece : string) : list (handle_obj D) :=
  match handlers el (parse_type piece).1, special_fix (parse_type piece).1 with
  | [], Some fx => [inner (parse_type piece).1 fx g]
  | _, _ => []
  end ++ [bound f data guid piece].

Lemma handlers_nil el t : el_wf el → handlers el t = [] ↔ events_of el !! t = None.
Proof.
  intros W. unfold handlers. destruct (events_of el !! t) as [hs|] eqn:E; [|done]. cbn. destruct (ew_lists _ _ W _ _ E) as [Hn _]. done.
Qed.

Lemma add_type_plain e f own data w piece :
  special_fix (parse_type piece).1 = None → add_type setup e f own data w piece = add_type listen e f own data w piece.
Proof.
  intros E. unfold add_type. destruct (parse_type piece) as [t ns]. cbn in E.
  assert (Eq : ∀ w, setup e t w = listen e t w) by (intros w1; unfold JQueryEvent.setup; by rewrite E). by rewrite Eq.
Qed.

Lemma add_type_added w e f own data piece :
  ready (elem w e) →
  let w' := add_type setup e f own data w piece in
  added w e (new_handlers f data (if own =? 0 then guids w f else own) (guids w' WithinElement) (elem w e) piece) w'.
Proof.
  intros R w'. pose proof R as (W & A & _). set (t := (parse_type piece).1). set (g := if own =? 0 then guids w f else own).
  assert (K : handlers (elem w e) t = [] ∧ is_Some (special_fix t) ∨ new_handlers f data g (guids w' WithinElement) (elem w e) piece = [bound f data g piece] ∧
              (special_fix t = None ∨ is_Some (events_of (elem w e) !! t))).
  { unfold new_handlers. fold t. destruct (handlers (elem w e) t) as [|h hs] eqn:Eh.
    - destruct (special_fix t); [left; by eauto|right; by auto].
    - right. split; [done|]. right. destruct (events_of (elem w e) !! t) eqn:E; [by eexists|]. unfold handlers in Eh. by rewrite E in Eh. }
  destruct K as [[Eh [fx Ef]]|[-> K]].
  - pose proof (add_type_fix w e f own data piece fx Ef (proj1 (handlers_nil _ t W) Eh) R) as [C1 C2 C3 C4]. fold w' in C1, C2, C3, C4. fold t g in C1.
    unfold new_handlers. fold t. rewrite Eh, Ef, <- C3 in *. destruct (fix_plain _ _ Ef) as [_ Ne]. split.
    + intros t'. rewrite C1, !handlers_pushed. cbn [app]. unfold of_type. rewrite <- app_assoc. f_equal.
      destruct (parse_fix _ _ Ef) as [Ep _]. rewrite !filter_cons. cbn. rewrite Ep. fold t. rewrite C3.
      destruct (decide (t' = fx)), (decide (fx = t')), (decide (t' = t)), (decide (t = t')); cbn [app]; congruence.
    + rewrite C1. apply pushed_ready; [|done]. apply pushed_ready; [done|]. by apply (parse_fix t).
    + intros e' He. rewrite C2 by done. apply elem_give.
    + right. done.
  - assert (C : changed w e (pushed t (bound f data g piece) (elem w e)) w').
    { destruct K as [K|K]; [unfold w'; rewrite add_type_plain by done; by apply add_type_listen|by apply add_type_known]. }
    destruct C as [C1 C2 C3 C4]. split; [|rewrite C1; by apply pushed_ready|done|by left].
    intros t'. rewrite C1, handlers_pushed. f_equal. unfold of_type. rewrite filter_cons. cbn. fold t.
    destruct (decide (t' = t)), (decide (t = t')); congruence.
Qed.

(** A handler that was bound by the text, or by a special event of it that had
    none before. *)
Definition new_ok (f : func) (data : D) (guid g : nat) el (pieces : list string) h : Prop :=
  (∃ piece, piece ∈ pieces ∧ h = bound f data guid piece) ∨
  (∃ piece fx, piece ∈ pieces ∧ special_fix (parse_type piece).1 = Some fx ∧ handlers el (parse_type piece).1 = [] ∧
     h = inner (parse_type piece).1 fx g ∧ g ≠ 0).

Lemma add_type_new w e f own data piece :
  ready (elem w e) → 0 < next_guid w →
  let w' := add_type setup e f own data w piece in
  let g := if own =? 0 then guids w f else own in
  ∃ hs, added w e hs w' ∧ Forall (new_ok f data g (guids w' WithinElement) (elem w e) [piece]) hs ∧ bound f data g piece ∈ hs.
Proof.
  intros R Hp w' g. pose proof (add_type_added w e f own data piece R) as A. cbv zeta in A. fold g w' in A. eexists. split; [exact A|].
  unfold new_handlers. split; [|by apply elem_of_app; right; left].
  apply Forall_app. split; [|constructor; [|constructor]; left; by exists piece; split; [left|]].
  destruct (handlers (elem w e) (parse_type piece).1) eqn:Eh; [|constructor].
  destruct (special_fix (parse_type piece).1) as [fx|] eqn:Ef; constructor; [|constructor].
  right. exists piece, fx. split; [by left|]. split; [done|]. split; [done|]. split; [done|].
  pose proof (add_type_fix w e f own data piece fx Ef (proj1 (handlers_nil _ _ (proj1 R)) Eh) R) as C.
  unfold w'. rewrite (ch_guids _ _ _ _ C). by apply give_pos.
Qed.

Lemma new_ok_later f data guid g g' el el' pieces pieces' h :
  (g ≠ 0 → g' = g) → (∀ t, handlers el t = [] → handlers el' t = []) → (∀ p, p ∈ pieces → p ∈ pieces') →
  new_ok f data guid g el pieces h → new_ok f data guid g' el' pieces' h.
Proof.
  intros Hg He Hp [(piece & P1 & P2)|(piece & fx & P1 & P2 & P3 & P4 & P5)]; [left|right].
  - exists piece. auto.
  - exists piece, fx. rewrite (Hg P5). auto.
Qed.

Lemma add_types_new e f own data pieces w :
  ready (elem w e) → 0 < next_guid w → (own = 0 → guids w f ≠ 0) →
  let w' := foldl (add_type setup e f own data) w pieces in
  let g := if own =? 0 then guids w f else own in
  ∃ hs, added w e hs w' ∧ Forall (new_ok f data g (guids w' WithinElement) (elem w e) pieces) hs ∧
    ∀ piece, piece ∈ pieces → bound f data g piece ∈ hs.
Proof.
  revert w. induction pieces as [|piece pieces IH]; intros w R Hp Hf; cbn [foldl].
  { exists []. split; [by apply added_nil|]. split; [constructor|]. by intros ? ?%elem_of_nil. }
  destruct (add_type_new w e f own data piece R Hp) as (hs1 & A1 & F1 & B1). set (w1 := add_type setup e f own data w piece) in *.
  assert (Ef : own = 0 → guids w1 f = guids w f) by (intros Ho; apply (numbered_known w w1); [apply A1|auto]).
  destruct (IH w1) as (hs2 & A2 & F2 & B2).
  { apply A1. } { pose proof (numbered_next _ _ (ad_numbered _ _ _ _ A1)). lia. } { intros Ho. rewrite Ef; auto. }
  assert (Eg : (if own =? 0 then guids w1 f else own) = (if own =? 0 then guids w f else own)).
  { destruct (Nat.eqb_spec own 0); [by apply Ef|done]. }
  cbv zeta in *. rewrite Eg in *. exists (hs1 ++ hs2). split; [by apply added_trans with w1|]. split.
  - apply Forall_app. split.
    + eapply Forall_impl; [exact F1|]. intros h. apply new_ok_later; [|done|intros p; rewrite list_elem_of_singleton; intros ->; by left].
      intros Hn. apply (numbered_known w1); [apply A2|done].
    + eapply Forall_impl; [exact F2|]. intros h. apply new_ok_later; [done| |by right].
      intros t Ht. rewrite (ad_handlers _ _ _ _ A1) in Ht. by apply app_eq_nil in Ht as [? _].
  - intros p [-> | Hin]%elem_of_cons; apply elem_of_app; [by left|right; auto].
Qed.

(** The element is made ready, and then the types are added. *)
Lemma add_fn_start w e types f own data :
  el_wf (elem w e) → accepting (elem w e) → 0 < next_guid w →
  ∃ w2, add_fn setup e types f own data w = foldl (add_type setup e f own data) w2 (split_types types) ∧
    added (give_guid f w) e [] w2 ∧ guids w2 = guids (give_guid f w) ∧ 0 < next_guid w2.
Proof.
  intros W [A1 A2] Hp. unfold add_fn. set (w1 := give_guid f w). assert (E1 : elem w1 e = elem w e) by apply elem_give. rewrite E1, A2.
  set (el2 := with_events _ true _ _). exists (set_elem e el2 w1). split; [done|]. split; [|split; [done|]].
  - split; [|rewrite elem_set| |by left].
    + intros t. by rewrite elem_set, E1, app_nil_r.
    + destruct W as [W1 W2 W3 W4]. split; [split|split; [done|by eexists]]; try done. cbn. by rewrite A1, A2.
    + intros e' He. by apply elem_set_other.
  - change (next_guid (set_elem e el2 w1)) with (next_guid (give_guid f w)). pose proof (next_give f w). lia.
Qed.

(** [add] of a function, on an element that takes handlers. *)
Lemma add_fn_new w e types f own data :
  el_wf (elem w e) → accepting (elem w e) → 0 < next_guid w →
  let w1 := give_guid f w in
  let w' := add_fn setup e types f own data w in
  let g := if own =? 0 then guids w1 f else own in
  ∃ hs, added w1 e hs w' ∧ Forall (new_ok f data g (guids w' WithinElement) (elem w e) (split_types types)) hs ∧
    ∀ piece, piece ∈ split_types types → bound f data g piece ∈ hs.
Proof.
  intros W A Hp w1 w' g. destruct (add_fn_start w e types f own data W A Hp) as (w2 & E & A2 & G2 & N2). fold w1 in A2, G2.
  pose proof (give_pos f w Hp) as Gf. fold w1 in Gf.
  destruct (add_types_new e f own data (split_types types) w2) as (hs & B1 & B2 & B3); [apply A2|done|intros _; by rewrite G2|].
  cbv zeta in *. rewrite <- E, G2 in *. fold w' g in B1, B2, B3. exists hs.
  split; [apply (added_trans _ _ [] w2 hs); [pose proof (next_give f w); unfold w1; lia|done|done]|]. split; [|done].
  eapply Forall_impl; [exact B2|]. intros h. apply new_ok_later; [done| |done].
  intros t. rewrite (ad_handlers _ _ _ _ A2). unfold w1. rewrite elem_give. intros Ht. by apply app_eq_nil in Ht as [? _].
Qed.

(** [add] of one type. *)
Lemma add_fn_one w e piece f data :
  el_wf (elem w e) → accepting (elem w e) → 0 < next_guid w → split_types piece = [piece] →
  let w' := add_fn setup e piece f 0 data w in
  added (give_guid f w) e (new_handlers f data (guids (give_guid f w) f) (guids w' WithinElement) (elem w e) piece) w'.
Proof.
  intros W A Hp Es w'. destruct (add_fn_start w e piece f 0 data W A Hp) as (w2 & E & A2 & G2 & N2). rewrite Es in E. cbn [foldl] in E.
  pose proof (add_type_added w2 e f 0 data piece (ad_ready _ _ _ _ A2)) as B. cbv zeta in B. rewrite <- E, G2 in B. cbn [Nat.eqb] in B. fold w' in B.
  assert (En : new_handlers f data (guids (give_guid f w) f) (guids w' WithinElement) (elem w2 e) piece =
               new_handlers f data (guids (give_guid f w) f) (guids w' WithinElement) (elem w e) piece).
  { unfold new_handlers. by rewrite (ad_handlers _ _ _ _ A2), elem_give, app_nil_r. }
  rewrite En in B. apply (added_trans _ _ [] w2); [pose proof (next_give f w); lia|done|done].
Qed.
End bind.
