(* ===== verification/JQueryPageSpec.v ===== *)
(** Pages on which handlers are bound and unbound: what holds in every
    reachable state, and that unbinding undoes binding. *)

From S2P Require Import Prelude JsText JQueryEvent JQueryEventSpec JQueryRemoveSpec JQueryBindSpec.
From stdpp Require Import gmap.
From Stdlib Require Import Ascii.

(** The function that a proxy stands for. *)
Fixpoint base (f : func) : func := match f with OnceOf f => base f | f => f end.
(** The functions that the program binds. *)
Definition plain (f : func) : Prop := match f with Func _ | ReturnFalse => True | _ => False end.

Section page.
Context {D : Type}.
Implicit Types (w : world D) (el : element D) (e : nat) (h : handle_obj D) (hs : list (handle_obj D)).
Variable listened : string → bool.
Variable type_data : string → D.
#[local] Notation setup := (JQueryEvent.setup listened type_data).
#[local] Notation add := (JQueryEvent.add listened type_data).
#[local] Notation remove := (JQueryEvent.remove listened).
#[local] Notation el_wf := (JQueryEventSpec.el_wf listened).
#[local] Notation added := (JQueryBindSpec.added listened).
#[local] Notation removed := (JQueryRemoveSpec.removed listened).

(** Elements are well formed; unique numbers are those of functions and their
    proxies; a handler has the number of its function; special events leave
    no handler of their own behind. *)
Record page_wf w : Prop := {
  pw_el e : el_wf (elem w e);
  pw_next f : guids w f < next_guid w;
  pw_inj f f' : guids w f = guids w f' → guids w f ≠ 0 → base f = base f';
  pw_once f : guids w (OnceOf f) = 0 ∨ guids w (OnceOf f) = guids w f;
  pw_bound e t h : h ∈ handlers (elem w e) t → ho_guid h = guids w (ho_handler h) ∧ ho_guid h ≠ 0;
  pw_inner e orig fx h :
    special_fix orig = Some fx → h ∈ handlers (elem w e) fx → base (ho_handler h) = WithinElement → handlers (elem w e) orig ≠ [];
}.

Lemma once_guid w f : page_wf w → guids w f ≠ 0 → guids w f = guids w (base f).
Proof.
  intros P. induction f as [n|f IH| |]; cbn [base]; try done. intros Hn. destruct (pw_once _ P f) as [E|E]; [done|]. rewrite E in *. by apply IH.
Qed.
Lemma page_pos w : page_wf w → 0 < next_guid w.
Proof. intros P. pose proof (pw_next _ P ReturnFalse). lia. Qed.

Lemma page_ext w w' :
  guids w' = guids w → next_guid w' = next_guid w → (∀ e, elem w' e = elem w e) → page_wf w → page_wf w'.
Proof.
  intros G N E [P1 P2 P3 P4 P5 P6]. split.
  - intros e. rewrite E. apply P1.
  - intros f. rewrite G, N. apply P2.
  - intros f f'. rewrite G. apply P3.
  - intros f. rewrite G. apply P4.
  - intros e t h. rewrite E, G. apply P5.
  - intros e orig fx h. rewrite E. apply P6.
Qed.

(** Unique numbers. *)
Lemma page_give w f : (∀ f', f ≠ OnceOf f') → page_wf w → page_wf (give_guid f w).
Proof.
  intros Hf P. pose proof P as [P1 P2 P3 P4 P5 P6]. split.
  - intros e. rewrite elem_give. apply P1.
  - intros f'. unfold give_guid. pose proof (P2 f') as H. case_match; cbn; [case_decide; lia|lia].
  - intros a b. rewrite !guids_give. pose proof (P2 a). pose proof (P2 b). repeat case_decide; intros E Hn.
    + destruct H1 as [-> _], H2 as [-> _]. done.
    + lia.
    + lia.
    + by apply P3.
  - intros f'. rewrite !guids_give. rewrite decide_False by (intros [E _]; by apply (Hf f')). case_decide as Hd; [|apply P4].
    destruct Hd as [-> E]. destruct (P4 f) as [?|?]; left; congruence.
  - intros e t h. rewrite elem_give. intros [H1 H2]%P5. split; [|done]. rewrite guids_give, decide_False; [done|].
    intros [E1 E2]. congruence.
  - intros e orig fx h. rewrite elem_give. apply P6.
Qed.
Lemma page_numbered w w' : page_wf w → numbered w w' → (∀ e, elem w' e = elem w e) → page_wf w'.
Proof.
  intros P [[G N]|[G N]] E; [by apply (page_ext w)|]. apply (page_ext (give_guid WithinElement w)); [done|done| |by apply page_give].
  intros e. by rewrite E, elem_give.
Qed.
Lemma page_proxy w f : plain f → page_wf w → page_wf (proxy f (OnceOf f) w).
Proof.
  intros Hf P. pose proof P as [P1 P2 P3 P4 P5 P6]. set (g := if guids w f =? 0 then next_guid w else guids w f).
  assert (G : ∀ a, guids (proxy f (OnceOf f) w) a = if decide (a = f ∨ a = OnceOf f) then g else guids w a).
  { intros a. unfold proxy, g. cbn. destruct (Nat.eqb_spec (guids w f) 0) as [E|E].
    - destruct (P4 f) as [E'|E']; rewrite E' in *; rewrite ?E; cbn; repeat case_decide; tauto.
    - repeat case_decide; tauto. }
  assert (N : next_guid (proxy f (OnceOf f) w) = if guids w f =? 0 then S (next_guid w) else next_guid w).
  { unfold proxy. cbn. destruct (Nat.eqb_spec (guids w f) 0) as [E|E]; [|done]. cbn.
    destruct (P4 f) as [E'|E']; rewrite E'; [done|by rewrite E]. }
  assert (Gf : guids w f ≠ 0 → g = guids w f) by (intros Hn; unfold g; by rewrite (proj2 (Nat.eqb_neq _ _))).
  assert (Gk : ∀ a, guids w a ≠ 0 → guids (proxy f (OnceOf f) w) a = guids w a).
  { intros a Ha. rewrite G. case_decide as Hd; [|done]. destruct Hd as [-> | ->]; [by apply Gf|].
    destruct (P4 f) as [E|E]; [done|]. rewrite E in *. by apply Gf. }
  assert (Gg : ∀ a, guids w a = g → guids w a ≠ 0 → base a = base f).
  { intros a Ea Hn. unfold g in Ea. destruct (Nat.eqb_spec (guids w f) 0); [pose proof (P2 a); lia|]. by apply P3. }
  split.
  - exact P1.
  - intros a. rewrite G, N. pose proof (P2 a). pose proof (P2 f). unfold g. destruct (Nat.eqb_spec (guids w f) 0); case_decide; lia.
  - intros a b. rewrite !G. destruct (decide (a = f ∨ a = OnceOf f)) as [Ha|Ha], (decide (b = f ∨ b = OnceOf f)) as [Hb|Hb]; intros E Hn.
    + destruct Ha as [-> | ->], Hb as [-> | ->]; done.
    + assert (base a = base f) as -> by (by destruct Ha as [-> | ->]). symmetry. apply Gg; congruence.
    + assert (base b = base f) as -> by (by destruct Hb as [-> | ->]). apply Gg; congruence.
    + by apply P3.
  - intros a. rewrite !G. destruct (decide (OnceOf a = f ∨ OnceOf a = OnceOf f)) as [[<- | [= ->]]|Ho].
    + done.
    + right. by rewrite decide_True by (by left).
    + destruct (P4 a) as [E|E]; [by left|]. case_decide as Hd; [|by right]. destruct Hd as [-> | ->]; [by destruct Ho; right|].
      destruct (decide (guids w (OnceOf f) = 0)) as [E0|E0]; [left; congruence|]. right. rewrite E, <- (Gk (OnceOf f)) by done.
      rewrite G, decide_True by (by right). done.
  - intros e t h [H1 H2]%P5. split; [|done]. rewrite Gk by congruence. done.
  - exact P6.
Qed.

(** ** Binding *)

Lemma page_added w e hs w' :
  page_wf w → added w e hs w' →
  (∀ h, h ∈ hs → ho_guid h = guids w' (ho_handler h) ∧ ho_guid h ≠ 0) →
  (∀ h orig, h ∈ hs → base (ho_handler h) = WithinElement → special_fix orig = Some (ho_type h) → of_type orig hs ≠ []) →
  page_wf w'.
Proof.
  intros P [A1 A2 A3 A4] B I. set (w0 := World (next_guid w') (guids w') (els w) (global w)).
  assert (P0 : page_wf w0) by (apply (page_numbered w); [done|exact A4|done]).
  assert (E0 : ∀ e', elem w0 e' = elem w e') by done. destruct P0 as [P1 P2 P3 P4 P5 P6]. split; [| exact P2|exact P3|exact P4| |].
  - intros e'. destruct (decide (e' = e)) as [-> | He]; [apply A2|rewrite A3 by done; apply P1].
  - intros e' t h. destruct (decide (e' = e)) as [-> | He]; [|rewrite A3 by done; apply P5].
    rewrite A1. intros [Hh|[_ Hh]%list_elem_of_filter]%elem_of_app; [by apply (P5 e t)|by apply B].
  - intros e' orig fx h Ef. destruct (decide (e' = e)) as [-> | He]; [|rewrite A3 by done; by apply P6].
    rewrite !A1. intros [Hh|[Et Hh]%list_elem_of_filter]%elem_of_app Hb.
    + intros [E _]%app_eq_nil. by apply (P6 e orig fx h).
    + intros [_ E]%app_eq_nil. subst fx. by apply (I h orig).
Qed.

(** A function that the program binds, or its proxy. *)
Lemma page_add_fn w e types f data :
  page_wf w → el_text (elem w e) = false → base f ≠ WithinElement → plain f ∨ guids w f ≠ 0 → page_wf (add_fn setup e types f 0 data w).
Proof.
  intros P Et Hb Hf. assert (P1 : page_wf (give_guid f w)).
  { destruct Hf as [Hf|Hf]; [apply page_give; [|done]; intros f' ->; by destruct Hf|by rewrite give_known]. }
  destruct (el_no_data (elem w e)) eqn:En.
  { unfold add_fn. by rewrite elem_give, En. }
  pose proof (page_pos w P) as Hp. set (w' := add_fn setup e types f 0 data w).
  destruct (add_fn_new listened type_data w e types f 0 data) as (hs & A & F & B); [apply P|by split|done|]. fold w' in A, F, B.
  cbn [Nat.eqb] in F, B. rewrite Forall_forall in F.
  assert (Hg : guids w' f = guids (give_guid f w) f) by (apply (numbered_known (give_guid f w)); [apply A|by apply give_pos]).
  apply (page_added (give_guid f w) e hs); [done|done| |].
  - intros h [(piece & _ & ->)|(piece & fx & _ & _ & _ & -> & Hn)]%F; cbn; [rewrite Hg; split; [done|by apply give_pos]|by split].
  - intros h orig [(piece & _ & ->)|(piece & fx & Hpc & Ef & _ & -> & _)]%F Hw Eo; [done|]. cbn in Eo.
    destruct (parse_fix _ _ Ef) as [Epf _]. rewrite Epf in Eo. rewrite (fix_inj _ _ _ Ef Eo). intros E.
    assert (Hin : bound f data (guids (give_guid f w) f) piece ∈ of_type (parse_type piece).1 hs) by (apply list_elem_of_filter; split; [done|by apply B]).
    rewrite E in Hin. by apply elem_of_nil in Hin.
Qed.

(** The arguments of [bind] on a page. *)
Definition arg_ok (arg : handler_arg D) : Prop := match arg with HNone | HFalse => True | HFn f => plain f | HObj _ _ _ => False end.
Lemma page_add w e types arg data : arg_ok arg → page_wf w → page_wf (add e types arg data w).
Proof.
  intros Ha P. unfold JQueryEvent.add. destruct (el_text (elem w e)) eqn:Et; [done|]. destruct arg as [| |f|f own d]; try done.
  - apply page_add_fn; [done|done|done|by left].
  - apply page_add_fn; [done|done|by destruct f|by left].
Qed.
Lemma page_one w e type f data : plain f → page_wf w → page_wf (JQueryEvent.one listened type_data e type f data w).
Proof.
  intros Hf P. unfold JQueryEvent.one, JQueryEvent.add. set (w0 := proxy f (OnceOf f) w). assert (P0 : page_wf w0) by (by apply page_proxy).
  destruct (el_text (elem w0 e)) eqn:Et; [done|]. apply page_add_fn; [done|done|by destruct f|]. right.
  unfold w0, proxy. cbn. rewrite decide_False by (by destruct f). rewrite decide_True by done.
  pose proof (page_pos w P). destruct (Nat.eqb_spec (guids w f) 0); [|done]. destruct (Nat.eqb_spec (guids w (OnceOf f)) 0); lia.
Qed.

(** ** Unbinding *)

Lemma page_removed w e P w' : page_wf w → removed w e P w' → page_wf w'.
Proof.
  intros PW [R1 R2 R3 R4 R5 _]. pose proof PW as [P1 P2 P3 P4 P5 P6]. split.
  - intros e'. destruct (decide (e' = e)) as [-> | He]; [done|rewrite R3 by done; apply P1].
  - intros f. rewrite R4, R5. apply P2.
  - intros f f'. rewrite R4. apply P3.
  - intros f. rewrite R4. apply P4.
  - intros e' t h. rewrite R4. destruct (decide (e' = e)) as [-> | He]; [|rewrite R3 by done; apply P5].
    rewrite R1. intros [_ Hh]%list_elem_of_filter. by apply (P5 e t).
  - intros e' orig fx h Ef. destruct (decide (e' = e)) as [-> | He]; [|rewrite R3 by done; by apply P6].
    rewrite !R1. intros [Hg Hh]%list_elem_of_filter Hb. pose proof (P6 e orig fx h Ef Hh Hb) as Hn. destruct (P5 e fx h Hh) as [H1 H2].
    assert (Eg : ho_guid h = guids w WithinElement) by (rewrite H1, <- Hb; apply once_guid; congruence).
    intros E. apply Hg. unfold gone. rewrite (proj2 (unfix_fix fx orig) Ef), Eg, Nat.eqb_refl. cbn [andb].
    unfold emptied. rewrite bool_decide_eq_true_2 by done. cbn [andb].
    assert (Eu : unfix orig = None) by (by apply (unfix_orig fx), unfix_fix).
    replace (forallb (P orig) (handlers (elem w e) orig)) with true; [by rewrite orb_true_r|]. symmetry. apply filter_forallb.
    rewrite <- E. apply list_filter_iff. intros h'. unfold gone. by rewrite Eu, orb_false_r.
Qed.

(** Whatever [remove] does when it ends, it removes handlers. *)
Lemma remove_some fuel e types handler w w' :
  el_wf (elem w e) → remove fuel e types handler w = Ok w' → ∃ P, removed w e P w'.
Proof.
  revert types handler w w'. induction fuel as [|fuel IH]; intros types handler w w' W; [done|].
  assert (Id : removed w e (λ _ _, false) w) by (by apply removed_none).
  destruct (for_all types) eqn:Ea.
  - rewrite remove_fuel_all by done. destruct (el_text (elem w e)); [intros [= <-]; by eexists|].
    destruct (el_events (elem w e)) as [evs|]; [|intros [= <-]; by eexists]. generalize (map_to_list evs).*1. intros ts. revert w W Id.
    induction ts as [|t ts IHt]; intros w W Id; cbn [foldl]; [intros [= <-]; by eexists|]. cbn [mbind result_bind].
    destruct (remove fuel e (t +:+ types) None w) as [w1|err|] eqn:E1.
    + destruct (IH _ _ _ _ W E1) as [P1 R1]. intros E. pose proof (rm_wf _ _ _ _ _ R1) as W1.
      destruct (IHt w1 W1 (removed_none _ _ _ _ W1 (λ _ _ _, eq_refl)) E) as [P2 R2]. eexists. by eapply removed_trans.
    + clear. intros E. exfalso. induction ts as [|t' ts IHt]; [done|]. by apply IHt.
    + clear. intros E. exfalso. induction ts as [|t' ts IHt]; [done|]. by apply IHt.
  - intros E. destruct (remove_leaf listened fuel e types handler w W Ea) as (w1 & E1 & R). rewrite E in E1. injection E1 as <-. by eexists.
Qed.

(** ** Reachable pages *)

Inductive reachable : world D → Prop :=
  | reach_start w :
      (∀ f, guids w f = 0) → 0 < next_guid w →
      (∀ e, el_events (elem w e) = None ∧ el_handle (elem w e) = false ∧ el_listeners (elem w e) = ∅) → reachable w
  | reach_add e types arg data w : arg_ok arg → reachable w → reachable (add e types arg data w)
  | reach_bind e type f data w : plain f → reachable w → reachable (JQueryEvent.bind listened type_data e type f data w)
  | reach_one e type f data w : plain f → reachable w → reachable (JQueryEvent.one listened type_data e type f data w)
  | reach_remove fuel e types handler w w' : reachable w → remove fuel e types handler w = Ok w' → reachable w'.

Lemma page_start w :
  (∀ f, guids w f = 0) → 0 < next_guid w →
  (∀ e, el_events (elem w e) = None ∧ el_handle (elem w e) = false ∧ el_listeners (elem w e) = ∅) → page_wf w.
Proof.
  intros G N S. assert (H : ∀ e t, handlers (elem w e) t = []) by (intros e t; apply no_events, S). split.
  - intros e. destruct (S e) as (S1 & S2 & S3). assert (Ev : events_of (elem w e) = ∅) by (unfold events_of; by rewrite S1).
    split; rewrite ?Ev, ?S1, ?S2, ?S3; [intros t hs; by rewrite lookup_empty| |done|done].
    intros t. rewrite lookup_empty. split; [set_solver|intros [_ Hs]; by destruct Hs].
  - intros f. by rewrite G.
  - intros f f' _ Hn. by rewrite G in Hn.
  - intros f. left. apply G.
  - intros e t h. rewrite H. by intros ?%elem_of_nil.
  - intros e orig fx h _. rewrite H. by intros ?%elem_of_nil.
Qed.

Lemma reachable_wf w : reachable w → page_wf w.
Proof.
  induction 1 as [w G N S|e types arg data w Ha R IH|e type f data w Hf R IH|e type f data w Hf R IH|fuel e types handler w w' R IH E].
  - by apply page_start.
  - by apply page_add.
  - unfold JQueryEvent.bind. case_match; [by apply page_one|by apply page_add].
  - by apply page_one.
  - destruct (remove_some _ _ _ _ _ _ (pw_el _ IH e) E) as [P Hr]. by apply (page_removed w e P).
Qed.

(** The listeners of an element follow from its handlers. *)
Lemma listeners_handlers el t : el_wf el → t ∈ el_listeners el ↔ calls_for listened t = true ∧ handlers el t ≠ [].
Proof.
  intros W. rewrite (ew_listeners _ _ W). unfold handlers. destruct (events_of el !! t) as [hs|] eqn:E; cbn.
  - pose proof (proj1 (ew_lists _ _ W _ _ E)). split; intros [? ?]; split; eauto.
  - split; intros [? H]; [by destruct H|done].
Qed.
Lemma listeners_same el el' : el_wf el → el_wf el' → (∀ t, handlers el' t = handlers el t) → el_listeners el' = el_listeners el.
Proof. intros W W' E. apply set_eq. intros t. by rewrite !listeners_handlers, E. Qed.

(** C16: whatever was bound and unbound, in any order, the browser calls an
    element for exactly the types that have handlers (and are no special
    events); the handlers in the list of a type are of that type; elements that
    take no handlers have none; and the handler that [mouseenter] and
    [mouseleave] bind is there only while they have handlers. *)
Theorem events_wf w e :
  reachable w →
  (∀ t, t ∈ el_listeners (elem w e) ↔ calls_for listened t = true ∧ handlers (elem w e) t ≠ []) ∧
  (∀ t h, h ∈ handlers (elem w e) t → ho_type h = t) ∧
  (el_text (elem w e) || el_no_data (elem w e) → ∀ t, handlers (elem w e) t = []) ∧
  (∀ orig fx h, special_fix orig = Some fx → h ∈ handlers (elem w e) fx → ho_handler h = WithinElement → handlers (elem w e) orig ≠ []).
Proof.
  intros R%reachable_wf. pose proof (pw_el _ R e) as W. split; [by intros t; apply listeners_handlers|]. split; [|split].
  - intros t h. unfold handlers. destruct (events_of (elem w e) !! t) as [hs|] eqn:E; [|by intros ?%elem_of_nil].
    intros Hh. destruct (ew_lists _ _ W _ _ E) as [_ F]. by apply (proj1 (Forall_forall _ _) F).
  - intros Hc t. apply no_events, (ew_closed _ _ W Hc).
  - intros orig fx h Ef Hh Hw. apply (pw_inner _ R e orig fx h Ef Hh). by rewrite Hw.
Qed.

(** ** Binding and unbinding *)

(** A handler is named by the type it was bound with. *)
Lemma named_bound f (data : D) g pieces piece :
  piece ∈ pieces → named (Some g) pieces (parse_type piece).1 (bound f data g piece) = true.
Proof.
  intros Hp. apply existsb_exists. exists piece. split; [by apply list_elem_of_In|]. unfold named_by. cbn.
  rewrite String.eqb_refl, Nat.eqb_refl. cbn. unfold in_namespace, has_namespace. cbn. case_bool_decide as Hn; [|done]. cbn. by apply test_own.
Qed.
Lemma not_named g pieces t (h : handle_obj D) : ho_guid h ≠ g → named (Some g) pieces t h = false.
Proof.
  intros Hg. apply not_true_is_false. intros (piece & _ & Hn)%existsb_exists. unfold named_by in Hn.
  apply Nat.eqb_neq in Hg. rewrite Hg in Hn. cbn in Hn. by rewrite andb_false_r in Hn.
Qed.

(** The handlers that were there stay, those that were added go. *)
Lemma undone w w1 e f data types hs t :
  page_wf w → page_wf w1 →
  (∀ t h, h ∈ handlers (elem w e) t → base (ho_handler h) ≠ base f) →
  (∀ f, guids w f ≠ 0 → guids w1 f = guids w f) →
  (∀ t, handlers (elem w1 e) t = handlers (elem w e) t ++ of_type t hs) →
  Forall (new_ok type_data f data (guids w1 f) (guids w1 WithinElement) (elem w e) (split_types types)) hs →
  (∀ piece, piece ∈ split_types types → bound f data (guids w1 f) piece ∈ hs) →
  filter (λ h, ¬ gone (guids w1 WithinElement) (elem w1 e) (named (Some (guids w1 f)) (split_types types)) t h) (handlers (elem w1 e) t) =
  handlers (elem w e) t.
Proof.
  intros P P1 Hn Hk Ha F B. rewrite Forall_forall in F. set (nm := named (D := D) (Some (guids w1 f)) (split_types types)).
  assert (Hold : ∀ t h, h ∈ handlers (elem w e) t → nm t h = false ∧ guids w1 (ho_handler h) = ho_guid h ∧ ho_guid h ≠ 0).
  { intros t' h Hh. destruct (pw_bound _ P e t' h Hh) as [H1 H2]. assert (H3 : guids w1 (ho_handler h) = ho_guid h) by (rewrite H1; apply Hk; congruence).
    split; [|done]. apply not_named. intros E. apply (Hn t' h Hh), (pw_inj _ P1); congruence. }
  rewrite Ha, filter_app. rewrite filter_keeps, filter_all_none; [by rewrite app_nil_r| |].
  - intros h [Ht Hh]%list_elem_of_filter Hg. apply Hg. destruct (F h Hh) as [(piece & Hp & ->)|(piece & fx & Hp & Ef & En & -> & Hz)].
    + unfold gone. cbn in Ht. subst t. unfold nm. by rewrite named_bound.
    + destruct (parse_fix _ _ Ef) as [Ep _]. cbn in Ht. rewrite Ep in Ht. subst t. unfold gone. rewrite (proj2 (unfix_fix fx _) Ef).
      cbn [inner bound ho_guid]. rewrite Nat.eqb_refl. cbn [andb]. rewrite Ha, En. cbn [app].
      replace (emptied _ _) with true; [by rewrite orb_true_r|]. symmetry. unfold emptied.
      rewrite bool_decide_eq_true_2.
      * apply forallb_forall. intros h' [Et Hh']%list_elem_of_In%list_elem_of_filter.
        destruct (F h' Hh') as [(p' & Hp' & ->)|(p' & fx' & _ & Ef' & _ & -> & _)]; [cbn in Et; rewrite <- Et; by apply named_bound|].
        cbn in Et. destruct (parse_fix _ _ Ef') as [Ep' _]. rewrite Ep' in Et. subst fx'. destruct (fix_plain _ _ Ef') as [Es _]. congruence.
      * intros E. pose proof (B piece Hp) as Hin. assert (Hof : bound f data (guids w1 f) piece ∈ of_type (parse_type piece).1 hs) by (by apply list_elem_of_filter).
        rewrite E in Hof. by apply elem_of_nil in Hof.
  - intros h Hh Hg. destruct (Hold t h Hh) as (H1 & H2 & H3). unfold gone in Hg. rewrite H1 in Hg. cbn [orb] in Hg.
    destruct (unfix t) as [orig|] eqn:Eu; [|done]. apply andb_prop_elim in Hg as [Hg He]. apply Is_true_true, Nat.eqb_eq in Hg.
    assert (Hb : base (ho_handler h) = WithinElement) by (apply (pw_inj _ P1 _ WithinElement); congruence).
    apply unfix_fix in Eu. pose proof (pw_inner _ P e orig t h Eu Hh Hb) as Ho. destruct (handlers (elem w e) orig) as [|h' l] eqn:El; [done|].
    unfold emptied in He. apply andb_prop_elim in He as [_ He]. apply Is_true_true in He. rewrite Ha, El in He. cbn in He.
    assert (Hh' : h' ∈ handlers (elem w e) orig) by (rewrite El; by left). destruct (Hold orig h' Hh') as (N & _). by rewrite N in He.
Qed.

(** What was added and then removed by its name leaves the page as it was. *)
Lemma add_removed w e f data types w' :
  let w1 := add_fn setup e types f 0 data w in
  page_wf w → page_wf w1 → accepting (elem w e) → (∀ t h, h ∈ handlers (elem w e) t → base (ho_handler h) ≠ base f) →
  removed w1 e (named (Some (guids w1 f)) (split_types types)) w' →
  ∀ e', (∀ t, handlers (elem w' e') t = handlers (elem w e') t) ∧ el_listeners (elem w' e') = el_listeners (elem w e').
Proof.
  intros w1 P P1 A Hn R.
  destruct (add_fn_new listened type_data w e types f 0 data (pw_el _ P e) A (page_pos w P)) as (hs & [A1 A2 A3 A4] & F & B).
  fold w1 in A1, A2, A3, A4, F. cbn [Nat.eqb] in F, B.
  assert (Gf : guids (give_guid f w) f = guids w1 f) by (symmetry; apply (numbered_known _ _ f A4), give_pos, page_pos, P). rewrite Gf in F, B.
  assert (G : ∀ e' t, handlers (elem w' e') t = handlers (elem w e') t).
  { intros e' t. destruct (decide (e' = e)) as [-> | He]; [|rewrite (rm_other _ _ _ _ _ R), A3, elem_give by done; done].
    rewrite (rm_handlers _ _ _ _ _ R). apply (undone w w1 e f data types hs t); try done.
    - intros f' Hf'. assert (Ek : guids (give_guid f w) f' = guids w f') by (rewrite guids_give, decide_False; [done|intros [-> ?]; done]).
      rewrite <- Ek. apply (numbered_known _ _ f' A4). congruence.
    - intros t'. by rewrite A1, elem_give. }
  intros e'. split; [apply G|]. apply listeners_same; [apply P| |apply G].
  destruct (decide (e' = e)) as [-> | He]; [apply (rm_wf _ _ _ _ _ R)|rewrite (rm_other _ _ _ _ _ R) by done; apply P1].
Qed.

(** Binding a function that is not bound to an element, to any types with
    any namespaces, and unbinding it with the same text leaves every element
    of the page with the handlers it had, in the same order, and the browser
    with the listeners it had; also when a special event bound a handler of
    its own meanwhile. *)
Theorem bind_unbind e types f data w :
  reachable w → accepting (elem w e) → plain f → for_all types = false →
  (∀ t h, h ∈ handlers (elem w e) t → base (ho_handler h) ≠ f) →
  ∃ w', remove 2 e types (Some f) (add e types (HFn f) data w) = Ok w' ∧
    ∀ e', (∀ t, handlers (elem w' e') t = handlers (elem w e') t) ∧ el_listeners (elem w' e') = el_listeners (elem w e').
Proof.
  intros P%reachable_wf A Hf Ht Hn. pose proof (page_add w e types (HFn f) data Hf P) as P1. set (w1 := add e types (HFn f) data w) in *.
  assert (E1 : w1 = add_fn setup e types f 0 data w) by (unfold w1, JQueryEvent.add; by rewrite (proj1 A)).
  destruct (remove_exact listened 0 e types (Some f) w1 (pw_el _ P1 e)) as (w' & E & R); [by rewrite Ht|].
  exists w'. split; [done|]. rewrite Ht in R. unfold meant in R. rewrite Ht in R. rewrite E1 in *.
  apply (add_removed w e f data types); [done|done|done| |exact R]. intros t h Hh. assert (Bf : base f = f) by (by destruct f).
  rewrite Bf. by apply (Hn t).
Qed.

(** C17: unbinding takes out of the handlers of an element exactly those that
    the text names (by their type, their namespaces and, when a function is
    given, its unique number, that of its proxies), and the handler that
    [mouseenter] or [mouseleave] had bound when the last of theirs goes; it
    keeps the order of the others.  Nothing changes elsewhere.  (When the text
    names no type, the element has no handler without a type, which only a
    text without a type can bind.) *)
Theorem unbind_exact e types handler w :
  reachable w → (for_all types = true → typed w e) →
  let who := if for_all types then None else who w handler in
  ∃ w', remove 2 e types handler w = Ok w' ∧
    (∀ t, handlers (elem w' e) t =
       filter (λ h, ¬ gone (guids w WithinElement) (elem w e) (named who (meant (elem w e) types)) t h) (handlers (elem w e) t)) ∧
    ∀ e', e' ≠ e → elem w' e' = elem w e'.
Proof.
  intros P%reachable_wf T. destruct (remove_exact listened 0 e types handler w (pw_el _ P e) T) as (w' & E & R).
  exists w'. split; [done|]. split; [by apply (rm_handlers _ _ _ _ _ R)|by apply (rm_other _ _ _ _ _ R)].
Qed.
End page.

(** ** Examples *)

Definition always (_ : string) : bool := true.
Definition new_page : world string := World 1 (λ _, 0) ∅ ∅.
#[local] Notation add := (JQueryEvent.add always (λ t, t)).
#[local] Notation remove := (JQueryEvent.remove always).

Lemma new_elem e : elem new_page e = plain_element.
Proof. unfold elem. cbn. by rewrite lookup_empty. Qed.
Lemma new_reachable : reachable always (λ t, t) new_page.
Proof. apply reach_start; [done|cbn; lia|]. intros e. by rewrite new_elem. Qed.

Lemma bind_unbind_witness :
  ∃ w', remove 2 0 "mousemove.plot.axis mouseleave" (Some (Func 7)) (add 0 "mousemove.plot.axis mouseleave" (HFn (Func 7)) "" new_page) = Ok w' ∧
    ∀ e', (∀ t, handlers (elem w' e') t = handlers (elem new_page e') t) ∧ el_listeners (elem w' e') = el_listeners (elem new_page e').
Proof.
  apply (bind_unbind always (λ t, t) 0 "mousemove.plot.axis mouseleave" (Func 7) "" new_page new_reachable).
  - by split.
  - exact I.
  - reflexivity.
  - intros t h. rewrite new_elem. unfold handlers, events_of. cbn. rewrite lookup_empty. by intros ?%elem_of_nil.
Defined.

(** Unbinding by a namespace what several functions were bound to. *)
Definition two_bound : world string := add 0 "click.page" (HFn (Func 8)) "" (add 0 "click.plot mouseleave.plot" (HFn (Func 7)) "" new_page).
Lemma two_reachable : reachable always (λ t, t) two_bound.
Proof. apply reach_add; [exact I|]. apply reach_add; [exact I|exact new_reachable]. Qed.

Lemma unbind_exact_witness :
  ∃ w', remove 2 0 ".plot" None two_bound = Ok w' ∧
    (ho_handler <$> handlers (elem w' 0) "click") = [Func 8] ∧ handlers (elem w' 0) "mouseleave" = [] ∧ handlers (elem w' 0) "mouseout" = [].
Proof.
  destruct (unbind_exact always (λ t, t) 0 ".plot" None two_bound two_reachable) as (w' & E & R & _).
  - intros _. apply (bool_decide_unpack _). vm_compute. exact I.
  - exists w'. split; [exact E|]. rewrite !R. repeat split; vm_compute; reflexivity.
Defined.

Lemma events_wf_witness :
  (∀ t, t ∈ el_listeners (elem two_bound 0) ↔ calls_for always t = true ∧ handlers (elem two_bound 0) t ≠ []) ∧
  (ho_handler <$> handlers (elem two_bound 0) "mouseout") = [WithinElement].
Proof.
  split; [|vm_compute; reflexivity]. apply (events_wf always (λ t, t) two_bound 0 two_reachable).
Defined.

(** What was bound by a namespace only can be unbound neither with all
    handlers nor by its namespace: the call for its type, which is empty, is
    the call for all types again. *)
Example unbind_typeless fuel : remove fuel 0 "" None (add 0 ".plot" (HFn (Func 7)) "" new_page) = NoFuel.
Proof.
  set (w := JQueryEvent.add _ _ _ _ _ _ _). induction fuel as [|fuel IH]; [done|].
  rewrite remove_fuel_all by done. assert (Et : el_text (elem w 0) = false) by reflexivity. rewrite Et.
  destruct (el_events (elem w 0)) as [evs|] eqn:Ee; [|discriminate].
  assert (Ek : (map_to_list evs).*1 = [""]) by (injection Ee as <-; vm_compute; reflexivity).
  rewrite Ek. cbn [foldl mbind result_bind]. exact IH.
Qed.

(** A type after two spaces is not bound. *)
Example second_space : handlers (elem (add 0 "click  keyup" (HFn (Func 7)) "" new_page) 0) "keyup" = [].
Proof. reflexivity. Qed.

(** An event for a namespace keeps it only on the first element: its parent
    calls all handlers of the type. *)
Example bubble_loses_namespace :
  let program n (_ : nat) (_ : string) ev w := (w, ev, RValue n) in
  let w := add 1 "click.page" (HFn (Func 8)) "" (add 0 "click.plot" (HFn (Func 7)) "" new_page) in
  let trigger_on path :=
    '(_, ev) ← trigger always program (λ _ _, true) (λ t, t) (λ _ _ w, (w, false)) (λ _ _ w, w) 3 "click.plot" path w; Ok (ev_result ev) in
  trigger_on [0] = Ok (RValue 7) ∧ trigger_on [1] = Ok RUndefined ∧ trigger_on [0; 1] = Ok (RValue 8).
Proof. repeat split; reflexivity. Qed.

(** [mouseleave] is called by [mouseout] when the mouse went outside, and a
    function bound once is called once. *)
Example leave_once :
  let program n (_ : nat) (_ : string) ev w := (w, ev, RValue n) in
  let w := JQueryEvent.one always (λ t, t) 0 "mouseleave" (Func 7) "" new_page in
  let leave away w := handle always program (λ _ _, away) (λ t, t) 5 0 (new_event "mouseout") w in
  (('(_, ev) ← leave false w; Ok (ev_result ev)) = Ok RUndefined) ∧
  (('(w, ev) ← leave true w; '(_, ev2) ← leave true w; Ok (ev_result ev, ev_result ev2)) = Ok (RValue 7, RUndefined)).
Proof. split; vm_compute; reflexivity. Qed.
