(* ===== verification/JQueryHandleSpec.v ===== *)
(** What [handle] and [trigger] call: the handlers that were bound when the
    event reached their element, in order, and which of them are gone
    afterwards. *)

From S2P Require Import Prelude JsText JQueryEvent JQueryEventSpec JQueryRemoveSpec JQueryBindSpec JQueryPageSpec.
From stdpp Require Import gmap.
From Stdlib Require Import Ascii.

(** A text that is one type, without namespaces. *)
Definition one_type (t : string) : Prop := split_types t = [t] ∧ parse_type t = (t, []) ∧ for_all t = false.
Definition is_once (f : func) : bool := match f with OnceOf _ => true | _ => false end.

Section calls.
Context {D : Type}.
Implicit Types (w : world D) (el : element D) (e : nat) (h : handle_obj D) (hs : list (handle_obj D)) (ev : event).
Variable listened : string → bool.
Variable outside : nat → event → bool.
Variable data_type : D → string.
(** What the functions of the program do to the event, and what they return;
    they leave the handlers of the page alone. *)
Variable act : nat → nat → D → event → event * ret.
Definition program n e (d : D) ev w : world D * event * ret := (w, (act n e d ev).1, (act n e d ev).2).
#[local] Notation remove := (JQueryEvent.remove listened).
#[local] Notation call_func := (JQueryEvent.call_func listened program outside data_type).
#[local] Notation dispatch := (JQueryEvent.dispatch listened program outside data_type).
#[local] Notation handle := (JQueryEvent.handle listened program outside data_type).
#[local] Notation el_wf := (JQueryEventSpec.el_wf listened).
#[local] Notation removed := (JQueryRemoveSpec.removed listened).

(** ** The calls of one list *)

(** The function that a handler stands for. *)
Definition call_base e h ev : event * ret :=
  match base (ho_handler h) with Func n => act n e (ho_data h) ev | ReturnFalse => (ev, RFalse) | _ => (ev, RUndefined) end.

(** The event after the calls, and the handlers that were called: the first
    ones, up to one that asks to stop. *)
Fixpoint fire e hs ev : event * list (handle_obj D) :=
  match hs with
  | [] => (ev, [])
  | h :: hs =>
      let ev := returned (call_base e h ev).2 (call_base e h ev).1 in
      if ev_immediate ev then (ev, [h]) else ((fire e hs ev).1, h :: (fire e hs ev).2)
  end.

(** What is unbound by the calls: everything with the number of a function
    that was bound once. *)
Definition spent w (t : string) (called : list (handle_obj D)) (t' : string) h : bool :=
  String.eqb t t' && existsb (λ c, is_once (ho_handler c) && (ho_guid h =? guids w (ho_handler c))) called.

Hypothesis act_type : ∀ n e d ev, ev_type (act n e d ev).1 = ev_type ev.

Lemma type_returned r ev : ev_type (returned r ev) = ev_type ev.
Proof. by destruct r. Qed.
Lemma type_called e h ev : ev_type (call_base e h ev).1 = ev_type ev.
Proof. unfold call_base. destruct (base (ho_handler h)); done. Qed.

Lemma named_one (g : nat) t t' h : one_type t → named (Some g) [t] t' h = String.eqb t t' && (ho_guid h =? g).
Proof.
  intros (_ & E & _). unfold named. cbn [existsb]. unfold named_by, in_namespace, has_namespace. rewrite E. cbn.
  by rewrite orb_false_r, andb_true_r.
Qed.

(** A function bound once is unbound and called. *)
Lemma call_func_calls again fuel f e h ev w :
  el_wf (elem w e) → one_type (ev_type ev) → base f = base (ho_handler h) → base f ≠ WithinElement →
  ∃ w', call_func again (S fuel) f e h ev w = Ok (w', (call_base e h ev).1, (call_base e h ev).2) ∧
    removed w e (λ t' h', is_once f && (String.eqb (ev_type ev) t' && (ho_guid h' =? guids w (ho_handler h)))) w'.
Proof.
  intros W T Eb Nb. revert w W Eb Nb. induction f as [n|g IH| |]; intros w W Eb Nb; [| | |done].
  - exists w. split; [|by apply removed_none]. cbn. unfold program, call_base. by rewrite <- Eb.
  - pose proof T as (T1 & _ & T3). destruct (remove_leaf listened fuel e (ev_type ev) (Some (ho_handler h)) w W T3) as (w1 & E1 & R1).
    destruct (IH w1) as (w2 & E2 & R2); [apply R1|done|done|]. exists w2.
    split; [change (call_func again (S fuel) (OnceOf g) e h ev w)
              with (w0 ← remove (S fuel) e (ev_type ev) (Some (ho_handler h)) w; call_func again (S fuel) g e h ev w0); by rewrite E1|].
    eapply removed_ext; [|by eapply removed_trans]. intros t' h' _. cbn beta. rewrite T1. unfold JQueryRemoveSpec.who. cbn [fmap option_fmap option_map].
    rewrite (rm_guids _ _ _ _ _ R1), named_one by done. cbn [is_once andb]. destruct (is_once g); cbn [andb]; by rewrite ?orb_diag, ?orb_false_r.
  - exists w. split; [|by apply removed_none]. cbn. unfold call_base. by rewrite <- Eb.
Qed.

Lemma fire_type e hs ev : ev_type (fire e hs ev).1 = ev_type ev.
Proof.
  revert ev. induction hs as [|h hs IH]; intros ev; [done|]. cbn [fire]. case_match; cbn [fst]; rewrite ?IH, type_returned; apply type_called.
Qed.

Lemma dispatch_calls again fuel (want : handle_obj D → bool) e hs ev w :
  el_wf (elem w e) → one_type (ev_type ev) → (∀ h, h ∈ hs → base (ho_handler h) ≠ WithinElement) →
  let calls := fire e (filter (λ h, want h) hs) ev in
  ∃ w', dispatch again (S fuel) want e hs ev w = Ok (w', calls.1) ∧ removed w e (spent w (ev_type ev) calls.2) w'.
Proof.
  revert ev w. induction hs as [|h hs IH]; intros ev w W T N; cbv zeta.
  - exists w. split; [done|]. apply removed_none; [done|]. intros t' h' _. unfold spent. cbn. by rewrite andb_false_r.
  - rewrite filter_cons. cbn [JQueryEvent.dispatch]. destruct (want h) eqn:Ew; [|rewrite decide_False by (by intros []); apply IH; [done|done|]; intros h' Hh'; apply N; by right].
    rewrite decide_True by done. cbn [fire]. set (ev1 := returned (call_base e h ev).2 (call_base e h ev).1).
    destruct (call_func_calls again fuel (ho_handler h) e h ev w W T eq_refl) as (w1 & E1 & R1); [apply N; by left|].
    assert (T1 : ev_type ev1 = ev_type ev) by (unfold ev1; rewrite type_returned; apply type_called).
    rewrite E1. cbn [mbind result_bind]. cbv beta iota. fold ev1. destruct (ev_immediate ev1).
    + exists w1. split; [done|]. eapply removed_ext; [|exact R1]. intros t' h' _. unfold spent. cbn.
      destruct (is_once (ho_handler h)), (String.eqb _ _); cbn; by rewrite ?orb_false_r.
    + destruct (IH ev1 w1) as (w2 & E2 & R2); [apply R1|by rewrite T1|intros h' Hh'; apply N; by right|].
      exists w2. split; [exact E2|]. eapply removed_ext; [|by eapply removed_trans]. intros t' h' _. cbn beta. unfold spent. cbn [fst snd existsb].
      rewrite T1, (rm_guids _ _ _ _ _ R1). destruct (is_once (ho_handler h)), (String.eqb _ _); done.
Qed.

(** ** [handle] *)

(** The type of an event, and the handlers that it asks for. *)
Definition event_type ev : string := (parse_type (ev_type ev)).1.
Definition asks ev h : bool :=
  negb (has_namespace (ev_type ev)) && negb (ev_exclusive ev) || test (wanted (parse_type (ev_type ev)).2) (ho_namespace h).
Definition element_calls el e ev : event * list (handle_obj D) :=
  fire e (filter (λ h, asks ev h) (handlers el (event_type ev))) (with_type (event_type ev) ev).

Lemma handle_step fuel e ev w :
  handle (S fuel) e ev w =
    dispatch (handle fuel) fuel (asks ev) e (handlers (elem w e) (event_type ev)) (with_type (event_type ev) ev) w.
Proof. cbn [JQueryEvent.handle]. unfold event_type. destruct (parse_type (ev_type ev)) eqn:Ep. unfold asks. by rewrite Ep. Qed.
Lemma handle_calls fuel e ev w :
  el_wf (elem w e) → one_type (event_type ev) → (∀ h, h ∈ handlers (elem w e) (event_type ev) → base (ho_handler h) ≠ WithinElement) →
  let calls := element_calls (elem w e) e ev in
  ∃ w', handle (S (S fuel)) e ev w = Ok (w', calls.1) ∧ removed w e (spent w (event_type ev) calls.2) w'.
Proof.
  intros W T N. cbv zeta. rewrite handle_step. by apply (dispatch_calls (handle (S fuel)) fuel (asks ev) e _ (with_type (event_type ev) ev)).
Qed.

(** ** [trigger] *)

(** Whether a script of the page returned [false]; scripts leave the handlers
    alone as well. *)
Variable refused : nat → string → bool.
Definition inline e (type : string) w : world D * bool := (w, refused e type).
Variable default_action : nat → string → world D → world D.
#[local] Notation bubble := (JQueryEvent.bubble listened program outside data_type inline default_action).
#[local] Notation trigger := (JQueryEvent.trigger listened program outside data_type inline default_action).

(** The event after the calls on the elements of a path, with the handlers
    that were called; [w] is the page when the event starts. *)
Fixpoint path_calls w (path : list nat) ev : event * list (nat * handle_obj D) :=
  match path with
  | [] => (ev, [])
  | e :: path =>
      let calls := if el_handle (elem w e) then element_calls (elem w e) e ev else (ev, []) in
      let ev' := if refused e (ev_type ev) then prevented calls.1 else calls.1 in
      let rest := if negb (ev_stopped ev') && bool_decide (path ≠ []) then path_calls w path ev' else (ev', []) in
      (rest.1, (pair e <$> calls.2) ++ rest.2)
  end.
Definition log_at e (log : list (nat * handle_obj D)) : list (handle_obj D) := (filter (λ c, c.1 = e) log).*2.

(** The page after the calls: only what was bound once is gone. *)
Record fired w (t : string) (log : list (nat * handle_obj D)) w' : Prop := {
  fd_handlers e t' : handlers (elem w' e) t' =
    filter (λ h, ¬ gone (guids w WithinElement) (elem w e) (spent w t (log_at e log)) t' h) (handlers (elem w e) t');
  fd_guids : guids w' = guids w;
}.

Lemma spent_nil w t t' h : spent w t [] t' h = false.
Proof. unfold spent. cbn. apply andb_false_r. Qed.
Lemma not_spent w g el t t' hs : filter (λ h, ¬ gone g el (spent w t []) t' h) hs = hs.
Proof.
  apply filter_keeps. intros h Hh. unfold gone. rewrite spent_nil. cbn [orb]. destruct (unfix t') as [orig|]; [|by intros []].
  rewrite (emptied_false (spent w t [] orig)) by (apply spent_nil). rewrite andb_false_r. by intros [].
Qed.
Lemma log_app e l k : log_at e (l ++ k) = log_at e l ++ log_at e k.
Proof. unfold log_at. by rewrite filter_app, fmap_app. Qed.
Lemma log_here e hs : log_at e (pair e <$> hs) = hs.
Proof. unfold log_at. rewrite filter_keeps; [|by intros c (h & -> & _)%list_elem_of_fmap]. rewrite <- list_fmap_compose. by apply list_fmap_id. Qed.
Lemma log_there e e' hs : e' ≠ e → log_at e' (pair e <$> hs) = [].
Proof. intros N. unfold log_at. rewrite filter_all_none; [done|]. intros c (h & -> & _)%list_elem_of_fmap E. by apply N. Qed.
Lemma path_log w path ev c : c ∈ (path_calls w path ev).2 → c.1 ∈ path.
Proof.
  revert ev. induction path as [|e path IH]; intros ev; [by intros ?%elem_of_nil|]. cbn [path_calls snd].
  intros [(h & -> & _)%list_elem_of_fmap|Hc]%elem_of_app; [by left|]. right. case_match; [by eapply IH|by apply elem_of_nil in Hc].
Qed.
Lemma path_same w w' path ev : (∀ e, e ∈ path → elem w' e = elem w e) → path_calls w' path ev = path_calls w path ev.
Proof.
  revert ev. induction path as [|e path IH]; intros ev E; [done|]. cbn [path_calls]. rewrite (E e) by (by left).
  by rewrite IH by (intros e' He; apply E; by right).
Qed.

Lemma fired_one w e t called w1 :
  removed w e (spent w t called) w1 → fired w t (pair e <$> called) w1.
Proof.
  intros R. split; [|apply R]. intros e' t'. destruct (decide (e' = e)) as [-> |He].
  - rewrite log_here. apply (rm_handlers _ _ _ _ _ R).
  - by rewrite log_there, not_spent, (rm_other _ _ _ _ _ R).
Qed.
Lemma fired_then w e t called w1 log w2 :
  removed w e (spent w t called) w1 → fired w1 t log w2 → (∀ c, c ∈ log → c.1 ≠ e) → fired w t ((pair e <$> called) ++ log) w2.
Proof.
  intros R [F G] N. pose proof (rm_guids _ _ _ _ _ R) as Gw. split; [|congruence]. intros e' t'. rewrite F, log_app, Gw.
  destruct (decide (e' = e)) as [-> |He].
  - assert (log_at e log = []) as ->. { unfold log_at. rewrite filter_all_none; [done|]. intros c Hc. by apply N. }
    rewrite log_here, app_nil_r, not_spent. apply (rm_handlers _ _ _ _ _ R).
  - rewrite log_there, app_nil_l by done. rewrite (rm_other _ _ _ _ _ R) by done. apply filter_gone_ext. intros h _.
    unfold spent. by rewrite Gw.
Qed.

(** What the calls on one element need. *)
Definition callable w (t : string) e : Prop := el_wf (elem w e) ∧ ∀ h, h ∈ handlers (elem w e) t → base (ho_handler h) ≠ WithinElement.
Lemma callable_removed w t e e' P w1 : removed w e P w1 → e' ≠ e → callable w t e' → callable w1 t e'.
Proof. intros R N. unfold callable. by rewrite (rm_other _ _ _ _ _ R). Qed.

Lemma event_type_with ev t : one_type t → event_type (with_type t ev) = t.
Proof. intros (_ & E & _). unfold event_type. cbn. by rewrite E. Qed.
Lemma element_type el e ev : one_type (event_type ev) → event_type (element_calls el e ev).1 = event_type ev.
Proof.
  intros T. unfold element_calls. unfold event_type at 1. rewrite fire_type. cbn [ev_type with_type]. destruct T as (_ & E & _). by rewrite E.
Qed.

(** The calls on one element, if it has any handlers. *)
Lemma bubble_here fuel e ev w :
  one_type (event_type ev) → callable w (event_type ev) e →
  let calls := if el_handle (elem w e) then element_calls (elem w e) e ev else (ev, []) in
  ∃ w1, (if el_handle (elem w e) then handle (S (S fuel)) e ev w else Ok (w, ev)) = Ok (w1, calls.1) ∧
    removed w e (spent w (event_type ev) calls.2) w1 ∧ event_type calls.1 = event_type ev.
Proof.
  intros T [W N]. cbv zeta. destruct (el_handle (elem w e)).
  - destruct (handle_calls fuel e ev w W T N) as (w1 & E & R). exists w1. split; [done|]. split; [done|]. by apply element_type.
  - exists w. split; [done|]. split; [|done]. apply removed_none; [done|]. intros t' h _. apply spent_nil.
Qed.

Lemma bubble_calls fuel target path ev w :
  NoDup path → one_type (event_type ev) → Forall (callable w (event_type ev)) path → path ≠ [] →
  let calls := path_calls w path ev in
  ∃ w', bubble (S (S fuel)) target path ev w =
      Ok (if ev_prevented calls.1 then w' else default_action target (event_type ev) w', calls.1) ∧
    fired w (event_type ev) calls.2 w'.
Proof.
  revert ev w. induction path as [|e path IH]; intros ev w ND T C Hp; [done|]. cbv zeta. clear Hp.
  apply Forall_cons in C as [Ce C]. apply NoDup_cons in ND as [Ne ND].
  destruct (bubble_here fuel e ev w T Ce) as (w1 & E1 & R1 & T1).
  cbn [JQueryEvent.bubble path_calls]. rewrite E1. cbn [mbind result_bind].
  set (calls := if el_handle (elem w e) then element_calls (elem w e) e ev else (ev, [])) in *.
  unfold inline. cbv beta iota. set (ev' := if refused e (ev_type ev) then prevented calls.1 else calls.1).
  assert (T' : event_type ev' = event_type ev) by (unfold ev'; destruct (refused e (ev_type ev)); exact T1).
  destruct (negb (ev_stopped ev') && bool_decide (path ≠ [])) eqn:Eg; cbn [fst snd].
  - apply andb_true_iff in Eg as [_ Hp%bool_decide_eq_true].
    assert (Es : path_calls w1 path ev' = path_calls w path ev').
    { apply path_same. intros e' He. apply (rm_other _ _ _ _ _ R1). by intros ->. }
    destruct (IH ev' w1) as (w2 & E2 & F2); [done|by rewrite T'| |done|].
    { rewrite T'. rewrite Forall_forall in C |- *. intros e' He. eapply callable_removed; [exact R1|by intros ->|by apply C]. }
    rewrite Es, T' in *. exists w2. split; [exact E2|]. apply (fired_then w e _ _ w1); [done|done|].
    intros c Hc%path_log Ec. by rewrite Ec in Hc.
  - exists w1. rewrite app_nil_r. split; [|by apply fired_one]. change (parse_type (ev_type ev)).1 with (event_type ev). by destruct (ev_prevented ev').
Qed.

Lemma trigger_fired fuel type e path w :
  NoDup (e :: path) → el_text (elem w e) = false → one_type (event_type (new_event type)) →
  Forall (callable w (event_type (new_event type))) (e :: path) →
  let calls := path_calls w (e :: path) (new_event type) in
  ∃ w', trigger (S (S fuel)) type (e :: path) w =
      Ok (if ev_prevented calls.1 then w' else default_action e (event_type (new_event type)) w', calls.1) ∧
    ∀ e' t', handlers (elem w' e') t' =
      filter (λ h, ¬ gone (guids w WithinElement) (elem w e') (spent w (event_type (new_event type)) (log_at e' calls.2)) t' h)
        (handlers (elem w e') t').
Proof.
  intros ND Et T C. cbv zeta. destruct (bubble_calls fuel e (e :: path) (new_event type) w ND T C) as (w' & E & F); [done|].
  exists w'. split; [|apply F]. cbn [JQueryEvent.trigger]. by rewrite Et.
Qed.
End calls.

(** ** Reachable pages *)

Section page.
Context {D : Type}.
Implicit Types (w : world D) (e : nat) (t : string) (h : handle_obj D).
Variable listened : string → bool.
Variable type_data : string → D.
#[local] Notation setup := (JQueryEvent.setup listened type_data).
#[local] Notation add := (JQueryEvent.add listened type_data).
#[local] Notation page_wf := (JQueryPageSpec.page_wf listened).

(** The handler of a special event is bound to its own type only, with the
    type it stands for. *)
Definition inner_ok w : Prop := ∀ e t h, h ∈ handlers (elem w e) t → base (ho_handler h) = WithinElement →
  ho_handler h = WithinElement ∧ ∃ orig, special_fix orig = Some t ∧ ho_data h = type_data orig.

Lemma inner_same w w' : (∀ e, elem w' e = elem w e) → inner_ok w → inner_ok w'.
Proof. intros E I e t h. rewrite E. apply I. Qed.
Lemma inner_add_fn w e types f data :
  page_wf w → el_text (elem w e) = false → base f ≠ WithinElement → inner_ok w → inner_ok (add_fn setup e types f 0 data w).
Proof.
  intros P Et Nf I. assert (I1 : inner_ok (give_guid f w)) by (apply (inner_same w); [intros; apply elem_give|done]).
  destruct (el_no_data (elem w e)) eqn:En; [unfold add_fn; by rewrite elem_give, En|].
  destruct (add_fn_new listened type_data w e types f 0 data) as (hs & A & F & _); [apply P|by split|by eapply page_pos|].
  cbn [Nat.eqb] in F. intros e' t h. destruct (decide (e' = e)) as [-> |He]; [|rewrite (ad_other _ _ _ _ _ A) by done; apply I1].
  rewrite (ad_handlers _ _ _ _ _ A). intros [Hh|[<- Hh]%list_elem_of_filter]%elem_of_app; [by apply (I1 e t)|].
  rewrite Forall_forall in F. destruct (F h Hh) as [(piece & _ & ->)|(piece & fx & _ & Ef & _ & -> & _)]; [done|].
  intros _. split; [done|]. exists (parse_type piece).1. cbn. split; [|done]. by rewrite (proj1 (parse_fix _ _ Ef)).
Qed.
Lemma inner_removed w e P w' : removed listened w e P w' → inner_ok w → inner_ok w'.
Proof.
  intros R I e' t h. destruct (decide (e' = e)) as [-> |He]; [|rewrite (rm_other _ _ _ _ _ R) by done; apply I].
  rewrite (rm_handlers _ _ _ _ _ R). intros [_ Hh]%list_elem_of_filter. exact (I e t h Hh).
Qed.
Lemma inner_add w e types arg data : arg_ok arg → page_wf w → inner_ok w → inner_ok (add e types arg data w).
Proof.
  intros Ha P I. unfold JQueryEvent.add. destruct (el_text (elem w e)) eqn:Et; [done|].
  destruct arg as [| |f|f own d]; try done; apply inner_add_fn; try done. by destruct f.
Qed.
Lemma inner_one w e type f data : plain f → page_wf w → inner_ok w → inner_ok (JQueryEvent.one listened type_data e type f data w).
Proof.
  intros Hf P I. unfold JQueryEvent.one, JQueryEvent.add. pose proof (page_proxy listened w f Hf P) as P0. case_match; [done|].
  apply inner_add_fn; [done|done|by destruct f|exact I].
Qed.
Lemma reachable_inner w : reachable listened type_data w → inner_ok w.
Proof.
  induction 1 as [w G N S|e types arg data w Ha R IH|e type f data w Hf R IH|e type f data w Hf R IH|fuel e types handler w w' R IH E].
  - intros e t h. rewrite no_events by apply S. by intros ?%elem_of_nil.
  - apply inner_add; [done|by eapply reachable_wf|done].
  - pose proof (reachable_wf _ _ _ R). unfold JQueryEvent.bind. case_match; [by apply inner_one|by apply inner_add].
  - apply inner_one; [done|by eapply reachable_wf|done].
  - pose proof (reachable_wf _ _ _ R) as P. destruct (remove_some _ _ _ _ _ _ _ (pw_el _ _ P e) E) as [Q Hr]. by eapply inner_removed.
Qed.

(** Types but [mouseover] and [mouseout] call functions of the program. *)
Lemma reachable_callable w t e : reachable listened type_data w → unfix t = None → callable listened w t e.
Proof.
  intros R U. split; [apply (pw_el _ _ (reachable_wf _ _ _ R))|]. intros h Hh Hb.
  destruct (reachable_inner w R e t h Hh Hb) as (_ & orig & Ef & _). apply unfix_fix in Ef. congruence.
Qed.

(** ** Events on reachable pages *)

Variable outside : nat → event → bool.
Variable data_type : D → string.
Variable act : nat → nat → D → event → event * ret.
Hypothesis act_type : ∀ n e d ev, ev_type (act n e d ev).1 = ev_type ev.
#[local] Notation handle := (JQueryEvent.handle listened (program act) outside data_type).

(** C30: triggering an event on an element calls, on the element and each of
    its parents in turn, the handlers that were bound there when the event was
    triggered and that it asks for, in the order of binding, until one stops
    it; the default action is done unless one prevented it; and the page keeps
    all its handlers but those with the number of a function that was bound
    once and was called.  The type is a plain one (not [mouseover] or
    [mouseout], which special events rename), and the functions stop or prevent
    the event but do not change the page. *)
Theorem trigger_calls refused default_action fuel type e path w :
  reachable listened type_data w → NoDup (e :: path) → el_text (elem w e) = false →
  let t := event_type (new_event type) in
  one_type t → unfix t = None →
  let calls := path_calls act refused w (e :: path) (new_event type) in
  ∃ w', JQueryEvent.trigger listened (program act) outside data_type (inline refused) default_action (S (S fuel)) type (e :: path) w =
      Ok (if ev_prevented calls.1 then w' else default_action e t w', calls.1) ∧
    ∀ e' t', handlers (elem w' e') t' =
      filter (λ h, ¬ gone (guids w WithinElement) (elem w e') (spent w t (log_at e' calls.2)) t' h) (handlers (elem w e') t').
Proof.
  intros R ND Et t T U. apply trigger_fired; [done..|]. apply Forall_true. intros e'. by apply reachable_callable.
Qed.

(** Nothing asks to stop: everything is called. *)
Lemma fire_all e hs ev : ev_immediate (fire act e hs ev).1 = false → (fire act e hs ev).2 = hs.
Proof.
  revert ev. induction hs as [|h hs IH]; intros ev; [done|]. cbn [fire]. case_match eqn:Ei; cbn [fst snd]; [congruence|].
  intros E. by rewrite IH.
Qed.
Lemma asks_all ev h : one_type (ev_type ev) → ev_exclusive ev = false → asks ev h = true.
Proof. intros (_ & E & _) X. unfold asks, has_namespace. by rewrite E, X. Qed.

(** The handlers of a type after one more was bound to it. *)
Lemma of_type_new f data (g g' : nat) el t :
  one_type t → of_type t (new_handlers type_data f data g g' el t) = [bound f data g t].
Proof.
  intros (_ & Et & _). unfold new_handlers, of_type. rewrite Et. cbn [fst]. rewrite filter_app.
  rewrite filter_all_none; [rewrite filter_cons_True; [done|cbn; by rewrite Et]|].
  intros h Hh. destruct (handlers el t); [|by apply elem_of_nil in Hh]. destruct (special_fix t) as [fx|] eqn:Ef; [|by apply elem_of_nil in Hh].
  apply list_elem_of_singleton in Hh as ->. cbn. rewrite (proj1 (parse_fix _ _ Ef)). intros Eq. destruct (fix_cases _ _ Ef) as [[E1 E2]|[E1 E2]]; congruence.
Qed.

(** C31: a function bound for one event of a type is called by the next such
    event, after the functions that were bound before, unless one of them asks
    to stop; and afterwards every element of the page has the handlers, and the
    browser the listeners, that there were before it was bound.  This is for a
    function that is not bound to the element otherwise (one that is takes its
    other handlers along: see [once_shared]), when no other function is bound
    for one event of the type, the type is a plain one (not [mouseover] or
    [mouseout]: see [once_after_leave]), the event is not exclusive, and the
    functions do not change the page. *)
Theorem one_once fuel e f data w ev :
  let t := ev_type ev in
  reachable listened type_data w → accepting (elem w e) → plain f → one_type t → unfix t = None → ev_exclusive ev = false →
  (∀ t h, h ∈ handlers (elem w e) t → base (ho_handler h) ≠ f) →
  (∀ h, h ∈ handlers (elem w e) t → is_once (ho_handler h) = false) →
  let w1 := JQueryEvent.one listened type_data e t f data w in
  let calls := element_calls act (elem w1 e) e ev in
  ev_immediate calls.1 = false →
  (ho_handler <$> calls.2) = (ho_handler <$> handlers (elem w e) t) ++ [OnceOf f] ∧
  ∃ w', handle (S (S fuel)) e ev w1 = Ok (w', calls.1) ∧
    ∀ e', (∀ t', handlers (elem w' e') t' = handlers (elem w e') t') ∧ el_listeners (elem w' e') = el_listeners (elem w e').
Proof.
  intros t R A Hf T U X Hb Ho w1 calls Hi. pose proof (reachable_wf _ _ _ R) as P. pose proof (proj1 T) as T1.
  set (w0 := proxy f (OnceOf f) w). assert (P0 : page_wf w0) by (by apply page_proxy).
  assert (E1 : w1 = add_fn setup e t (OnceOf f) 0 data w0).
  { unfold w1, JQueryEvent.one, JQueryEvent.add. fold w0. change (elem w0 e) with (elem w e). by rewrite (proj1 A). }
  assert (R1 : reachable listened type_data w1) by (by apply reach_one).
  pose proof (add_fn_one listened type_data w0 e t (OnceOf f) data (pw_el _ _ P0 e) A (page_pos _ _ P0) T1) as Ad. cbv zeta in Ad. rewrite <- E1 in Ad.
  set (new := bound (OnceOf f) data (guids (give_guid (OnceOf f) w0) (OnceOf f)) t).
  assert (Eh : handlers (elem w1 e) t = handlers (elem w e) t ++ [new]).
  { rewrite (ad_handlers _ _ _ _ _ Ad), of_type_new, elem_give by done. done. }
  assert (Et : event_type ev = t) by (unfold event_type; fold t; by rewrite (proj1 (proj2 T))).
  assert (Ec : calls.2 = handlers (elem w e) t ++ [new]).
  { unfold calls, element_calls in *. rewrite Et in *. rewrite fire_all by done. rewrite filter_keeps; [done|]. intros h _. by rewrite asks_all. }
  split; [rewrite Ec, fmap_app; done|].
  destruct (handle_calls listened outside data_type act act_type fuel e ev w1) as (w' & E & Rm); [apply (pw_el _ _ (reachable_wf _ _ _ R1))|by rewrite Et| |].
  { rewrite Et. by apply (reachable_callable w1 t e R1 U). }
  fold calls in E, Rm. exists w'. split; [done|]. apply (add_removed listened type_data w0 e (OnceOf f) data t); [done|by rewrite <- E1; eapply reachable_wf|done|cbn; by destruct f|].
  rewrite <- E1. eapply removed_ext; [|exact Rm]. intros t' h _. rewrite T1, named_one by done. unfold spent. rewrite Et, Ec. f_equal.
  rewrite existsb_app. cbn. rewrite orb_false_r. replace (existsb _ (handlers (elem w e) t)) with false; [done|].
  symmetry. apply not_true_iff_false. intros (c & Hc%list_elem_of_In & Hs)%existsb_exists. by rewrite Ho in Hs.
Qed.

Lemma with_own_type ev : with_type (ev_type ev) ev = ev.
Proof. by destruct ev. Qed.

(** When only [mouseenter] or [mouseleave] asked for the event that the
    browser has, their handlers are called if the mouse came from outside of
    the element, or went there, and nothing otherwise. *)
Lemma leave_calls fuel e ev w orig h :
  reachable listened type_data w → special_fix orig = Some (ev_type ev) → ev_exclusive ev = false →
  handlers (elem w e) (ev_type ev) = [h] → ho_handler h = WithinElement → data_type (type_data orig) = orig →
  let calls := if outside e ev then element_calls act (elem w e) e (with_type orig ev) else (ev, []) in
  ∃ w', handle (S (S (S fuel))) e ev w = Ok (w', calls.1) ∧ ∀ t', handlers (elem w' e) t' =
    filter (λ h, ¬ gone (guids w WithinElement) (elem w e) (spent w orig calls.2) t' h) (handlers (elem w e) t').
Proof.
  intros R Ef X Eh Ew Ed. pose proof (pw_el _ _ (reachable_wf _ _ _ R) e) as W.
  destruct (parse_fix _ _ Ef) as [Ep Nn]. destruct (fix_plain _ _ Ef) as [_ Eo].
  destruct (reachable_inner w R e (ev_type ev) h) as (_ & orig' & Ef' & Ed'); [rewrite Eh; by left|by rewrite Ew|].
  assert (orig' = orig) as -> by (eapply fix_inj; done).
  assert (T : one_type orig) by (destruct (fix_cases _ _ Ef) as [[-> _]|[-> _]]; by repeat split).
  assert (Eto : event_type (with_type orig ev) = orig) by (by apply event_type_with).
  assert (U : unfix orig = None) by (eapply unfix_orig, unfix_fix, Ef).
  assert (Ee : event_type ev = ev_type ev) by exact Ep.
  assert (H : handle (S (S (S fuel))) e ev w =
    '(w, ev) ← (if outside e ev then handle (S (S fuel)) e (with_type orig ev) w else Ok (w, ev)); Ok (w, ev)).
  { rewrite handle_step, Ee, Eh, with_own_type. cbn [JQueryEvent.dispatch]. unfold asks. rewrite Nn, X. cbn [negb andb orb].
    rewrite Ew. cbn [JQueryEvent.call_func]. rewrite Ed', Ed. destruct (outside e ev); [|cbn; by destruct (ev_immediate ev)].
    destruct (handle (S (S fuel)) e (with_type orig ev) w) as [[w' ev']| |]; cbn; [by destruct (ev_immediate ev')|done|done]. }
  rewrite H. clear H. cbv zeta. destruct (outside e ev) eqn:Eout.
  - destruct (handle_calls listened outside data_type act act_type fuel e (with_type orig ev) w W) as (w' & E & Rm).
    { by rewrite Eto. } { rewrite Eto. apply (reachable_callable w orig e R U). }
    rewrite Eto in Rm. exists w'. split; [by rewrite E|apply (rm_handlers _ _ _ _ _ Rm)].
  - exists w. split; [done|]. intros t'. symmetry. apply not_spent.
Qed.

End page.

(** ** Examples *)

(** Functions that return their number; [7] prevents the default action. *)
Definition numbered_act (n e : nat) (d : string) ev : event * ret := (if n =? 7 then prevented ev else ev, RValue n).
#[local] Notation ident := (λ t : string, t).
#[local] Notation add := (JQueryEvent.add always ident).
#[local] Notation one := (JQueryEvent.one always ident).
#[local] Notation handle away := (JQueryEvent.handle always (program numbered_act) (λ _ _, away) ident).

Definition nested_page : world string :=
  one 1 "click" (Func 9) "" (add 1 "click" (HFn (Func 8)) "" (add 0 "click.plot" (HFn (Func 7)) "" new_page)).
Lemma nested_reachable : reachable always ident nested_page.
Proof. apply reach_one; [exact I|]. apply reach_add; [exact I|]. apply reach_add; [exact I|exact new_reachable]. Qed.

(** An event on the inner element reaches the outer one; the default action,
    which would forget the page, is prevented. *)
Lemma trigger_calls_witness :
  ∃ w', trigger always (program numbered_act) (λ _ _, true) ident (inline (λ _ _, false)) (λ (_ : nat) (_ : string) (_ : world string), new_page) 2 "click" [0; 1] nested_page =
      Ok (w', Event "click" false (RValue 9) true false false) ∧
    (ho_handler <$> handlers (elem w' 0) "click") = [Func 7] ∧ (ho_handler <$> handlers (elem w' 1) "click") = [Func 8].
Proof.
  destruct (trigger_calls always ident (λ (_ : nat) (_ : event), true) ident numbered_act) with (refused := λ (_ : nat) (_ : string), false)
    (default_action := λ (_ : nat) (_ : string) (_ : world string), new_page) (fuel := 0) (type := "click") (e := 0) (path := [1]) (w := nested_page)
    as (w' & E & H).
  - intros n e d ev. cbn. by case_match.
  - exact nested_reachable.
  - apply (bool_decide_unpack _). vm_compute. exact I.
  - reflexivity.
  - by repeat split.
  - reflexivity.
  - exists w'. rewrite !H. split; [rewrite E; reflexivity|]. split; vm_compute; reflexivity.
Defined.

Lemma handlers_all {E} (P : handle_obj E → Prop) (el : element E) t h :
  map_Forall (λ _ hs, Forall P hs) (events_of el) → h ∈ handlers el t → P h.
Proof.
  intros F. unfold handlers. destruct (events_of el !! t) as [hs|] eqn:Et; [|by intros ?%elem_of_nil].
  intros Hh. by apply (proj1 (Forall_forall _ _) (F t hs Et)).
Qed.
Lemma one_once_witness :
  let w := add 0 "mouseleave" (HFn (Func 8)) "" new_page in
  ∃ w', handle true 2 0 (new_event "mouseleave") (one 0 "mouseleave" (Func 9) "" w) = Ok (w', Event "mouseleave" false (RValue 9) false false false) ∧
    (ho_handler <$> handlers (elem w' 0) "mouseleave") = [Func 8] ∧ (ho_handler <$> handlers (elem w' 0) "mouseout") = [WithinElement].
Proof.
  intros w. assert (R : reachable always ident w) by (apply reach_add; [exact I|exact new_reachable]).
  destruct (one_once always ident (λ (_ : nat) (_ : event), true) ident numbered_act) with (fuel := 0) (e := 0) (f := Func 9) (data := "") (w := w) (ev := new_event "mouseleave")
    as (_ & w' & E & H).
  - intros n e d ev. cbn. by case_match.
  - exact R.
  - by split.
  - exact I.
  - by repeat split.
  - reflexivity.
  - reflexivity.
  - intros t h. apply (handlers_all (λ h, base (ho_handler h) ≠ Func 9)). apply (bool_decide_unpack _). vm_compute. exact I.
  - intros h. apply (handlers_all (λ h, is_once (ho_handler h) = false)). apply (bool_decide_unpack _). vm_compute. exact I.
  - vm_compute. reflexivity.
  - exists w'. destruct (H 0) as [H0 _]. rewrite !H0. split; [etransitivity; [exact E|vm_compute; reflexivity]|]. split; vm_compute; reflexivity.
Defined.

(** What is bound once takes everything with the number of its function with
    it: also what was bound to stay. *)
Example once_shared :
  (('(w, ev) ← handle true 3 0 (new_event "click") (one 0 "click" (Func 9) "" (add 0 "click" (HFn (Func 9)) "" new_page));
    Ok (handlers (elem w 0) "click")) = Ok []).
Proof. vm_compute. reflexivity. Qed.

(** A function bound for one [mouseout] after one for [mouseleave] stays when
    the mouse leaves: the event has the other type by then. *)
Example once_after_leave :
  (('(w, ev) ← handle true 3 0 (new_event "mouseout") (one 0 "mouseout" (Func 9) "" (add 0 "mouseleave" (HFn (Func 8)) "" new_page));
    Ok (ev_result ev, ho_handler <$> handlers (elem w 0) "mouseout")) = Ok (RValue 9, [WithinElement; OnceOf (Func 9)])).
Proof. vm_compute. reflexivity. Qed.
