(* ===== verification/EventTarget.v ===== *)
(** What the plot relies on when it binds and unbinds handlers: an interface
    to the elements of a page, with its laws. *)

From S2P Require Import Prelude JsText JQueryEvent JQueryRemoveSpec.

(** Data given with a handler: none, the distance after which a drag starts,
    or the type that a special event stands for. *)
Inductive bind_data := NoData | Distance (d : Z) | TypeName (t : string).

#[export] Instance bind_data_eq_dec : EqDecision bind_data.
Proof. solve_decision. Defined.

(** A text that is one type, without namespaces. *)
Definition simple (t : string) : Prop :=
  split_types t = [t] ∧ parse_type t = (t, []) ∧ for_all t = false ∧ t ≠ "unload".

(** A page [W] whose elements have handlers.  [bound] lists the functions of
    the program that are bound to a type of an element, in the order in which
    they are called; what a function is bound as does not matter. *)
Class EventTarget (W : Type) := {
  page_ok : W → Prop;
  bound_to : W → nat → string → list nat;
  bind_to : nat → string → nat → bind_data → W → W;
  unbind_from : nat → string → nat → W → W;
  unbind_type : nat → string → W → W;
  unbind_all : nat → W → W;
  bind_page e t f d w : page_ok w → simple t → page_ok (bind_to e t f d w);
  unbind_page e t f w : page_ok w → simple t → page_ok (unbind_from e t f w);
  type_page e t w : page_ok w → simple t → page_ok (unbind_type e t w);
  all_page e w : page_ok w → page_ok (unbind_all e w);
  bind_bound e t f d w e' t' :
    page_ok w → simple t →
    bound_to (bind_to e t f d w) e' t' = bound_to w e' t' ++ (if decide (e' = e ∧ t' = t) then [f] else []);
  unbind_bound e t f w e' t' :
    page_ok w → simple t →
    bound_to (unbind_from e t f w) e' t' =
      if decide (e' = e ∧ t' = t) then filter (λ g, g ≠ f) (bound_to w e' t') else bound_to w e' t';
  type_bound e t w e' t' :
    page_ok w → simple t → bound_to (unbind_type e t w) e' t' = if decide (e' = e ∧ t' = t) then [] else bound_to w e' t';
  all_bound e w e' t' :
    page_ok w → bound_to (unbind_all e w) e' t' = if decide (e' = e) then [] else bound_to w e' t';
}.

(** ** Sequences of calls *)

Inductive call :=
  | CBind (e : nat) (t : string) (f : nat) (d : bind_data)
  | CUnbind (e : nat) (t : string) (f : nat)
  | CUnbindType (e : nat) (t : string)
  | CUnbindAll (e : nat).
#[export] Instance call_eq_dec : EqDecision call.
Proof. solve_decision. Defined.
Definition simple_call (c : call) : Prop := match c with CBind _ t _ _ | CUnbind _ t _ | CUnbindType _ t => simple t | CUnbindAll _ => True end.

Section target.
Context {W : Type} `{EventTarget W}.
Implicit Types (w : W) (e : nat) (t : string) (cs : list call).

Definition perform (c : call) w : W :=
  match c with
  | CBind e t f d => bind_to e t f d w
  | CUnbind e t f => unbind_from e t f w
  | CUnbindType e t => unbind_type e t w
  | CUnbindAll e => unbind_all e w
  end.
Definition performs cs w : W := foldl (λ w c, perform c w) w cs.

(** The same on a list of functions. *)
Definition effect e t (fs : list nat) (c : call) : list nat :=
  match c with
  | CBind e' t' f _ => if decide (e = e' ∧ t = t') then fs ++ [f] else fs
  | CUnbind e' t' f => if decide (e = e' ∧ t = t') then filter (λ g, g ≠ f) fs else fs
  | CUnbindType e' t' => if decide (e = e' ∧ t = t') then [] else fs
  | CUnbindAll e' => if decide (e = e') then [] else fs
  end.

Lemma perform_page c w : page_ok w → simple_call c → page_ok (perform c w).
Proof. destruct c; cbn; [apply bind_page|apply unbind_page|apply type_page|intros ? _; by apply all_page]. Qed.
Lemma perform_bound c w e t : page_ok w → simple_call c → bound_to (perform c w) e t = effect e t (bound_to w e t) c.
Proof.
  intros P S. destruct c as [e' t' f d|e' t' f|e' t'|e']; cbn.
  - rewrite bind_bound by done. case_decide; [done|by rewrite app_nil_r].
  - by rewrite unbind_bound.
  - by rewrite type_bound.
  - by rewrite all_bound.
Qed.
Lemma performs_bound cs w e t :
  page_ok w → Forall simple_call cs → bound_to (performs cs w) e t = foldl (effect e t) (bound_to w e t) cs ∧ page_ok (performs cs w).
Proof.
  intros P F. revert w P. induction F as [|c cs S F IH]; intros w P; [done|]. cbn.
  rewrite <- perform_bound by done. apply IH. by apply perform_page.
Qed.
End target.
