(* ===== verification/JQueryTarget.v ===== *)
(** jQuery is such a page: every law of the interface follows from what
    [add] and [remove] do. *)

From S2P Require Import Prelude JsText JQueryEvent JQueryEventSpec JQueryRemoveSpec JQueryBindSpec JQueryPageSpec EventTarget.
From stdpp Require Import gmap.
From Stdlib Require Import Ascii.

Section target.
Variable listened : string → bool.
Notation page := (world bind_data).
Implicit Types (w : page) (e : nat) (t : string).
#[local] Notation setup := (JQueryEvent.setup listened TypeName).
#[local] Notation add := (JQueryEvent.add listened TypeName).
#[local] Notation remove := (JQueryEvent.remove listened).

(** The function of the program that a handler calls. *)
Definition fn_of (h : handle_obj bind_data) : option nat := match base (ho_handler h) with Func n => Some n | _ => None end.
Definition fns w e t : list nat := omap fn_of (handlers (elem w e) t).

(** Every type is a text that splits into itself. *)
Definition plain_types w e : Prop := map_Forall (λ t _, simple t) (events_of (elem w e)).
Definition jq_ok w : Prop := page_wf listened w ∧ ∀ e, accepting (elem w e) ∧ plain_types w e.
Definition jq_bind e t (f : nat) d w : page := JQueryEvent.bind listened TypeName e t (Func f) d w.
(** [unbind] of one element. *)
Definition jq_unbind e t (f : option func) w : page := match remove 2 e t f w with Ok w' => w' | _ => w end.

Lemma fns_app (l k : list (handle_obj bind_data)) : omap fn_of (l ++ k) = omap fn_of l ++ omap fn_of k.
Proof. apply omap_app. Qed.
Lemma omap_filter (p : handle_obj bind_data → bool) (q : nat → Prop) `{∀ x, Decision (q x)} (l : list (handle_obj bind_data)) :
  (∀ h n, h ∈ l → fn_of h = Some n → (p h = false ↔ q n)) → omap fn_of (filter (λ h, ¬ p h) l) = filter q (omap fn_of l).
Proof.
  induction l as [|h l IH]; intros E; [done|]. rewrite filter_cons. specialize (IH (λ h' n Hh, E h' n (list_elem_of_further _ _ _ Hh))).
  pose proof (E h) as Eh. cbn. destruct (fn_of h) as [n|] eqn:Ef.
  - specialize (Eh n ltac:(by left) eq_refl). rewrite filter_cons. destruct (p h).
    + rewrite decide_False by (intros N; by apply N). rewrite decide_False by (intros N; apply Eh in N; done). exact IH.
    + rewrite decide_True by (by intros []). rewrite decide_True by (by apply Eh). cbn. rewrite Ef. by rewrite IH.
  - case_decide; [cbn; by rewrite Ef|exact IH].
Qed.

Lemma jq_bind_text e t f d w : jq_ok w → simple t → jq_bind e t f d w = add_fn setup e t (Func f) 0 d w.
Proof.
  intros [_ A] (_ & _ & _ & Hu). unfold jq_bind, JQueryEvent.bind. rewrite (proj2 (String.eqb_neq t "unload")) by done.
  unfold JQueryEvent.add. by rewrite (proj1 (proj1 (A e))).
Qed.

Lemma simple_type t : simple t → (parse_type t).1 = t.
Proof. by intros (_ & -> & _). Qed.
Lemma simple_piece t (h : handle_obj bind_data) : simple t → in_namespace t h = true.
Proof. intros (_ & E & _). unfold in_namespace, has_namespace. by rewrite E. Qed.

(** What is bound to elements other than the one of a call. *)
Lemma fns_same w w' e t : elem w' e = elem w e → fns w' e t = fns w e t.
Proof. intros E. unfold fns. by rewrite E. Qed.

(** Types with handlers are those with a list. *)
Lemma types_handlers w e (Q : string → Prop) : JQueryEventSpec.el_wf listened (elem w e) →
  map_Forall (λ t _, Q t) (events_of (elem w e)) ↔ ∀ t, handlers (elem w e) t ≠ [] → Q t.
Proof.
  intros W. unfold map_Forall. split; intros T t.
  - unfold handlers. destruct (events_of (elem w e) !! t) as [hs|] eqn:E; [intros _; by apply (T t hs)|done].
  - intros hs E. apply T. unfold handlers. rewrite E. by apply (ew_lists _ _ W _ _ E).
Qed.

Lemma fix_simple t fx : special_fix t = Some fx → simple fx.
Proof. by intros [[-> ->]|[-> ->]]%fix_cases; repeat split. Qed.

Lemma jq_bind_added e t f d w : jq_ok w → simple t →
  added listened (give_guid (Func f) w) e
    (new_handlers TypeName (Func f) d (guids (give_guid (Func f) w) (Func f)) (guids (jq_bind e t f d w) WithinElement) (elem w e) t)
    (jq_bind e t f d w).
Proof.
  intros J S. pose proof J as [P A]. rewrite jq_bind_text by done.
  apply add_fn_one; [apply P|apply A|by eapply page_pos|apply S].
Qed.

Lemma jq_bind_ok e t f d w : jq_ok w → simple t → jq_ok (jq_bind e t f d w).
Proof.
  intros J S. pose proof J as [P A]. pose proof (jq_bind_added e t f d w J S) as B. set (w' := jq_bind e t f d w) in *.
  assert (P' : page_wf listened w') by (unfold w'; rewrite jq_bind_text by done; apply page_add_fn; [done|apply A|done|by left]).
  split; [done|]. intros e'. destruct (decide (e' = e)) as [-> | He].
  - split; [apply (ad_ready _ _ _ _ _ B)|]. apply types_handlers; [apply P'|]. intros t' Hn.
    rewrite (ad_handlers _ _ _ _ _ B), elem_give in Hn.
    destruct (handlers (elem w e) t') as [|h l] eqn:El; [|apply (proj1 (types_handlers w e simple (pw_el _ _ P e)) (proj2 (A e))); by rewrite El].
    cbn [app] in Hn. destruct (of_type t' _) as [|h l] eqn:Eo; [done|]. clear Hn.
    assert (Hh : h ∈ of_type t' (new_handlers TypeName (Func f) d (guids (give_guid (Func f) w) (Func f)) (guids w' WithinElement) (elem w e) t))
      by (rewrite Eo; by left).
    apply list_elem_of_filter in Hh as [<- Hh]. unfold new_handlers in Hh. rewrite (simple_type t S) in Hh.
    apply elem_of_app in Hh as [Hh| ->%list_elem_of_singleton]; [|cbn; by rewrite (simple_type t S)].
    destruct (handlers (elem w e) t); [|by apply elem_of_nil in Hh]. destruct (special_fix t) as [fx|] eqn:Ef; [|by apply elem_of_nil in Hh].
    apply list_elem_of_singleton in Hh as ->. cbn. rewrite (proj1 (parse_fix _ _ Ef)). by apply (fix_simple t).
  - unfold plain_types. rewrite (ad_other _ _ _ _ _ B e' He), elem_give. apply A.
Qed.

Lemma jq_bind_bound e t f d w e' t' : jq_ok w → simple t →
  fns (jq_bind e t f d w) e' t' = fns w e' t' ++ (if decide (e' = e ∧ t' = t) then [f] else []).
Proof.
  intros J S. pose proof (jq_bind_added e t f d w J S) as B. destruct (decide (e' = e)) as [-> | He].
  - unfold fns. rewrite (ad_handlers _ _ _ _ _ B), elem_give, fns_app. f_equal. unfold new_handlers. rewrite (simple_type t S).
    unfold of_type. rewrite filter_app, fns_app.
    assert (E1 : ∀ l, l = match handlers (elem w e) t, special_fix t with
                        | [], Some fx => [inner TypeName t fx (guids (jq_bind e t f d w) WithinElement)] | _, _ => [] end →
                 omap fn_of (filter (λ h, ho_type h = t') l) = []).
    { intros l ->. destruct (handlers (elem w e) t); [|done]. destruct (special_fix t); [|done]. rewrite filter_cons. by case_decide. }
    rewrite E1 by done. cbn [app]. rewrite filter_cons. cbn. rewrite (simple_type t S).
    destruct (decide (t = t')), (decide (e = e ∧ t' = t)); cbn; intuition congruence.
  - rewrite decide_False by tauto. rewrite app_nil_r. apply fns_same. by rewrite (ad_other _ _ _ _ _ B e' He), elem_give.
Qed.

(** ** Unbinding *)

Lemma plain_typed w e : plain_types w e → typed w e.
Proof. intros T t hs E. by apply (T t hs E). Qed.
Lemma jq_unbind_removed e t f w : jq_ok w → JQueryRemoveSpec.removed listened w e
  (named (if for_all t then None else who w f) (meant (elem w e) t)) (jq_unbind e t f w).
Proof.
  intros [P A]. destruct (remove_exact listened 0 e t f w (pw_el _ _ P e) (λ _, plain_typed w e (proj2 (A e)))) as (w' & E & R).
  unfold jq_unbind. by rewrite E.
Qed.
Lemma jq_unbind_ok e t f w : jq_ok w → jq_ok (jq_unbind e t f w).
Proof.
  intros J. pose proof J as [P A]. pose proof (jq_unbind_removed e t f w J) as R.
  assert (P' : page_wf listened (jq_unbind e t f w)) by (by eapply page_removed). split; [done|]. intros e'.
  destruct (decide (e' = e)) as [-> | He]; [|unfold plain_types; rewrite (rm_other _ _ _ _ _ R e' He); apply A].
  split; [unfold accepting; destruct (rm_flags _ _ _ _ _ R) as [-> ->]; apply A|].
  apply types_handlers; [apply P'|]. intros t' Hn. apply (proj1 (types_handlers w e simple (pw_el _ _ P e)) (proj2 (A e))).
  intros E. apply Hn. rewrite (rm_handlers _ _ _ _ _ R), E. done.
Qed.

(** The functions that are left, given which of them are named. *)
Lemma jq_unbind_fns e t f w t' (q : nat → Prop) `{∀ x, Decision (q x)} :
  jq_ok w →
  (∀ h n, h ∈ handlers (elem w e) t' → fn_of h = Some n →
     named (if for_all t then None else who w f) (meant (elem w e) t) t' h = false ↔ q n) →
  fns (jq_unbind e t f w) e t' = filter q (fns w e t').
Proof.
  intros J Q. pose proof J as [P A]. pose proof (jq_unbind_removed e t f w J) as R. unfold fns. rewrite (rm_handlers _ _ _ _ _ R).
  apply omap_filter. intros h n Hh En. rewrite <- (Q h n Hh En). unfold gone. destruct (unfix t') as [orig|]; [|by rewrite orb_false_r].
  assert (Eg : (ho_guid h =? guids w WithinElement) = false); [|by rewrite Eg, orb_false_r].
  apply Nat.eqb_neq. intros E. destruct (pw_bound _ _ P e t' h Hh) as [H1 H2].
  assert (Hb : base (ho_handler h) = WithinElement) by (apply (pw_inj _ _ P _ WithinElement); congruence).
  unfold fn_of in En. by rewrite Hb in En.
Qed.

Lemma jq_unbind_other e t f w e' t' : jq_ok w → e' ≠ e → fns (jq_unbind e t f w) e' t' = fns w e' t'.
Proof. intros J He. apply fns_same. by apply (rm_other _ _ _ _ _ (jq_unbind_removed e t f w J)). Qed.

Lemma named_simple g (el : element bind_data) t t' (h : handle_obj bind_data) : simple t →
  named g (meant el t) t' h = String.eqb t t' && (match g with Some g => ho_guid h =? g | None => true end).
Proof.
  intros S. pose proof S as (S1 & _ & S3 & _). unfold meant. rewrite S3, S1. unfold named. cbn. unfold named_by.
  by rewrite (simple_type t S), (simple_piece t h S), andb_true_r, orb_false_r.
Qed.

(** The number of a handler tells its function. *)
Lemma guid_fn w e t h n f : page_wf listened w → h ∈ handlers (elem w e) t → fn_of h = Some n →
  (ho_guid h =? guids w (Func f)) = bool_decide (n = f).
Proof.
  intros P Hh En. destruct (pw_bound _ _ P e t h Hh) as [H1 H2]. unfold fn_of in En.
  destruct (base (ho_handler h)) as [n'| | |] eqn:Eb; try discriminate. injection En as ->.
  assert (Hb : ho_guid h = guids w (Func n)) by (rewrite H1, <- Eb; apply (once_guid listened); [done|congruence]).
  case_bool_decide as E; [subst; by apply Nat.eqb_eq|]. apply Nat.eqb_neq. intros Eg. apply E.
  assert (Func n = Func f) as [= ->] by (apply (pw_inj _ _ P (Func n) (Func f)); congruence). done.
Qed.

Lemma jq_unbind_bound e t f w e' t' : jq_ok w → simple t →
  fns (jq_unbind e t (Some (Func f)) w) e' t' =
    if decide (e' = e ∧ t' = t) then filter (λ g, g ≠ f) (fns w e' t') else fns w e' t'.
Proof.
  intros J S. destruct (decide (e' = e)) as [-> | He]; [|rewrite decide_False by tauto; by apply jq_unbind_other].
  pose proof S as (_ & _ & S3 & _). case_decide as Hd.
  - destruct Hd as [_ ->]. apply jq_unbind_fns; [done|]. intros h n Hh En. rewrite named_simple, S3, String.eqb_refl by done. cbn.
    rewrite (guid_fn w e t h n f) by (done || apply J). by rewrite bool_decide_eq_false.
  - rewrite (jq_unbind_fns e t (Some (Func f)) w t' (λ _, True)); [by apply filter_keeps|done|]. intros h n Hh En.
    rewrite named_simple, (proj2 (String.eqb_neq t t')) by (done || (intros <-; by apply Hd)). done.
Qed.
Lemma jq_type_bound e t w e' t' : jq_ok w → simple t →
  fns (jq_unbind e t None w) e' t' = if decide (e' = e ∧ t' = t) then [] else fns w e' t'.
Proof.
  intros J S. destruct (decide (e' = e)) as [-> | He]; [|rewrite decide_False by tauto; by apply jq_unbind_other].
  pose proof S as (_ & _ & S3 & _). case_decide as Hd.
  - destruct Hd as [_ ->]. rewrite (jq_unbind_fns e t None w t (λ _, False)); [apply filter_all_none; tauto|done|].
    intros h n Hh En. by rewrite named_simple, S3, String.eqb_refl.
  - rewrite (jq_unbind_fns e t None w t' (λ _, True)); [by apply filter_keeps|done|]. intros h n Hh En.
    rewrite named_simple, (proj2 (String.eqb_neq t t')) by (done || (intros <-; by apply Hd)). done.
Qed.

(** Without a type all types of the element are meant. *)
Lemma jq_all_bound e w e' t' : jq_ok w →
  fns (jq_unbind e "" None w) e' t' = if decide (e' = e) then [] else fns w e' t'.
Proof.
  intros J. pose proof (proj2 (proj2 J e)) as T. destruct (decide (e' = e)) as [-> | He]; [|by apply jq_unbind_other].
  rewrite (jq_unbind_fns e "" None w t' (λ _, False)); [apply filter_all_none; tauto|done|].
  intros h n Hh En. cbn [for_all]. split; [|done]. intros N. exfalso. unfold handlers in Hh.
  destruct (events_of (elem w e) !! t') as [hs|] eqn:E; [|by apply elem_of_nil in Hh]. pose proof (T t' hs E) as S.
  apply not_true_iff_false in N. apply N. unfold named. apply existsb_exists. exists t'. split.
  - unfold meant. cbn [for_all]. apply in_concat. exists [t']. split; [|by left].
    apply list_elem_of_In, list_elem_of_fmap. exists t'. split; [rewrite string_app_nil_r; by rewrite (proj1 S)|]. apply list_elem_of_fmap.
    exists (t', hs). split; [done|]. by apply elem_of_map_to_list.
  - unfold named_by. by rewrite (simple_type t' S), String.eqb_refl, (simple_piece t' h S).
Qed.

(** jQuery on a page as an event target. *)
#[export, refine] Instance jq_target : EventTarget page := {
  page_ok := jq_ok; bound_to := fns; bind_to := jq_bind;
  unbind_from e t f := jq_unbind e t (Some (Func f));
  unbind_type e t := jq_unbind e t None;
  unbind_all e := jq_unbind e "" None;
}.
Proof.
  - intros; by apply jq_bind_ok.
  - intros; by apply jq_unbind_ok.
  - intros; by apply jq_unbind_ok.
  - intros; by apply jq_unbind_ok.
  - intros; by apply jq_bind_bound.
  - intros; by apply jq_unbind_bound.
  - intros; by apply jq_type_bound.
  - intros; by apply jq_all_bound.
Defined.
End target.
