(* ===== verification/FlotEvents.v ===== *)
(** The handlers that a plot and its plugins bind and unbind
    ([static/flot/jquery.flot.js] and the plugins): the calls that they make,
    in order, on the elements of the page and on the document, with the
    presses and releases of a selection and the calls of the page in between.
    Binding [drag] or [mousewheel] also sets up a special event of a library
    of its own, which is left out, and what a function is bound as ([one] binds
    it behind another one) does not matter for who is bound. *)

From S2P Require Import Prelude JsText JQueryEvent JQueryEventSpec JQueryRemoveSpec JQueryBindSpec JQueryPageSpec EventTarget JQueryTarget.
From stdpp Require Import gmap.

(** The functions of a plot and of its plugins. *)
Inductive plot_fn :=
  | onMouseMove | onMouseLeave | onClick
  | selection_onMouseMove | selection_onMouseDown
  | crosshair_onMouseOut | crosshair_onMouseMove
  | onZoomClick | onMouseWheel | onDragStart | onDrag | onDragEnd
  | onResize
  | pie_onMouseMove | pie_onClick.

(** The options that decide. *)
Record event_options := EventOptions {
  hoverable : bool; clickable : bool; selection_mode : bool; crosshair_mode : bool;
  zoom_interactive : bool; zoom_trigger : string; pan_interactive : bool; pie_show : bool;
}.

(** The plugins that bind handlers. *)
Inductive plugin := Selection | Crosshair | Navigate | Resize | Pie.
#[export] Instance plugin_eq_dec : EqDecision plugin.
Proof. solve_decision. Defined.

(** What a plugin adds to the hooks [bindEvents] and [shutdown]. *)
Record hooks := Hooks { hook_bindEvents : list call; hook_shutdown : list call }.

Section plot.
(** The functions, as the page knows them, the overlay and the canvas, the
    element they are in, and the document. *)
Variable fn : plot_fn → nat.
Variable eventHolder : list nat.
Variable placeholder : nat.
Variable document : nat.
Variable o : event_options.

Definition on (t : string) (f : plot_fn) : list call := (λ e, CBind e t (fn f) NoData) <$> eventHolder.
Definition off (t : string) (f : plot_fn) : list call := (λ e, CUnbind e t (fn f)) <$> eventHolder.

(** [up] is [mouseUpHandler] when the plot is shut down. *)
Definition selection (up : option nat) : hooks := Hooks
  (if selection_mode o then on "mousemove" selection_onMouseMove ++ on "mousedown" selection_onMouseDown else [])
  (off "mousemove" selection_onMouseMove ++ off "mousedown" selection_onMouseDown ++
   match up with Some f => [CUnbind document "mouseup" f] | None => [] end).

Definition crosshair : hooks := Hooks
  (if crosshair_mode o then on "mouseout" crosshair_onMouseOut ++ on "mousemove" crosshair_onMouseMove else [])
  (off "mouseout" crosshair_onMouseOut ++ off "mousemove" crosshair_onMouseMove).

Definition navigate : hooks := Hooks
  ((if zoom_interactive o then on (zoom_trigger o) onZoomClick ++ on "mousewheel" onMouseWheel else []) ++
   (if pan_interactive o then
      ((λ e, CBind e "dragstart" (fn onDragStart) (Distance 10)) <$> eventHolder) ++ on "drag" onDrag ++ on "dragend" onDragEnd
    else []))
  (off (zoom_trigger o) onZoomClick ++ off "mousewheel" onMouseWheel ++
   off "dragstart" onDragStart ++ off "drag" onDrag ++ off "dragend" onDragEnd).

Definition resize : hooks := Hooks [CBind placeholder "resize" (fn onResize) NoData] [CUnbind placeholder "resize" (fn onResize)].

(** The pie plugin unbinds what others bound, and has no [shutdown]. *)
Definition pie : hooks := Hooks
  ((if pie_show o && hoverable o then ((λ e, CUnbindType e "mousemove") <$> eventHolder) ++ on "mousemove" pie_onMouseMove else []) ++
   (if pie_show o && clickable o then ((λ e, CUnbindType e "click") <$> eventHolder) ++ on "click" pie_onClick else []))
  [].

Definition hooks_of (up : option nat) (p : plugin) : hooks :=
  match p with
  | Selection => selection up | Crosshair => crosshair | Navigate => navigate | Resize => resize | Pie => pie
  end.

(** [bindEvents] and [shutdown] of the plot, with its plugins. *)
Definition bindEvents (plugins : list hooks) : list call :=
  (if hoverable o then on "mousemove" onMouseMove ++ on "mouseleave" onMouseLeave else []) ++
  (if clickable o then on "click" onClick else []) ++
  concat (hook_bindEvents <$> plugins).
Definition shutdown (plugins : list hooks) : list call :=
  off "mousemove" onMouseMove ++ off "mouseleave" onMouseLeave ++ off "click" onClick ++
  concat (hook_shutdown <$> plugins).

(** [setupCanvases] of the next plot in the same element: the old one is shut
    down, and what is left on the canvases is unbound. *)
Definition replaced (plugins : list hooks) : list call := shutdown plugins ++ (CUnbindAll <$> eventHolder).

(** ** Between the two *)

(** A press of the left button on the canvas, with the closure that the
    selection plugin makes for it; a release of the button; and a call of the
    page. *)
Inductive move := Press (f : nat) | Release | Others (c : call).

(** The calls made meanwhile, [up] being [mouseUpHandler] and [waiting] the
    closures bound to the document, all of which unbind themselves when the
    button is released; and [mouseUpHandler] in the end. *)
Fixpoint during (draggable : bool) (up : option nat) (waiting : list nat) (ms : list move) : list call * option nat :=
  match ms with
  | [] => ([], up)
  | Press f :: ms =>
      if draggable then
        let '(cs, up) := during draggable (Some f) (waiting ++ [f]) ms in
        (CBind document "mouseup" f NoData :: cs, up)
      else during draggable up waiting ms
  | Release :: ms =>
      let '(cs, up) := during draggable (match waiting with [] => up | _ => None end) [] ms in
      (((λ f, CUnbind document "mouseup" f) <$> waiting) ++ cs, up)
  | Others c :: ms =>
      let '(cs, up) := during draggable up waiting ms in (c :: cs, up)
  end.

(** A plot with its plugins from [bindEvents] to [shutdown]. *)
Definition draggable (ps : list plugin) : bool := bool_decide (Selection ∈ ps) && selection_mode o.
Definition life (ps : list plugin) (ms : list move) : list call :=
  let '(cs, up) := during (draggable ps) None [] ms in
  bindEvents (hooks_of None <$> ps) ++ cs ++ shutdown (hooks_of up <$> ps).

Definition others (ms : list move) : list call := omap (λ m, match m with Others c => Some c | _ => None end) ms.
Definition presses (ms : list move) : list nat := omap (λ m, match m with Press f => Some f | _ => None end) ms.

(** Every press is released before the next one. *)
Fixpoint orderly (pressed : bool) (ms : list move) : bool :=
  match ms with
  | [] => true
  | Press _ :: ms => negb pressed && orderly true ms
  | Release :: ms => orderly false ms
  | Others _ :: ms => orderly pressed ms
  end.

(** The functions of the plot. *)
Definition plot_fns : list nat :=
  fn <$> [onMouseMove; onMouseLeave; onClick; selection_onMouseMove; selection_onMouseDown;
          crosshair_onMouseOut; crosshair_onMouseMove; onZoomClick; onMouseWheel; onDragStart; onDrag; onDragEnd;
          onResize; pie_onMouseMove; pie_onClick].
Lemma plot_fn_in x : fn x ∈ plot_fns.
Proof. apply list_elem_of_fmap_2. rewrite list_elem_of_In. destruct x; cbn; tauto. Qed.

(** A call of the page is about functions of its own, and takes the
    functions of others off the canvases at most. *)
Definition own_call (fs : list nat) (c : call) : Prop :=
  match c with
  | CBind _ _ f _ | CUnbind _ _ f => f ∉ fs
  | CUnbindType e t => ¬ (e = document ∧ t = "mouseup")
  | CUnbindAll e => e ≠ document
  end.

(** ** Binding and unbinding *)

Definition binds (c : call) : bool := match c with CBind _ _ _ _ => true | _ => false end.
Definition unbinds (c : call) : bool := match c with CUnbind _ _ _ => true | _ => false end.

Lemma binds_effect e t fs cs :
  Forall binds cs → ∃ gs, foldl (effect e t) fs cs = fs ++ gs ∧ ∀ g, g ∈ gs → ∃ d, CBind e t g d ∈ cs.
Proof.
  intros F. revert fs. induction F as [|c cs Hc F IH]; intros fs; [exists []; split; [by rewrite app_nil_r|by intros ? ?%elem_of_nil]|].
  destruct c as [e' t' f d| | |]; try done. cbn [foldl effect]. destruct (decide (e = e' ∧ t = t')) as [[<- <-]|Hne].
  - destruct (IH (fs ++ [f])) as (gs & E & G). exists (f :: gs). split; [by rewrite E, <- app_assoc|].
    intros g [-> | [d' Hg]%G]%elem_of_cons; [exists d; by left|exists d'; by right].
  - destruct (IH fs) as (gs & E & G). exists gs. split; [done|]. intros g [d' Hg]%G. exists d'. by right.
Qed.
Lemma unbinds_effect e t fs cs :
  Forall unbinds cs → foldl (effect e t) fs cs = filter (λ g, CUnbind e t g ∉ cs) fs.
Proof.
  intros F. revert fs. induction F as [|c cs Hc F IH]; intros fs; cbn [foldl].
  - symmetry. apply filter_keeps. by intros g _ ?%elem_of_nil.
  - destruct c as [|e' t' f| |]; try done. rewrite IH. cbn [effect]. case_decide as Hd.
    + destruct Hd as [<- <-]. rewrite list_filter_filter. apply list_filter_iff. intros g. rewrite not_elem_of_cons.
      split; [intros [N1 N2]; split; [congruence|done]|intros [N1 N2]; split; [done|congruence]].
    + apply list_filter_iff. intros g. rewrite not_elem_of_cons. split; [|by intros [_ ?]]. intros N. split; [|done]. intros [= -> -> ->]. by apply Hd.
Qed.

(** Everything that was bound is unbound, and nothing else. *)
Lemma bound_then_unbound e t fs bs us :
  Forall binds bs → Forall unbinds us → (∀ f d, CBind e t f d ∈ bs → CUnbind e t f ∈ us) → (∀ f, f ∈ fs → CUnbind e t f ∉ us) →
  foldl (effect e t) fs (bs ++ us) = fs.
Proof.
  intros B U Hb Hu. rewrite foldl_app. destruct (binds_effect e t fs bs B) as (gs & -> & G). rewrite unbinds_effect by done.
  rewrite filter_app, filter_keeps by done. rewrite filter_all_none; [by rewrite app_nil_r|]. intros g [d Hg]%G N. by apply N, (Hb g d).
Qed.

(** A part of the plot that binds its own functions and unbinds all of them,
    [mine] being the functions of the plot and its closures. *)
Section tidy.
Context (mine : list nat) (mine_fns : ∀ x, fn x ∈ mine).
Record tidy (h : hooks) : Prop := {
  td_binds : Forall binds (hook_bindEvents h);
  td_unbinds : Forall unbinds (hook_shutdown h);
  td_all e t f d : CBind e t f d ∈ hook_bindEvents h → CUnbind e t f ∈ hook_shutdown h;
  td_own e t f : CUnbind e t f ∈ hook_shutdown h → f ∈ mine;
  td_simple : Forall simple_call (hook_bindEvents h) ∧ Forall simple_call (hook_shutdown h);
}.

Definition core : hooks := Hooks
  ((if hoverable o then on "mousemove" onMouseMove ++ on "mouseleave" onMouseLeave else []) ++ (if clickable o then on "click" onClick else []))
  (off "mousemove" onMouseMove ++ off "mouseleave" onMouseLeave ++ off "click" onClick).

(** One function on one type, bound or not. *)
Definition pair (b : bool) (t : string) (f : plot_fn) (d : bind_data) : hooks :=
  Hooks (if b then (λ e, CBind e t (fn f) d) <$> eventHolder else []) (off t f).
Lemma tidy_pair b t f d : simple t → tidy (pair b t f d).
Proof.
  intros S. split; unfold pair, off; cbn.
  - destruct b; [|constructor]. apply Forall_fmap, Forall_true. done.
  - apply Forall_fmap, Forall_true. done.
  - intros e t' f' d'. destruct b; [|by intros ?%elem_of_nil]. intros (e' & [= -> -> -> ->] & He)%list_elem_of_fmap.
    by apply (list_elem_of_fmap_2 (λ e, CUnbind e t (fn f))).
  - intros e t' f' (e' & [= -> -> ->] & _)%list_elem_of_fmap. apply mine_fns.
  - split; [destruct b; [|constructor]|]; apply Forall_fmap, Forall_true; done.
Qed.
Lemma tidy_both h h' k :
  tidy h → tidy h' → hook_bindEvents k = hook_bindEvents h ++ hook_bindEvents h' → hook_shutdown k = hook_shutdown h ++ hook_shutdown h' → tidy k.
Proof.
  intros [A1 A2 A3 A4 [A5 A6]] [B1 B2 B3 B4 [B5 B6]] E1 E2. split; rewrite ?E1, ?E2; rewrite ?Forall_app; try done.
  - intros e t f d [H|H]%elem_of_app; apply elem_of_app; [left; by eapply A3|right; by eapply B3].
  - intros e t f [H|H]%elem_of_app; [by eapply A4|by eapply B4].
Qed.
Lemma tidy_none : tidy (Hooks [] []).
Proof. split; [constructor|constructor|by intros ? ? ? ? ?%elem_of_nil|by intros ? ? ? ?%elem_of_nil|split; constructor]. Qed.
Lemma tidy_concat ps : Forall tidy ps → tidy (Hooks (concat (hook_bindEvents <$> ps)) (concat (hook_shutdown <$> ps))).
Proof.
  induction 1 as [|h ps Hh F IH]; [apply tidy_none|].
  by apply (tidy_both h (Hooks (concat (hook_bindEvents <$> ps)) (concat (hook_shutdown <$> ps)))).
Qed.

(** Parts made of such pairs. *)
Lemma tidy_pairs (l : list (bool * string * plot_fn * bind_data)) k :
  Forall (λ '(_, t, _, _), simple t) l →
  hook_bindEvents k = concat ((λ '(b, t, f, d), hook_bindEvents (pair b t f d)) <$> l) →
  hook_shutdown k = concat ((λ '(b, t, f, d), hook_shutdown (pair b t f d)) <$> l) → tidy k.
Proof.
  revert k. induction l as [|[[[b t] f] d] l IH]; intros k F E1 E2.
  - eapply tidy_both; [apply tidy_none|apply tidy_none|done|done].
  - apply Forall_cons in F as [S F].
    apply (tidy_both (pair b t f d) (Hooks (concat ((λ '(b, t, f, d), hook_bindEvents (pair b t f d)) <$> l))
                                       (concat ((λ '(b, t, f, d), hook_shutdown (pair b t f d)) <$> l)))); [by apply tidy_pair|by apply IH|exact E1|exact E2].
Qed.

#[local] Ltac pairs l :=
  apply (tidy_pairs l);
  [ repeat (apply Forall_cons; split; [first [assumption|by repeat split]|]); by apply Forall_nil
  | unfold pair, on, off; cbn; (repeat case_match); rewrite <- ?app_assoc, ?app_nil_r; done
  | unfold pair, off; cbn; rewrite <- ?app_assoc, ?app_nil_r; done ].
Lemma tidy_core : tidy core.
Proof. pairs [(hoverable o, "mousemove", onMouseMove, NoData); (hoverable o, "mouseleave", onMouseLeave, NoData); (clickable o, "click", onClick, NoData)]. Qed.
Lemma tidy_selection up : (∀ f, up = Some f → f ∈ mine) → tidy (selection up).
Proof.
  intros U. apply (tidy_both (selection None) (Hooks [] match up with Some f => [CUnbind document "mouseup" f] | None => [] end)).
  - pairs [(selection_mode o, "mousemove", selection_onMouseMove, NoData); (selection_mode o, "mousedown", selection_onMouseDown, NoData)].
  - destruct up as [f|]; [|apply tidy_none]. split; cbn; [by constructor|by repeat constructor|by intros ? ? ? ? ?%elem_of_nil| |].
    + intros e t g [= -> -> ->]%list_elem_of_singleton. by apply U.
    + split; [constructor|]. apply Forall_singleton. by repeat split.
  - cbn. by rewrite app_nil_r.
  - cbn. by rewrite app_nil_r, <- app_assoc.
Qed.
Lemma tidy_crosshair : tidy crosshair.
Proof. pairs [(crosshair_mode o, "mouseout", crosshair_onMouseOut, NoData); (crosshair_mode o, "mousemove", crosshair_onMouseMove, NoData)]. Qed.
Lemma tidy_navigate : simple (zoom_trigger o) → tidy navigate.
Proof.
  intros S. pairs [(zoom_interactive o, zoom_trigger o, onZoomClick, NoData); (zoom_interactive o, "mousewheel", onMouseWheel, NoData);
    (pan_interactive o, "dragstart", onDragStart, Distance 10); (pan_interactive o, "drag", onDrag, NoData); (pan_interactive o, "dragend", onDragEnd, NoData)].
Qed.
Lemma tidy_resize : tidy resize.
Proof.
  assert (S : simple "resize") by (by repeat split).
  split; cbn; [by repeat constructor|by repeat constructor| | |split; constructor; (done || constructor)].
  - intros e t f d [= -> -> -> ->]%list_elem_of_singleton. by left.
  - intros e t f [= -> -> ->]%list_elem_of_singleton. apply mine_fns.
Qed.

(** The plot is one more such part. *)
Lemma tidy_hooks up p : simple (zoom_trigger o) → (∀ f, up = Some f → f ∈ mine) → p ≠ Pie → tidy (hooks_of up p).
Proof.
  intros S U N. destruct p; [by apply tidy_selection|apply tidy_crosshair|by apply tidy_navigate|apply tidy_resize|done].
Qed.
Lemma bindEvents_core plugins : bindEvents plugins = concat (hook_bindEvents <$> core :: plugins).
Proof. unfold bindEvents. cbn. by rewrite <- app_assoc. Qed.
Lemma shutdown_core plugins : shutdown plugins = concat (hook_shutdown <$> core :: plugins).
Proof. unfold shutdown. cbn. by rewrite <- !app_assoc. Qed.
Lemma tidy_plot up ps :
  simple (zoom_trigger o) → (∀ f, up = Some f → f ∈ mine) → Pie ∉ ps →
  tidy (Hooks (bindEvents (hooks_of up <$> ps)) (shutdown (hooks_of up <$> ps))).
Proof.
  intros S U N. rewrite bindEvents_core, shutdown_core. apply tidy_concat, Forall_cons. split; [apply tidy_core|].
  apply Forall_fmap, Forall_forall. intros p Hp. apply tidy_hooks; [done..|]. by intros ->.
Qed.

(** What happens on one element. *)
Definition element_of (c : call) : nat := match c with CBind e _ _ _ | CUnbind e _ _ | CUnbindType e _ | CUnbindAll e => e end.
Definition only (e : nat) (cs : list call) : list call := filter (λ c, element_of c = e) cs.
Lemma only_app e cs cs' : only e (cs ++ cs') = only e cs ++ only e cs'.
Proof. apply filter_app. Qed.
Lemma only_effect e t fs cs : foldl (effect e t) fs (only e cs) = foldl (effect e t) fs cs.
Proof.
  revert fs. induction cs as [|c cs IH]; intros fs; [done|]. unfold only in *. rewrite filter_cons. case_decide as Hd; [apply IH|].
  rewrite IH. cbn [foldl]. f_equal. destruct c; cbn in *; rewrite ?decide_False by naive_solver; done.
Qed.
Lemma only_concat e (css : list (list call)) : only e (concat css) = concat (only e <$> css).
Proof. induction css as [|cs css IH]; [done|]. rewrite fmap_cons. cbn [concat]. by rewrite only_app, IH. Qed.
Lemma only_other e (g : nat → call) : (∀ e', element_of (g e') = e') → e ∉ eventHolder → only e (g <$> eventHolder) = [].
Proof. intros G N. apply filter_all_none. intros c (e' & -> & He)%list_elem_of_fmap Hc. rewrite G in Hc. by subst e'. Qed.
Lemma Forall_only (P : call → Prop) e cs : Forall P cs → Forall P (only e cs).
Proof. rewrite !Forall_forall. intros F c [_ Hc]%list_elem_of_filter. by apply F. Qed.
Definition at_element (e : nat) (h : hooks) : hooks := Hooks (only e (hook_bindEvents h)) (only e (hook_shutdown h)).
Lemma tidy_at e h : tidy h → tidy (at_element e h).
Proof.
  intros [T1 T2 T3 T4 [T5 T6]]. split; cbn.
  - by apply Forall_only.
  - by apply Forall_only.
  - intros e' t f d [E Hc]%list_elem_of_filter. apply list_elem_of_filter. split; [done|]. by eapply T3.
  - intros e' t f [_ Hc]%list_elem_of_filter. by eapply T4.
  - split; by apply Forall_only.
Qed.
(** Of the plugins, only the pie plugin is no such part; it is one outside
    the canvases. *)
Lemma tidy_pie e : e ∉ eventHolder → tidy (at_element e pie).
Proof.
  intros N. assert (E : only e (hook_bindEvents pie) = []); [|unfold at_element; rewrite E; apply tidy_none].
  unfold pie, on. cbn [hook_bindEvents]. do 2 case_match; by rewrite ?only_app, ?only_other.
Qed.
Lemma at_concat e ps :
  only e (concat (hook_bindEvents <$> ps)) = concat (hook_bindEvents <$> (at_element e <$> ps)) ∧
  only e (concat (hook_shutdown <$> ps)) = concat (hook_shutdown <$> (at_element e <$> ps)).
Proof. rewrite !only_concat, <- !list_fmap_compose. done. Qed.
Lemma tidy_any e ps :
  simple (zoom_trigger o) → e ∉ eventHolder →
  tidy (Hooks (only e (bindEvents (hooks_of None <$> ps))) (only e (shutdown (hooks_of None <$> ps)))).
Proof.
  intros S N. rewrite bindEvents_core, shutdown_core. destruct (at_concat e (core :: (hooks_of None <$> ps))) as [-> ->].
  apply tidy_concat, Forall_fmap, Forall_cons. split; [apply tidy_at, tidy_core|]. apply Forall_fmap, Forall_forall.
  intros p _. destruct (decide (p = Pie)) as [-> |Hp]; [by apply tidy_pie|]. by apply tidy_at, tidy_hooks.
Qed.
End tidy.

(** *** What is left of the plot *)

Section left.
Context (e : nat) (t : string) (fs : list nat).

(** A call about a function of [fs], which the others do not feel. *)
Definition about (c : call) : Prop := match c with CBind _ _ f _ | CUnbind _ _ f => f ∈ fs | _ => False end.
Definition strange (gs : list nat) : list nat := filter (λ g, g ∉ fs) gs.

Lemma strange_about gs c : about c → strange (effect e t gs c) = strange gs.
Proof.
  unfold strange. destruct c as [e' t' f d|e' t' f| |]; cbn; try done; intros Hf; case_decide; try done.
  - rewrite filter_app. replace (filter (λ g, g ∉ fs) [f]) with (@nil nat); [by rewrite app_nil_r|].
    symmetry. apply filter_all_none. intros g ->%list_elem_of_singleton N. by apply N.
  - rewrite list_filter_filter. apply list_filter_iff. intros g. split; [by intros []|]. intros Hg. split; [done|]. by intros ->.
Qed.
Lemma strange_own gs c : own_call fs c → strange (effect e t gs c) = effect e t (strange gs) c.
Proof.
  unfold strange. destruct c as [e' t' f d|e' t' f| |]; cbn; intros Hf; case_decide; try done.
  - rewrite filter_app. f_equal. apply filter_keeps. by intros g ->%list_elem_of_singleton.
  - rewrite !list_filter_filter. apply list_filter_iff. tauto.
Qed.
Lemma strange_abouts gs cs : Forall about cs → strange (foldl (effect e t) gs cs) = strange gs.
Proof.
  intros F. revert gs. induction F as [|c cs Hc F IH]; intros gs; [done|]. cbn [foldl]. by rewrite IH, strange_about.
Qed.

(** The calls between: only those of the page matter to the others. *)
Lemma strange_during b up waiting ms gs :
  Forall (own_call fs) (others ms) → (∀ f, f ∈ presses ms ++ waiting → f ∈ fs) →
  strange (foldl (effect e t) gs (during b up waiting ms).1) = foldl (effect e t) (strange gs) (others ms).
Proof.
  revert up waiting gs. induction ms as [|m ms IH]; intros up waiting gs O M; [done|]. destruct m as [f| |c]; cbn in *.
  - destruct b.
    + specialize (IH (Some f) (waiting ++ [f]) (effect e t gs (CBind document "mouseup" f NoData)) O).
      destruct (during true (Some f) (waiting ++ [f]) ms) as [cs up']. cbn in *. rewrite IH.
      * f_equal. apply (strange_about gs (CBind document "mouseup" f NoData)). apply M. by left.
      * intros g Hg. apply M. rewrite !elem_of_app, list_elem_of_singleton in Hg. rewrite elem_of_cons, elem_of_app. tauto.
    + apply IH; [done|]. intros g Hg. apply M. by right.
  - set (up1 := match waiting with [] => up | _ => None end). specialize (IH up1 []).
    destruct (during b up1 [] ms) as [cs up']. cbn in *. rewrite foldl_app, IH; [|done|].
    + f_equal. apply strange_abouts, Forall_fmap, Forall_forall. intros f Hf. apply M, elem_of_app. by right.
    + intros g. rewrite app_nil_r. intros Hg. apply M, elem_of_app. by left.
  - apply Forall_cons in O as [Oc O]. specialize (IH up waiting (effect e t gs c) O M).
    destruct (during b up waiting ms) as [cs up']. cbn in *. by rewrite IH, strange_own.
Qed.

(** The functions of the plot that are bound at any time: those of
    [bindEvents], and the closure that [mouseUpHandler] knows. *)
Definition known (bs : list call) (up : option nat) (g : nat) : Prop :=
  g ∉ fs ∨ (∃ d, CBind e t g d ∈ bs) ∨ ((e = document ∧ t = "mouseup") ∧ up = Some g).

Lemma known_effect bs up gs c :
  own_call fs c → (∀ g, g ∈ gs → known bs up g) → ∀ g, g ∈ effect e t gs c → known bs up g.
Proof.
  intros O K g. destruct c as [e' t' f d|e' t' f| |]; cbn in *; case_decide; try apply K; try by intros ?%elem_of_nil.
  - intros [Hg|Hg]%elem_of_app; [by apply K|]. apply list_elem_of_singleton in Hg as ->. by left.
  - intros [_ Hg]%list_elem_of_filter. by apply K.
Qed.
Lemma known_during bs b pressed up ms gs :
  orderly pressed ms = true → (is_Some up → pressed = true) → Forall (own_call fs) (others ms) →
  (∀ g, g ∈ gs → known bs up g) →
  ∀ g, g ∈ foldl (effect e t) gs (during b up (option_list up) ms).1 →
       known bs (during b up (option_list up) ms).2 g.
Proof.
  revert pressed up gs. induction ms as [|m ms IH]; intros pressed up gs R U O K; [done|].
  destruct m as [f| |c]; cbn in *.
  - apply andb_true_iff in R as [R1 R2]. apply negb_true_iff in R1. destruct b; [|by apply (IH true)].
    destruct up as [f'|]; [by rewrite U in R1|]. specialize (IH true (Some f) (effect e t gs (CBind document "mouseup" f NoData)) R2).
    change (option_list None ++ [f]) with (option_list (Some f)).
    destruct (during true (Some f) (option_list (Some f)) ms) as [cs up']. cbn in *.
    apply IH; [done|done|]. intros g. case_decide as Hd; [rewrite elem_of_app; intros [Hg|Hg]|intros Hg].
    + destruct (K g Hg) as [?|[?|[_ ?]]]; [by left|by right; left|done].
    + apply list_elem_of_singleton in Hg as ->. by right; right.
    + destruct (K g Hg) as [?|[?|[_ ?]]]; [by left|by right; left|done].
  - replace (match option_list up with [] => up | _ => None end) with (@None nat) by (by destruct up).
    specialize (IH false None (foldl (effect e t) gs ((λ f, CUnbind document "mouseup" f) <$> option_list up)) R).
    destruct (during b None [] ms) as [cs up'] eqn:E. cbn in *. rewrite E in IH. rewrite foldl_app.
    apply IH; [by intros []|done|]. intros g Hg. rewrite unbinds_effect in Hg by (by apply Forall_fmap, Forall_true).
    apply list_elem_of_filter in Hg as [N Hg]. destruct (K g Hg) as [?|[?|[[-> ->] ->]]]; [by left|by right; left|].
    destruct N. by left.
  - apply Forall_cons in O as [Oc O]. specialize (IH pressed up (effect e t gs c) R U O).
    destruct (during b up (option_list up) ms) as [cs up']. cbn in *.
    apply IH. by apply known_effect.
Qed.
End left.

Section page.
Context {W : Type} `{EventTarget W}.
Implicit Types (w : W) (e : nat) (t : string).

Lemma bindEvents_up up ps : bindEvents (hooks_of up <$> ps) = bindEvents (hooks_of None <$> ps).
Proof.
  rewrite !bindEvents_core. do 2 rewrite fmap_cons. cbn [concat]. do 2 f_equal. rewrite <- !list_fmap_compose.
  apply list_fmap_ext. by intros _ [] _.
Qed.
Lemma during_up b up waiting ms f : (during b up waiting ms).2 = Some f → f ∈ presses ms ∨ up = Some f.
Proof.
  revert up waiting. induction ms as [|m ms IH]; intros up waiting; [by right|]. destruct m as [f'| |c]; cbn.
  - rewrite elem_of_cons. destruct b; [|intros [|]%IH; tauto]. specialize (IH (Some f') (waiting ++ [f'])).
    destruct (during true (Some f') (waiting ++ [f']) ms). cbn in *. intros [|[= ->]]%IH; tauto.
  - specialize (IH (match waiting with [] => up | _ => None end) []).
    destruct (during b _ [] ms). cbn in *. intros [|]%IH; [by left|]. destruct waiting; [by right|done].
  - specialize (IH up waiting). by destruct (during b up waiting ms).
Qed.
Lemma during_still up waiting ms : up = None → (during false up waiting ms).2 = None.
Proof.
  intros ->. revert waiting. induction ms as [|[f| |c] ms IH]; intros waiting; [done|apply IH| |]; cbn.
  - replace (match waiting with [] => None | _ => None end) with (@None nat) by (by destruct waiting).
    specialize (IH []). by destruct (during false None [] ms).
  - specialize (IH waiting). by destruct (during false None waiting ms).
Qed.
Lemma shutdown_up f ps : Selection ∈ ps → CUnbind document "mouseup" f ∈ shutdown (hooks_of (Some f) <$> ps).
Proof.
  intros I. rewrite shutdown_core, fmap_cons. cbn [concat]. apply elem_of_app. right. apply list_elem_of_In, in_concat.
  exists (hook_shutdown (selection (Some f))). split; apply list_elem_of_In.
  - rewrite <- list_fmap_compose. by apply (list_elem_of_fmap_2 (hook_shutdown ∘ hooks_of (Some f)) ps Selection).
  - cbn [selection hook_shutdown]. rewrite !elem_of_app. do 2 right. by left.
Qed.
Lemma during_simple b up waiting ms : Forall simple_call (others ms) → Forall simple_call (during b up waiting ms).1.
Proof.
  revert up waiting. induction ms as [|m ms IH]; intros up waiting O; [constructor|]. destruct m as [f'| |c]; cbn in *.
  - destruct b; [|by apply IH]. specialize (IH (Some f') (waiting ++ [f']) O).
    destruct (during true (Some f') (waiting ++ [f']) ms). apply Forall_cons. split; [by repeat split|done].
  - specialize (IH (match waiting with [] => up | _ => None end) [] O).
    destruct (during b _ [] ms). apply Forall_app. split; [|done]. apply Forall_fmap, Forall_true. by repeat split.
  - apply Forall_cons in O as [Oc O]. specialize (IH up waiting O). destruct (during b up waiting ms). by apply Forall_cons.
Qed.
Lemma tidy_about mine h : tidy mine h → Forall (about mine) (hook_bindEvents h ++ hook_shutdown h).
Proof.
  intros [T1 T2 T3 T4 _]. rewrite Forall_forall in T1, T2. apply Forall_app.
  split; apply Forall_forall; intros c Hc.
  - specialize (T1 c Hc). destruct c; try done. by eapply T4, T3.
  - specialize (T2 c Hc). destruct c; try done. by eapply T4.
Qed.

Lemma known_shut ps ms f :
  (during (draggable ps) None [] ms).2 = Some f →
  CUnbind document "mouseup" f ∈ shutdown (hooks_of (during (draggable ps) None [] ms).2 <$> ps).
Proof.
  intros E. rewrite E. destruct (draggable ps) eqn:D; [|by rewrite during_still in E].
  apply andb_true_iff in D as [D _]. apply bool_decide_eq_true in D. by apply shutdown_up.
Qed.

(** C18: from [bindEvents] to [shutdown], a plot with the selection, crosshair,
    navigate and resize plugins, or some of them, leaves on every element of
    the page the handlers that the calls of the page alone would have left, in
    their order, whichever options are set: what the plot binds is unbound,
    the handler on the document of a drag under way included, and no handler
    of anyone else is touched.  Selections may be dragged and the page may bind
    and unbind its own functions meanwhile; it does not take the plot's handler
    off the document, and every press is released before the next one (a second
    press leaves the first handler on the document: see [second_press]).  The
    pie plugin is left out, as it does take the handlers of others and leave its
    own (see [pie_takes_all]). *)
Theorem plot_events_gone w ps ms :
  page_ok w → simple (zoom_trigger o) → Pie ∉ ps → orderly false ms = true →
  Forall (λ c, simple_call c ∧ own_call (plot_fns ++ presses ms) c) (others ms) →
  (∀ f e t, f ∈ plot_fns ++ presses ms → f ∉ bound_to w e t) →
  ∀ e t, bound_to (performs (life ps ms) w) e t = bound_to (performs (others ms) w) e t.
Proof.
  intros P S I R O N e t. set (fs := plot_fns ++ presses ms) in *. apply Forall_and in O as [O1 O2].
  assert (Fs : ∀ x, fn x ∈ fs) by (intros x; apply elem_of_app; left; apply plot_fn_in).
  assert (Fp : ∀ f, f ∈ presses ms → f ∈ fs) by (intros f Hf; apply elem_of_app; by right).
  clearbody fs. unfold life. pose proof (during_up (draggable ps) None [] ms) as U.
  pose proof (during_simple (draggable ps) None [] ms O1) as DS.
  pose proof (known_during e t fs (bindEvents (hooks_of None <$> ps)) (draggable ps) false None ms) as DK.
  pose proof (λ gs, strange_during e t fs (draggable ps) None [] ms gs O2) as DO.
  change (option_list (@None nat)) with (@nil nat) in DK.
  pose proof (known_shut ps ms) as DU.
  destruct (during (draggable ps) None [] ms) as [cs up]. cbn [fst snd] in *.
  assert (Fu : ∀ f, up = Some f → f ∈ fs) by (intros f [Hf|?]%U; [by apply Fp|done]).
  pose proof (tidy_plot fs Fs up ps S Fu I) as T. rewrite bindEvents_up in T.
  pose proof (tidy_about fs _ T) as [A1 A2]%Forall_app. destruct T as [T1 T2 T3 T4 [T5 T6]].
  cbn [hook_bindEvents hook_shutdown] in *.
  rewrite (proj1 (performs_bound _ w e t P (Forall_app_2 _ _ _ T5 (Forall_app_2 _ _ _ DS T6)))), (proj1 (performs_bound _ w e t P O1)).
  set (gs := bound_to w e t). rewrite !foldl_app.
  assert (Gs : strange fs gs = gs) by (apply filter_keeps; intros f Hf Hin; by apply (N f e t)).
  rewrite <- Gs at 2. rewrite <- (strange_abouts e t fs gs _ A1), <- DO, <- (strange_abouts e t fs _ _ A2).
  - symmetry. apply filter_keeps. intros g Hg Hin. rewrite unbinds_effect in Hg by done.
    apply list_elem_of_filter in Hg as [Hu Hg]. apply DK in Hg; [|done|by intros []|done|].
    + destruct Hg as [?|[[d Hd]|[[-> ->] Hup]]]; [done|by apply Hu, (T3 e t g d)|]. by apply Hu, DU.
    + intros f Hf. destruct (binds_effect e t gs _ T1) as (bs & E & B). rewrite E in Hf.
      apply elem_of_app in Hf as [Hf|Hf]; [left; intros Hi; by apply (N f e t)|right; left; by apply B].
  - intros f. rewrite app_nil_r. apply Fp.
Qed.

Lemma all_effect e t fs es : e ∈ es → foldl (effect e t) fs (CUnbindAll <$> es) = [].
Proof.
  induction es as [|e' es IH] in fs |- *; [by intros ?%elem_of_nil|]. rewrite fmap_cons. cbn [foldl effect].
  destruct (decide (e ∈ es)) as [He|He]; [intros _; by apply IH|]. intros [<- |?]%elem_of_cons; [|done].
  rewrite decide_True by done. clear IH. induction es as [|e' es IH]; [done|]. rewrite fmap_cons. cbn [foldl effect].
  apply not_elem_of_cons in He as [He1 He2]. rewrite decide_False by done. by apply IH.
Qed.
Lemma simple_pie : Forall simple_call (hook_bindEvents pie).
Proof.
  assert (E : ∀ g : nat → call, (∀ e, simple_call (g e)) → Forall simple_call (g <$> eventHolder)) by (intros g G; by apply Forall_fmap, Forall_true).
  unfold pie, on. cbn [hook_bindEvents]. rewrite Forall_app.
  split; case_match; try apply Forall_nil_2; apply Forall_app; split; apply E; intros e; by repeat split.
Qed.
Lemma simple_replaced ps :
  simple (zoom_trigger o) → Forall simple_call (bindEvents (hooks_of None <$> ps) ++ replaced (hooks_of None <$> ps)).
Proof.
  intros S. unfold replaced. rewrite bindEvents_core, shutdown_core, !Forall_app, !Forall_concat, !Forall_fmap.
  assert (P : Forall (λ h, Forall simple_call (hook_bindEvents h) ∧ Forall simple_call (hook_shutdown h)) (core :: (hooks_of None <$> ps))).
  { apply Forall_cons. split; [apply (tidy_core _ plot_fn_in)|]. apply Forall_fmap, Forall_forall. intros p _.
    destruct (decide (p = Pie)) as [-> |Hp]; [split; [apply simple_pie|constructor]|]. by apply (tidy_hooks _ plot_fn_in). }
  split; [|split]; [apply (Forall_impl _ _ _ P); by intros h []|apply (Forall_impl _ _ _ P); by intros h []|by apply Forall_true].
Qed.

(** When a plot replaces another in the same element, with no selection
    being dragged, nothing is bound to
    the two canvases afterwards, whatever the plugins had bound there (the
    pie plugin, which never unbinds, included), and the other elements have
    the handlers that they had before the first plot. *)
Theorem replaced_clean w ps :
  page_ok w → simple (zoom_trigger o) →
  (∀ f e t, f ∈ plot_fns → f ∉ bound_to w e t) →
  ∀ e t, bound_to (performs (bindEvents (hooks_of None <$> ps) ++ replaced (hooks_of None <$> ps)) w) e t =
         if decide (e ∈ eventHolder) then [] else bound_to w e t.
Proof.
  intros P S N e t. rewrite (proj1 (performs_bound _ w e t P (simple_replaced ps S))).
  unfold replaced. rewrite app_assoc, foldl_app. case_decide as He; [by apply all_effect|].
  rewrite <- only_effect, (only_other e CUnbindAll) by done. cbn [foldl]. rewrite <- only_effect, only_app.
  destruct (tidy_any plot_fns plot_fn_in e ps S He) as [T1 T2 T3 T4 _]. apply bound_then_unbound; [done|done|apply T3|].
  intros f Hf Hu. by apply (N f e t), Hf; apply (T4 e t f Hu).
Qed.
End page.
End plot.

(** ** Examples *)

(** A canvas and its overlay in an element, a page that bound two functions
    of its own to the overlay, and all options. *)
Definition page_fn (x : plot_fn) : nat :=
  match x with
  | onMouseMove => 0 | onMouseLeave => 1 | onClick => 2 | selection_onMouseMove => 3 | selection_onMouseDown => 4
  | crosshair_onMouseOut => 5 | crosshair_onMouseMove => 6 | onZoomClick => 7 | onMouseWheel => 8 | onDragStart => 9
  | onDrag => 10 | onDragEnd => 11 | onResize => 12 | pie_onMouseMove => 13 | pie_onClick => 14
  end.
Definition all_options : event_options := EventOptions true true true true true "dblclick" true true.
#[local] Instance a_page : EventTarget (world bind_data) := jq_target always.
Definition bare : world bind_data := World 1 (λ _, 0) ∅ ∅.
Definition own_page : world bind_data := bind_to 1 "click" 21 NoData (bind_to 1 "mousemove" 20 NoData bare).

Lemma bare_handlers e t : bound_to bare e t = [].
Proof. reflexivity. Qed.
Lemma bare_ok : page_ok bare.
Proof.
  assert (E : ∀ e, elem bare e = plain_element) by (intros e; unfold elem; cbn; by rewrite lookup_empty).
  split; [apply page_start; [done|cbn; lia|intros e; by rewrite E]|]. intros e. rewrite E. split; [by split|]. apply map_Forall_empty.
Qed.
Lemma own_page_ok : page_ok own_page.
Proof. unfold own_page. apply bind_page; [apply bind_page; [apply bare_ok|]|]; by repeat split. Qed.
Lemma own_page_fns f e t : f ∉ [20; 21] → f ∉ bound_to own_page e t.
Proof.
  unfold own_page. rewrite !bind_bound, bare_handlers; [|apply bare_ok|by repeat split|apply bind_page; [apply bare_ok|by repeat split]|by repeat split].
  rewrite !not_elem_of_cons. intros (? & ? & _).
  repeat case_decide; rewrite ?elem_of_app, ?list_elem_of_singleton, ?elem_of_nil; tauto.
Qed.

(** A selection that is dragged and released, and one under way when the plot
    is shut down; the page, whose document is 3, binds and unbinds meanwhile. *)
Definition some_moves : list move :=
  [Press 50; Others (CBind 1 "click" 30 NoData); Release; Press 51; Others (CUnbind 1 "click" 21)].
Definition page_life (ps : list plugin) (ms : list move) : list call := life page_fn [1; 2] 0 3 all_options ps ms.

Lemma plot_events_gone_witness :
  let w := performs (page_life [Selection; Crosshair; Navigate; Resize] some_moves) own_page in
  bound_to w 1 "mousemove" = [20] ∧ bound_to w 1 "click" = [30] ∧ bound_to w 3 "mouseup" = [].
Proof.
  assert (F : ∀ f e t, f ∈ plot_fns page_fn ++ presses some_moves → f ∉ bound_to own_page e t).
  { intros f e t Hf. apply own_page_fns. intros Hi. revert Hf. rewrite !elem_of_cons, elem_of_nil in Hi.
    destruct Hi as [-> |[-> |[]]]; apply (bool_decide_unpack (_ ∉ _)); vm_compute; done. }
  cbv zeta. unfold page_life.
  split; [|split]; rewrite (plot_events_gone page_fn [1; 2] 0 3 all_options own_page);
    first [vm_compute; reflexivity|apply own_page_ok|exact F|by apply (bool_decide_unpack (Pie ∉ _))
          |by repeat split|repeat constructor; by apply (bool_decide_unpack (_ ∉ _))].
Defined.

Lemma replaced_clean_witness :
  let plugins := hooks_of page_fn [1; 2] 0 3 all_options None <$> [Pie; Selection; Crosshair; Navigate; Resize] in
  let w := performs (bindEvents page_fn [1; 2] all_options plugins ++ replaced page_fn [1; 2] plugins) own_page in
  bound_to w 1 "mousemove" = [] ∧ bound_to w 0 "resize" = [].
Proof.
  assert (F : ∀ f e t, f ∈ plot_fns page_fn → f ∉ bound_to own_page e t).
  { intros f e t Hf. apply own_page_fns. intros Hi. revert Hf. rewrite !elem_of_cons, elem_of_nil in Hi.
    destruct Hi as [-> |[-> |[]]]; apply (bool_decide_unpack (_ ∉ _)); vm_compute; done. }
  cbv zeta. split; rewrite (replaced_clean page_fn [1; 2] 0 3 all_options own_page);
    first [reflexivity|apply own_page_ok|by repeat split|exact F].
Defined.

(** The pie plugin takes the handlers of the page with those of the plot, and
    leaves its own behind. *)
Example pie_takes_all :
  let plugins := [pie page_fn [1; 2] all_options] in
  let w := performs (bindEvents page_fn [1; 2] all_options plugins) own_page in
  let w' := performs (shutdown page_fn [1; 2] plugins) w in
  bound_to w 1 "mousemove" = [13] ∧ bound_to w 1 "click" = [14] ∧ bound_to w' 1 "mousemove" = [13] ∧ bound_to w' 1 "mouseleave" = [].
Proof. repeat split; vm_compute; reflexivity. Qed.

(** When the release of a first press is missed (outside the window, say),
    [mouseUpHandler] is overwritten by the second one: shutting the plot down
    leaves the first handler on the document. *)
Example second_press :
  bound_to (performs (page_life [Selection] [Press 50; Press 51]) own_page) 3 "mouseup" = [50].
Proof. vm_compute. reflexivity. Qed.
