(* ===== verification/JQueryConvert.v ===== *)
(** How a reply becomes the value that a request gives ([static/flot/jquery.js]):
    the headers of the reply, the type that is expected of it
    ([ajaxHandleResponses]) and the conversions ([ajaxConvert]); and the value
    for each type with the settings of the library. *)

From S2P Require Import Prelude JsText.
From stdpp Require Import sets.
From Stdlib Require Import Ascii.

(** ** Objects as maps in the order of insertion *)

Fixpoint assoc_get {A} (k : string) (m : list (string * A)) : option A :=
  match m with [] => None | (k', v) :: m => if String.eqb k k' then Some v else assoc_get k m end.
Fixpoint assoc_set {A} (k : string) (v : A) (m : list (string * A)) : list (string * A) :=
  match m with
  | [] => [(k, v)]
  | (k', v') :: m => if String.eqb k k' then (k', v) :: m else (k', v') :: assoc_set k v m
  end.
Definition has {A} (k : string) (m : list (string * A)) : bool := bool_decide (is_Some (assoc_get k m)).

(** ** Headers *)

Definition line_end (c : ascii) : bool := (c =? "010")%char || (c =? "013")%char.
Definition blank (c : ascii) : bool := (c =? " ")%char || (c =? "009")%char.

(** The expression [rheaders] matches each line that has a colon: what is
    before the first one, and what follows it without blanks in front. *)
Fixpoint lines (s : string) : list string :=
  match s with
  | "" => [""]
  | String c s =>
      if line_end c then "" :: lines s
      else match lines s with [] => [String c ""] | l :: ls => String c l :: ls end
  end.
Definition header_line (l : string) : option (string * string) :=
  match span (λ c, negb (c =? ":")%char) l with
  | (key, String _ rest) => Some (to_lower key, (span blank rest).2)
  | _ => None
  end.
Definition response_headers (s : string) : list (string * string) :=
  foldl (λ m l, match header_line l with Some (k, v) => assoc_set k v m | None => m end) [] (lines s).

(** [getResponseHeader] of a request that is done. *)
Definition response_header (headers key : string) : option string := assoc_get (to_lower key) (response_headers headers).

(** [setRequestHeader]: the first letters are capitals. *)
Definition upper_char (c : ascii) : ascii :=
  let n := N_of_ascii c in if ((97 <=? n) && (n <=? 122))%N then ascii_of_N (n - 32)%N else c.
Fixpoint capitals (first : bool) (s : string) : string :=
  match s with
  | "" => ""
  | String c s => String (if first then upper_char c else c) (capitals (c =? "-")%char s)
  end.
Definition header_name (name : string) : string := capitals true (to_lower name).

(** A text that is not [undefined] nor empty. *)
Definition truthy (s : option string) : option string := match s with Some "" => None | s => s end.

Section convert.
(** The values: texts, documents, what converters make of them. *)
Context {V : Type}.

(** A converter: [true], which converts nothing, or a function. *)
Inductive conv := Same | By (f : V → result V).

(** ** [ajaxHandleResponses] *)

Fixpoint drop_auto (types : list string) : list string :=
  match types with "*" :: types => drop_auto types | _ => types end.

(** The first content type, of those that are known, that the header has. *)
Fixpoint content_type (contents : list (string * (string → bool))) (ct : string) : option string :=
  match contents with [] => None | (type, test) :: cs => if test ct then Some type else content_type cs ct end.

(** The first response that can be converted, else the first. *)
Fixpoint convertible (convs : list (string * conv)) (want : option string) (first : option string)
    (responses : list (string * V)) : option string :=
  match responses with
  | [] => first
  | (type, _) :: rs =>
      if match want with None => true | Some t => has (type +:+ " " +:+ t) convs end then Some type
      else convertible convs want (match first with None => truthy (Some type) | f => f end) rs
  end.

(** [mime] is [s.mimeType], [header] the content type of the reply; the
    result has the data types that are left and the response. *)
Definition ajaxHandleResponses (contents : list (string * (string → bool))) (convs : list (string * conv))
    (types : list string) (mime header : option string) (responses : list (string * V)) : list string * option V :=
  let ct := match types with
            | "*" :: _ => match truthy mime with Some m => Some m | None => header end
            | _ => None
            end in
  let types := drop_auto types in
  let types := match truthy ct with
               | Some ct => match content_type contents ct with Some type => type :: types | None => types end
               | None => types
               end in
  let final := if has (default "undefined" (head types)) responses then head types
               else truthy (convertible convs (truthy (head types)) None responses) in
  match truthy final with
  | Some type => (if bool_decide (head types = Some type) then types else type :: types, assoc_get type responses)
  | None => (types, None)
  end.

(** ** [ajaxConvert] *)

Definition lowered (convs : list (string * conv)) : list (string * conv) :=
  foldl (λ m c, assoc_set (to_lower c.1) c.2 m) [] convs.

(** Two converters, through a type between, in the order of the first. *)
Fixpoint two_steps (convs : list (string * conv)) (prev cur : string) (firsts : list (string * conv)) : option (conv * conv) :=
  match firsts with
  | [] => None
  | (key, c1) :: firsts =>
      let tmp := split_char " "%char key in
      let source := default "undefined" (tmp !! 0) in
      let between := default "undefined" (tmp !! 1) in
      if String.eqb source prev || String.eqb source "*" then
        match assoc_get (between +:+ " " +:+ cur) convs with
        | Some c2 => Some (c1, c2)
        | None => two_steps convs prev cur firsts
        end
      else two_steps convs prev cur firsts
  end.

Definition apply (c : conv) (v : V) : result V := match c with Same => Ok v | By f => f v end.
Definition converter (convs : list (string * conv)) (prev cur : string) : option (V → result V) :=
  match assoc_get (prev +:+ " " +:+ cur) convs with
  | Some c => Some (apply c)
  | None =>
      match assoc_get ("* " +:+ cur) convs with
      | Some c => Some (apply c)
      | None =>
          match two_steps convs prev cur convs with
          | Some (Same, c2) => Some (apply c2)
          | Some (c1, Same) => Some (apply c1)
          | Some (c1, c2) => Some (λ v, w ← apply c1 v; apply c2 w)
          | None => None
          end
      end
  end.

Fixpoint convert_chain (convs : list (string * conv)) (prev : string) (types : list string) (v : V) : result V :=
  match types with
  | [] => Ok v
  | cur :: types =>
      if String.eqb cur "*" then convert_chain convs prev types v
      else if negb (String.eqb prev "*") && negb (String.eqb prev cur) then
        match converter convs prev cur with
        | None => Throw ("No conversion from " +:+ prev +:+ " to " +:+ cur)
        | Some f => v ← f v; convert_chain convs cur types v
        end
      else convert_chain convs cur types v
  end.

(** [filter] is [s.dataFilter]. *)
Definition ajaxConvert (filter : V → result V) (convs : list (string * conv)) (types : list string) (v : V) : result V :=
  v ← filter v;
  match types with [] => Ok v | first :: types => convert_chain (lowered convs) first types v end.
End convert.
Arguments conv : clear implicits.

Section settings.
(** ** The converters and content types of [jQuery.ajaxSettings] *)

(** Values: texts, documents, what a text in JSON stands for. *)
Context {doc data : Type}.
Inductive value := Undefined | Text (s : string) | Doc (d : doc) | Data (d : data).
(** [String] of a value that is no text; parsers of the language and of the
    browser, which raise errors. *)
Variable to_text : value → string.
Variable parse_json : string → result data.
Variable parse_xml : string → result doc.
(** [jQuery.globalEval] *)
Variable global_eval : string → result unit.
Definition text_of (v : value) : string := match v with Text s => s | v => to_text v end.

Definition default_converters : list (string * conv value) :=
  [("* text", By (λ v, Ok (Text (text_of v))));
   ("text html", Same);
   ("text json", By (λ v, d ← parse_json (text_of v); Ok (Data d)));
   ("text xml", By (λ v, d ← parse_xml (text_of v); Ok (Doc d)));
   ("text script", By (λ v, _ ← global_eval (text_of v); Ok v))].

(** [/xml/.test(ct)] and the like. *)
Fixpoint contains (p s : string) : bool :=
  String.prefix p s || match s with "" => false | String _ s => contains p s end.
Definition default_contents : list (string * (string → bool)) :=
  [("xml", contains "xml"); ("html", contains "html"); ("json", contains "json");
   ("script", λ ct, contains "javascript" ct || contains "ecmascript" ct)].
End settings.
Arguments value : clear implicits.

(** ** What a request gives with these settings *)

Section defaults.
Context {doc data : Type}.
#[local] Notation value := (value doc data).
Variable to_text : value → string.
Variable parse_json : string → result data.
Variable parse_xml : string → result doc.
Variable global_eval : string → result unit.
#[local] Notation converters := (default_converters to_text parse_json parse_xml global_eval).

(** What the transport gives: the text of the reply, and the document if the
    browser has read one. *)
Definition xhr_responses (xml : option doc) (t : string) : list (string * value) :=
  (match xml with Some d => [("xml", Doc d)] | None => [] end) ++ [("text", Text t)].

(** The type that is expected: the one that was asked for, or that of the
    content when any was. *)
Definition expected (want : string) (mime header : option string) : option string :=
  if String.eqb want "*" then
    match truthy (match truthy mime with Some m => Some m | None => header end) with
    | Some ct => content_type default_contents ct
    | None => None
    end
  else Some want.

(** The value of a reply of a type. *)
Definition meaning (type : option string) (xml : option doc) (t : string) : result value :=
  match type with
  | None => Ok (match xml with Some d => Doc d | None => Text t end)
  | Some type =>
      if String.eqb type "text" || String.eqb type "html" then Ok (Text t)
      else if String.eqb type "json" then d ← parse_json t; Ok (Data d)
      else if String.eqb type "xml" then match xml with Some d => Ok (Doc d) | None => d ← parse_xml t; Ok (Doc d) end
      else if String.eqb type "script" then _ ← global_eval t; Ok (Text t)
      else Throw ("No conversion from " +:+ (match xml with Some _ => "xml" | None => "text" end) +:+ " to " +:+ type)
  end.

Definition standard : list string := ["text"; "html"; "json"; "xml"; "script"].

(** The value for a list of types that begins with the one expected. *)
Definition given (types : list string) (mime header : option string) (xml : option doc) (t : string) : result value :=
  let '(types, r) := ajaxHandleResponses default_contents converters types mime header (xhr_responses xml t) in
  ajaxConvert Ok converters types (default Undefined r).

Lemma bind_ok_id {A} (m : result A) : (x ← m; Ok x) = m.
Proof. by destruct m. Qed.

Lemma given_standard want mime header xml t : want ∈ standard → given [want] mime header xml t = meaning (Some want) xml t.
Proof.
  unfold standard. rewrite !elem_of_cons, elem_of_nil. intros [-> |[-> |[-> |[-> |[-> |[]]]]]]; destruct xml as [d|]; vm_compute;
    first [done|by destruct (parse_json t)|by destruct (parse_xml t)|by destruct (global_eval t)].
Qed.

(** Another type has no converters, directly or in two steps. *)
Lemma converters_lowered : lowered converters = converters.
Proof. vm_compute. reflexivity. Qed.
Lemma no_converter prev want :
  want ∉ standard → want ≠ "*" → prev = "text" ∨ prev = "xml" → converter converters prev want = None.
Proof.
  intros N Ns P. assert (E : ∀ k, k ∈ standard → String.eqb want k = false) by (intros k Hk; apply String.eqb_neq; by intros ->).
  unfold converter, two_steps. destruct P as [-> | ->]; cbn; rewrite ?E; try done.
  all: unfold standard; set_solver.
Qed.
Lemma match_other {A} (a b : A) want : want ≠ "*" → match want with "*" => a | _ => b end = b.
Proof. destruct want as [|[[] [] [] [] [] [] [] []] [|c w]]; done. Qed.
Lemma drop_auto_other want types : want ≠ "*" → drop_auto (want :: types) = want :: types.
Proof. apply match_other. Qed.
Lemma truthy_other want : want ≠ "" → truthy (Some want) = Some want.
Proof. by destruct want. Qed.

Lemma no_source prev want : want ∉ standard → prev = "text" ∨ prev = "xml" → has (prev +:+ " " +:+ want) converters = false.
Proof.
  intros N P. assert (E : ∀ k, k ∈ standard → String.eqb want k = false) by (intros k Hk; apply String.eqb_neq; by intros ->).
  unfold has. destruct P as [-> | ->]; cbn; rewrite ?E; try done. all: unfold standard; set_solver.
Qed.
Lemma chosen_other want mime header xml t :
  want ∉ standard → want ≠ "*" → want ≠ "" →
  ajaxHandleResponses default_contents converters [want] mime header (xhr_responses xml t) =
    ([match xml with Some _ => "xml" | None => "text" end; want], Some (match xml with Some d => Doc d | None => Text t end)).
Proof.
  intros N Ns Ne. unfold ajaxHandleResponses. rewrite drop_auto_other by done. cbn [head].
  replace (match want with "*" => _ | _ => _ end) with (@None string) by (by rewrite match_other). cbn [truthy head default].
  assert (H : has (id want) (xhr_responses xml t) = false).
  { unfold has, id. assert (String.eqb want "text" = false ∧ String.eqb want "xml" = false) as [E1 E2].
    { split; apply String.eqb_neq; intros ->; apply N; unfold standard; set_solver. }
    destruct xml as [d|]; cbn; by rewrite ?E2, ?E1. }
  rewrite H. change (match want with "" => None | String _ _ => Some want end) with (truthy (Some want)). rewrite truthy_other by done.
  pose proof (no_source "text" want N (or_introl eq_refl)) as H1. pose proof (no_source "xml" want N (or_intror eq_refl)) as H2.
  assert (X : ∀ k, k ∈ standard → bool_decide (Some want = Some k) = false) by (intros k Hk; apply bool_decide_eq_false; intros [= ->]; done).
  destruct xml as [d|]; cbn [xhr_responses app convertible truthy]; rewrite H1, ?H2; cbn [truthy]; rewrite X; try done; unfold standard; set_solver.
Qed.
Lemma given_other want mime header xml t :
  want ∉ standard → want ≠ "*" → want ≠ "" → given [want] mime header xml t = meaning (Some want) xml t.
Proof.
  intros N Ns Ne. unfold given. rewrite chosen_other by done. unfold ajaxConvert. cbn [mbind result_bind default].
  rewrite converters_lowered. cbn [convert_chain]. rewrite (proj2 (String.eqb_neq want "*")) by done.
  assert (E : ∀ k, k ∈ standard → String.eqb k want = false) by (intros k Hk; apply String.eqb_neq; by intros <-).
  assert (E' : ∀ k, k ∈ standard → String.eqb want k = false) by (intros k Hk; apply String.eqb_neq; by intros ->).
  unfold meaning. rewrite !E' by (unfold standard; set_solver). cbn [orb].
  destruct xml as [d|]; rewrite E, no_converter by (done || (unfold standard; set_solver) || by auto); done.
Qed.
Lemma content_type_standard ct k : content_type default_contents ct = Some k → k ∈ standard.
Proof. cbn. unfold standard. repeat case_match; intros [= <-]; set_solver. Qed.

(** C36: the value that a request of the transport gives: for a type of the
    library's, the text itself, what the parsers make of it, or the document
    that the browser has read; for any type, that of the content, where the
    type of a script runs it; and an error for a type that nothing is converted
    to. *)
Theorem default_response want mime header xml t :
  want ≠ "" → given [want] mime header xml t = meaning (expected want mime header) xml t.
Proof.
  intros Ne. unfold expected. destruct (String.eqb_spec want "*") as [-> |Ns].
  - cbv beta iota zeta delta [given ajaxHandleResponses drop_auto]. set (ct := truthy (match truthy mime with Some m => Some m | None => header end)).
    destruct ct as [ct|]; [|by destruct xml]. destruct (content_type default_contents ct) as [k|] eqn:Ek; [|by destruct xml].
    apply content_type_standard in Ek. rewrite <- (given_standard k None None) by done. revert Ek. unfold standard.
    rewrite !elem_of_cons, elem_of_nil. by intros [-> |[-> |[-> |[-> |[-> |[]]]]]].
  - destruct (decide (want ∈ standard)); [by apply given_standard|by apply given_other].
Qed.
End defaults.

(** ** Examples *)

Lemma default_response_witness :
  given (doc := unit) (λ _, "") (λ s, Ok s) (λ _, Ok tt) (λ _, Ok tt) ["*"] None (Some "application/json; charset=utf-8") None "{}" = Ok (Data "{}").
Proof.
  rewrite (default_response (λ _, "") (λ s, Ok s) (λ _, Ok tt) (λ _, Ok tt) "*"); [vm_compute; reflexivity|discriminate].
Defined.

(** A reply whose content is a script is run when any type is asked for. *)
Example script_runs :
  given (doc := unit) (data := unit) (λ _, "") (λ _, Ok tt) (λ _, Ok tt) (λ s, Throw ("run: " +:+ s)) ["*"] None (Some "text/javascript") None "f()" =
    Throw "run: f()".
Proof. vm_compute. reflexivity. Qed.

(** Headers by their names in any case. *)
Example content_length :
  response_header ("Date: Mon" +:+ String "013" (String "010" ("Content-Length:  12" +:+ String "010" "X: a:b"))) "CONTENT-length" = Some "12".
Proof. vm_compute. reflexivity. Qed.

(** A document becomes the text of a page in two conversions. *)
Example document_html :
  ajaxConvert Ok (default_converters (doc := unit) (data := unit) (λ v, "<a/>") (λ _, Ok tt) (λ _, Ok tt) (λ _, Ok tt)) ["xml"; "html"] (Doc tt) =
    Ok (Text "<a/>").
Proof. vm_compute. reflexivity. Qed.
