(* ===== verification/JQueryTransports.v ===== *)
(** The registers of prefilters and transports of [$.ajax]
    ([static/flot/jquery.js]): [addToPrefiltersOrTransports] and
    [inspectPrefiltersOrTransports]. *)

From S2P Require Import Prelude JsText JQueryConvert.
From stdpp Require Import sets.
From Stdlib Require Import Ascii.

(** What a registered function answers: nothing, another data type, or a
    transport. *)
Inductive selection (T : Type) := Nothing | Redirect (type : string) | Chosen (t : T).
Arguments Nothing {T}. Arguments Redirect {T} type. Arguments Chosen {T} t.

(** [/\s+/] *)
Fixpoint split_spaces (s : string) : list string :=
  match s with
  | "" => [""]
  | String c s =>
      if is_space c then
        match s with
        | String d _ => if is_space d then split_spaces s else "" :: split_spaces s
        | "" => ["" ; ""]
        end
      else match split_spaces s with [] => [String c ""] | w :: ws => String c w :: ws end
  end.

Section register.
(** The settings [S], which registered functions may change. *)
Context {S T : Type}.
Definition filter_fn : Type := S → S * selection T.
Definition structure : Type := list (string * list filter_fn).

(** One type of the expression; a plus asks for the first place. *)
Definition add_one (f : filter_fn) (st : structure) (type : string) : structure :=
  match type with
  | String "+" rest =>
      let type := match rest with "" => "*" | t => t end in
      assoc_set type (f :: default [] (assoc_get type st)) st
  | _ => assoc_set type (default [] (assoc_get type st) ++ [f]) st
  end.
Definition addTo (expression : string) (f : filter_fn) (st : structure) : structure :=
  foldl (add_one f) st (split_spaces (to_lower expression)).

(** [options.dataTypes.unshift] *)
Variable unshift : string → S → S.
(** [structure === prefilters] *)
Variable executeOnly : bool.
Variable st : structure.

(** The loop over the functions of a type, [again] for another type. *)
Section visit.
Variable again : string → list string → S → result (S * list string * option T).
Fixpoint visit (fs : list filter_fn) (s : S) (inspected : list string) (sel : option T)
    : result (S * list string * option T) :=
  match fs with
  | [] => Ok (s, inspected, sel)
  | f :: fs =>
      if executeOnly || bool_decide (sel = None) then
        let '(s, answer) := f s in
        '(s, inspected, sel) ←
          match answer with
          | Nothing => Ok (s, inspected, None)
          | Chosen t => Ok (s, inspected, Some t)
          | Redirect type =>
              if negb executeOnly || bool_decide (type ∈ inspected) then Ok (s, inspected, None)
              else again type inspected (unshift type s)
          end;
        visit fs s inspected sel
      else Ok (s, inspected, sel)
  end.
End visit.

Fixpoint inspect (fuel : nat) (type : string) (inspected : list string) (s : S) : result (S * list string * option T) :=
  match fuel with
  | O => NoFuel
  | Datatypes.S fuel =>
      '(s, inspected, sel) ← visit (inspect fuel) (default [] (assoc_get type st)) s (type :: inspected) None;
      if (executeOnly || bool_decide (sel = None)) && negb (bool_decide ("*" ∈ inspected)) then
        inspect fuel "*" inspected s
      else Ok (s, inspected, sel)
  end.

(** ** Inspection ends *)

(** The types that are left: those with functions, and the one for all. *)
Definition types_left (inspected : list string) : nat := length (filter (λ k, k ∉ inspected) ("*" :: st.*1)).
Definition known (type : string) : Prop := type ∈ "*" :: st.*1.
Definition enough (type : string) (inspected : list string) : nat :=
  2 * types_left (type :: inspected) + (if decide (known type) then 2 else 1).

Lemma left_more I J : (∀ k, k ∈ I → k ∈ J) → types_left J ≤ types_left I.
Proof.
  intros H. apply submseteq_length, sublist_submseteq. unfold types_left.
  induction ("*" :: st.*1) as [|k l IH]; [constructor|]. rewrite !filter_cons. repeat case_decide; [by constructor|exfalso; set_solver|by constructor|done].
Qed.
Lemma left_known type I : known type → type ∉ I → types_left (type :: I) < types_left I.
Proof.
  intros K N. unfold types_left. apply list_elem_of_split in K as (l1 & l2 & E). rewrite E, !filter_app, !length_app, !filter_cons.
  rewrite decide_False by set_solver. rewrite decide_True by done. cbn [length].
  assert (M : ∀ l, length (filter (λ k, k ∉ type :: I) l) ≤ length (filter (λ k, k ∉ I) l)).
  { induction l as [|k l IH]; [done|]. rewrite !filter_cons. repeat case_decide; cbn; [lia|set_solver|lia|lia]. }
  pose proof (M l1). pose proof (M l2). lia.
Qed.

Definition ends (fuel : nat) (type : string) (inspected : list string) : Prop :=
  ∀ s, ∃ s' I' sel, inspect fuel type inspected s = Ok (s', I', sel) ∧ ∀ k, k ∈ type :: inspected → k ∈ I'.

(** The next type needs less. *)
Lemma enough_next type inspected inspected' type' :
  type' ∉ inspected' → (∀ k, k ∈ type :: inspected → k ∈ inspected') → known type ∨ type' = "*" →
  enough type' inspected' < enough type inspected.
Proof.
  intros N H K. unfold enough. pose proof (left_more _ _ H) as L. destruct (decide (known type')) as [K'|K'].
  - pose proof (left_known type' inspected' K' N). repeat case_decide; lia.
  - pose proof (left_more inspected' (type' :: inspected') ltac:(set_solver)). destruct K as [K| ->]; [|destruct K'; by left].
    rewrite (decide_True (P := known type)) by done. lia.
Qed.

Lemma visit_ends again fs s type inspected I sel :
  (∀ t J, t ∉ J → (∀ k, k ∈ type :: inspected → k ∈ J) → ∀ s, ∃ s' I' sel, again t J s = Ok (s', I', sel) ∧ ∀ k, k ∈ t :: J → k ∈ I') →
  (∀ k, k ∈ type :: inspected → k ∈ I) →
  ∃ s' I' sel', visit again fs s I sel = Ok (s', I', sel') ∧ ∀ k, k ∈ I → k ∈ I'.
Proof.
  intros A. revert s I sel. induction fs as [|f fs IH]; intros s I sel H; [by eexists _, _, _|]. cbn [visit].
  case_match; [|by eexists _, _, _]. destruct (f s) as [s1 answer].
  assert (Id : ∀ sel', ∃ s2 I2 sel2, visit again fs s1 I sel' = Ok (s2, I2, sel2) ∧ ∀ k, k ∈ I → k ∈ I2) by (intros sel'; by apply IH).
  destruct answer as [|t|t]; cbn [mbind result_bind]; [apply Id| |apply Id].
  destruct (negb executeOnly || bool_decide (t ∈ I)) eqn:Ei; cbn [mbind result_bind]; [apply Id|].
  apply orb_false_iff in Ei as [_ Nt%bool_decide_eq_false].
  destruct (A t I Nt H (unshift t s1)) as (s2 & I2 & sel2 & -> & H2). cbn [mbind result_bind].
  destruct (IH s2 I2 sel2) as (s3 & I3 & sel3 & E3 & H3); [intros k Hk; apply H2; right; by apply H|].
  exists s3, I3, sel3. split; [done|]. intros k Hk. apply H3, H2. by right.
Qed.

Lemma inspect_total fuel type inspected : enough type inspected ≤ fuel → ends fuel type inspected.
Proof.
  revert type inspected. induction fuel as [|fuel IH]; intros type inspected Hf s; [unfold enough in Hf; case_decide; lia|]. cbn [inspect].
  assert (V : ∃ s' I' sel', visit (inspect fuel) (default [] (assoc_get type st)) s (type :: inspected) None = Ok (s', I', sel') ∧
                ∀ k, k ∈ type :: inspected → k ∈ I').
  { destruct (assoc_get type st) as [fs|] eqn:Ea; cbn [default]; [|by eexists _, _, _].
    assert (K : known type).
    { right. clear -Ea. induction st as [|[k v] m IHm]; [done|]. cbn in Ea. destruct (String.eqb_spec type k) as [-> |]; [by left|]. right. by apply IHm. }
    apply (visit_ends _ _ _ type inspected); [|done]. intros t J Nt H s1. destruct (IH t J) with (s := s1) as (s2 & I2 & sel2 & E2 & H2); [|by eexists _, _, _].
    pose proof (enough_next type inspected J t Nt H (or_introl K)). lia. }
  destruct V as (s1 & I1 & sel1 & -> & H1). cbn [mbind result_bind].
  destruct ((executeOnly || bool_decide (sel1 = None)) && negb (bool_decide ("*" ∈ I1))) eqn:Eg; [|by eexists _, _, _].
  apply andb_true_iff in Eg as [_ Ns%negb_true_iff%bool_decide_eq_false].
  destruct (IH "*" I1) with (s := s1) as (s2 & I2 & sel2 & E2 & H2); [|exists s2, I2, sel2; split; [done|]; intros k Hk; apply H2; right; by apply H1].
  pose proof (enough_next type inspected I1 "*" Ns H1 (or_intror eq_refl)). lia.
Qed.

(** C37: the inspection of prefilters and of transports ends, whatever data
    types the registered functions redirect to: no type is inspected twice,
    and types without functions lead to the common ones only. *)
Theorem inspect_ends fuel type s :
  2 * length st + 4 ≤ fuel → ∃ s' inspected sel, inspect fuel type [] s = Ok (s', inspected, sel).
Proof.
  intros Hf. destruct (inspect_total fuel type []) with (s := s) as (s' & I & sel & E & _); [|by eexists _, _, _].
  assert (types_left [type] ≤ Datatypes.S (length st)).
  { unfold types_left. etransitivity; [apply length_filter|]. cbn. by rewrite length_fmap. }
  unfold enough. case_decide; lia.
Qed.
End register.

(** ** Transports *)

Section transports.
Context {S T : Type}.
Variable unshift : string → S → S.
Variable st : @structure S T.
#[local] Notation inspect := (inspect unshift false st).
#[local] Notation visit := (visit unshift false).

(** The first transport that one of the functions gives. *)
Fixpoint first_chosen (fs : list (S → S * selection T)) (s : S) : S * option T :=
  match fs with
  | [] => (s, None)
  | f :: fs => match f s with (s, Chosen t) => (s, Some t) | (s, _) => first_chosen fs s end
  end.
Lemma visit_first again fs s inspected :
  visit again fs s inspected None = Ok ((first_chosen fs s).1, inspected, (first_chosen fs s).2).
Proof.
  revert s. induction fs as [|f fs IH]; intros s; [done|]. cbn. destruct (f s) as [s1 []]; cbn; [apply IH|apply IH|].
  destruct fs; done.
Qed.
Lemma first_chosen_app fs gs s :
  first_chosen (fs ++ gs) s = match first_chosen fs s with (s, None) => first_chosen gs s | r => r end.
Proof. revert s. induction fs as [|f fs IH]; intros s; [done|]. cbn. destruct (f s) as [s1 []]; cbn; done. Qed.

(** The transport is the first one that a function registered for the data
    type gives, else the first one of those registered for all types. *)
Theorem transport_first fuel type s :
  let fs := default [] (assoc_get type st) ++ (if String.eqb type "*" then [] else default [] (assoc_get "*" st)) in
  ∃ inspected, inspect (Datatypes.S (Datatypes.S fuel)) type [] s = Ok ((first_chosen fs s).1, inspected, (first_chosen fs s).2).
Proof.
  cbv zeta. rewrite first_chosen_app. cbn [JQueryTransports.inspect]. rewrite visit_first. cbn [mbind result_bind].
  destruct (first_chosen (default [] (assoc_get type st)) s) as [s1 [t|]]; cbn [fst snd]; [by eexists|].
  destruct (String.eqb_spec type "*") as [-> |N]; cbn; [by eexists|].
  rewrite bool_decide_eq_false_2 by (rewrite list_elem_of_singleton; congruence).
  cbn. rewrite visit_first. cbn. rewrite (bool_decide_eq_true_2 ("*" ∈ ["*"; type])) by (by left). rewrite andb_false_r. by eexists.
Qed.
End transports.

(** ** Examples *)

(** Functions that redirect to each other: settings are the list of types. *)
Definition circular : @structure (list string) unit :=
  addTo "+json jsonp" (λ s, (s, Redirect "script")) (addTo "script" (λ s, (s, Redirect "json")) (addTo "*" (λ s, (s, Nothing)) [])).
Lemma inspect_ends_witness : ∃ s' inspected sel, inspect cons true circular 12 "json" [] ["json"] = Ok (s', inspected, sel).
Proof. apply (inspect_ends cons true circular 12 "json" ["json"]). vm_compute. lia. Defined.
Example circular_types : inspect cons true circular 12 "json" [] ["json"] = Ok (["script"; "json"], ["*"; "script"; "json"], None).
Proof. vm_compute. reflexivity. Qed.
