(* ===== verification/JQueryAjax.v ===== *)
(** Requests of [$.ajax] ([static/flot/jquery.js]): the object [jqXHR] of a
    request with its callbacks, and the transport over [XMLHttpRequest].  A
    page has any number of requests; what the browser and the program do to
    them are events.

    The two deferred objects of a request ([JQueryDeferred]) are seen by what
    they are resolved with; a callback that raises an error is a setting.  The
    prefilters and the transport are those that [JQueryTransports] selects:
    what prefilters do to [jqXHR], and whether there is a transport, are
    settings.  [window.status] is the empty text. *)

From S2P Require Import Prelude JsText JQueryConvert JQueryTransports.
From stdpp Require Import gmap.
From Stdlib Require Import Ascii.

#[local] Open Scope Z_scope.

(** ** Addresses

    They hold no line ends. *)

(** [replace(rhash, "")] *)
Definition drop_hash (url : string) : string := (span (λ c, negb (c =? "#")%char) url).1.
(** [replace(rprotocol, ajaxLocParts[1] + "//")] *)
Definition with_protocol (protocol url : string) : string :=
  match url with String "/" (String "/" rest) => protocol +:+ "//" +:+ rest | _ => url end.
(** [(rquery.test(url) ? "&" : "?") + s] *)
Definition append_query (url s : string) : string :=
  url +:+ (if (count_char "?" url =? 0)%nat then "?" else "&") +:+ s.
(** [url.replace(rts, "$1_=" + ts)] *)
Fixpoint replace_ts (ts url : string) : string :=
  match url with
  | "" => ""
  | String c url' =>
      if ((c =? "?")%char || (c =? "&")%char) then
        match url' with
        | String "_" (String "=" rest) => String c ("_=" +:+ ts +:+ (span (λ c, negb (c =? "&")%char) rest).2)
        | _ => String c (replace_ts ts url')
        end
      else String c (replace_ts ts url')
  end.
Definition no_cache (ts url : string) : string :=
  let ret := replace_ts ts url in if String.eqb ret url then append_query ret ("_=" +:+ ts) else ret.

(** [rurl]: protocol, host and port. *)
Definition protocol_char (c : ascii) : bool :=
  let n := N_of_ascii c in
  ((48 <=? n) && (n <=? 57) || (65 <=? n) && (n <=? 90) || (97 <=? n) && (n <=? 122) || (n =? 95) || (n =? 43) || (n =? 46) || (n =? 45))%N.
Definition url_parts (url : string) : option (string * string * option string) :=
  match span protocol_char url with
  | (String _ _ as protocol, String ":" (String "/" (String "/" rest))) =>
      let '(host, rest) := span (λ c, negb ((c =? "/") || (c =? "?") || (c =? "#") || (c =? ":"))%char) rest in
      let port := match rest with
                  | String ":" rest => match (span is_digit rest).1 with "" => None | p => Some p end
                  | _ => None
                  end in
      Some (protocol +:+ ":", host, port)
  | _ => None
  end.
(** Ports are texts, or numbers when they are those of the protocol. *)
Definition default_port (protocol : string) : Z := if String.eqb protocol "http:" then 80 else 443.
Definition same_port (protocol protocol' : string) (port port' : option string) : bool :=
  match port, port' with
  | Some a, Some b => String.eqb a b
  | Some a, None => digits_val 0 a =? default_port protocol'
  | None, Some b => default_port protocol =? digits_val 0 b
  | None, None => default_port protocol =? default_port protocol'
  end.
Definition crossDomain (location : string * string * option string) (url : string) : bool :=
  match url_parts (to_lower url) with
  | Some (protocol, host, port) =>
      negb (String.eqb protocol location.1.1 && String.eqb host location.1.2 && same_port protocol location.1.1 port location.2)
  | None => false
  end.

(** [jQuery.trim(s.dataType || "*").toLowerCase().split(rspacesAjax)] *)
Definition data_types (type : option string) : list string := split_spaces (to_lower (trim (default "*" (truthy type)))).

Fixpoint to_upper (s : string) : string := match s with "" => "" | String c s => String (upper_char c) (to_upper s) end.
(** [!rnoContent.test(type)] *)
Definition has_content (type : string) : bool := negb (String.eqb type "GET" || String.eqb type "HEAD").

Section ajax.
Context {V : Type}.
(** [undefined], and a text as a value. *)
Variable undefined : V.
Variable text_value : string → V.

(** ** Settings and state *)

(** What the program does to a request; status codes come with functions. *)
Inductive action := SetHeader (name value : string) | Override (mime : string) | AddCodes (codes : list (Z * nat)) | Abort.

(** What reading an [XMLHttpRequest] gives; the status may not be readable. *)
Record xhr_data := XhrData {
  d_ready : Z; d_fails : option string; d_status : Z; d_status_text : string;
  d_headers : option string; d_xml : option V; d_text : string;
}.
(** Sending fails, or the request is as it is right afterwards. *)
Inductive sending := SendFails (e : string) | Sends (d : xhr_data).

Record settings := Settings {
  s_url : string; s_type : string; s_data : string; s_types : list string; s_mime : option string;
  s_content_type : option string; s_own_content_type : bool;
  s_headers : list (string * string); s_accepts : list (string * string);
  s_no_cache : bool; s_if_modified : bool; s_global : bool; s_async : bool; s_timeout : Z;
  s_status_code : list (Z * nat); s_cross : bool; s_local : bool;
  s_contents : list (string * (string → bool)); s_converters : list (string * conv V); s_filter : V → result V;
  s_prefilters : list action; s_before : option (list action * bool); s_on_send : list action;
  s_transport : bool; s_throws : bool; s_send : sending; s_now : string;
}.

(** The transports that the library registers: that of scripts from another
    origin, and that of requests where the browser allows them; [cors] tells
    whether it allows those to another origin. *)
Inductive transport := XhrTransport | ScriptTransport.
Definition ajaxTransports (cors : bool) : @structure settings transport :=
  addTo "*" (λ s, (s, if negb (s_cross s) || cors then Chosen XhrTransport else Nothing))
    (addTo "script" (λ s, (s, if s_cross s then Chosen ScriptTransport else Nothing)) []).
Definition selected (cors : bool) (s : settings) : option transport :=
  match inspect (λ _ s, s) false (ajaxTransports cors) 8 (default "*" (head (s_types s))) [] s with
  | Ok (_, _, sel) => sel
  | _ => None
  end.

(** What [deferred] was resolved or rejected with. *)
Inductive outcome := Resolved (v : option V) (text : string) | Rejected (text : string) (error : option string).

(** What happens to the program and the browser. *)
Inductive happening :=
  | Outcome (o : outcome) | Code (fn : nat) | Completed (text : string) | Global (event : string)
  | Sent (type url : string) (headers : list (string * string)) (body : string) | XhrAbort.

Record jqxhr := JqXHR {
  j_settings : settings; j_state : nat; j_headers : list (string * string); j_mime : option string;
  j_codes : option (list (Z * nat)); j_response_headers : string; j_transport : bool; j_timer : bool;
  j_ready : Z; j_status : Z; j_status_text : string; j_fire : bool; j_installed : bool;
  j_result : option outcome; j_complete : option string; j_url : string; j_key : string;
  t_callback : bool; t_handle : bool; t_ready : Z;
}.
Record page := Page {
  active : Z; last_modified : gmap string string; etags : gmap string string;
  reqs : gmap nat jqxhr; log : list (nat * happening);
}.
Implicit Types (p : page) (x : jqxhr) (r : nat) (s : settings).

Definition set_req r x p : page := Page (active p) (last_modified p) (etags p) (<[r := x]> (reqs p)) (log p).
Definition happen r (h : happening) p : page := Page (active p) (last_modified p) (etags p) (reqs p) (log p ++ [(r, h)]).
Definition happens r (hs : list happening) p : page := foldl (λ p h, happen r h p) p hs.
Definition set_active (a : Z) p : page := Page a (last_modified p) (etags p) (reqs p) (log p).
Definition cache key (lm et : option string) p : page :=
  Page (active p) (match truthy lm with Some v => <[key := v]> (last_modified p) | None => last_modified p end)
    (match truthy et with Some v => <[key := v]> (etags p) | None => etags p end) (reqs p) (log p).

(** A page, and whether an error was raised, which skips what follows. *)
Definition andthen (m : page * bool) (k : page → page * bool) : page * bool := if m.2 then m else k m.1.

(** ** [done] *)

Definition success_status (status : Z) : bool := ((200 <=? status) && (status <? 300)) || (status =? 304).

(** The outcome, with the status and the text that [jqXHR] shows. *)
Definition judge (s : settings) (mime : option string) (status : Z) (text : option string)
    (responses : option (list (string * V))) (headers : string) : outcome * Z * string :=
  let '(types, response) :=
    match responses with
    | Some rs => ajaxHandleResponses (s_contents s) (s_converters s) (s_types s) mime (response_header headers "content-type") rs
    | None => (s_types s, None)
    end in
  if success_status status then
    if status =? 304 then (Resolved None "notmodified", status, "notmodified")
    else
      match ajaxConvert (s_filter s) (s_converters s) types (default undefined response) with
      | Ok v => (Resolved (Some v) "success", status, "success")
      | Throw e => (Rejected "parsererror" (Some e), status, "parsererror")
      | NoFuel => (Rejected "parsererror" None, status, "parsererror")
      end
  else
    let shown := match truthy text with Some t => if status =? 0 then t else "error" | None => "error" end in
    (Rejected shown text, (if status <? 0 then 0 else status), shown).

Definition run_codes (status : Z) (codes : list (Z * nat)) : list happening :=
  Code <$> (filter (λ c, c.1 = status) codes).*2.
Definition is_resolved (o : outcome) : bool := match o with Resolved _ _ => true | _ => false end.

(** A request that is over: its timer and its transport are gone. *)
Definition closed x (headers : string) (status : Z) (shown : string) (ready : Z) : jqxhr :=
  JqXHR (j_settings x) 2 (j_headers x) (j_mime x) (j_codes x) headers false false ready status shown (j_fire x) (j_installed x)
    (j_result x) (j_complete x) (j_url x) (j_key x) (t_callback x) (t_handle x) (t_ready x).
Definition set_result o x : jqxhr :=
  JqXHR (j_settings x) (j_state x) (j_headers x) (j_mime x) (j_codes x) (j_response_headers x) (j_transport x) (j_timer x)
    (j_ready x) (j_status x) (j_status_text x) (j_fire x) (j_installed x) (Some o) (j_complete x) (j_url x) (j_key x)
    (t_callback x) (t_handle x) (t_ready x).
Definition set_complete text x : jqxhr :=
  JqXHR (j_settings x) (j_state x) (j_headers x) (j_mime x) None (j_response_headers x) (j_transport x) (j_timer x)
    (j_ready x) (j_status x) (j_status_text x) (j_fire x) (j_installed x) (j_result x) (Some text) (j_url x) (j_key x)
    (t_callback x) (t_handle x) (t_ready x).

(** The deferred object of success and error is resolved once; the callbacks
    that were installed may raise an error. *)
Definition conclude r x (o : outcome) p : page * bool :=
  match j_result x with
  | Some _ => (p, false)
  | None => (happen r (Outcome o) (set_req r (set_result o x) p), s_throws (j_settings x) && j_installed x)
  end.
(** The rest: status codes, global events, and the deferred object of
    completion. *)
Definition complete r (o : outcome) (status : Z) (shown : string) p : page :=
  match reqs p !! r with
  | None => p
  | Some x =>
      let p := happens r (run_codes status (default [] (j_codes x))) p in
      let p := if j_fire x then happen r (Global (if is_resolved o then "ajaxSuccess" else "ajaxError")) p else p in
      let p := match j_complete x with None => happen r (Completed shown) p | Some _ => p end in
      let p := set_req r (set_complete (default shown (j_complete x)) x) p in
      if j_fire x then
        let p := set_active (active p - 1) (happen r (Global "ajaxComplete") p) in
        if active p =? 0 then happen r (Global "ajaxStop") p else p
      else p
  end.

(** [done(status, statusText, responses, headers)] *)
Definition done_ r (status : Z) (text : option string) (responses : option (list (string * V))) (headers : option string) p
    : page * bool :=
  match reqs p !! r with
  | None => (p, false)
  | Some x =>
      if (j_state x =? 2)%nat then (p, false)
      else
        let s := j_settings x in
        let hs := default "" headers in
        let '(o, shown_status, shown) := judge s (j_mime x) status text responses hs in
        let p := if success_status status && s_if_modified s then
                   cache (j_key x) (response_header hs "Last-Modified") (response_header hs "Etag") p else p in
        let x := closed x hs shown_status shown (if status =? 0 then 0 else 4) in
        andthen (conclude r x o (set_req r x p)) (λ p, (complete r o shown_status shown p, false))
  end.

(** ** The transport *)

Definition set_transport (callback handle : bool) (ready : Z) x : jqxhr :=
  JqXHR (j_settings x) (j_state x) (j_headers x) (j_mime x) (j_codes x) (j_response_headers x) (j_transport x) (j_timer x)
    (j_ready x) (j_status x) (j_status_text x) (j_fire x) (j_installed x) (j_result x) (j_complete x) (j_url x) (j_key x)
    callback handle ready.

(** [responses] of a request that is complete. *)
Definition read_responses (d : xhr_data) : list (string * V) :=
  (match d_xml d with Some doc => [("xml", doc)] | None => [] end) ++ [("text", text_value (d_text d))].
Definition read_status (s : settings) (d : xhr_data) : Z :=
  if (d_status d =? 0) && s_local s && negb (s_cross s) then (if String.eqb (d_text d) "" then 404 else 200)
  else if d_status d =? 1223 then 204 else d_status d.

(** [callback] when the state of the request has changed. *)
Definition callback r (d : xhr_data) p : page * bool :=
  match reqs p !! r with
  | None => (p, false)
  | Some x =>
      if t_callback x && (d_ready d =? 4) then
        let p := set_req r (set_transport false false (d_ready d) x) p in
        match d_fails d with
        | Some e => done_ r (-1) (Some e) None None p
        | None =>
            done_ r (read_status (j_settings x) d) (Some (d_status_text d)) (Some (read_responses d)) (d_headers d) p
        end
      else (set_req r (set_transport (t_callback x) (t_handle x) (d_ready d) x) p, false)
  end.
(** [callback(0, 1)] *)
Definition callback_abort r p : page :=
  match reqs p !! r with
  | None => p
  | Some x =>
      if t_callback x then
        let p := set_req r (set_transport false false (t_ready x) x) p in
        if t_ready x =? 4 then p else happen r XhrAbort p
      else p
  end.

(** [transport.send].  What it raises is passed to [done], which does nothing
    when that was a callback of a request that is over. *)
Definition send_headers (s : settings) (headers : list (string * string)) : list (string * string) :=
  if negb (s_cross s && negb (has_content (to_upper (s_type s)))) && bool_decide (truthy (assoc_get "X-Requested-With" headers) = None)
  then assoc_set "X-Requested-With" "XMLHttpRequest" headers else headers.
Definition send r p : page * bool :=
  match reqs p !! r with
  | None => (p, false)
  | Some x =>
      let s := j_settings x in
      let type := to_upper (s_type s) in
      let p := happen r (Sent type (j_url x) (send_headers s (j_headers x)) (if has_content type then s_data s else "")) p in
      match s_send s with
      | SendFails e => done_ r (-1) (Some e) None None p
      | Sends d =>
          if negb (s_async s) || (d_ready d =? 4) then
            ((callback r d (set_req r (set_transport true false (d_ready d) x) p)).1, false)
          else (set_req r (set_transport true true (d_ready d) x) p, false)
      end
  end.

(** ** [jqXHR] *)

(** [abort(text)] *)
Definition abort r (text : string) p : page * bool :=
  match reqs p !! r with
  | None => (p, false)
  | Some x => done_ r 0 (Some text) None None (if j_transport x then callback_abort r p else p)
  end.

Definition set_options (headers : list (string * string)) (mime : option string) (codes : option (list (Z * nat))) x : jqxhr :=
  JqXHR (j_settings x) (j_state x) headers mime codes (j_response_headers x) (j_transport x) (j_timer x)
    (j_ready x) (j_status x) (j_status_text x) (j_fire x) (j_installed x) (j_result x) (j_complete x) (j_url x) (j_key x)
    (t_callback x) (t_handle x) (t_ready x).

(** [setRequestHeader], [overrideMimeType], [statusCode], [abort] *)
Definition act r (a : action) p : page * bool :=
  match reqs p !! r with
  | None => (p, false)
  | Some x =>
      match a with
      | SetHeader name value =>
          (if (j_state x =? 0)%nat then set_req r (set_options (assoc_set (header_name name) value (j_headers x)) (j_mime x) (j_codes x) x) p
           else p, false)
      | Override mime =>
          (if (j_state x =? 0)%nat then set_req r (set_options (j_headers x) (Some mime) (j_codes x) x) p else p, false)
      | AddCodes codes =>
          (if (j_state x <? 2)%nat then set_req r (set_options (j_headers x) (j_mime x) (Some (default [] (j_codes x) ++ codes)) x) p
           else happens r (run_codes (j_status x) codes) p, false)
      | Abort => abort r "abort" p
      end
  end.
Definition acts r (l : list action) p : page * bool := foldl (λ m a, andthen m (act r a)) (p, false) l.

(** ** [$.ajax] *)

(** The address that is sent, with the key of the caches. *)
Definition request_url s : string * string :=
  let type := to_upper (s_type s) in
  if has_content type then (s_url s, s_url s)
  else
    let url := if String.eqb (s_data s) "" then s_url s else append_query (s_url s) (s_data s) in
    (if s_no_cache s then no_cache (s_now s) url else url, url).

(** The headers of the settings, of the caches and of the data type. *)
Definition request_headers s (key : string) p : list (string * string) :=
  let hs := if (negb (String.eqb (s_data s) "") && has_content (to_upper (s_type s)) && bool_decide (is_Some (s_content_type s))) || s_own_content_type s
            then [("Content-Type", default "false" (s_content_type s))] else [] in
  let hs := if s_if_modified s then
              let hs := match truthy (last_modified p !! key) with Some v => assoc_set "If-Modified-Since" v hs | None => hs end in
              match truthy (etags p !! key) with Some v => assoc_set "If-None-Match" v hs | None => hs end
            else hs in
  let all := default "undefined" (assoc_get "*" (s_accepts s)) in
  let accept := match truthy (head (s_types s)) with
                | Some t => match truthy (assoc_get t (s_accepts s)) with
                            | Some a => a +:+ (if String.eqb t "*" then "" else ", */*; q=0.01")
                            | None => all
                            end
                | None => all
                end in
  assoc_set "Accept" accept hs.

(** A request as it is created, and with what is known when it is sent. *)
Definition created s : jqxhr :=
  JqXHR s 0 [] (s_mime s) (Some (s_status_code s)) "" false false 0 0 "" false false None None "" "" false false 0.
Definition prepared s (url key : string) (headers : list (string * string)) x : jqxhr :=
  JqXHR s (j_state x) (foldl (λ m h, assoc_set h.1 h.2 m) (j_headers x) headers) (j_mime x) (j_codes x) (j_response_headers x) (j_transport x) (j_timer x)
    (j_ready x) (j_status x) (j_status_text x) (s_global s) (j_installed x) (j_result x) (j_complete x) url key
    (t_callback x) (t_handle x) (t_ready x).
Definition set_installed (transport : bool) (ready : Z) x : jqxhr :=
  JqXHR (j_settings x) (j_state x) (j_headers x) (j_mime x) (j_codes x) (j_response_headers x) transport (j_timer x)
    ready (j_status x) (j_status_text x) (j_fire x) true (j_result x) (j_complete x) (j_url x) (j_key x)
    (t_callback x) (t_handle x) (t_ready x).
Definition set_sending (timer : bool) x : jqxhr :=
  JqXHR (j_settings x) 1 (j_headers x) (j_mime x) (j_codes x) (j_response_headers x) (j_transport x) timer
    (j_ready x) (j_status x) (j_status_text x) (j_fire x) (j_installed x) (j_result x) (j_complete x) (j_url x) (j_key x)
    (t_callback x) (t_handle x) (t_ready x).
Definition update r (f : jqxhr → jqxhr) p : page := match reqs p !! r with Some x => set_req r (f x) p | None => p end.
Definition state_of r p : nat := match reqs p !! r with Some x => j_state x | None => 0 end.

(** [beforeSend]: whether the request is to be given up. *)
Definition before_send r s p : page * bool * bool :=
  match s_before s with
  | None => (p, false, false)
  | Some (l, refuses) => let '(p, raised) := acts r l p in (p, raised, refuses || (state_of r p =? 2)%nat)
  end.

(** From the choice of the transport on.  When a handler of [ajaxSend] has
    ended the request, there is no transport to send, which is an error. *)
Definition launch r s p : page * bool :=
  let p := update r (set_installed (s_transport s) (if s_transport s then 1 else 0)) p in
  if negb (s_transport s) then done_ r (-1) (Some "No Transport") None None p
  else
    andthen (if s_global s then acts r (s_on_send s) (happen r (Global "ajaxSend") p) else (p, false)) (λ p,
      let p := update r (set_sending (s_async s && (0 <? s_timeout s))) p in
      if match reqs p !! r with Some x => j_transport x | None => false end then send r p
      else done_ r (-1) (Some "TypeError") None None p).

Definition ajax r s p : page * bool :=
  andthen (acts r (s_prefilters s) (set_req r (created s) p)) (λ p,
    if (state_of r p =? 2)%nat then (p, false)
    else
      let p := if s_global s then
                 set_active (active p + 1) (if active p =? 0 then happen r (Global "ajaxStart") p else p)
               else p in
      let '(url, key) := request_url s in
      let p := update r (prepared s url key (request_headers s key p)) p in
      andthen (acts r ((λ h, SetHeader h.1 h.2) <$> s_headers s) p) (λ p,
        let '(p, raised, stop) := before_send r s p in
        if raised then (p, true)
        else if stop then abort r "abort" p
        else launch r s p)).

(** ** Events *)

Inductive event :=
  | EAjax r s | EReady r (d : xhr_data) | EAct r (a : action) | ETimeout r | EUnload.

Definition timer_off x : jqxhr :=
  JqXHR (j_settings x) (j_state x) (j_headers x) (j_mime x) (j_codes x) (j_response_headers x) (j_transport x) false
    (j_ready x) (j_status x) (j_status_text x) (j_fire x) (j_installed x) (j_result x) (j_complete x) (j_url x) (j_key x)
    (t_callback x) (t_handle x) (t_ready x).

(** The browser calls a request whose listener is registered, and a timer that
    was set; leaving the page aborts what is under way. *)
Definition step (e : event) p : page * bool :=
  match e with
  | EAjax r s => ajax r s p
  | EReady r d => if match reqs p !! r with Some x => t_handle x | None => false end then callback r d p else (p, false)
  | EAct r a => act r a p
  | ETimeout r =>
      match reqs p !! r with
      | Some x => if j_timer x then abort r "timeout" (set_req r (timer_off x) p) else (p, false)
      | None => (p, false)
      end
  | EUnload => (foldr callback_abort p ((filter (λ c, t_handle c.2) (map_to_list (reqs p))).*1), false)
  end.
End ajax.
