(* ===== verification/JQueryAjaxSpec.v ===== *)
(** Every request ends at most once, with one outcome, and the page counts
    the requests that are under way. *)

From S2P Require Import Prelude JsText JQueryConvert JQueryTransports JQueryAjax.
From stdpp Require Import gmap.

#[local] Open Scope Z_scope.

Section spec.
Context {V : Type}.
Variable undefined : V.
Variable text_value : string → V.
#[local] Notation page := (@page V).
#[local] Notation jqxhr := (@jqxhr V).
#[local] Notation settings := (@settings V).
#[local] Notation happening := (@happening V).
#[local] Notation done_ := (done_ undefined).
#[local] Notation abort := (abort undefined).
#[local] Notation callback := (callback undefined text_value).
#[local] Notation send := (send undefined text_value).
#[local] Notation act := (act undefined).
#[local] Notation acts := (acts undefined).
#[local] Notation launch := (launch undefined text_value).
#[local] Notation ajax := (ajax undefined text_value).
#[local] Notation step := (step undefined text_value).
Implicit Types (p : page) (x : jqxhr) (r : nat) (s : settings) (l : list happening) (o : @outcome V).

(** ** What happened to a request *)

Definition mine r p : list happening := (filter (λ c, c.1 = r) (log p)).*2.
Definition is_result (h : happening) : bool := match h with Outcome _ | Completed _ => true | _ => false end.
(** Its outcome and its completion. *)
Definition results r p : list happening := filter (λ h, is_result h) (mine r p).

Lemma mine_set r r' x p : mine r (set_req r' x p) = mine r p.
Proof. done. Qed.
Lemma mine_happen r r' h p : mine r (happen r' h p) = mine r p ++ (if decide (r' = r) then [h] else []).
Proof. unfold mine. cbn. rewrite filter_app, fmap_app, filter_cons. cbn. by case_decide. Qed.
Lemma results_happen r r' h p : results r (happen r' h p) = results r p ++ (if decide (r' = r) then (if is_result h then [h] else []) else []).
Proof. unfold results. rewrite mine_happen, filter_app. case_decide; [|done]. rewrite filter_cons. destruct (is_result h); done. Qed.
Lemma reqs_happens r hs p : reqs (happens r hs p) = reqs p ∧ active (happens r hs p) = active p.
Proof. unfold happens. revert p. induction hs as [|h hs IH]; intros p; [done|]. cbn. by destruct (IH (happen r h p)) as [-> ->]. Qed.
Lemma results_happens r r' hs p : Forall (λ h, is_result h = false) hs → results r (happens r' hs p) = results r p.
Proof.
  unfold happens. intros F. revert p. induction F as [|h hs Hh F IH]; intros p; [done|]. cbn. rewrite IH, results_happen, Hh. case_decide; by rewrite app_nil_r.
Qed.
Lemma codes_results status codes : Forall (λ h, is_result h = false) (run_codes (V := V) status codes).
Proof. unfold run_codes. apply Forall_fmap, Forall_true. done. Qed.

(** ** The invariant *)

(** What was logged of a request agrees with its state. *)
Record req_ok x l : Prop := {
  ok_results : l = match j_result x, j_complete x with
                   | Some o, Some t => [Outcome o; Completed t]
                   | Some o, None => [Outcome o]
                   | None, _ => []
                   end;
  ok_complete : is_Some (j_complete x) → is_Some (j_result x);
  ok_done : j_state x = 2%nat ↔ is_Some (j_result x);
  ok_state : (j_state x ≤ 2)%nat;
  ok_closed : j_state x = 2%nat → j_timer x = false ∧ j_transport x = false;
  ok_listen : t_handle x = true → t_callback x = true;
  ok_raised : is_Some (j_result x) → j_complete x = None → s_throws (j_settings x) = true;
  ok_sent : j_state x = 1%nat → j_installed x = true;
}.

(** The requests that count as under way. *)
Definition counts x : bool := j_fire x && bool_decide (j_complete x = None).
Definition under_way (m : gmap nat jqxhr) : Z := Z.of_nat (size (filter (λ c, counts c.2) m)).

Record inv p : Prop := {
  inv_req r x : reqs p !! r = Some x → req_ok x (results r p);
  inv_none r : reqs p !! r = None → results r p = [];
  inv_active : active p = under_way (reqs p);
}.

Lemma under_way_new r x (m : gmap nat jqxhr) : m !! r = None → under_way (<[r := x]> m) = under_way m + Z.b2z (counts x).
Proof.
  intros N. unfold under_way. rewrite map_filter_insert. cbn [snd].
  assert (F : filter (λ c : nat * jqxhr, counts c.2) m !! r = None) by (apply map_lookup_filter_None; by left).
  destruct (counts x); cbn [Z.b2z].
  - rewrite decide_True by done. rewrite map_size_insert_None by done. lia.
  - rewrite decide_False by (by intros []). rewrite delete_id by done. lia.
Qed.
Lemma under_way_insert r x x' (m : gmap nat jqxhr) :
  m !! r = Some x → under_way (<[r := x']> m) = under_way m - Z.b2z (counts x) + Z.b2z (counts x').
Proof.
  intros E. rewrite <- (insert_id m r x) at 2 by done. rewrite <- !(insert_delete_eq m).
  rewrite !under_way_new by (apply lookup_delete_eq). lia.
Qed.

(** A change of one request, with what is logged of it. *)
Lemma inv_update r x x' p p' :
  inv p → reqs p !! r = Some x → reqs p' = <[r := x']> (reqs p) →
  (∀ r', r' ≠ r → results r' p' = results r' p) → req_ok x' (results r p') →
  active p' = active p - Z.b2z (counts x) + Z.b2z (counts x') → inv p'.
Proof.
  intros [I1 I2 I3] E E' R K A. split.
  - intros r' y. rewrite E'. destruct (decide (r' = r)) as [-> |N]; [rewrite lookup_insert_eq; by intros [= <-]|].
    rewrite lookup_insert_ne, R by done. apply I1.
  - intros r'. rewrite E'. destruct (decide (r' = r)) as [-> |N]; [by rewrite lookup_insert_eq|].
    rewrite lookup_insert_ne, R by done. apply I2.
  - rewrite A, I3, E'. symmetry. by apply under_way_insert.
Qed.
(** A change that is not logged and does not count. *)
Lemma inv_set r x x' p :
  inv p → reqs p !! r = Some x → req_ok x' (results r p) → counts x' = counts x → inv (set_req r x' p).
Proof. intros I E K C. apply (inv_update r x x' p); try done. cbn. rewrite C. lia. Qed.
Lemma inv_happen r h p : is_result h = false → inv p → inv (happen r h p).
Proof.
  intros Hh [I1 I2 I3]. assert (R : ∀ r', results r' (happen r h p) = results r' p) by (intros r'; rewrite results_happen, Hh; case_decide; by rewrite app_nil_r).
  split; [intros r' x|intros r'|]; rewrite ?R; [apply I1|apply I2|apply I3].
Qed.
Lemma inv_happens r hs p : Forall (λ h, is_result h = false) hs → inv p → inv (happens r hs p).
Proof. intros F. revert p. unfold happens. induction F as [|h hs Hh F IH]; intros p I; [done|]. cbn. by apply IH, inv_happen. Qed.

(** ** [done] *)

Lemma results_set r r' x p : results r (set_req r' x p) = results r p.
Proof. done. Qed.
Lemma results_active r n p : results r (set_active n p) = results r p.
Proof. done. Qed.
Lemma results_cache r k a b p : results r (cache k a b p) = results r p.
Proof. done. Qed.
Lemma results_other r r' h p : is_result h = false → results r (happen r' h p) = results r p.
Proof. intros Hh. rewrite results_happen, Hh. case_decide; by rewrite app_nil_r. Qed.

Lemma complete_spec r o status shown p x :
  reqs p !! r = Some x → j_complete x = None →
  let p' := complete r o status shown p in
  reqs p' = <[r := set_complete shown x]> (reqs p) ∧ (∀ r', results r' p' = results r' p ++ (if decide (r = r') then [Completed shown] else [])) ∧
  active p' = active p - Z.b2z (j_fire x).
Proof.
  intros E C. cbv zeta. unfold complete. rewrite E, C. cbn [default].
  destruct (reqs_happens r (run_codes status (default [] (j_codes x))) p) as [Er Ea].
  assert (Rc : ∀ r', results r' (happens r (run_codes status (default [] (j_codes x))) p) = results r' p)
    by (intros r'; apply results_happens, codes_results).
  set (p1 := happens r (run_codes status (default [] (j_codes x))) p) in *.
  destruct (j_fire x) eqn:Ef; cbn [Z.b2z].
  - case_match; cbn [reqs active happen set_req set_active]; (split; [by rewrite Er|]); (split; [|lia]); intros r';
      repeat rewrite ?results_active, ?results_set, ?(results_other _ _ (Global _)) by done; rewrite results_happen; cbn [is_result];
      by rewrite (results_other _ _ (Global _)), Rc by done.
  - cbn [reqs active happen set_req set_active]. split; [by rewrite Er|]. split; [|lia]. intros r'.
    by rewrite results_set, results_happen, Rc.
Qed.

(** What [done] leaves of a request. *)
Record ended x (raised : bool) x' : Prop := {
  en_state : j_state x' = 2%nat;
  en_closed : j_timer x' = false ∧ j_transport x' = false;
  en_settings : j_settings x' = j_settings x;
  en_listen : t_callback x' = t_callback x ∧ t_handle x' = t_handle x;
  en_fire : j_fire x' = j_fire x;
  en_installed : j_installed x' = j_installed x;
  en_result : is_Some (j_result x');
  en_complete : if raised then j_complete x' = None else is_Some (j_complete x');
  en_raised : raised = true → s_throws (j_settings x) = true;
}.

Lemma done_ends r status text responses headers p x :
  reqs p !! r = Some x → (j_state x < 2)%nat → req_ok x (results r p) →
  let m := done_ r status text responses headers p in
  ∃ x', ended x m.2 x' ∧ reqs m.1 = <[r := x']> (reqs p) ∧ req_ok x' (results r m.1) ∧
    (∀ r', r' ≠ r → results r' m.1 = results r' p) ∧ active m.1 = active p - Z.b2z (j_fire x && negb m.2) ∧
    j_result x' = Some (judge undefined (j_settings x) (j_mime x) status text responses (default "" headers)).1.1 ∧
    m.2 = s_throws (j_settings x) && j_installed x.
Proof.
  intros E S [K1 K2 K3 K4 K5 K6 K7 K8]. cbv zeta. unfold JQueryAjax.done_. rewrite E.
  assert (Nr : j_result x = None) by (destruct (j_result x) eqn:Ej; [exfalso; destruct K3 as [_ K3]; assert (j_state x = 2)%nat by (apply K3; eauto); lia|done]).
  assert (Nc : j_complete x = None) by (destruct (j_complete x) eqn:Ej; [|done]; destruct K2 as [? K2]; [eauto|congruence]).
  rewrite (proj2 (Nat.eqb_neq (j_state x) 2)) by lia. rewrite Nr in K1.
  destruct (judge undefined (j_settings x) (j_mime x) status text responses (default "" headers)) as [[o shown_status] shown].
  set (p1 := if success_status status && s_if_modified (j_settings x) then _ else p). set (x1 := closed x _ shown_status shown _).
  assert (R1 : reqs p1 = reqs p ∧ active p1 = active p ∧ ∀ r', results r' p1 = results r' p) by (unfold p1; by case_match).
  destruct R1 as (R1 & A1 & L1). clearbody p1. unfold conclude. replace (j_result x1) with (@None (@outcome V)) by done.
  set (x2 := set_result o x1). set (p2 := happen r (Outcome o) (set_req r x2 (set_req r x1 p1))).
  assert (R2 : reqs p2 = <[r := x2]> (reqs p)) by (cbn; by rewrite insert_insert_eq, R1).
  assert (L2 : ∀ r', results r' p2 = results r' p ++ (if decide (r = r') then [Outcome o] else [])).
  { intros r'. unfold p2. by rewrite results_happen, !results_set, L1. }
  replace (s_throws (j_settings x1) && j_installed x1) with (s_throws (j_settings x) && j_installed x) by done.
  assert (T : t_handle x = true → t_callback x = true) by done.
  destruct (s_throws (j_settings x) && j_installed x) eqn:Et; unfold andthen; cbn [fst snd].
  - apply andb_true_iff in Et as [Et Ei]. exists x2. split; [by split|]. split; [done|]. split; [|split].
    + assert (Lr : results r p2 = [Outcome o]) by (rewrite L2, decide_True, K1 by done; done). rewrite Lr.
      split; cbn; rewrite ?Nc; done.
    + intros r' N. rewrite L2, decide_False by done. apply app_nil_r.
    + rewrite andb_false_r. cbn. split; [lia|]. by split.
  - destruct (complete_spec r o shown_status shown p2 x2) as (R3 & L3 & A3); [by rewrite R2, lookup_insert_eq|done|].
    exists (set_complete shown x2). split; [by split|]. split; [by rewrite R3, R2, insert_insert_eq|]. split; [|split].
    + rewrite L3, L2, !decide_True, K1 by done. by split.
    + intros r' N. rewrite L3, L2, !decide_False by done. by rewrite !app_nil_r.
    + rewrite A3. rewrite andb_true_r. cbn. split; [lia|done].
Qed.

(** What never changes after a request is sent. *)
Definition same x x' : Prop := j_settings x' = j_settings x ∧ j_fire x' = j_fire x ∧ j_installed x' = j_installed x.

(** Whatever it is called with, [done] keeps the invariant, and the request is
    over then. *)
Lemma done_inv r status text responses headers p :
  inv p → let m := done_ r status text responses headers p in
  inv m.1 ∧ (∀ r', r' ≠ r → reqs m.1 !! r' = reqs p !! r') ∧
  ∀ x, reqs p !! r = Some x → ∃ x', reqs m.1 !! r = Some x' ∧ j_state x' = 2%nat ∧ same x x' ∧
    (m.2 = true → s_throws (j_settings x) = true).
Proof.
  intros I. cbv zeta. destruct (reqs p !! r) as [x|] eqn:E.
  - destruct (decide (j_state x = 2%nat)) as [S|S].
    { unfold JQueryAjax.done_. rewrite E, S. cbn. split; [done|]. split; [done|]. intros y [= <-]. by exists x. }
    pose proof (inv_req p I r x E) as K. assert (L : (j_state x < 2)%nat) by (pose proof (ok_state _ _ K); lia).
    destruct (done_ends r status text responses headers p x E L K) as (x' & N & R & K' & O & A & _). split; [|split].
    + apply (inv_update r x x' p); [done|done|exact R|exact O|exact K'|]. rewrite A. unfold counts. destruct N as [? ? ? ? Ef ? ? Ec ?]. rewrite Ef.
      assert (Nc : j_complete x = None).
      { destruct (j_complete x) eqn:Ej; [|done]. destruct (ok_complete _ _ K) as [o Eo]; [eauto|]. assert (j_state x = 2%nat) by (apply K; eauto). lia. }
      rewrite Nc, (bool_decide_eq_true_2 (None = None)) by done.
      destruct (done_ r status text responses headers p).2, (j_fire x); cbn; try lia;
        [rewrite Ec; rewrite bool_decide_eq_true_2 by done|destruct Ec as [? ->]; rewrite bool_decide_eq_false_2 by done]; cbn; lia.
    + intros r' Hr. by rewrite R, lookup_insert_ne.
    + intros y [= <-]. exists x'. rewrite R, lookup_insert_eq. split; [done|]. split; [apply N|]. split; [split; [|split]; apply N|apply N].
  - unfold JQueryAjax.done_. rewrite E. split; [done|]. by split.
Qed.

(** ** The transport *)

Lemma ok_transport x l cb hd ready : (hd = true → cb = true) → req_ok x l → req_ok (set_transport cb hd ready x) l.
Proof. intros H [K1 K2 K3 K4 K5 K6 K7 K8]. by split. Qed.
Lemma callback_abort_inv r p : inv p →
  inv (callback_abort r p) ∧ (∀ r', r' ≠ r → reqs (callback_abort r p) !! r' = reqs p !! r') ∧
  ∀ x, reqs p !! r = Some x → ∃ x', reqs (callback_abort r p) !! r = Some x' ∧ j_state x' = j_state x ∧ same x x'.
Proof.
  intros I. unfold callback_abort. destruct (reqs p !! r) as [x|] eqn:E; [|by split].
  destruct (t_callback x) eqn:Ec; [|split; [done|]; split; [done|]; intros y [= <-]; by exists x].
  set (x1 := set_transport false false (t_ready x) x).
  assert (I1 : inv (set_req r x1 p)) by (apply (inv_set r x); [done|done|apply ok_transport; [done|by apply I]|done]).
  case_match; cbn; (split; [try apply inv_happen; done|]); (split; [intros r' N; by rewrite lookup_insert_ne|]); intros y [= <-];
    exists x1; by rewrite lookup_insert_eq.
Qed.
Lemma callback_inv r d p : inv p → inv (callback r d p).1 ∧ ∀ x, reqs p !! r = Some x →
  ∃ x', reqs (callback r d p).1 !! r = Some x' ∧ same x x' ∧
    (t_callback x = true → d_ready d = 4 → j_state x' = 2%nat) ∧ ((callback r d p).2 = true → s_throws (j_settings x) = true).
Proof.
  intros I. unfold JQueryAjax.callback. destruct (reqs p !! r) as [x|] eqn:E; [|by split].
  destruct (t_callback x && (d_ready d =? 4)) eqn:Eb.
  - set (x1 := set_transport false false (d_ready d) x).
    assert (I1 : inv (set_req r x1 p)) by (apply (inv_set r x); [done|done|apply ok_transport; [done|by apply I]|done]).
    assert (E1 : reqs (set_req r x1 p) !! r = Some x1) by (cbn; by rewrite lookup_insert_eq).
    assert (H : ∀ st t rs hs, inv (done_ r st t rs hs (set_req r x1 p)).1 ∧ ∀ y, Some x = Some y →
        ∃ x', reqs (done_ r st t rs hs (set_req r x1 p)).1 !! r = Some x' ∧ same y x' ∧
          (t_callback y = true → d_ready d = 4 → j_state x' = 2%nat) ∧ ((done_ r st t rs hs (set_req r x1 p)).2 = true → s_throws (j_settings y) = true)).
    { intros st t rs hs. destruct (done_inv r st t rs hs _ I1) as (J & _ & S). split; [done|]. intros y [= <-].
      destruct (S x1 E1) as (x' & Ex & S1 & S2 & S3). exists x'. split; [done|]. split; [done|]. by split. }
    destruct (d_fails d); apply H.
  - split.
    + apply (inv_set r x); [done|done|apply ok_transport; [apply (ok_listen _ _ (inv_req p I r x E))|by apply I]|done].
    + intros y [= <-]. eexists. cbn. rewrite lookup_insert_eq. split; [done|]. split; [done|]. split; [|done].
      intros Hc Hd. by rewrite Hc, Hd in Eb.
Qed.

Lemma abort_inv r text p : inv p → inv (abort r text p).1 ∧
  (∀ r', r' ≠ r → reqs (abort r text p).1 !! r' = reqs p !! r') ∧ ∀ x, reqs p !! r = Some x →
  ∃ x', reqs (abort r text p).1 !! r = Some x' ∧ j_state x' = 2%nat ∧ same x x' ∧
    ((abort r text p).2 = true → s_throws (j_settings x) = true).
Proof.
  intros I. unfold JQueryAjax.abort. destruct (reqs p !! r) as [x|] eqn:E; [|by split].
  set (p1 := if j_transport x then callback_abort r p else p).
  assert (H : inv p1 ∧ (∀ r', r' ≠ r → reqs p1 !! r' = reqs p !! r') ∧ ∃ x1, reqs p1 !! r = Some x1 ∧ same x x1).
  { unfold p1. destruct (j_transport x); [|split; [done|]; split; [done|by exists x]].
    destruct (callback_abort_inv r p I) as (J & O & S). split; [done|]. split; [done|]. destruct (S x E) as (x1 & ? & _ & ?). by exists x1. }
  destruct H as (J & O & x1 & E1 & (S1 & F1 & G1)). destruct (done_inv r 0 (Some text) None None p1 J) as (J2 & O2 & S2).
  split; [done|]. split; [intros r' N; by rewrite O2, O|]. intros y [= <-]. destruct (S2 x1 E1) as (x' & ? & ? & ? & ?). exists x'. unfold same in *. by rewrite S1, F1, G1 in *.
Qed.

(** ** [jqXHR] *)

Lemma ok_options x l hs mime codes : req_ok x l → req_ok (set_options hs mime codes x) l.
Proof. intros [K1 K2 K3 K4 K5 K6 K7 K8]. by split. Qed.
Lemma act_inv r a p : inv p → inv (act r a p).1 ∧
  (∀ r', r' ≠ r → reqs (act r a p).1 !! r' = reqs p !! r') ∧ ∀ x, reqs p !! r = Some x →
  ∃ x', reqs (act r a p).1 !! r = Some x' ∧ same x x' ∧ (j_state x = 2%nat → j_state x' = 2%nat) ∧
    ((act r a p).2 = true → j_state x' = 2%nat ∧ s_throws (j_settings x) = true) ∧ (a ≠ Abort → j_state x' = j_state x ∧ j_transport x' = j_transport x ∧ (act r a p).2 = false).
Proof.
  intros I. unfold JQueryAjax.act. destruct (reqs p !! r) as [x|] eqn:E; [|by split].
  assert (Id : inv p ∧ (∀ r', r' ≠ r → reqs p !! r' = reqs p !! r') ∧ ∀ y, Some x = Some y → ∃ x', reqs p !! r = Some x' ∧ same y x' ∧
    (j_state y = 2%nat → j_state x' = 2%nat) ∧ (false = true → j_state x' = 2%nat ∧ s_throws (j_settings y) = true) ∧ (a ≠ Abort → j_state x' = j_state y ∧ j_transport x' = j_transport y ∧ false = false)).
  { split; [done|]. split; [done|]. intros y [= <-]. by exists x. }
  assert (Up : ∀ hs mime codes, inv (set_req r (set_options hs mime codes x) p) ∧
    (∀ r', r' ≠ r → reqs (set_req r (set_options hs mime codes x) p) !! r' = reqs p !! r') ∧ ∀ y, Some x = Some y →
    ∃ x', reqs (set_req r (set_options hs mime codes x) p) !! r = Some x' ∧ same y x' ∧
      (j_state y = 2%nat → j_state x' = 2%nat) ∧ (false = true → j_state x' = 2%nat ∧ s_throws (j_settings y) = true) ∧ (a ≠ Abort → j_state x' = j_state y ∧ j_transport x' = j_transport y ∧ false = false)).
  { intros hs mime codes. split; [apply (inv_set r x); [done|done|by apply ok_options, I|done]|].
    split; [intros r' N; cbn; by rewrite lookup_insert_ne|]. intros y [= <-]. eexists. cbn. by rewrite lookup_insert_eq. }
  destruct a as [name value|mime|codes|]; cbn [fst snd].
  - case_match; [apply Up|apply Id].
  - case_match; [apply Up|apply Id].
  - case_match; [apply Up|]. destruct Id as (_ & _ & Id). destruct (reqs_happens r (run_codes (j_status x) codes) p) as [Er _]. rewrite Er.
    split; [apply inv_happens; [apply codes_results|done]|]. by split.
  - destruct (abort_inv r "abort" p I) as (J & O & S). split; [done|]. split; [done|]. intros y [= <-].
    destruct (S x E) as (x' & ? & ? & ? & ?). exists x'. split; [done|]. split; [done|]. split; [done|]. split; [by auto|by intros []].
Qed.

(** Any number of them. *)
Lemma acts_inv r as_ p x : inv p → reqs p !! r = Some x →
  inv (acts r as_ p).1 ∧ (∀ r', r' ≠ r → reqs (acts r as_ p).1 !! r' = reqs p !! r') ∧
  ∃ x', reqs (acts r as_ p).1 !! r = Some x' ∧ same x x' ∧ ((acts r as_ p).2 = true → j_state x' = 2%nat ∧ s_throws (j_settings x) = true) ∧
    (Abort ∉ as_ → j_state x' = j_state x ∧ j_transport x' = j_transport x ∧ ((acts r as_ p).2 = false)).
Proof.
  intros I E. unfold JQueryAjax.acts.
  assert (H : ∀ b, (b = true → j_state x = 2%nat ∧ s_throws (j_settings x) = true) →
    let m := foldl (λ m a, andthen m (act r a)) (p, b) as_ in
    inv m.1 ∧ (∀ r', r' ≠ r → reqs m.1 !! r' = reqs p !! r') ∧ ∃ x', reqs m.1 !! r = Some x' ∧ same x x' ∧
      (m.2 = true → j_state x' = 2%nat ∧ s_throws (j_settings x) = true) ∧
      (Abort ∉ as_ → j_state x' = j_state x ∧ j_transport x' = j_transport x ∧ (b = false → m.2 = false))).
  { revert p x I E. induction as_ as [|a as_ IH]; intros p x I E b Hb; cbn; [split; [done|]; split; [done|]; by exists x|].
    destruct b; [change (andthen (p, true) (act r a)) with (p, true)|change (andthen (p, false) (act r a)) with (act r a p)].
    - destruct (IH p x I E true Hb) as (J & O & x' & ? & ? & ? & Q). split; [done|]. split; [done|]. exists x'.
      split; [done|]. split; [done|]. split; [done|]. intros Hq. destruct Q as (? & ? & ?); [set_solver|by split].
    - destruct (act_inv r a p I) as (J1 & O1 & S1). destruct (S1 x E) as (x1 & E1 & (Ss & Sf & Sg) & M1 & T1 & Q1).
      destruct (act r a p) as [p1 b1]. cbn [fst snd] in *.
      destruct (IH p1 x1 J1 E1 b1) as (J & O & x' & E' & (Ts & Tf & Tg) & T' & Q'); [intros Hb1; rewrite Ss; by apply T1|].
      split; [done|]. split; [intros r' N; by rewrite O, O1|]. exists x'. split; [done|]. split; [split; [|split]; congruence|]. rewrite Ss in *. split; [done|].
      intros Hq. destruct Q1 as (Qa & Qb & Qd); [set_solver|]. destruct Q' as (? & ? & Qc); [set_solver|]. split; [congruence|]. split; [congruence|].
      intros _. by apply Qc. }
  destruct (H false) as (J & O & x' & ? & ? & ? & Q); [done|]. split; [done|]. split; [done|]. exists x'. split; [done|]. split; [done|]. split; [done|].
  intros Hq. destruct (Q Hq) as (? & ? & ?). by auto.
Qed.

(** ** [$.ajax] *)

Lemma open_fields x l : req_ok x l → (j_state x < 2)%nat → j_result x = None ∧ j_complete x = None ∧ l = [].
Proof.
  intros [K1 K2 K3 K4 K5 K6 K7 K8] S. assert (Nr : j_result x = None).
  { destruct (j_result x) eqn:Ej; [|done]. exfalso. assert (j_state x = 2%nat) by (apply K3; eauto). lia. }
  rewrite Nr in *. split; [done|]. split; [|done]. destruct (j_complete x) eqn:Ej; [|done]. destruct K2 as [? ?]; [eauto|done].
Qed.
(** A request that is open may change, as long as it stays open. *)
Lemma open_ok x x' l :
  req_ok x l → (j_state x < 2)%nat → (j_state x' < 2)%nat → j_result x' = j_result x → j_complete x' = j_complete x →
  (t_handle x' = true → t_callback x' = true) → (j_state x' = 1%nat → j_installed x' = true) → req_ok x' l.
Proof.
  intros K S S' Er Ec H Hi. destruct (open_fields x l K S) as (Nr & Nc & ->). rewrite Nr, Nc in *.
  split; rewrite ?Er, ?Ec; try done; try lia; try (by intros [? ?]); try (intros ?; exfalso; lia). split; [lia|by intros [? ?]].
Qed.
Lemma inv_open r x x' p :
  inv p → reqs p !! r = Some x → (j_state x < 2)%nat → (j_state x' < 2)%nat → j_fire x' = j_fire x → j_result x' = j_result x → j_complete x' = j_complete x →
  (t_handle x' = true → t_callback x' = true) → (j_state x' = 1%nat → j_installed x' = true) → inv (set_req r x' p).
Proof.
  intros I E S S' Ef Er Ec H Hi. apply (inv_set r x); [done|done|by apply (open_ok x); [apply I|..]|]. unfold counts. by rewrite Ef, Ec.
Qed.

Lemma send_inv r p x : inv p → reqs p !! r = Some x → (j_state x < 2)%nat → inv (send r p).1.
Proof.
  intros I E S. unfold JQueryAjax.send. rewrite E. set (p1 := happen r (Sent _ _ _ _) p).
  assert (I1 : inv p1) by (by apply inv_happen).
  assert (Iset : ∀ hd ready, inv (set_req r (set_transport true hd ready x) p1)) by (intros hd ready; apply (inv_open r x); try done; apply (inv_req p I r x E)).
  destruct (s_send (j_settings x)) as [e|d]; [apply done_inv, I1|]. case_match; [|apply Iset]. cbn [fst]. apply callback_inv, Iset.
Qed.

Lemma launch_inv r s p x :
  Abort ∉ s_on_send s → inv p → reqs p !! r = Some x → (j_state x < 2)%nat → inv (launch r s p).1.
Proof.
  intros Q I E S. unfold JQueryAjax.launch, update. rewrite E. set (x1 := set_installed _ _ x).
  assert (I1 : inv (set_req r x1 p)).
  { apply (inv_open r x); try done. apply (inv_req p I r x E). }
  assert (E1 : reqs (set_req r x1 p) !! r = Some x1) by (cbn; by rewrite lookup_insert_eq).
  destruct (negb (s_transport s)) eqn:Et; [apply done_inv, I1|]. apply negb_false_iff in Et.
  set (m := if s_global s then acts r (s_on_send s) (happen r (Global "ajaxSend") (set_req r x1 p)) else (set_req r x1 p, false)).
  assert (H : m.2 = false ∧ inv m.1 ∧ ∃ x2, reqs m.1 !! r = Some x2 ∧ (j_state x2 < 2)%nat ∧ j_transport x2 = true ∧ j_installed x2 = true).
  { unfold m. destruct (s_global s); [|split; [done|]; split; [done|]; exists x1; split; [done|]; split; [done|by split]].
    destruct (acts_inv r (s_on_send s) (happen r (Global "ajaxSend") (set_req r x1 p)) x1) as (J & _ & x2 & E2 & (_ & _ & G2) & _ & H2); [by apply inv_happen|done|].
    destruct (H2 Q) as (S2 & T2 & F2). split; [done|]. split; [done|]. exists x2. split; [done|]. rewrite S2, T2, G2. by split. }
  destruct H as (Hf & J & x2 & E2 & S2 & T2 & G2). unfold andthen. rewrite Hf, E2. cbn [reqs set_req]. rewrite lookup_insert_eq.
  replace (j_transport (set_sending (s_async s && (0 <? s_timeout s)) x2)) with true by done.
  apply (send_inv r _ (set_sending (s_async s && (0 <? s_timeout s)) x2)); [|cbn; by rewrite lookup_insert_eq|cbn; lia].
  apply (inv_open r x2); try done; [cbn; lia|]. apply (inv_req m.1 J r x2 E2).
Qed.

Lemma created_inv r s p : inv p → reqs p !! r = None → inv (set_req r (created s) p).
Proof.
  intros [I1 I2 I3] E. split.
  - intros r' x. cbn [reqs set_req]. destruct (decide (r' = r)) as [-> |N]; [rewrite lookup_insert_eq|rewrite lookup_insert_ne by done; apply I1].
    intros [= <-]. rewrite results_set, I2 by done. split; cbn; try done; try lia; try (by intros [? ?]).
  - intros r'. cbn [reqs set_req]. destruct (decide (r' = r)) as [-> |N]; [by rewrite lookup_insert_eq|rewrite lookup_insert_ne by done; apply I2].
  - cbn [reqs active set_req]. rewrite under_way_new by done. rewrite I3. unfold counts. cbn. lia.
Qed.

(** The request counts from here on, if it has global events. *)
Lemma prepared_inv r s url key headers p x :
  inv p → reqs p !! r = Some x → (j_state x < 2)%nat → j_settings x = s → j_fire x = false →
  let p1 := if s_global s then set_active (active p + 1) (if active p =? 0 then happen r (Global "ajaxStart") p else p) else p in
  inv (update r (prepared s url key headers) p1) ∧ reqs (update r (prepared s url key headers) p1) !! r = Some (prepared s url key headers x).
Proof.
  intros I E S Es Ef. cbv zeta. set (p1 := if s_global s then _ else p).
  assert (R1 : reqs p1 = reqs p ∧ (∀ r', results r' p1 = results r' p) ∧ active p1 = active p + Z.b2z (s_global s)).
  { unfold p1. destruct (s_global s); cbn [Z.b2z]; [|split; [done|]; split; [done|lia]].
    case_match; cbn [reqs active set_active happen]; (split; [done|]); (split; [|lia]); intros r'; [|done]. rewrite results_active. by apply results_other. }
  destruct R1 as (R1 & L1 & A1). unfold update. rewrite R1, E. split; [|cbn; by rewrite lookup_insert_eq].
  assert (K : req_ok x (results r p)) by (by apply I). destruct (open_fields x _ K S) as (Nr & Nc & _).
  apply (inv_update r x (prepared s url key headers x) p); [done|done|cbn; by rewrite R1|intros r' N; by rewrite results_set, L1| |].
  - rewrite results_set, L1. apply (open_ok x); try done; apply K.
  - cbn [active set_req]. rewrite A1. unfold counts. cbn. rewrite Ef, Nc. cbn.
    destruct (s_global s); cbn; lia.
Qed.

Lemma header_quiet (hs : list (string * string)) : Abort ∉ (λ h, SetHeader h.1 h.2) <$> hs.
Proof. by intros (h & ? & _)%list_elem_of_fmap. Qed.

Lemma ajax_inv r s p : Abort ∉ s_on_send s → inv p → reqs p !! r = None → inv (ajax r s p).1.
Proof.
  intros Q I E. unfold JQueryAjax.ajax. pose proof (created_inv r s p I E) as I0.
  destruct (acts_inv r (s_prefilters s) (set_req r (created s) p) (created s)) as (I1 & _ & x1 & E1 & (S1 & F1 & _) & _ & _); [done|cbn; by rewrite lookup_insert_eq|].
  destruct (acts r (s_prefilters s) (set_req r (created s) p)) as [p1 [|]]; cbn [fst snd] in *; [done|]. unfold andthen at 1. cbn [fst snd].
  unfold state_of. rewrite E1. destruct (Nat.eqb_spec (j_state x1) 2) as [|N]; [done|].
  assert (L1 : (j_state x1 < 2)%nat) by (pose proof (ok_state _ _ (inv_req p1 I1 r x1 E1)); lia).
  destruct (request_url s) as [url key].
  set (p2 := if s_global s then set_active (active p1 + 1) (if active p1 =? 0 then happen r (Global "ajaxStart") p1 else p1) else p1).
  destruct (prepared_inv r s url key (request_headers s key p2) p1 x1 I1 E1 L1 S1 F1) as [I2 E2]. fold p2 in I2, E2.
  set (x2 := prepared s url key (request_headers s key p2) x1) in *. set (p3 := update r _ p2) in *.
  destruct (acts_inv r ((λ h, SetHeader h.1 h.2) <$> s_headers s) p3 x2 I2 E2) as (I4 & _ & x4 & E4 & _ & _ & Q4).
  destruct (Q4 (header_quiet _)) as (S4 & _ & F4). set (m4 := acts r ((λ h, SetHeader h.1 h.2) <$> s_headers s) p3) in *.
  unfold andthen. rewrite F4. unfold before_send. destruct (s_before s) as [[l refuses]|].
  - destruct (acts_inv r l m4.1 x4 I4 E4) as (I5 & _ & x5 & E5 & _ & _ & _).
    destruct (acts r l m4.1) as [p5 [|]]; cbn [fst snd] in *; [done|]. unfold state_of. rewrite E5.
    destruct refuses; cbn [orb]; [apply abort_inv, I5|]. destruct (Nat.eqb_spec (j_state x5) 2); [apply abort_inv, I5|].
    apply (launch_inv r s p5 x5); [done|done|done|]. pose proof (ok_state _ _ (inv_req p5 I5 r x5 E5)). lia.
  - apply (launch_inv r s m4.1 x4); [done|done|done|]. rewrite S4. exact L1.
Qed.

(** ** Reachable pages *)

(** A request that no handler of [ajaxSend] aborts: one that is aborted there
    ends twice (see [abort_on_send]). *)
Definition quiet_send (s : settings) : Prop := Abort ∉ s_on_send s.

(** The pages of programs whose requests are all such that [may] holds of their
    settings; a new request has a number of its own. *)
Definition allowed (may : settings → Prop) (e : @event V) p : Prop :=
  match e with EAjax r s => reqs p !! r = None ∧ may s | _ => True end.
Inductive reachable (may : settings → Prop) : page → Prop :=
  | reach_start lm et : reachable may (Page 0 lm et ∅ [])
  | reach_step e p : allowed may e p → reachable may p → reachable may (step e p).1.

Lemma start_inv lm et : inv (Page 0 lm et ∅ []).
Proof. split; [intros r x; cbn; by rewrite lookup_empty|done|done]. Qed.
Lemma unload_inv rs p : inv p → inv (foldr callback_abort p rs).
Proof. induction rs as [|r rs IH]; intros I; [done|]. cbn. by apply callback_abort_inv, IH. Qed.
Lemma step_inv e p : allowed quiet_send e p → inv p → inv (step e p).1.
Proof.
  intros A I. destruct e as [r s|r d|r a|r|]; cbn [JQueryAjax.step].
  - destruct A. by apply ajax_inv.
  - case_match; [|done]. apply callback_inv, I.
  - apply act_inv, I.
  - destruct (reqs p !! r) as [x|] eqn:E; [|done]. destruct (j_timer x) eqn:Et; [|done]. apply abort_inv.
    apply (inv_set r x); [done|done| |done]. destruct (inv_req p I r x E) as [K1 K2 K3 K4 K5 K6 K7 K8]. split; try done. intros S. by apply K5 in S as [? ?].
  - by apply unload_inv.
Qed.
Lemma reachable_inv p : reachable quiet_send p → inv p.
Proof. induction 1; [apply start_inv|by apply step_inv]. Qed.

(** ** Outcomes *)

(** C32: whatever the browser, the program and the timers do, and in any order,
    a request has one outcome at most, and its completion follows it once; a
    request with an outcome is over, without a timer or a transport; only a
    callback that raises an error keeps it from being completed.  The handlers
    of [ajaxSend] abort no request ([quiet_send]). *)
Theorem ajax_once p r x :
  reachable quiet_send p → reqs p !! r = Some x →
  (results r p = [] ∧ (j_state x < 2)%nat) ∨
  (∃ o, j_state x = 2%nat ∧ j_timer x = false ∧ j_transport x = false ∧
     ((∃ t, results r p = [Outcome o; Completed t]) ∨ (results r p = [Outcome o] ∧ s_throws (j_settings x) = true))).
Proof.
  intros R E. destruct (inv_req p (reachable_inv p R) r x E) as [K1 K2 K3 K4 K5 K6 K7 K8]. rewrite K1.
  destruct (j_result x) as [o|] eqn:Er; [right|left].
  - assert (S : j_state x = 2%nat) by (apply K3; eauto). destruct (K5 S). exists o. split; [done|]. split; [done|]. split; [done|].
    destruct (j_complete x) as [t|]; [left; by exists t|right]. split; [done|]. by apply K7; eauto.
  - split; [done|]. destruct (decide (j_state x = 2%nat)) as [S|]; [|lia]. apply K3 in S as [? ?]. done.
Qed.

(** C33: the counter of active requests is the number of requests with global
    events that have not ended, if no callback raises an error and no handler
    of [ajaxSend] aborts a request ([quiet_send]; one that does makes the counter
    negative, see [abort_on_send]): it is zero again when all of them have been
    answered, aborted or timed out. *)
Theorem ajax_active p :
  reachable quiet_send p → (∀ r x, reqs p !! r = Some x → s_throws (j_settings x) = false) →
  active p = Z.of_nat (size (filter (λ c, j_fire c.2 = true ∧ j_state c.2 ≠ 2%nat) (reqs p))).
Proof.
  intros R%reachable_inv T. rewrite (inv_active p R). unfold under_way. do 2 f_equal. apply map_filter_ext. intros r x E.
  pose proof (inv_req p R r x E) as K. unfold counts. cbn [snd]. destruct (j_fire x); cbn [andb]; [|split; [by intros []|by intros [? ?]]].
  pose proof (T r x E) as Hn. split.
  - intros Hc%bool_decide_spec. split; [done|]. intros S. pose proof (proj1 (ok_done _ _ K) S) as Hr. pose proof (ok_raised _ _ K Hr Hc). congruence.
  - intros [_ S]. apply bool_decide_spec. destruct (j_complete x) eqn:Ec; [|done]. destruct S. apply (ok_done _ _ K), (ok_complete _ _ K). eauto.
Qed.

(** A request that is sent has its callbacks, and waits for the browser unless
    the page was left. *)
Lemma sent_installed p r x : reachable quiet_send p → reqs p !! r = Some x → j_state x = 1%nat → j_installed x = true.
Proof. intros R E. apply (ok_sent _ _ (inv_req p (reachable_inv p R) r x E)). Qed.

(** C34: a request that was sent ends with the next reply that is complete, with
    the outcome of its status and of its text, and with its completion; a
    reply that cannot be read is an error.  (The handlers of [ajaxSend] abort no
    request.) *)
Theorem ajax_reply p r x d :
  reachable quiet_send p → reqs p !! r = Some x → j_state x = 1%nat → t_handle x = true → d_ready d = 4 →
  let s := j_settings x in
  let o := match d_fails d with
           | Some e => Rejected "error" (Some e)
           | None => (judge undefined s (j_mime x) (read_status s d) (Some (d_status_text d)) (Some (read_responses text_value d))
                        (default "" (d_headers d))).1.1
           end in
  let p' := (step (EReady r d) p).1 in
  (∃ x', reqs p' !! r = Some x' ∧ j_state x' = 2%nat) ∧
  (if s_throws s then results r p' = [Outcome o] else ∃ t, results r p' = [Outcome o; Completed t]).
Proof.
  intros R%reachable_inv E S H Hd. cbv zeta. cbn [JQueryAjax.step]. rewrite E, H. unfold JQueryAjax.callback. rewrite E.
  pose proof (inv_req p R r x E) as K. rewrite (ok_listen _ _ K H), Hd. cbn [andb Z.eqb Pos.eqb].
  set (x1 := set_transport false false 4 x). set (p1 := set_req r x1 p).
  assert (E1 : reqs p1 !! r = Some x1) by (cbn; by rewrite lookup_insert_eq).
  assert (K1 : req_ok x1 (results r p1)) by (by apply ok_transport).
  assert (D : ∀ st t rs hs, let m := done_ r st t rs hs p1 in
    let o := (judge undefined (j_settings x) (j_mime x) st t rs (default "" hs)).1.1 in
    (∃ x', reqs m.1 !! r = Some x' ∧ j_state x' = 2%nat) ∧
    (if s_throws (j_settings x) then results r m.1 = [Outcome o] else ∃ t, results r m.1 = [Outcome o; Completed t])).
  { intros st t rs hs. cbv zeta. destruct (done_ends r st t rs hs p1 x1 E1) as (x' & N & R' & K' & _ & _ & J & Eb); [cbn; lia|done|].
    split; [exists x'; split; [by rewrite R', lookup_insert_eq|apply N]|]. rewrite (ok_results _ _ K'), J.
    pose proof (en_complete _ _ _ N) as Nc. replace (s_throws (j_settings x)) with (done_ r st t rs hs p1).2.
    - destruct (done_ r st t rs hs p1).2; [by rewrite Nc|]. destruct Nc as [t' ->]. by exists t'.
    - rewrite Eb. cbn. by rewrite (ok_sent _ _ K S), andb_true_r. }
  destruct (d_fails d) as [e|]; [|apply D]. destruct (D (-1) (Some e) None None) as [D1 D2]. split; [exact D1|].
  replace (Rejected "error" (Some e)) with (judge undefined (j_settings x) (j_mime x) (-1) (Some e) None (default "" None)).1.1; [exact D2|].
  unfold judge. cbn. destruct e; done.
Qed.
End spec.

(** ** Examples *)

(** Requests for a text. *)
Definition text_request (on_send : list action) (throws : bool) : @settings string := {|
  s_url := "/get"; s_type := "POST"; s_data := "a=1"; s_types := ["text"]; s_mime := None; s_content_type := Some "text/plain";
  s_own_content_type := false; s_headers := [("x-token", "t")]; s_accepts := [("*", "*/*"); ("text", "text/plain")];
  s_no_cache := false; s_if_modified := false; s_global := true; s_async := true; s_timeout := 100; s_status_code := [(200, 7%nat)];
  s_cross := false; s_local := false; s_contents := []; s_converters := []; s_filter := Ok; s_prefilters := []; s_before := None;
  s_on_send := on_send; s_transport := true; s_throws := throws; s_send := Sends (XhrData 1 None 0 "" None None ""); s_now := "";
|}.
Definition complete_data : @xhr_data string := XhrData 4 None 200 "OK" (Some "Etag: e1") None "reply".
Definition no_requests : @page string := Page 0 ∅ ∅ ∅ [].
#[local] Notation step := (step "" (λ t, t)).
Definition sent_page : @page string := (step (EAjax 0 (text_request [] false)) no_requests).1.
Definition two_sent : @page string := (step (EAct 0 Abort) (step (EAjax 1 (text_request [] false)) sent_page).1).1.
Definition request_of (p : @page string) (r : nat) : @jqxhr string := default (created (text_request [] false)) (reqs p !! r).

Lemma sent_reachable : reachable "" (λ t, t) quiet_send sent_page.
Proof. apply reach_step; [split; [done|by intros ?%elem_of_nil]|apply reach_start]. Qed.
Lemma two_sent_reachable : reachable "" (λ t, t) quiet_send two_sent.
Proof. apply reach_step; [done|]. apply reach_step; [split; [vm_compute; reflexivity|by intros ?%elem_of_nil]|exact sent_reachable]. Qed.

Lemma ajax_once_witness :
  ∃ o, j_state (request_of two_sent 0) = 2%nat ∧ ((∃ t, results 0 two_sent = [Outcome o; Completed t]) ∨ results 0 two_sent = [Outcome o]).
Proof.
  destruct (ajax_once "" (λ t, t) two_sent 0 (request_of two_sent 0) two_sent_reachable) as [[H _]|(o & S & _ & _ & [H|[H _]])].
  - vm_compute. reflexivity.
  - exfalso. vm_compute in H. discriminate.
  - exists o. split; [exact S|by left].
  - exists o. split; [exact S|by right].
Defined.
Lemma ajax_active_witness : active two_sent = 1 ∧ size (filter (λ c, j_fire c.2 = true ∧ j_state c.2 ≠ 2%nat) (reqs two_sent)) = 1%nat.
Proof.
  assert (E : active two_sent = 1) by (vm_compute; reflexivity). split; [exact E|].
  pose proof (ajax_active "" (λ t, t) two_sent two_sent_reachable) as H. rewrite E in H.
  assert (T : ∀ r x, reqs two_sent !! r = Some x → s_throws (j_settings x) = false).
  { apply (map_Forall_to_list (λ (_ : nat) x, s_throws (j_settings x) = false)). vm_compute. repeat constructor. }
  specialize (H T). lia.
Defined.
Lemma ajax_reply_witness :
  ∃ t, results 0 (step (EReady 0 complete_data) sent_page).1 = [Outcome (Resolved (Some "reply") "success"); Completed t].
Proof.
  destruct (ajax_reply "" (λ t, t) sent_page 0 (request_of sent_page 0) complete_data sent_reachable) as [_ [t H]];
    [vm_compute; reflexivity..|].
  exists t. etransitivity; [exact H|]. vm_compute. reflexivity.
Defined.

(** What is logged of a request. *)
Example sent_log : mine 0 (step (EReady 0 complete_data) sent_page).1 =
  [Global "ajaxStart"; Global "ajaxSend";
   Sent "POST" "/get" [("Content-Type", "text/plain"); ("Accept", "text/plain, */*; q=0.01"); ("X-Token", "t"); ("X-Requested-With", "XMLHttpRequest")] "a=1";
   Outcome (Resolved (Some "reply") "success"); Code 7; Global "ajaxSuccess"; Completed "success"; Global "ajaxComplete"; Global "ajaxStop"].
Proof. vm_compute. reflexivity. Qed.

(** A handler of [ajaxSend] that aborts the request: it ends twice for the
    handlers of global events, and the counter goes below zero, so that
    [ajaxStart] does not come again. *)
Definition aborted_twice : @page string := (step (EAjax 0 (text_request [Abort] false)) no_requests).1.
Example abort_on_send : active aborted_twice = -1 ∧
  mine 0 aborted_twice = [Global "ajaxStart"; Global "ajaxSend"; Outcome (Rejected "abort" (Some "abort")); Global "ajaxError"; Completed "abort";
    Global "ajaxComplete"; Global "ajaxStop"; Global "ajaxError"; Global "ajaxComplete"].
Proof. split; vm_compute; reflexivity. Qed.
(** A callback that raises an error: the request is never completed, and
    counts as active for ever. *)
Example raised_not_completed :
  let p := (step (EReady 0 complete_data) (step (EAjax 0 (text_request [] true)) no_requests).1).1 in
  active p = 1 ∧ results 0 p = [Outcome (Resolved (Some "reply") "success")].
Proof. split; vm_compute; reflexivity. Qed.
(** After the page is left, a request that was under way waits for ever: its
    listener is gone, and nobody is told. *)
Example unload_silent :
  let p := (step EUnload sent_page).1 in
  results 0 p = [] ∧ mine 0 p = mine 0 sent_page ++ [XhrAbort] ∧ t_handle (request_of p 0) = false.
Proof. split; [|split]; vm_compute; reflexivity. Qed.
