(* ===== verification/StoreRequests.v ===== *)
(** The requests of the client library over [$.ajax]: what the callbacks of
    [SendRequest] get for a reply of the store. *)

From S2P Require Import Prelude JsText JQueryConvert JQueryTransports JQueryAjax JQueryAjaxSpec StoreClient.
From stdpp Require Import gmap.

#[local] Open Scope Z_scope.

Section store.
Context {doc data : Type}.
#[local] Notation value := (value doc data).
Variable to_text : value → string.
Variable parse_json : string → result data.
Variable parse_xml : string → result doc.
Variable global_eval : string → result unit.
(** The address of the page, and whether the browser allows requests to
    another. *)
Variable location : string * string * option string.
Variable cors : bool.
#[local] Notation step := (step (@Undefined doc data) Text).
#[local] Notation page := (@page value).
#[local] Notation reachable := (reachable (@Undefined doc data) Text quiet_send).

(** [accepts] of [jQuery.ajaxSettings], with that of scripts. *)
Definition default_accepts : list (string * string) :=
  [("xml", "application/xml, text/xml"); ("html", "text/html"); ("text", "text/plain");
   ("json", "application/json, text/javascript"); ("*", "*/*");
   ("script", "text/javascript, application/javascript, application/ecmascript, application/x-ecmascript")].

(** The settings of a request of the library; [throws] tells whether its
    callbacks raise an error, [sent] what sending it does. *)
Definition store_settings (q : ajax_request) (throws : bool) (sent : @sending value) : @settings value := {|
  s_url := with_protocol location.1.1 (drop_hash (url q)); s_type := ajax_type q; s_data := ajax_data q;
  s_types := data_types (Some (data_type q)); s_mime := None;
  s_content_type := Some "application/x-www-form-urlencoded"; s_own_content_type := false;
  s_headers := []; s_accepts := default_accepts;
  s_no_cache := false; s_if_modified := false; s_global := true; s_async := true; s_timeout := 0;
  s_status_code := []; s_cross := crossDomain location (with_protocol location.1.1 (drop_hash (url q))); s_local := false;
  s_contents := default_contents; s_converters := default_converters to_text parse_json parse_xml global_eval; s_filter := Ok;
  s_prefilters := []; s_before := None; s_on_send := []; s_transport := negb (crossDomain location (with_protocol location.1.1 (drop_hash (url q)))) || cors; s_throws := throws; s_send := sent; s_now := "";
|}.

(** This is the transport that the library selects. *)
Lemma store_transport {request} (serialize : request → string) path req throws sent :
  let s := store_settings (SendRequest serialize path req) throws sent in
  selected cors s = if s_transport s then Some XhrTransport else None.
Proof.
  cbv zeta. unfold selected. set (s := store_settings _ _ _).
  assert (Et : default "*" (head (s_types s)) = "text") by (vm_compute; reflexivity). rewrite Et.
  assert (Ec : s_transport s = negb (s_cross s) || cors) by done. rewrite Ec. clearbody s. clear.
  destruct s as [? ? ? ? ? ? ? ? ? ? ? ? ? ? ? cross ? ? ? ? ? ? ? ? ? ? ?]. by destruct cross, cors.
Qed.

(** The arguments that the callbacks get; a reply that was not modified has no
    value. *)
Definition delivered (o : @outcome value) : option ajax_outcome :=
  match o with
  | Resolved (Some (Text t)) _ => Some (AjaxSuccess t)
  | Rejected text error => Some (AjaxError text (default "undefined" error))
  | _ => None
  end.

(** The judgement on a complete reply to a request for a text. *)
Lemma judge_text {request} (serialize : request → string) path req throws sent mime d :
  let s := store_settings (SendRequest serialize path req) throws sent in
  let status := if d_status d =? 1223 then 204 else d_status d in
  (judge Undefined s mime (read_status s d) (Some (d_status_text d)) (Some (read_responses Text d)) (default "" (d_headers d))).1.1 =
    if status =? 304 then Resolved None "notmodified"
    else if (200 <=? status) && (status <? 300) then Resolved (Some (Text (d_text d))) "success"
    else Rejected (if (status =? 0) && negb (String.eqb (d_status_text d) "") then d_status_text d else "error") (Some (d_status_text d)).
Proof.
  intros s status. unfold judge, s. cbn [s_contents s_converters s_types s_filter store_settings].
  assert (Er : read_status (store_settings (SendRequest serialize path req) throws sent) d = status) by (unfold read_status; cbn; by rewrite andb_false_r).
  rewrite Er. assert (Et : data_types (Some (data_type (SendRequest serialize path req))) = ["text"]) by (vm_compute; reflexivity). rewrite Et.
  assert (Eh : ∀ header, ajaxHandleResponses default_contents (default_converters to_text parse_json parse_xml global_eval) ["text"] mime header (read_responses Text d)
                 = (["text"], Some (Text (d_text d)))) by (intros header; unfold read_responses; by destruct (d_xml d)).
  rewrite Eh. unfold success_status. destruct (Z.eqb_spec status 304) as [-> |N]; [done|]. rewrite orb_false_r.
  destruct ((200 <=? status) && (status <? 300)) eqn:Es; [done|]. cbn [fst]. f_equal.
  destruct (d_status_text d); cbn; [by rewrite andb_false_r|]. by rewrite andb_true_r.
Qed.

(** C35: what the program gets for a reply of the store, through jQuery: the
    text of a reply with a status of success, once, parsed and given to the
    success callback when the store agrees, and the error callback for every
    other status, with the words of the browser.  (The status 304 is left out:
    jQuery makes it a success without a text; and no handler of [ajaxSend] aborts
    a request.) *)
Theorem store_reply {request response : Type} (serialize : request → string)
    (parse_from : response → string → response) (succeeded : response → bool) (set_failed : response → string → response)
    path req (resp : response) sent p r x d :
  reachable p → reqs p !! r = Some x → j_settings x = store_settings (SendRequest serialize path req) false sent →
  j_state x = 1%nat → t_handle x = true → d_ready d = 4 → d_fails d = None → d_status d ≠ 304 →
  let success := (200 <=? d_status d) && (d_status d <? 300) || (d_status d =? 1223) in
  ∃ o t out, results r (step (EReady r d) p).1 = [Outcome o; Completed t] ∧ delivered o = Some out ∧
    (if success then out = AjaxSuccess (d_text d) else ∃ text, out = AjaxError text (d_status_text d)) ∧
    ((SendRequest_done parse_from succeeded set_failed path resp true out).2 = CallSuccess (parse_from resp (d_text d)) ↔
       success = true ∧ succeeded (parse_from resp (d_text d)) = true).
Proof.
  intros R E Es S H Hd Hf N3. cbv zeta. destruct (ajax_reply Undefined Text p r x d R E S H Hd) as [_ O].
  rewrite Hf, Es in O. cbn [s_throws store_settings] in O. destruct O as [t O].
  rewrite (judge_text serialize path req false sent (j_mime x) d) in O.
  set (status := if d_status d =? 1223 then 204 else d_status d) in O.
  assert (N4 : (status =? 304) = false) by (unfold status; destruct (d_status d =? 1223); [done|by apply Z.eqb_neq]). rewrite N4 in O.
  assert (Ec : (200 <=? status) && (status <? 300) = (200 <=? d_status d) && (d_status d <? 300) || (d_status d =? 1223)).
  { unfold status. destruct (Z.eqb_spec (d_status d) 1223); [by rewrite orb_true_r|by rewrite orb_false_r]. }
  rewrite Ec in O. destruct ((200 <=? d_status d) && (d_status d <? 300) || (d_status d =? 1223)).
  - eexists _, t, _. split; [exact O|]. split; [done|]. split; [done|]. cbn. destruct (succeeded (parse_from resp (d_text d))); cbn; split; try done; by intros [? ?].
  - eexists _, t, _. split; [exact O|]. split; [done|]. split; [by eexists|]. cbn. split; [done|by intros [? ?]].
Qed.
End store.

(** ** Examples *)

(** A request for the list of variables, without documents or JSON. *)
Definition list_settings : @settings (value unit unit) :=
  store_settings (λ _, "") (λ _, Ok tt) (λ _, Ok tt) (λ _, Ok tt) ("http:", "store", Some "8020") false
    (SendRequest (λ q : string, q) "/list" "cHJlZml4") false (Sends (XhrData 1 None 0 "" None None "")).
Definition list_page : @page (value unit unit) := (JQueryAjax.step Undefined Text (EAjax 0 list_settings) (Page 0 ∅ ∅ ∅ [])).1.
Definition list_request : @jqxhr (value unit unit) := default (created list_settings) (reqs list_page !! 0%nat).
Definition list_data : @xhr_data (value unit unit) := XhrData 4 None 200 "OK" (Some "") None "ok".
Lemma list_reachable : reachable Undefined Text quiet_send list_page.
Proof. apply reach_step; [split; [done|by intros ?%elem_of_nil]|apply reach_start]. Qed.

(** A reply that says so is a success. *)
Lemma store_reply_witness :
  ∃ o t out, results 0 (JQueryAjax.step Undefined Text (EReady 0 list_data) list_page).1 = [Outcome o; Completed t] ∧ delivered o = Some out ∧
    out = AjaxSuccess "ok" ∧ (SendRequest_done (λ _ t, t) (String.eqb "ok") (λ _ m, m) "/list" "" true out).2 = CallSuccess "ok".
Proof.
  destruct (store_reply (λ _, "") (λ _, Ok tt) (λ _, Ok tt) (λ _, Ok tt) ("http:", "store", Some "8020") false
    (λ q : string, q) (λ _ t, t) (String.eqb "ok") (λ _ m, m) "/list" "cHJlZml4" "" (Sends (XhrData 1 None 0 "" None None ""))
    list_page 0 list_request list_data list_reachable) as (o & t & out & H1 & H2 & H3 & H4); [vm_compute; reflexivity..|done|].
  exists o, t, out. split; [exact H1|]. split; [exact H2|]. split; [exact H3|]. apply H4. by split.
Defined.
