(* ===== verification/JQueryParam.v ===== *)
(** The text of a form from an object ([jQuery.param] of
    [static/flot/jquery.js]) or from the fields of a page ([serialize]), and how
    it is read back: what a server gets for the data of a request. *)

From S2P Require Import Prelude Numbers JsText JsValue JsObject ExactNum.
From Stdlib Require Import Ascii.

(** ** [encodeURIComponent]

    A character above 127 is encoded as two bytes in UTF-8. *)

Definition unreserved (c : ascii) : bool :=
  let n := N_of_ascii c in
  ((48 <=? n) && (n <=? 57) || (65 <=? n) && (n <=? 90) || (97 <=? n) && (n <=? 122))%N
  || existsb (Ascii.eqb c) ["-"; "_"; "."; "!"; "~"; "*"; "'"; "("; ")"]%char.
Definition hex_digit (n : N) : ascii := ascii_of_N (if (n <? 10)%N then n + 48 else n + 55)%N.
Definition percent (n : N) (s : string) : string :=
  String "%" (String (hex_digit (n / 16)) (String (hex_digit (n mod 16)) s)).
Definition encode_char (c : ascii) (s : string) : string :=
  let n := N_of_ascii c in
  if unreserved c then String c s
  else if (n <? 128)%N then percent n s
  else percent (192 + n / 64) (percent (128 + n mod 64) s).
Fixpoint encode (s : string) : string := match s with "" => "" | String c s => encode_char c (encode s) end.

(** [replace(r20, "+")] *)
Fixpoint replace_20 (s : string) : string :=
  match s with
  | String "%" (String "2" (String "0" s)) => String "+" (replace_20 s)
  | String c s => String c (replace_20 s)
  | "" => ""
  end.

Section param.
Context {num : Type} `{Num num} `{NumText num}.
Implicit Types (o v : js num) (kvs : list (string * js num)).

(** Opaque objects are functions: the text of what they return, and theirs. *)
Variable called : nat → string.
Variable source : nat → string.

(** [String(o)] *)
Fixpoint tree_text o : string :=
  match o with
  | Prim (Ref id) => source id
  | Prim v => to_text v
  | Arr l => str_join "," (map (λ x, match x with Prim Undef | Prim Null => "" | x => tree_text x end) l)
  | Obj _ => "[object Object]"
  end.
(** What [add] encodes for a value. *)
Definition value_text o : string := match o with Prim (Ref id) => called id | o => tree_text o end.

(** ** [buildParams] *)

(** [rbracket] *)
Fixpoint ends_bracket (prefix : string) : bool :=
  String.eqb prefix "[]" || match prefix with "" => false | String _ s => ends_bracket s end.
(** [typeof v === "object"] *)
Definition is_object v : bool := match v with Prim Null | Arr _ | Obj _ => true | Prim _ => false end.
(** The name of an element in brackets. *)
Definition index_name (i : nat) v : string := if is_object v then dec_nat (Z.of_nat i) else "".
Definition bracketed (prefix name : string) : string := prefix +:+ "[" +:+ name +:+ "]".

(** The calls of [add], in order. *)
Fixpoint buildParams (traditional : bool) (prefix : string) o : list (string * string) :=
  match o with
  | Arr ((_ :: _) as l) =>
      (fix go i l :=
         match l with
         | [] => []
         | v :: l =>
             (if traditional || ends_bracket prefix then [(prefix, value_text v)]
              else buildParams traditional (bracketed prefix (index_name i v)) v) ++ go (S i) l
         end) 0 l
  | Obj ((_ :: _) as kvs) =>
      if traditional then [(prefix, value_text o)]
      else (fix go kvs :=
              match kvs with
              | [] => []
              | (name, v) :: kvs => buildParams traditional (bracketed prefix name) v ++ go kvs
              end) kvs
  | Arr [] | Obj [] => [(prefix, if traditional then value_text o else "")]
  | Prim _ => [(prefix, value_text o)]
  end.

(** ** [param]

    Of an array the elements are fields of a form, which are objects.  A number
    or a boolean has no properties; [$.ajax] gives no other values. *)
Definition params (traditional : bool) o : list (string * string) :=
  match o with
  | Arr l => map (λ v, (value_text (get "name" v), value_text (get "value" v))) l
  | Obj kvs => concat (map (λ c, buildParams traditional c.1 c.2) kvs)
  | Prim _ => []
  end.
Definition param (traditional : bool) o : string :=
  replace_20 (str_join "&" (map (λ c, encode c.1 +:+ "=" +:+ encode c.2) (params traditional o))).
End param.

(** ** Reading it back

    A plus is a space, escapes are bytes, two bytes of UTF-8 are a character. *)

Definition byte_of (a b : ascii) : option N :=
  match hex_val a, hex_val b with Some x, Some y => Some (Z.to_N (x * 16 + y)) | _, _ => None end.
Fixpoint decode (s : string) : string :=
  match s with
  | "" => ""
  | String c s' =>
      if (c =? "+")%char then String " " (decode s')
      else if negb (c =? "%")%char then String c (decode s')
      else
        match s' with
        | String a (String b s1) =>
            match byte_of a b with
            | Some n =>
                if (n <? 128)%N then String (ascii_of_N n) (decode s1)
                else match s1 with
                     | String "%" (String a' (String b' s2)) =>
                         match byte_of a' b' with
                         | Some m => String (ascii_of_N ((n - 192) * 64 + (m - 128))) (decode s2)
                         | None => String c (decode s')
                         end
                     | _ => String c (decode s')
                     end
            | None => String c (decode s')
            end
        | _ => String c (decode s')
        end
  end.

Definition parse_pair (s : string) : string * string :=
  let '(k, v) := span (λ c, negb (c =? "=")%char) s in
  (decode k, match v with String _ v => decode v | "" => "" end).
Definition parse_query (s : string) : list (string * string) :=
  match s with "" => [] | s => parse_pair <$> split_char "&" s end.

(** The names in a key. *)
Definition path_of (key : string) : list string :=
  match split_char "[" key with
  | first :: rest => first :: ((λ p, (span (λ c, negb (c =? "]")%char) p).1) <$> rest)
  | [] => []
  end.

Section leaves.
Context {num : Type} `{Num num} `{NumText num}.
Variable called : nat → string.
Variable source : nat → string.
Implicit Types (o v : js num) (kvs : list (string * js num)).

Definition under (name : string) (l : list (list string * string)) : list (list string * string) := (λ c, (name :: c.1, c.2)) <$> l.

(** The values in an object with the names that lead to them: an element that
    is no object has the empty name; an empty object is the empty text. *)
Fixpoint leaves o : list (list string * string) :=
  match o with
  | Prim _ => [([], value_text called source o)]
  | Arr [] | Obj [] => [([], "")]
  | Arr l =>
      (fix go i l := match l with [] => [] | v :: l => under (index_name i v) (leaves v) ++ go (S i) l end) 0 l
  | Obj kvs => (fix go kvs := match kvs with [] => [] | (name, v) :: kvs => under name (leaves v) ++ go kvs end) kvs
  end.

(** Names that are not empty and have no brackets. *)
Definition no_bracket (c : ascii) : bool := negb ((c =? "[") || (c =? "]"))%char.
Definition plain_name (s : string) : bool := negb (String.eqb s "") && all_chars no_bracket s.
Fixpoint plain_keys o : bool :=
  match o with
  | Prim _ => true
  | Arr l => forallb plain_keys l
  | Obj kvs => forallb (λ c, plain_name c.1 && plain_keys c.2) kvs
  end.
End leaves.

(** ** The text and its parts *)

(** A character of the text of a form. *)
Definition form_char (c : ascii) (s : string) : string := if (c =? " ")%char then String "+" s else encode_char c s.
Fixpoint form (s : string) : string := match s with "" => "" | String c s => form_char c (form s) end.

(** What holds for each character is a matter of computation. *)
Ltac each_char c := destruct c as [[] [] [] [] [] [] [] []]; reflexivity.

Lemma replace_char c s : replace_20 (encode_char c s) = form_char c (replace_20 s).
Proof. each_char c. Qed.
Lemma encode_char_app c s t : encode_char c s +:+ t = encode_char c (s +:+ t).
Proof. unfold encode_char, percent. by repeat case_match. Qed.
Lemma form_char_app c s t : form_char c s +:+ t = form_char c (s +:+ t).
Proof. unfold form_char. case_match; [done|apply encode_char_app]. Qed.
Lemma replace_encode s t : replace_20 (encode s +:+ t) = form s +:+ replace_20 t.
Proof. induction s as [|c s IH]; [done|]. cbn. by rewrite encode_char_app, replace_char, IH, form_char_app. Qed.

(** It holds neither of the separators. *)
Definition inside (c : ascii) : bool := negb ((c =? "&") || (c =? "="))%char.
Lemma form_char_inside c s : all_chars inside (form_char c s) = all_chars inside s.
Proof. each_char c. Qed.
Lemma form_inside s : all_chars inside (form s) = true.
Proof. induction s as [|c s IH]; [done|]. cbn. by rewrite form_char_inside. Qed.
Lemma all_chars_impl (p q : ascii → bool) s : (∀ c, p c = true → q c = true) → all_chars p s = true → all_chars q s = true.
Proof. intros H. induction s as [|c s IH]; [done|]. cbn. intros [Hc Hs]%andb_true_iff. by rewrite (H c Hc), IH. Qed.

Lemma decode_char c s : decode (form_char c s) = String c (decode s).
Proof. each_char c. Qed.
Lemma decode_form s : decode (form s) = s.
Proof. induction s as [|c s IH]; [done|]. cbn. by rewrite decode_char, IH. Qed.

Definition form_pair (c : string * string) : string := form c.1 +:+ "=" +:+ form c.2.
Lemma replace_pairs (l : list (string * string)) :
  replace_20 (str_join "&" (map (λ c, encode c.1 +:+ "=" +:+ encode c.2) l)) = str_join "&" (map form_pair l).
Proof.
  assert (E : ∀ c t, replace_20 ((encode c.1 +:+ "=" +:+ encode c.2) +:+ t) = form_pair c +:+ replace_20 t).
  { intros c t. unfold form_pair. rewrite !string_app_assoc, replace_encode. f_equal. cbn. f_equal. apply replace_encode. }
  induction l as [|c l IH]; [done|]. destruct l as [|d l].
  - cbn. rewrite <- (string_app_nil_r (encode c.1 +:+ _)), E. apply string_app_nil_r.
  - change (replace_20 ((encode c.1 +:+ "=" +:+ encode c.2) +:+ String "&" (str_join "&" (map (λ c, encode c.1 +:+ "=" +:+ encode c.2) (d :: l)))) =
      form_pair c +:+ String "&" (str_join "&" (map form_pair (d :: l)))).
    by rewrite E, <- IH.
Qed.
Lemma parse_form_pair c : parse_pair (form_pair c) = c.
Proof.
  unfold parse_pair, form_pair. rewrite span_all; [|eapply all_chars_impl, form_inside|done].
  - cbn. rewrite !decode_form. by destruct c.
  - intros x. unfold inside. by destruct (x =? "&")%char, (x =? "=")%char.
Qed.
Lemma form_pair_join c l : str_join "&" (form_pair c :: l) ≠ "".
Proof.
  destruct c as [k v]. unfold form_pair. cbn [fst snd]. destruct l; cbn [str_join]; destruct (form k); discriminate.
Qed.
Lemma parse_form l : parse_query (str_join "&" (map form_pair l)) = l.
Proof.
  destruct l as [|c l]; [done|]. pose proof (form_pair_join c (map form_pair l)) as N. cbn [map].
  assert (E : parse_query (str_join "&" (form_pair c :: map form_pair l)) = parse_pair <$> split_char "&" (str_join "&" (map form_pair (c :: l)))).
  { unfold parse_query. cbn [map]. by destruct (str_join "&" (form_pair c :: map form_pair l)). }
  rewrite E, split_join; [|done|].
  - generalize (c :: l). intros k. induction k as [|d k IH]; [done|]. change (parse_pair (form_pair d) :: (parse_pair <$> map form_pair k) = d :: k). by rewrite parse_form_pair, IH.
  - apply Forall_forall. intros s (d & -> & _)%list_elem_of_fmap. unfold form_pair. rewrite !all_chars_app. cbn.
    rewrite !(all_chars_impl inside) by (apply form_inside || (intros x; unfold inside; by destruct (x =? "&")%char)). done.
Qed.

(** ** Keys and names *)

Lemma split_char_snoc sep s t : split_char sep (s +:+ String sep t) = split_char sep s ++ split_char sep t.
Proof.
  induction s as [|c s IH]; cbn; [by rewrite Ascii.eqb_refl|]. case_match; [by rewrite IH|]. rewrite IH.
  pose proof (split_char_nonempty sep s). by destruct (split_char sep s).
Qed.
Lemma no_bracket_open s : all_chars no_bracket s = true → all_chars (λ c, negb (c =? "[")%char) s = true.
Proof. apply all_chars_impl. intros c. unfold no_bracket. by destruct (c =? "[")%char, (c =? "]")%char. Qed.
Lemma no_bracket_close s : all_chars no_bracket s = true → all_chars (λ c, negb (c =? "]")%char) s = true.
Proof. apply all_chars_impl. intros c. unfold no_bracket. by destruct (c =? "[")%char, (c =? "]")%char. Qed.

Lemma path_of_bracketed prefix name : all_chars no_bracket name = true → path_of (bracketed prefix name) = path_of prefix ++ [name].
Proof.
  intros N. unfold path_of, bracketed. change ("[" +:+ name +:+ "]") with (String "[" (name +:+ "]")).
  rewrite split_char_snoc, (split_char_none _ (name +:+ "]")).
  - pose proof (split_char_nonempty "[" prefix). destruct (split_char "[" prefix) as [|first rest]; [done|].
    cbn [app]. rewrite fmap_app. cbn. by rewrite span_all by (by apply no_bracket_close || done).
  - by rewrite all_chars_app, no_bracket_open.
Qed.
Lemma path_of_name name : all_chars no_bracket name = true → path_of name = [name].
Proof. intros N. unfold path_of. by rewrite split_char_none by by apply no_bracket_open. Qed.

Lemma no_bracket_ends s t : all_chars no_bracket s = true → t = "" ∨ t = "]" → ends_bracket (s +:+ t) = false.
Proof.
  intros N [-> | ->]; induction s as [|c s IH]; try done; cbn in *; apply andb_true_iff in N as [Nc N]; rewrite (IH N), orb_false_r;
    (case_match eqn:E; [|done]); apply Ascii.eqb_eq in E as ->; done.
Qed.
Lemma ends_prefix p t : 2 ≤ String.length t → ends_bracket (p +:+ t) = ends_bracket t.
Proof.
  intros L. induction p as [|c p IH]; [done|]. change (String.eqb (String c (p +:+ t)) "[]" || ends_bracket (p +:+ t) = ends_bracket t).
  rewrite IH. destruct (String.eqb_spec (String c (p +:+ t)) "[]") as [[= _ E]|]; [|done]. destruct p as [|d p].
  - cbn in E. subst. cbn in L. lia.
  - injection E as _ E. destruct p; [|done]. cbn in E. subst. cbn in L. lia.
Qed.
Lemma bracketed_ends prefix name : plain_name name = true → ends_bracket (bracketed prefix name) = false.
Proof.
  unfold plain_name, bracketed. intros [Ne N]%andb_true_iff. destruct name as [|d n]; [done|].
  rewrite ends_prefix by (cbn; lia). assert (E : ends_bracket (String d n +:+ "]") = false) by (apply no_bracket_ends; auto).
  change ("[" +:+ String d n +:+ "]") with (String "[" (String d n +:+ "]")). cbn [ends_bracket]. rewrite E, orb_false_r.
  cbn in N. apply andb_true_iff in N as [Nd _]. apply String.eqb_neq. intros [= -> _]. done.
Qed.
Lemma plain_index n : plain_name (dec_nat (Z.of_nat n)) = true.
Proof.
  unfold plain_name. destruct (dec_nat_nonempty (Z.of_nat n)) as (c & s & E & _). pose proof (dec_nat_spec (Z.of_nat n) ltac:(lia)) as [D _].
  rewrite E in D |- *. cbn [String.eqb negb andb]. revert D. apply all_chars_impl. intros x. by destruct x as [[] [] [] [] [] [] [] []].
Qed.

(** ** An object and its text *)

Section reading.
Context {num : Type} `{Num num} `{NumText num}.
Variable called : nat → string.
Variable source : nat → string.
Implicit Types (o v : js num) (kvs : list (string * js num)).
#[local] Notation buildParams := (buildParams called source).
#[local] Notation leaves := (leaves called source).

(** What a server reads: the names in the key of a pair. *)
Definition named (c : string * string) : list string * string := (path_of c.1, c.2).
Definition read (s : string) : list (list string * string) := named <$> parse_query s.

(** The text of a form is read back as the pairs that it was made of. *)
Lemma parse_param traditional o : parse_query (param called source traditional o) = params called source traditional o.
Proof. unfold param. by rewrite replace_pairs, parse_form. Qed.

Definition below (path : list string) (c : list string * string) : list string * string := (path ++ c.1, c.2).
Lemma below_under path name l : below path <$> under name l = below (path ++ [name]) <$> l.
Proof. unfold under. rewrite <- list_fmap_compose. apply list_fmap_ext. intros _ c _. unfold below. cbn. by rewrite <- app_assoc. Qed.

Lemma index_plain i v : all_chars no_bracket (index_name i v) = true ∧ (is_object v = true → plain_name (index_name i v) = true).
Proof.
  unfold index_name. pose proof (plain_index i) as P. destruct (is_object v); [|done]. split; [|done].
  by apply andb_true_iff in P as [_ P].
Qed.

(** The loops over elements and properties. *)
Section loops.
Variable prefix : string.
Fixpoint build_from (i : nat) (l : list (js num)) : list (string * string) :=
  match l with [] => [] | v :: l => buildParams false (bracketed prefix (index_name i v)) v ++ build_from (S i) l end.
Fixpoint leaves_from (i : nat) (l : list (js num)) : list (list string * string) :=
  match l with [] => [] | v :: l => under (index_name i v) (leaves v) ++ leaves_from (S i) l end.
Lemma build_arr v l : ends_bracket prefix = false → buildParams false prefix (Arr (v :: l)) = build_from 0 (v :: l).
Proof. intros E. cbn [JQueryParam.buildParams orb]. by rewrite E. Qed.
Lemma build_obj c kvs :
  buildParams false prefix (Obj (c :: kvs)) = concat (map (λ c, buildParams false (bracketed prefix c.1) c.2) (c :: kvs)).
Proof. destruct c as [k v]. cbn. f_equal. induction kvs as [|[] kvs IH]; [done|]. cbn. by rewrite IH. Qed.
End loops.
Lemma leaves_obj c kvs : leaves (Obj (c :: kvs)) = concat (map (λ c, under c.1 (leaves c.2)) (c :: kvs)).
Proof. destruct c as [k v]. cbn. f_equal. induction kvs as [|[] kvs IH]; [done|]. cbn. by rewrite IH. Qed.

Lemma one_value prefix t : named <$> [(prefix, t)] = below (path_of prefix) <$> [([], t)].
Proof. unfold named, below. cbn. by rewrite app_nil_r. Qed.

Lemma build_leaves o prefix :
  plain_keys o = true → (is_object o = true → ends_bracket prefix = false) →
  named <$> buildParams false prefix o = below (path_of prefix) <$> leaves o.
Proof.
  revert prefix. induction o as [p|l IH|kvs IH] using js_tree_ind; intros prefix K E; [apply one_value|..]; specialize (E eq_refl).
  - destruct l as [|v0 l0]; [apply one_value|]. rewrite build_arr by done. change (leaves (Arr (v0 :: l0))) with (leaves_from 0 (v0 :: l0)).
    cbn [plain_keys] in K. revert K IH. generalize 0%nat. induction (v0 :: l0) as [|v l IHl]; intros i K IH; [done|].
    cbn [forallb] in K. apply andb_true_iff in K as [Kv Kl]. apply Forall_cons in IH as [Iv Il]. destruct (index_plain i v) as [P1 P2].
    cbn [build_from leaves_from]. rewrite !fmap_app, below_under, IHl, Iv, path_of_bracketed;
      first [done|intros; by apply bracketed_ends, P2].
  - destruct kvs as [|c0 kvs0]; [apply one_value|]. rewrite build_obj, leaves_obj.
    cbn [plain_keys] in K. revert K IH. induction (c0 :: kvs0) as [|[name v] kvs IHl]; intros K IH; [done|].
    cbn [forallb fst snd] in K. apply andb_true_iff in K as [[Kn Kv]%andb_true_iff Kl]. apply Forall_cons in IH as [Iv Il]. cbn [snd] in Iv.
    pose proof Kn as [_ Kb]%andb_true_iff. cbn [map concat fst snd].
    rewrite !fmap_app, below_under, IHl, Iv, path_of_bracketed;
      first [done|intros; by apply bracketed_ends].
Qed.

(** C38: what a server reads from the text of an object are the values in the
    object, in their order, with the names that lead to each of them, however
    deep objects and arrays are nested and whatever characters the values and
    names have, if no name has brackets or is empty. *)
Theorem param_read kvs :
  plain_keys (Obj kvs) = true →
  read (param called source false (Obj kvs)) = concat (map (λ c, under c.1 (leaves c.2)) kvs).
Proof.
  intros K. unfold read. rewrite parse_param. cbn [params]. cbn [plain_keys] in K.
  induction kvs as [|[name v] kvs IH]; [done|]. cbn in K |- *. apply andb_true_iff in K as [[Kn Kv]%andb_true_iff Kl].
  rewrite fmap_app, IH by done. f_equal. pose proof Kn as [_ Kb]%andb_true_iff. rewrite build_leaves; [|done|].
  - by rewrite path_of_name.
  - intros _. rewrite <- (string_app_nil_r name). apply no_bracket_ends; auto.
Qed.
End reading.

(** ** The fields of forms: [serializeArray], [serialize] *)

(** What [val] gives for a control: nothing, a text, the texts of a selection. *)
Inductive control_value := NoValue | OneValue (v : string) | Values (l : list string).
Record control := Control {
  c_name : string; c_disabled : bool; c_checked : bool; c_node : string; c_type : string; c_value : control_value;
}.
(** An element of a selection: a form with its controls, or a control. *)
Inductive element := Form (l : list control) | Single (c : control).

(** [replace(rCRLF, "\r\n")] *)
Definition cr : ascii := "013".
Definition lf : ascii := "010".
Fixpoint crlf (s : string) : string :=
  match s with
  | "" => ""
  | String c s' =>
      if (c =? lf)%char then String cr (String lf (crlf s'))
      else match s' with
           | String d s'' => if ((c =? cr) && (d =? lf))%char then String cr (String lf (crlf s'')) else String c (crlf s')
           | "" => String c ""
           end
  end.

(** [rinput], and [rselectTextarea] at the head of the name of a node. *)
Definition input_types : list string :=
  ["color"; "date"; "datetime"; "email"; "hidden"; "month"; "number"; "password"; "range"; "search"; "tel"; "text"; "time"; "url"; "week"].
Definition is_input (type : string) : bool := existsb (String.eqb (to_lower type)) input_types.
Definition select_textarea (node : string) : bool :=
  String.prefix "select" (to_lower node) || String.prefix "textarea" (to_lower node).

(** A control that is sent. *)
Definition successful (c : control) : bool :=
  negb (String.eqb (c_name c) "") && negb (c_disabled c) && (c_checked c || select_textarea (c_node c) || is_input (c_type c)).
Definition fields (c : control) : list (string * string) :=
  match c_value c with NoValue => [] | OneValue v => [(c_name c, crlf v)] | Values l => (λ v, (c_name c, crlf v)) <$> l end.
Definition serializeArray (l : list element) : list (string * string) :=
  concat (map fields (filter (λ c, successful c = true) (concat (map (λ e, match e with Form l => l | Single c => [c] end) l)))).

Section serialize.
Context {num : Type} `{Num num} `{NumText num}.
Variable called source : nat → string.
Definition field_object (f : string * string) : js num := Obj [("name", Prim (Str f.1)); ("value", Prim (Str f.2))].
Definition serialize (l : list element) : string := param called source false (Arr (map field_object (serializeArray l))).

(** What a server reads are the fields of the controls that are sent. *)
Theorem serialize_read l : parse_query (serialize l) = serializeArray l.
Proof.
  unfold serialize. rewrite parse_param. cbn [params]. induction (serializeArray l) as [|[k v] m IH]; [done|]. cbn in IH |- *. by rewrite IH.
Qed.
End serialize.

(** ** Line ends *)

(** Each line feed has a carriage return before it. *)
Fixpoint line_ends (after_cr : bool) (s : string) : bool :=
  match s with "" => true | String c s => (negb (c =? lf)%char || after_cr) && line_ends (c =? cr)%char s end.

Lemma crlf_ends s : line_ends false (crlf s) = true.
Proof.
  enough (H : ∀ n s b, String.length s ≤ n → line_ends b (crlf s) = true) by by apply (H (String.length s)).
  induction n as [|n IH]; intros [|c t] b L; cbn in L; try done; [lia|]. cbn [crlf].
  destruct (c =? lf)%char eqn:El; [cbn; apply IH; lia|]. destruct t as [|d t]; [cbn; by rewrite El|].
  destruct ((c =? cr) && (d =? lf))%char eqn:E; [cbn; apply IH; cbn in L; lia|].
  cbn [line_ends]. rewrite El. cbn [negb orb andb]. apply IH. lia.
Qed.
Lemma crlf_kept n s : String.length s ≤ n → line_ends false s = true → crlf s = s.
Proof.
  revert s. induction n as [|n IH]; intros [|c t] L E; cbn in L; try done; [lia|]. cbn [line_ends] in E. cbn [crlf].
  apply andb_true_iff in E as [Ec E]. rewrite orb_false_r in Ec. apply negb_true_iff in Ec. rewrite Ec. destruct t as [|d t]; [done|].
  destruct (c =? cr)%char eqn:Er; cbn [andb].
  - destruct (d =? lf)%char eqn:Ed.
    + apply Ascii.eqb_eq in Er, Ed. subst. f_equal. f_equal. cbn in E. apply IH; [cbn in L; lia|done].
    + f_equal. apply IH; [lia|]. cbn [line_ends] in *. by rewrite Ed in *.
  - f_equal. by apply IH; [lia|].
Qed.
(** A text that was sent has the same lines when it is sent again. *)
Theorem crlf_idempotent s : crlf (crlf s) = crlf s.
Proof. apply (crlf_kept _ _ (le_n _)), crlf_ends. Qed.

(** ** Examples *)

#[local] Existing Instance Exact.exact_text.
Definition no_function (_ : nat) : string := "".
Definition sample_form : list (string * js xq) :=
  [("range", Obj [("from", Prim (Str "1 & 2")); ("to", Prim Null)]);
   ("label", Arr [Prim (Str "a=b"); Prim (Str (String "233" "+")); Arr [Prim (Boolean true)]])].
Example sample_form_text :
  param no_function no_function false (Obj sample_form) =
    "range%5Bfrom%5D=1+%26+2&range%5Bto%5D=null&label%5B%5D=a%3Db&label%5B%5D=%C3%A9%2B&label%5B2%5D%5B%5D=true".
Proof. vm_compute. reflexivity. Qed.
Lemma param_read_witness :
  read (param no_function no_function false (Obj sample_form)) =
    [(["range"; "from"], "1 & 2"); (["range"; "to"], "null"); (["label"; ""], "a=b"); (["label"; ""], String "233" "+");
     (["label"; "2"; ""], "true")].
Proof. rewrite (param_read no_function no_function sample_form); vm_compute; reflexivity. Defined.

(** A name that is empty before an array: the names of the elements are lost. *)
Example empty_name :
  params no_function no_function false (Obj [("a", Obj [("", Arr [Arr [Prim (Str "x")]])])] : js xq) = [("a[]", "x")].
Proof. vm_compute. reflexivity. Qed.

(** The fields of a form, and arrays as they were serialized of old. *)
Example form_fields :
  param no_function no_function false (Arr [Obj [("name", Prim (Str "q")); ("value", Prim (Str "a b"))]] : js xq) = "q=a+b" ∧
  param no_function no_function true (Obj [("l", Arr [Prim (Str "x"); Prim (Str "y")]); ("o", Obj [])] : js xq) = "l=x&l=y&o=%5Bobject+Object%5D".
Proof. split; vm_compute; reflexivity. Qed.
Example form_text :
  serialize (num := xq) (λ _, "") (λ _, "")
    [Form [Control "q" false false "INPUT" "text" (OneValue ("a" +:+ String lf "b")); Control "off" false false "INPUT" "checkbox" (OneValue "on");
           Control "pick" false false "SELECT" "" (Values ["x"; "y z"]); Control "no" true true "INPUT" "text" (OneValue "1")]]
  = "q=a%0D%0Ab&pick=x&pick=y+z".
Proof. vm_compute. reflexivity. Qed.
