(* ===== verification/JQueryData.v ===== *)
(** The data of elements ([jQuery.data], [jQuery.removeData] and their methods
    in [static/flot/jquery.js]): data of the program, and data of the library,
    which its events and queues are kept in.

    Both are in one object of [jQuery.cache], whose key is a number that the
    element has under the name [jQuery.expando]; the data of the library is the
    property of that name.  The specification has two maps for each element.
    Elements are nodes; the program does not use the name of the expando.  The
    name [toJSON] does not count when an object is tested for being empty, so
    what is kept under it can be lost: the refinement is for programs that
    write nothing under that name. *)

From S2P Require Import Prelude JsText.
From stdpp Require Import gmap.
From Stdlib Require Import Ascii.

Section data.
(** Values; some are false in a condition. *)
Context {V : Type}.
Variable falsy : V → bool.
(** [acceptData]: neither an embedded object nor an applet. *)
Variable acceptData : nat → bool.
Implicit Types (e : nat) (m : gmap string V).

(** ** State and operations *)

(** An object of the cache; the object of the library may be there. *)
Record entry := Entry { pub : gmap string V; priv : option (gmap string V) }.
Record store := Store { uuid : nat; expando : gmap nat nat; cache : gmap nat entry }.
Implicit Types (w : store) (c : entry).

(** What [data] is called with (no name, a name, or a plain object), and
    answers. *)
Inductive naming := Whole | Named (name : string) | Props (m : gmap string V).
(** The key that [thisCache[name] = data] writes. *)
Definition key_of (name : naming) : string :=
  match name with Whole => "undefined" | Named n => n | Props _ => "[object Object]" end.
Inductive answer := Undefined | Value (v : V) | Object (m : gmap string V).
Definition answered (v : option V) : answer := match v with Some v => Value v | None => Undefined end.

Definition no_data : entry := Entry ∅ None.
Definition entry_of id w : entry := default no_data (cache w !! id).
Definition set_entry id c w : store := Store (uuid w) (expando w) (<[id := c]> (cache w)).

(** The number of an element, which gets one when it has none. *)
Definition number_of e w : nat * store :=
  match expando w !! e with
  | Some id => (id, w)
  | None => let id := S (uuid w) in (id, Store id (<[e := id]> (expando w)) (cache w))
  end.

Definition data e (name : naming) (value : option V) (pvt : bool) w : store * answer :=
  if negb (acceptData e) then (w, Undefined)
  else
    let missing := match expando w !! e with
                   | None => true
                   | Some id => pvt && bool_decide (priv (entry_of id w) = None)
                   end in
    let lookup := match name, value with Named _, None => true | _, _ => false end in
    if missing && lookup then (w, Undefined)
    else
      let '(id, w) := number_of e w in
      let c := entry_of id w in
      let c := match name with
               | Props m => if pvt then Entry (pub c) (Some (m ∪ default ∅ (priv c))) else Entry (m ∪ pub c) (priv c)
               | _ => c
               end in
      let c := if pvt then Entry (pub c) (Some (default ∅ (priv c))) else c in
      let c := match value with
               | Some v =>
                   if pvt then Entry (pub c) (Some (<[key_of name := v]> (default ∅ (priv c))))
                   else Entry (<[key_of name := v]> (pub c)) (priv c)
               | None => c
               end in
      let mine := if pvt then default ∅ (priv c) else pub c in
      (set_entry id c w,
       match name with
       | Named n =>
           if String.eqb n "events" && (match mine !! n with Some v => falsy v | None => true end) then
             (if pvt then Undefined else answered (default ∅ (priv c) !! n))
           else answered (mine !! n)
       | _ => Object mine
       end).

(** [isEmptyDataObject], of an object of properties and of an object of the
    cache, where the object of the library is one more property. *)
Definition is_empty_object m : bool := bool_decide (delete "toJSON" m = ∅).
Definition is_empty c : bool := is_empty_object (pub c) && bool_decide (priv c = None).

Definition removeData e (name : option string) (pvt : bool) w : store :=
  if negb (acceptData e) then w
  else
    match expando w !! e with
    | None => w
    | Some id =>
        match cache w !! id with
        | None => w
        | Some c =>
            let c := match name with
                     | Some "" | None => c
                     | Some n => if pvt then Entry (pub c) (delete n <$> priv c) else Entry (delete n (pub c)) (priv c)
                     end in
            let some_left := match name with
                             | Some "" | None => false
                             | Some _ => if pvt then match priv c with Some m => negb (is_empty_object m) | None => false end
                                         else negb (is_empty c)
                             end in
            if some_left then set_entry id c w
            else
              let c := if pvt then Entry (pub c) None else c in
              if pvt && negb (is_empty c) then set_entry id c w
              else
                match priv c with
                | Some m => set_entry id (Entry ∅ (Some m)) w
                | None => Store (uuid w) (delete e (expando w)) (delete id (cache w))
                end
        end
    end.

Definition hasData e w : bool :=
  match expando w !! e with
  | Some id => match cache w !! id with Some c => negb (is_empty c) | None => false end
  | None => false
  end.

(** ** The specification: two maps for each element *)

Record spec := Spec { user : nat → gmap string V; library : nat → gmap string V }.
Definition on e (f : gmap string V → gmap string V) (s : nat → gmap string V) : nat → gmap string V :=
  λ e', if decide (e' = e) then f (s e') else s e'.
Definition change e (pvt : bool) (f : gmap string V → gmap string V) (s : spec) : spec :=
  if pvt then Spec (user s) (on e f (library s)) else Spec (on e f (user s)) (library s).

Inductive op :=
  | OData e (name : naming) (value : option V) (pvt : bool)
  | ORemove e (name : option string) (pvt : bool).

Definition writes (name : naming) (value : option V) (m : gmap string V) : gmap string V :=
  let m := match name with Props m' => m' ∪ m | _ => m end in
  match value with Some v => <[key_of name := v]> m | None => m end.
(** The name of the events of the library can be used for those of the program;
    when it is not, it gives those of the library. *)
Definition reads (name : naming) (mine : gmap string V) (library : gmap string V) (pvt : bool) : answer :=
  match name with
  | Named n =>
      if String.eqb n "events" && (match mine !! n with Some v => falsy v | None => true end) then
        (if pvt then Undefined else answered (library !! n))
      else answered (mine !! n)
  | _ => Object mine
  end.
Definition spec_step (o : op) (s : spec) : spec * answer :=
  match o with
  | OData e name value pvt =>
      if acceptData e then
        let s := change e pvt (writes name value) s in
        (s, reads name (if pvt then library s e else user s e) (library s e) pvt)
      else (s, Undefined)
  | ORemove e name pvt =>
      if acceptData e then
        (change e pvt (λ m, match name with Some "" | None => ∅ | Some n => delete n m end) s, Undefined)
      else (s, Undefined)
  end.
Definition step (o : op) w : store * answer :=
  match o with
  | OData e name value pvt => data e name value pvt w
  | ORemove e name pvt => (removeData e name pvt w, Undefined)
  end.

Fixpoint run {S} (f : op → S → S * answer) (ops : list op) (s : S) : S * list answer :=
  match ops with
  | [] => (s, [])
  | o :: ops => let '(s, a) := f o s in let '(s, l) := run f ops s in (s, a :: l)
  end.

(** Nothing is written under the name that does not count. *)
Definition usual (o : op) : Prop :=
  match o with OData _ name value _ => writes name value ∅ !! "toJSON" = None | ORemove _ _ _ => True end.

(** ** The objects of the cache *)

(** Each number is that of one element, each object of the cache is that of
    a number. *)
Record wf w : Prop := WF {
  wf_entry e (id : nat) : expando w !! e = Some id → id ≤ uuid w ∧ is_Some (cache w !! id);
  wf_one e e' (id : nat) : expando w !! e = Some id → expando w !! e' = Some id → e = e';
  wf_owned (id : nat) : is_Some (cache w !! id) → ∃ e, expando w !! e = Some id;
}.
Definition obj e w : entry := match expando w !! e with Some id => entry_of id w | None => no_data end.
Definition set_obj e c w : store := let '(id, w) := number_of e w in set_entry id c w.
Definition drop_obj e id w : store := Store (uuid w) (delete e (expando w)) (delete id (cache w)).

Lemma fresh_number w : wf w → cache w !! S (uuid w) = None.
Proof.
  intros K. destruct (cache w !! S (uuid w)) as [c|] eqn:E; [|done]. destruct (wf_owned w K (S (uuid w))) as [e He]; [by eexists|].
  apply (wf_entry w K) in He as [? _]. lia.
Qed.
Lemma number_of_entry e w : wf w → entry_of (number_of e w).1 (number_of e w).2 = obj e w.
Proof.
  intros K. unfold number_of, obj. destruct (expando w !! e) as [id|]; [done|]. cbn. unfold entry_of. cbn. by rewrite fresh_number.
Qed.

Lemma set_obj_wf e c w : wf w → wf (set_obj e c w).
Proof.
  intros K. unfold set_obj, number_of. destruct (expando w !! e) as [id|] eqn:E; cbn; split; cbn.
  - intros e' id' H. destruct (wf_entry w K e' id' H) as [L S]. split; [done|]. rewrite lookup_insert_is_Some'. auto.
  - apply (wf_one w K).
  - intros id' [->|S]%lookup_insert_is_Some'; [by exists e|by apply (wf_owned w K)].
  - intros e' id'. destruct (decide (e' = e)) as [->|N].
    + rewrite lookup_insert_eq. intros [= <-]. split; [done|]. rewrite lookup_insert_is_Some'. auto.
    + rewrite lookup_insert_ne by done. intros [L S]%(wf_entry w K). split; [lia|]. rewrite lookup_insert_is_Some'. auto.
  - assert (F : ∀ e', expando w !! e' ≠ Some (S (uuid w))) by (intros e' [? _]%(wf_entry w K); lia).
    intros e1 e2 id'. destruct (decide (e1 = e)) as [->|N1], (decide (e2 = e)) as [->|N2];
      rewrite ?lookup_insert_eq, ?lookup_insert_ne by done; [done|intros [= <-] H; by apply F in H|intros H [= <-]; by apply F in H|apply (wf_one w K)].
  - intros id' [->|S]%lookup_insert_is_Some'; [exists e; by rewrite lookup_insert_eq|].
    destruct (wf_owned w K id' S) as [e' He]. exists e'. rewrite lookup_insert_ne; [done|congruence].
Qed.
Lemma obj_set e e' c w : wf w → obj e' (set_obj e c w) = if decide (e' = e) then c else obj e' w.
Proof.
  intros K. unfold obj, set_obj, number_of, entry_of. destruct (expando w !! e) as [id|] eqn:E; cbn; case_decide as D.
  - subst. by rewrite E, lookup_insert_eq.
  - destruct (expando w !! e') as [id'|] eqn:E'; [|done]. rewrite lookup_insert_ne; [done|]. intros ->. by apply D, (wf_one w K e' e id').
  - subst. by rewrite !lookup_insert_eq.
  - rewrite lookup_insert_ne by done. destruct (expando w !! e') as [id'|] eqn:E'; [|done]. rewrite lookup_insert_ne; [done|].
    intros <-. apply (wf_entry w K) in E' as [? _]. lia.
Qed.
Lemma drop_obj_wf e id w : wf w → expando w !! e = Some id → wf (drop_obj e id w).
Proof.
  intros K E. split; cbn.
  - intros e' id' [N H]%lookup_delete_Some. destruct (wf_entry w K e' id' H) as [L S]. split; [done|].
    rewrite lookup_delete_ne; [done|]. intros ->. by apply N, (wf_one w K e e' id').
  - intros e1 e2 id' [_ H1]%lookup_delete_Some [_ H2]%lookup_delete_Some. by apply (wf_one w K e1 e2 id').
  - intros id' [c [N H]%lookup_delete_Some]. destruct (wf_owned w K id') as [e' He]; [by eexists|]. exists e'.
    rewrite lookup_delete_ne; [done|]. intros ->. congruence.
Qed.
Lemma obj_drop e id e' w : wf w → expando w !! e = Some id → obj e' (drop_obj e id w) = if decide (e' = e) then no_data else obj e' w.
Proof.
  intros K E. unfold obj, drop_obj, entry_of. cbn. case_decide as D; [subst; by rewrite lookup_delete_eq|]. rewrite lookup_delete_ne by done.
  destruct (expando w !! e') as [id'|] eqn:E'; [|done]. rewrite lookup_delete_ne; [done|]. intros ->. by apply D, (wf_one w K e' e id').
Qed.

(** ** The cache implements the specification *)

Record implements w (s : spec) : Prop := {
  imp_wf : wf w;
  imp_user e : user s e = pub (obj e w);
  imp_library e : library s e = default ∅ (priv (obj e w));
}.

Lemma implements_change w w' (s : spec) e c (pvt : bool) (f : gmap string V → gmap string V) :
  implements w s → wf w' → (∀ e', obj e' w' = if decide (e' = e) then c else obj e' w) →
  pub c = (if pvt then pub (obj e w) else f (pub (obj e w))) →
  default ∅ (priv c) = (if pvt then f (default ∅ (priv (obj e w))) else default ∅ (priv (obj e w))) →
  implements w' (change e pvt f s).
Proof.
  intros [K U L] K' O P Q. split; [done|..]; intros e'; rewrite O; destruct pvt; cbn; unfold on; case_decide; subst;
    rewrite ?P, ?Q, <- ?U, <- ?L; done.
Qed.
Lemma implements_same w (s : spec) e (pvt : bool) : implements w s → implements w (change e pvt id s).
Proof.
  intros I. apply (implements_change w w s e (obj e w) pvt id I); [apply I|intros e'; by case_decide; subst|by destruct pvt|by destruct pvt].
Qed.

Lemma on_same e f u : on e f u e = f (u e).
Proof. unfold on. by rewrite decide_True. Qed.

(** A lookup that is given up at once would find nothing. *)
Lemma missing_none w e (pvt : bool) :
  match expando w !! e with None => true | Some id => pvt && bool_decide (priv (entry_of id w) = None) end = true →
  priv (obj e w) = None ∧ (pvt = false → pub (obj e w) = ∅).
Proof.
  unfold obj. destruct (expando w !! e) as [id|]; [|done]. intros [-> B]%andb_true_iff. by apply bool_decide_eq_true in B.
Qed.

Lemma data_implements w s e name value pvt :
  implements w s →
  implements (data e name value pvt w).1 (spec_step (OData e name value pvt) s).1 ∧
  (data e name value pvt w).2 = (spec_step (OData e name value pvt) s).2.
Proof.
  intros I. pose proof (imp_wf w s I) as K. unfold data, spec_step. destruct (acceptData e); cbn [negb]; [|done].
  destruct (match expando w !! e with None => true | Some id => _ end && _) eqn:M.
  - apply andb_true_iff in M as [M L]. destruct name as [|n|m]; try discriminate. destruct value as [v|]; [discriminate|].
    split; [by apply implements_same|]. apply missing_none in M as [M1 M2]. cbn [fst snd reads].
    destruct pvt; cbn; rewrite ?on_same, !(imp_library w s I), ?(imp_user w s I), ?M1, ?M2 by done; cbn; rewrite lookup_empty; by case_match.
  - clear M. pose proof (number_of_entry e w K) as En.
    pose proof (λ c, set_obj_wf e c w K) as Kw. pose proof (λ c e', obj_set e e' c w K) as Ow. unfold set_obj in Kw, Ow.
    destruct (number_of e w) as [id w']. cbn [fst snd] in En. rewrite En.
    split.
    + eapply implements_change; [exact I|apply Kw|apply Ow|..]; by destruct pvt, name, value.
    + cbn [snd]. destruct pvt; cbn [change library user fst snd]; rewrite ?on_same, ?(imp_library w s I), ?(imp_user w s I);
      by destruct name, value.
Qed.

(** The name [toJSON] is not used. *)
Definition clean (s : spec) : Prop := ∀ e, user s e !! "toJSON" = None ∧ library s e !! "toJSON" = None.

Lemma change_clean e (pvt : bool) f s :
  clean s → (∀ m, m !! "toJSON" = None → f m !! "toJSON" = None) → clean (change e pvt f s).
Proof.
  intros C F e'. destruct (C e') as [Cu Cl]. destruct pvt; cbn; unfold on; case_decide; subst; auto.
Qed.
Lemma writes_clean name value m :
  writes name value ∅ !! "toJSON" = None → m !! "toJSON" = None → writes name value m !! "toJSON" = None.
Proof.
  unfold writes. intros W Hm.
  assert (B : match name with Props m' => m' ∪ m | _ => m end !! "toJSON" = match name with Props m' => m' ∪ ∅ | _ => ∅ end !! "toJSON").
  { destruct name; [by rewrite lookup_empty|by rewrite lookup_empty|by rewrite !lookup_union, Hm, lookup_empty]. }
  destruct value as [v|]; [|by rewrite B]. destruct (decide (key_of name = "toJSON")) as [E|N].
  - by rewrite E, lookup_insert_eq in W.
  - rewrite lookup_insert_ne in W |- * by done. by rewrite B.
Qed.
Lemma step_clean o s : usual o → clean s → clean (spec_step o s).1.
Proof.
  intros U C. destruct o as [e name value pvt|e name pvt]; cbn [spec_step]; (destruct (acceptData e); [|done]).
  - apply change_clean; [done|]. intros m Hm. by apply writes_clean.
  - apply change_clean; [done|]. intros m Hm. destruct name as [[|]|]; [by rewrite lookup_empty|by rewrite lookup_delete_None; right|by rewrite lookup_empty].
Qed.
Lemma clean_empty m : m !! "toJSON" = None → is_empty_object m = bool_decide (m = ∅).
Proof. intros H. unfold is_empty_object. by rewrite delete_id. Qed.

#[local] Arguments change : simpl never.
Section removal.
Variables (w : store) (s : spec) (e id : nat) (pvt : bool) (f : gmap string V → gmap string V).
Hypothesis I : implements w s.
Hypothesis E : expando w !! e = Some id.
Lemma put_change c :
  pub c = (if pvt then pub (obj e w) else f (pub (obj e w))) →
  default ∅ (priv c) = (if pvt then f (default ∅ (priv (obj e w))) else default ∅ (priv (obj e w))) →
  implements (set_entry id c w) (change e pvt f s).
Proof.
  intros P Q. pose proof (set_obj_wf e c w (imp_wf w s I)) as Kw. pose proof (λ e', obj_set e e' c w (imp_wf w s I)) as Ow.
  unfold set_obj, number_of in Kw, Ow. rewrite E in Kw, Ow. by eapply implements_change.
Qed.
Lemma drop_change :
  ∅ = (if pvt then pub (obj e w) else f (pub (obj e w))) →
  ∅ = (if pvt then f (default ∅ (priv (obj e w))) else default ∅ (priv (obj e w))) →
  implements (drop_obj e id w) (change e pvt f s).
Proof.
  intros P Q. pose proof (imp_wf w s I) as K. eapply implements_change; [exact I|by apply drop_obj_wf|intros e'; by apply obj_drop|done|done].
Qed.
End removal.

Lemma removeData_implements w s e name pvt :
  implements w s → clean s → implements (removeData e name pvt w) (spec_step (ORemove e name pvt) s).1.
Proof.
  intros I Cl. pose proof (imp_wf w s I) as K. unfold removeData, spec_step. destruct (acceptData e); cbn [negb fst]; [|done].
  destruct (expando w !! e) as [id|] eqn:E.
  - destruct (wf_entry w K e id E) as [_ [c Ec]]. rewrite Ec. assert (Eo : obj e w = c) by (unfold obj, entry_of; by rewrite E, Ec).
    fold (drop_obj e id w). destruct (Cl e) as [Cu Cp]. rewrite (imp_user w s I), Eo in Cu. rewrite (imp_library w s I), Eo in Cp.
    unfold is_empty. destruct c as [u l]. cbn [pub priv] in Cu, Cp.
    destruct name as [[|ch n]|], pvt, l as [l|]; cbn in *; rewrite ?clean_empty by (rewrite ?lookup_delete_None; auto);
      repeat case_bool_decide; cbn;
      first [apply (put_change w s e id _ _ I E)|apply (drop_change w s e id _ _ I E)]; rewrite ?Eo; cbn; simplify_eq; try done;
      by apply symmetry, dec_stable.
  - apply (implements_change w w s e (obj e w)); [done|done|intros e'; by case_decide; subst|..]; unfold obj; rewrite E; cbn;
      by destruct pvt, name as [[]|]; rewrite ?delete_empty.
Qed.

Lemma step_implements o w s :
  implements w s → clean s → implements (step o w).1 (spec_step o s).1 ∧ (step o w).2 = (spec_step o s).2.
Proof.
  intros I C. destruct o as [e name value pvt|e name pvt]; [by apply data_implements|]. split; [by apply removeData_implements|].
  cbn. by destruct (acceptData e).
Qed.
Lemma run_implements ops w s :
  Forall usual ops → implements w s → clean s →
  implements (run step ops w).1 (run spec_step ops s).1 ∧ (run step ops w).2 = (run spec_step ops s).2 ∧
  clean (run spec_step ops s).1.
Proof.
  intros U. revert w s. induction U as [|o ops Uo U IH]; intros w s I C; [done|]. cbn. destruct (step_implements o w s I C) as [I' A].
  pose proof (step_clean o s Uo C) as C'. destruct (step o w) as [w' a], (spec_step o s) as [s' a']. cbn in I', A, C'. subst.
  destruct (IH w' s' I' C') as (I2 & A2 & C2). destruct (run step ops w'), (run spec_step ops s'). cbn in *. by subst.
Qed.

Definition start : store := Store 0 ∅ ∅.
Definition nothing : spec := Spec (λ _, ∅) (λ _, ∅).

(** C39: whatever is written, read and removed, the one object of an element in
    the cache behaves as two maps, one of the program and one of the library,
    for each element; an element is known to have data when it has some; and no
    object is left in the cache that is not that of an element.  Nothing is
    written under the name [toJSON], which would not count as data (see
    [toJSON_lost]). *)
Theorem data_refines ops :
  Forall usual ops →
  let '(w, answers) := run step ops start in
  let '(s, answers') := run spec_step ops nothing in
  answers = answers' ∧
  (∀ e, user s e = pub (obj e w) ∧ library s e = default ∅ (priv (obj e w))) ∧
  (∀ e, user s e ≠ ∅ ∨ library s e ≠ ∅ → hasData e w = true) ∧
  (∀ id, is_Some (cache w !! id) → ∃ e, expando w !! e = Some id).
Proof.
  intros Us. destruct (run_implements ops start nothing Us) as ([K U L] & A & C); [split; [split|..]; cbn; try done; by intros ? []|done|].
  destruct (run step ops start) as [w l], (run spec_step ops nothing) as [s l']. cbn [fst snd] in *.
  split; [done|]. split; [done|]. split; [|apply (wf_owned w K)].
  intros e. destruct (C e) as [Cu _]. revert Cu. rewrite U, L. unfold hasData, obj, entry_of. destruct (expando w !! e) as [id|]; [|by intros _ [[]|[]]].
  destruct (cache w !! id) as [[u l2]|]; [|by intros _ [[]|[]]]. unfold is_empty. cbn. intros Cu H. rewrite clean_empty by done. apply negb_true_iff, andb_false_iff.
  destruct H as [H|H]; [left; by apply bool_decide_eq_false|right]. apply bool_decide_eq_false. by intros ->.
Qed.

(** ** [$(element).data(key)]

    What the handlers of [getData] answer, for a namespace and a key; the
    attributes of an element, and what their texts stand for. *)
Section attributes.
Variable handled : string → string → option V.
Variable is_element : nat → bool.
Variable attribute : nat → string → option string.
Variable true_value false_value null_value : V.
Variable number : string → option V.
Variable parse_json : string → result V.
Variable text : string → V.

(** [rbrace] *)
Definition last_char (t : string) : ascii := match string_rev t with String c _ => c | "" => "000"%char end.
Definition braces (t : string) : bool :=
  match t with
  | String c (String _ _) =>
      ((c =? "{") && (last_char t =? "}") || (c =? "[") && (last_char t =? "]"))%char
      && all_chars (λ x : ascii, negb ((x =? "010") || (x =? "013"))%char) t
  | _ => false
  end.
(** An error of the parser leaves the text. *)
Definition converted (t : string) : V :=
  if String.eqb t "true" then true_value
  else if String.eqb t "false" then false_value
  else if String.eqb t "null" then null_value
  else match number t with
       | Some v => v
       | None => if braces t then match parse_json t with Ok v => v | _ => text t end else text t
       end.

Definition dataAttr e (key : string) (d : option V) w : store * option V :=
  match d with
  | Some _ => (w, d)
  | None =>
      if is_element e then
        match attribute e key with
        | Some t => ((data e (Named key) (Some (converted t)) false w).1, Some (converted t))
        | None => (w, None)
        end
      else (w, None)
  end.
Definition fetch e (key : string) w : store * option V :=
  let '(w, a) := data e (Named key) None false w in
  dataAttr e key (match a with Value v => Some v | _ => None end) w.
Definition fn_data e (key : string) w : store * option V :=
  let parts := split_char "." key in
  let first := default "" (parts !! 0) in
  let space := match parts !! 1 with None | Some "" => "" | Some n => "." +:+ n end in
  let '(w, d) := match handled space first with Some v => (w, Some v) | None => fetch e key w end in
  match d with
  | None =>
      if String.eqb space "" then (w, None)
      else match handled "" first with Some v => (w, Some v) | None => fetch e first w end
  | d => (w, d)
  end.
End attributes.

(** A value that was read from an attribute stays, whatever becomes of the
    attribute. *)
Lemma attribute_once is_element attr attr' tv fv nv number parse text e key t w :
  let get a := fetch is_element a tv fv nv number parse text e key in
  let v := converted tv fv nv number parse text t in
  wf w → acceptData e = true → is_element e = true → key ≠ "events" → pub (obj e w) !! key = None → attr e key = Some t →
  (get attr w).2 = Some v ∧ (get attr' (get attr w).1).2 = Some v.
Proof.
  intros get v K A El Ne N At.
  assert (I : implements w (Spec (λ e, pub (obj e w)) (λ e, default ∅ (priv (obj e w))))) by done.
  assert (F : ∀ w s, implements w s → (data e (Named key) None false w).2 = answered (user s e !! key) ∧
                     implements (data e (Named key) None false w).1 s).
  { intros w1 s1 I1. destruct (data_implements w1 s1 e (Named key) None false I1) as [I2 A2]. revert I2 A2. cbn [spec_step]. rewrite A. unfold change. cbn.
    rewrite on_same. rewrite (proj2 (String.eqb_neq key "events")) by done. cbn. intros [K2 U2 L2] A2. split; [done|]. split; [done| |done].
    intros e'. rewrite <- U2. cbn. unfold on. by case_decide. }
  destruct (F w _ I) as [A1 I1]. cbn [user] in A1. rewrite N in A1.
  set (w1 := (data e (Named key) None false w).1) in *.
  assert (E : get attr w = ((data e (Named key) (Some v) false w1).1, Some v)).
  { unfold get, fetch. subst w1. destruct (data e (Named key) None false w) as [w1 a1]. cbn [fst snd] in *. subst a1. cbn. by rewrite El, At. }
  rewrite E. cbn [fst snd]. split; [done|]. destruct (data_implements w1 _ e (Named key) (Some v) false I1) as [I2 _].
  destruct (F _ _ I2) as [A2 _]. unfold get, fetch.
  destruct (data e (Named key) None false (data e (Named key) (Some v) false w1).1) as [w3 a3]. cbn [snd] in A2. rewrite A2.
  cbn [spec_step]. rewrite A. unfold change. cbn [fst user]. rewrite on_same. cbn [writes]. by rewrite lookup_insert_eq.
Qed.


(** ** The data of the library

    What the other parts of the library use of it. *)

Definition lib e w : gmap string V := default ∅ (priv (obj e w)).
Definition contents w : spec := Spec (λ e, pub (obj e w)) (λ e, lib e w).
Lemma implements_self w : wf w → implements w (contents w).
Proof. by intros K. Qed.

(** A cache where nothing is kept under the name that does not count. *)
Definition sane w : Prop := wf w ∧ clean (contents w).
Lemma implements_sane w s : implements w s → clean s → sane w.
Proof. intros [K U L] C. split; [done|]. intros e. destruct (C e) as [Cu Cl]. rewrite U in Cu. rewrite L in Cl. by split. Qed.
Lemma usual_named e n v (pvt : bool) : n ≠ "toJSON" → usual (OData e (Named n) v pvt).
Proof. intros N. destruct v as [v|]; [|by apply lookup_empty]. apply lookup_insert_None. split; [apply lookup_empty|done]. Qed.
Lemma start_sane : sane start.
Proof. split; [split; cbn; try done; by intros ? []|done]. Qed.

Lemma lib_write e n v w :
  sane w → acceptData e = true → n ≠ "toJSON" →
  let w' := (data e (Named n) v true w).1 in
  sane w' ∧ (∀ e', lib e' w' = if decide (e' = e) then match v with Some v => <[n := v]> (lib e w) | None => lib e w end else lib e' w).
Proof.
  intros [K C] A N. destruct (data_implements w _ e (Named n) v true (implements_self w K)) as [I _].
  split; [by apply (implements_sane _ _ I), step_clean; [apply usual_named|]|]. destruct I as [_ _ L].
  intros e'. unfold lib at 1. rewrite <- L. cbn [spec_step]. rewrite A. unfold change. cbn. unfold on. case_decide; [subst; by destruct v|done].
Qed.
Lemma lib_read e n w : sane w → acceptData e = true → n ≠ "events" → (data e (Named n) None true w).2 = answered (lib e w !! n).
Proof.
  intros [K _] A N. destruct (data_implements w _ e (Named n) None true (implements_self w K)) as [_ ->]. cbn [spec_step]. rewrite A.
  unfold change. cbn [library snd reads]. rewrite on_same, (proj2 (String.eqb_neq n "events")) by done. done.
Qed.
Lemma lib_remove e n w :
  sane w → acceptData e = true → n ≠ "" →
  let w' := removeData e (Some n) true w in
  sane w' ∧ (∀ e', lib e' w' = if decide (e' = e) then delete n (lib e w) else lib e' w).
Proof.
  intros [K C] A N. pose proof (removeData_implements w _ e (Some n) true (implements_self w K) C) as I.
  split; [by apply (implements_sane _ _ I), (step_clean (ORemove e (Some n) true))|]. destruct I as [_ _ L].
  intros e'. unfold lib at 1. rewrite <- L. cbn [spec_step]. rewrite A. unfold change. cbn. unfold on. case_decide; [|done].
  subst. by destruct n.
Qed.
End data.

(** ** Examples *)

(** The library's events are found under the program's name while that is
    free; an empty name removes all data of the program. *)
Example events_name :
  (run (V := nat) (step (λ _, false) (λ _, true))
     [OData 1 (Named "events") (Some 7) true; OData 1 (Named "events") None false; OData 1 (Named "events") (Some 8) false;
      OData 1 (Named "events") None false; ORemove 1 (Some "") false; OData 1 (Named "events") None false] start).2 =
    [Value 7; Value 7; Value 8; Value 8; Undefined; Value 7].
Proof. vm_compute. reflexivity. Qed.

(** What is kept under [toJSON] does not count: the element has no data, and
    removing what else there was removes it. *)
Example toJSON_lost :
  let run := run (V := nat) (step (λ _, false) (λ _, true)) in
  hasData 1 (run [OData 1 (Named "toJSON") (Some 7) false] start).1 = false ∧
  (run [OData 1 (Named "toJSON") (Some 7) false; OData 1 (Named "a") (Some 8) false; ORemove 1 (Some "a") false;
        OData 1 (Named "toJSON") None false] start).2 = [Value 7; Value 8; Undefined; Undefined].
Proof. split; vm_compute; reflexivity. Qed.

(** Data of the program and of the library of two elements. *)
Definition some_ops : list (@op nat) :=
  [OData 1 (Named "a") (Some 7) false; OData 1 (Named "fxqueue") (Some 8) true; OData 2 (Props {["b" := 9]}) None false;
   ORemove 1 (Some "a") false; OData 1 (Named "fxqueue") None true; OData 2 Whole (Some 3) false; ORemove 2 None false].
Lemma data_refines_witness :
  let '(w, answers) := run (step (λ _, false) (λ _, true)) some_ops start in
  let '(s, answers') := run (spec_step (λ _, false) (λ _, true)) some_ops nothing in
  answers = answers' ∧
  (∀ e, user s e = pub (obj e w) ∧ library s e = default ∅ (priv (obj e w))) ∧
  (∀ e, user s e ≠ ∅ ∨ library s e ≠ ∅ → hasData e w = true) ∧
  (∀ id, is_Some (cache w !! id) → ∃ e, expando w !! e = Some id).
Proof. apply (data_refines (λ _, false) (λ _, true) some_ops). by repeat constructor. Defined.
