(* ===== verification/JQueryQueue.v ===== *)
(** Queues of functions of elements ([jQuery.queue], [jQuery.dequeue] and their
    methods in [static/flot/jquery.js]), on top of the data of elements.

    A queue is an array that the data of an element refers to; a function that
    is called while its queue runs may give the element another array.  What
    remains to be done is a list of tasks: the calls that functions make are
    put in front of it.  The theorems: the order of the functions, whatever they
    do; and, for functions that only queue others, that each is called. *)

From S2P Require Import Prelude JsText JQueryData.
From stdpp Require Import gmap.

(** The sentinel of the queue of effects, and functions. *)
Inductive item := InProgress | Fn (f : nat).
(** What is queued: a function, or an array that replaces the queue. *)
Inductive queued := One (f : nat) | Many (l : list nat).
(** The calls of the program: [queue] and [dequeue] for one element; the
    argument of a function is a call of [dequeue]; [clearQueue] queues an
    empty array, [delay] a function without calls that a timer dequeues. *)
Inductive action := AQueue (e : nat) (type : string) (d : queued) | ADequeue (e : nat) (type : string).
(** A call, or the end of a call of [dequeue] with the array it had. *)
Inductive task := Do (a : action) | Finish (r e : nat) (type : string).
Inductive happening := Queued (e : nat) (type : string) (f : nat) | Called (e : nat) (type : string) (f : nat).

Record world := World { db : @store nat; arrays : gmap nat (list item); next_ref : nat; log : list happening }.
Implicit Types (w : world) (e r f : nat) (type : string).

(** All elements accept data; a reference is never false. *)
Definition fetch_ref e type w : world * option nat :=
  let '(st, a) := data (λ _, false) (λ _, true) e (Named (type +:+ "queue")) None true (db w) in
  (World st (arrays w) (next_ref w) (log w), match a with Value r => Some r | _ => None end).
Definition store_new e type (l : list item) w : world * nat :=
  let r := next_ref w in
  (World (data (λ _, false) (λ _, true) e (Named (type +:+ "queue")) (Some r) true (db w)).1 (<[r := l]> (arrays w)) (S r) (log w), r).
Definition array r w : list item := default [] (arrays w !! r).
Definition set_array r (l : list item) w : world := World (db w) (<[r := l]> (arrays w)) (next_ref w) (log w).
Definition happen (hs : list happening) w : world := World (db w) (arrays w) (next_ref w) (log w ++ hs).

(** [jQuery.queue(elem, type, data)] with data. *)
Definition queue e type (d : queued) w : world * nat :=
  let '(w, q) := fetch_ref e type w in
  match d, q with
  | Many l, _ => store_new e type (Fn <$> l) (happen (Queued e type <$> l) w)
  | One f, None => store_new e type [Fn f] (happen [Queued e type f] w)
  | One f, Some r => (set_array r (array r w ++ [Fn f]) (happen [Queued e type f] w), r)
  end.

Definition in_progress (l : list item) : bool := match l with InProgress :: _ => true | _ => false end.
Definition finish r e type w : world :=
  match array r w with
  | [] => World (removeData (λ _, true) e (Some (type +:+ "queue")) true (db w)) (arrays w) (next_ref w) (log w)
  | _ => w
  end.

Section run.
(** The calls that a function makes when it is called for an element. *)
Variable program : nat → nat → string → list action.

(** [jQuery.dequeue]: an element without a queue has an empty array. *)
Definition dequeue e type w : world * list task :=
  match fetch_ref e type w with
  | (w, None) => (World (removeData (λ _, true) e (Some (type +:+ "queue")) true (db w)) (arrays w) (next_ref w) (log w), [])
  | (w, Some r) =>
      let l := match array r w with InProgress :: l => l | l => l end in
      match l with
      | Fn f :: l =>
          (happen [Called e type f] (set_array r (if String.eqb type "fx" then InProgress :: l else l) w),
           (Do <$> program f e type) ++ [Finish r e type])
      | l => (finish r e type (set_array r (tail l) w), [])
      end
  end.

(** [$(element).queue(type, data)] *)
Definition fn_queue e type (d : queued) w : world * list task :=
  let '(w, r) := queue e type d w in
  (w, if String.eqb type "fx" && negb (in_progress (array r w)) then [Do (ADequeue e type)] else []).

Definition perform (t : task) w : world * list task :=
  match t with
  | Do (AQueue e type d) => fn_queue e type d w
  | Do (ADequeue e type) => dequeue e type w
  | Finish r e type => (finish r e type w, [])
  end.

(** The program makes calls that are [allowed] when nothing else remains to be
    done. *)
Variable allowed : action → Prop.
Definition start : world := World JQueryData.start ∅ 0 [].
Inductive reachable : world → list task → Prop :=
  | reach_start : reachable start []
  | reach_event w a : allowed a → reachable w [] → reachable w [Do a]
  | reach_step w t ts : reachable w (t :: ts) → reachable (perform t w).1 ((perform t w).2 ++ ts).

(** All that remains to be done, with enough steps. *)
Fixpoint exec (fuel : nat) w (ts : list task) : world * list task :=
  match fuel, ts with
  | S fuel, t :: ts => let '(w, l) := perform t w in exec fuel w (l ++ ts)
  | _, _ => (w, ts)
  end.
End run.

(** What was queued and called for an element, and what waits. *)
Definition queued_for e type (l : list happening) : list nat :=
  omap (λ h, match h with Queued e' type' f => if decide (e' = e ∧ type' = type) then Some f else None | _ => None end) l.
Definition called_for e type (l : list happening) : list nat :=
  omap (λ h, match h with Called e' type' f => if decide (e' = e ∧ type' = type) then Some f else None | _ => None end) l.
Definition functions (l : list item) : list nat := omap (λ i, match i with Fn f => Some f | InProgress => None end) l.
Definition reg e type w : option nat := lib e (db w) !! (type +:+ "queue").
Definition waiting e type w : list nat := match reg e type w with Some r => functions (array r w) | None => [] end.

(** ** Names *)

Lemma length_queue t : String.length (t +:+ "queue") = String.length t + 5.
Proof. induction t as [|c t IH]; [done|]. cbn. by rewrite IH. Qed.
Lemma queue_name_inj t t' : t +:+ "queue" = t' +:+ "queue" → t = t'.
Proof.
  intros E. assert (L : String.length t = String.length t').
  { apply (f_equal String.length) in E. rewrite !length_queue in E. lia. }
  revert t' E L. induction t as [|c t IH]; intros [|c' t'] E L; try done. cbn in E, L. injection E as -> E. f_equal. apply IH; [done|lia].
Qed.
Lemma queue_name type : type +:+ "queue" ≠ "events" ∧ type +:+ "queue" ≠ "" ∧ type +:+ "queue" ≠ "toJSON".
Proof.
  split; [|split; [by destruct type|]]; intros E; apply (f_equal String.length) in E as L; rewrite length_queue in L; cbn in L;
    (destruct type as [|c [|]]; try (cbn in L; lia); discriminate).
Qed.

(** ** References and arrays *)

Lemma fetch_ok e type w :
  sane (db w) →
  (fetch_ref e type w).2 = reg e type w ∧ sane (db (fetch_ref e type w).1) ∧
  (∀ e' t', reg e' t' (fetch_ref e type w).1 = reg e' t' w) ∧
  arrays (fetch_ref e type w).1 = arrays w ∧ next_ref (fetch_ref e type w).1 = next_ref w ∧ log (fetch_ref e type w).1 = log w.
Proof.
  intros K. unfold fetch_ref, reg. destruct (queue_name type) as (N & _ & J).
  pose proof (lib_read (λ _, false) (λ _, true) e (type +:+ "queue") (db w) K eq_refl N) as A.
  destruct (lib_write (λ _, false) (λ _, true) e (type +:+ "queue") None (db w) K eq_refl J) as [K' L].
  destruct (data _ _ e _ None true (db w)) as [st a]. cbn [fst snd db arrays next_ref log] in *.
  split; [subst a; by destruct (_ !! _)|]. split; [done|]. split; [|done]. intros e' t'. rewrite L. case_decide; [by subst|done].
Qed.
Lemma store_ok e type l w :
  sane (db w) →
  let w' := (store_new e type l w).1 in
  sane (db w') ∧ ∀ e' t', reg e' t' w' = if decide (e' = e ∧ t' = type) then Some (next_ref w) else reg e' t' w.
Proof.
  intros K. destruct (queue_name type) as (_ & _ & J). destruct (lib_write (λ _, false) (λ _, true) e (type +:+ "queue") (Some (next_ref w)) (db w) K eq_refl J) as [K' L].
  split; [done|]. intros e' t'. unfold reg. cbn [db fst store_new]. rewrite L. destruct (decide (e' = e)) as [->|N]; [|by rewrite decide_False by naive_solver].
  destruct (decide (t' = type)) as [->|N]; [by rewrite lookup_insert_eq, decide_True|].
  rewrite lookup_insert_ne by (intros ?%queue_name_inj; congruence). by rewrite decide_False by naive_solver.
Qed.
Lemma removed_ok e type st (a : gmap nat (list item)) n l :
  sane st →
  let w' := World (removeData (λ _, true) e (Some (type +:+ "queue")) true st) a n l in
  sane (db w') ∧ ∀ e' t', reg e' t' w' = if decide (e' = e ∧ t' = type) then None else reg e' t' (World st a n l).
Proof.
  intros K. destruct (queue_name type) as (_ & N & _). destruct (lib_remove (λ _, false) (λ _, true) e (type +:+ "queue") st K eq_refl N) as [K' L].
  split; [done|]. intros e' t'. unfold reg. cbn [db]. rewrite L. destruct (decide (e' = e)) as [->|M]; [|by rewrite decide_False by naive_solver].
  destruct (decide (t' = type)) as [->|M]; [by rewrite lookup_delete_eq, decide_True|].
  rewrite lookup_delete_ne by (intros ?%queue_name_inj; congruence). by rewrite decide_False by naive_solver.
Qed.

(** ** The slot of an element: its array *)

Definition slot e type w : option (nat * list item) := r ← reg e type w; Some (r, array r w).

(** The sentinel is at the head only. *)
Definition is_fn (i : item) : Prop := match i with Fn _ => True | InProgress => False end.
Definition well (l : list item) : Prop := Forall is_fn (tail l).
Record sound w : Prop := Sound {
  sound_db : sane (db w);
  sound_ref e type r : reg e type w = Some r → r < next_ref w;
  sound_one e type e' type' r : reg e type w = Some r → reg e' type' w = Some r → e = e' ∧ type = type';
  sound_array r : well (array r w);
}.

Lemma array_set r r' l w : array r' (set_array r l w) = if decide (r' = r) then l else array r' w.
Proof. unfold array. cbn. case_decide; [subst; by rewrite lookup_insert_eq|by rewrite lookup_insert_ne]. Qed.

Lemma array_new r e type l w : array r (store_new e type l w).1 = if decide (r = next_ref w) then l else array r w.
Proof. unfold array, store_new. cbn [fst arrays]. case_decide; [subst; by rewrite lookup_insert_eq|by rewrite lookup_insert_ne]. Qed.

Lemma slot_fetch e type w :
  sound w → sound (fetch_ref e type w).1 ∧ (fetch_ref e type w).2 = reg e type w ∧ log (fetch_ref e type w).1 = log w ∧
  next_ref (fetch_ref e type w).1 = next_ref w ∧ (∀ r, array r (fetch_ref e type w).1 = array r w) ∧
  (∀ e' t', reg e' t' (fetch_ref e type w).1 = reg e' t' w) ∧ (∀ e' t', slot e' t' (fetch_ref e type w).1 = slot e' t' w).
Proof.
  intros [K B I A]. destruct (fetch_ok e type w K) as (R & K' & G & Ea & En & El).
  assert (Ar : ∀ r, array r (fetch_ref e type w).1 = array r w) by (intros r; unfold array; by rewrite Ea).
  split; [split; [done|..]|repeat split; try done].
  - intros e' t' r. rewrite G, En. apply B.
  - intros e1 t1 e2 t2 r. rewrite !G. apply I.
  - intros r. by rewrite Ar.
  - intros e' t'. unfold slot. rewrite G. destruct (reg e' t' w); cbn; [by rewrite Ar|done].
Qed.

Lemma slot_set e type r l0 l w :
  sound w → slot e type w = Some (r, l0) → well l →
  sound (set_array r l w) ∧ ∀ e' t', slot e' t' (set_array r l w) = if decide (e' = e ∧ t' = type) then Some (r, l) else slot e' t' w.
Proof.
  intros [K B I A] S Wl. unfold slot in S. destruct (reg e type w) as [r0|] eqn:E; [|done]. injection S as -> <-. split.
  - split; try done. intros r'. rewrite array_set. case_decide; [done|apply A].
  - intros e' t'. unfold slot. change (reg e' t' (set_array r l w)) with (reg e' t' w). case_decide as D.
    + destruct D as [-> ->]. rewrite E. cbn. by rewrite array_set, decide_True.
    + destruct (reg e' t' w) as [r'|] eqn:E'; [|done]. cbn. rewrite array_set, decide_False; [done|]. intros ->. apply D.
      destruct (I _ _ _ _ _ E E'). by subst.
Qed.

Lemma slot_new e type l w :
  sound w → well l →
  sound (store_new e type l w).1 ∧
  ∀ e' t', slot e' t' (store_new e type l w).1 = if decide (e' = e ∧ t' = type) then Some (next_ref w, l) else slot e' t' w.
Proof.
  intros [K B I A] Wl. destruct (store_ok e type l w K) as [K' G].
  pose proof (λ r, array_new r e type l w) as Ar.
  split; [split; [done|..]|].
  - intros e' t' r. rewrite G. change (next_ref (store_new e type l w).1) with (S (next_ref w)). case_decide; [intros [= <-]; lia|intros ?%B; lia].
  - intros e1 t1 e2 t2 r. rewrite !G. case_decide as D1; case_decide as D2; [intros _ _; destruct D1 as [-> ->], D2 as [-> ->]; done|intros [= <-] ?%B; lia|intros ?%B [= <-]; lia|apply I].
  - intros r. rewrite Ar. case_decide; [done|apply A].
  - intros e' t'. unfold slot. rewrite G. case_decide; cbn [mbind option_bind]; [by rewrite Ar, decide_True|].
    destruct (reg e' t' w) as [r|] eqn:E; cbn; [|done]. rewrite Ar, decide_False; [done|]. apply B in E. lia.
Qed.

Lemma slot_removed e type w :
  sound w →
  let w' := World (removeData (λ _, true) e (Some (type +:+ "queue")) true (db w)) (arrays w) (next_ref w) (log w) in
  sound w' ∧ ∀ e' t', slot e' t' w' = if decide (e' = e ∧ t' = type) then None else slot e' t' w.
Proof.
  intros [K B I A] w'. destruct (removed_ok e type (db w) (arrays w) (next_ref w) (log w) K) as [K' G]. fold w' in K', G.
  assert (Ew : World (db w) (arrays w) (next_ref w) (log w) = w) by (by destruct w). rewrite Ew in G.
  split; [split; [done|..]|].
  - intros e' t' r. rewrite G. case_decide; [done|apply B].
  - intros e1 t1 e2 t2 r. rewrite !G. repeat case_decide; try done. apply I.
  - apply A.
  - intros e' t'. unfold slot. rewrite G. by case_decide.
Qed.

Lemma sound_happen hs w : sound w → sound (happen hs w).
Proof. by intros []. Qed.

(** ** What the operations do to the slots *)

Definition pushed (d : queued) (s : option (nat * list item)) (next : nat) : nat * list item :=
  match d, s with
  | Many l, _ => (next, Fn <$> l)
  | One f, None => (next, [Fn f])
  | One f, Some (r, l) => (r, l ++ [Fn f])
  end.
Definition asked (d : queued) : list nat := match d with One f => [f] | Many l => l end.

Lemma well_fns l : well (Fn <$> l).
Proof. unfold well. destruct l as [|f l]; cbn; [constructor|]. induction l; cbn; by constructor. Qed.
Lemma well_snoc l f : well l → well (l ++ [Fn f]).
Proof. unfold well. destruct l as [|i l]; cbn; [constructor|]. intros W. apply Forall_app; split; [done|by repeat constructor]. Qed.

Lemma queue_slot e type d w :
  sound w →
  let '(w', r) := queue e type d w in
  sound w' ∧ log w' = log w ++ (Queued e type <$> asked d) ∧ (r, array r w') = pushed d (slot e type w) (next_ref w) ∧
  ∀ e' t', slot e' t' w' = if decide (e' = e ∧ t' = type) then Some (pushed d (slot e type w) (next_ref w)) else slot e' t' w.
Proof.
  intros So. unfold queue. destruct (slot_fetch e type w So) as (So1 & Q & El & En & Ea & Er & Es).
  destruct (fetch_ref e type w) as [w1 q]. cbn [fst snd] in *.
  assert (New : ∀ l, well l → let w' := (store_new e type l (happen (Queued e type <$> asked d) w1)).1 in
     sound w' ∧ log w' = log w ++ (Queued e type <$> asked d) ∧ (next_ref w1, array (next_ref w1) w') = (next_ref w, l) ∧
     ∀ e' t', slot e' t' w' = if decide (e' = e ∧ t' = type) then Some (next_ref w, l) else slot e' t' w).
  { intros l Wl. destruct (slot_new e type l _ (sound_happen (Queued e type <$> asked d) w1 So1) Wl) as [S2 H2]. split; [done|].
    split; [unfold store_new; cbn [fst log happen]; by rewrite El|]. split; [rewrite array_new, decide_True by done; by rewrite En|].
    intros e' t'. rewrite H2. case_decide; [by rewrite <- En|apply Es]. }
  assert (Sl : slot e type w = (λ r, (r, array r w)) <$> q) by (unfold slot; subst q; by destruct (reg e type w)).
  rewrite Sl. destruct d as [f|l]; [|apply (New (Fn <$> l)), well_fns].
  destruct q as [r|]; cbn [fmap option_fmap option_map pushed]; [|apply (New [Fn f]); constructor].
  destruct (slot_set e type r (array r w1) (array r w1 ++ [Fn f]) (happen [Queued e type f] w1)) as [S2 H2]; [by apply sound_happen| | |].
  - unfold slot. change (reg e type (happen [Queued e type f] w1)) with (reg e type w1). by rewrite Er, <- Q.
  - apply well_snoc, (sound_array w1 So1).
  - split; [exact S2|]. split; [cbn; by rewrite El|]. split; [by rewrite array_set, decide_True, Ea|].
    intros e' t'. rewrite H2, Ea. case_decide; [done|apply Es].
Qed.

Lemma finish_slot r e type w :
  sound w → sound (finish r e type w) ∧ log (finish r e type w) = log w ∧
  ∀ e' t', slot e' t' (finish r e type w) = if decide (array r w = [] ∧ e' = e ∧ t' = type) then None else slot e' t' w.
Proof.
  intros So. unfold finish. destruct (array r w) as [|i l] eqn:E.
  - destruct (slot_removed e type w So) as [S2 H2]. split; [exact S2|]. split; [done|]. intros e' t'. rewrite H2. repeat case_decide; naive_solver.
  - split; [done|]. split; [done|]. intros e' t'. rewrite decide_False; [done|]. by intros [? _].
Qed.

Section program.
Variable program : nat → nat → string → list action.
#[local] Notation dequeue := (dequeue program).
#[local] Notation perform := (perform program).

(** A function is called, or the queue is over. *)
Definition calls_one e type w w' (ts : list task) : Prop :=
  ∃ r f p rest, slot e type w = Some (r, p ++ Fn f :: rest) ∧ functions p = [] ∧ log w' = log w ++ [Called e type f] ∧
    ts = (Do <$> program f e type) ++ [Finish r e type] ∧
    ∀ e' t', slot e' t' w' = if decide (e' = e ∧ t' = type) then Some (r, (if String.eqb type "fx" then InProgress :: rest else rest))
                             else slot e' t' w.
Definition is_over e type w w' (ts : list task) : Prop :=
  waiting e type w = [] ∧ log w' = log w ∧ ts = [] ∧ ∀ e' t', slot e' t' w' = if decide (e' = e ∧ t' = type) then None else slot e' t' w.

Lemma waiting_slot e type w : waiting e type w = functions (default [] (snd <$> slot e type w)).
Proof. unfold waiting, slot. by destruct (reg e type w). Qed.

Lemma dequeue_slot e type w :
  sound w → let '(w', ts) := dequeue e type w in sound w' ∧ (calls_one e type w w' ts ∨ is_over e type w w' ts).
Proof.
  intros So. unfold JQueryQueue.dequeue. destruct (slot_fetch e type w So) as (So1 & Q & El & En & Ea & Er & Es).
  destruct (fetch_ref e type w) as [w1 q]. cbn [fst snd] in *. destruct q as [r|].
  - assert (Sl : slot e type w = Some (r, array r w)) by (unfold slot; by rewrite <- Q).
    assert (Sl1 : slot e type w1 = Some (r, array r w)) by (by rewrite Es).
    pose proof (sound_array w1 So1 r) as Wl. rewrite Ea in Wl |- *.
    assert (Over : (array r w = [] ∨ array r w = [InProgress]) →
      let w' := finish r e type (set_array r [] w1) in sound w' ∧ (calls_one e type w w' [] ∨ is_over e type w w' [])).
    { intros H. destruct (slot_set e type r _ [] w1 So1 Sl1) as [S2 H2]; [constructor|]. destruct (finish_slot r e type _ S2) as (S3 & L3 & H3).
      split; [exact S3|]. right. split; [rewrite waiting_slot, Sl; by destruct H as [-> | ->]|]. split; [by rewrite L3|]. split; [done|].
      intros e' t'. rewrite H3, array_set, (decide_True (P := r = r)) by done. destruct (decide (e' = e ∧ t' = type)); [by rewrite decide_True|].
      rewrite decide_False by (by intros [_ ?]). by rewrite H2, decide_False. }
    assert (Call : ∀ p f rest, array r w = p ++ Fn f :: rest → functions p = [] → Forall is_fn rest →
      let w' := happen [Called e type f] (set_array r (if String.eqb type "fx" then InProgress :: rest else rest) w1) in
      sound w' ∧ calls_one e type w w' ((Do <$> program f e type) ++ [Finish r e type])).
    { intros p f rest E P F. destruct (slot_set e type r _ (if String.eqb type "fx" then InProgress :: rest else rest) w1 So1 Sl1) as [S2 H2].
      { case_match; [done|]. unfold well. destruct F; [constructor|done]. }
      split; [by apply sound_happen|]. exists r, f, p, rest. split; [by rewrite Sl, E|]. split; [done|]. split; [cbn; by rewrite El|]. split; [done|].
      intros e' t'. etransitivity; [apply H2|]. case_decide; [done|apply Es]. }
    unfold well in Wl. destruct (array r w) as [|[|f] l] eqn:E.
    + apply Over; by left.
    + destruct l as [|[|f] l]; [apply Over; by right|by inversion Wl|]. cbn in Wl. apply Forall_cons in Wl as [_ Wl].
      destruct (Call [InProgress] f l) as [S C]; [done|done|done|]. split; [exact S|by left].
    + destruct (Call [] f l) as [S C]; [done|done|done|]. split; [exact S|by left].
  - destruct (slot_removed e type w1 So1) as [S2 H2]. split; [exact S2|]. right.
    assert (Sl : slot e type w = None) by (unfold slot; by rewrite <- Q).
    split; [by rewrite waiting_slot, Sl|]. split; [by cbn|]. split; [done|]. intros e' t'. rewrite H2. case_decide; [done|apply Es].
Qed.

(** ** What was queued and called *)

Lemma called_app e type l l' : called_for e type (l ++ l') = called_for e type l ++ called_for e type l'.
Proof. apply omap_app. Qed.
Lemma queued_app e type l l' : queued_for e type (l ++ l') = queued_for e type l ++ queued_for e type l'.
Proof. apply omap_app. Qed.
Lemma functions_app l l' : functions (l ++ l') = functions l ++ functions l'.
Proof. apply omap_app. Qed.
Lemma functions_fns l : functions (Fn <$> l) = l.
Proof. induction l as [|f l IH]; [done|]. change (f :: functions (Fn <$> l) = f :: l). by rewrite IH. Qed.
Lemma queued_asked e type e' type' l : queued_for e type (Queued e' type' <$> l) = if decide (e = e' ∧ type = type') then l else [].
Proof.
  induction l as [|f l IH]; [by case_decide|]. cbn. unfold queued_for in IH. rewrite IH. repeat case_decide; naive_solver.
Qed.
Lemma called_asked e type e' type' l : called_for e type (Queued e' type' <$> l) = [].
Proof. by induction l. Qed.

(** What an operation does to the functions of a queue. *)
Lemma queue_waiting e type d w :
  sound w → let w' := (queue e type d w).1 in
  sound w' ∧ log w' = log w ++ (Queued e type <$> asked d) ∧
  ∀ e' t', waiting e' t' w' = if decide (e' = e ∧ t' = type)
    then (match d with One f => waiting e type w ++ [f] | Many l => l end) else waiting e' t' w.
Proof.
  intros So. pose proof (queue_slot e type d w So) as H. destruct (queue e type d w) as [w' r]. destruct H as (S' & L & _ & H).
  split; [exact S'|]. split; [exact L|]. intros e' t'. rewrite !waiting_slot, H. case_decide; [|done]. cbn.
  destruct d as [f|l]; [|apply functions_fns]. destruct (slot e type w) as [[r0 l]|]; [|done]. apply functions_app.
Qed.

Record ordered w : Prop := {
  ord_sound : sound w;
  ord_order e type : called_for e type (log w) ++ waiting e type w `sublist_of` queued_for e type (log w);
}.
Lemma called_one e type w w' ts e' t' :
  calls_one e type w w' ts → called_for e' t' (log w') ++ waiting e' t' w' = called_for e' t' (log w) ++ waiting e' t' w.
Proof.
  intros (r & f & p & rest & E & P & L & _ & H). rewrite !waiting_slot, H, L, called_app, <- app_assoc. f_equal. cbn.
  case_decide as D; case_decide as D'; [|naive_solver|naive_solver|done].
  destruct D as [-> ->]. rewrite E. cbn. rewrite functions_app, P. by case_match.
Qed.
Lemma over_one e type w w' ts e' t' :
  is_over e type w w' ts → called_for e' t' (log w') ++ waiting e' t' w' = called_for e' t' (log w) ++ waiting e' t' w.
Proof.
  intros (W & L & _ & H). rewrite L. f_equal. rewrite (waiting_slot e' t' w'), H. case_decide as D; [|by rewrite waiting_slot].
  destruct D as [-> ->]. by rewrite W.
Qed.
Lemma calls_queued e type w w' ts e' t' :
  calls_one e type w w' ts ∨ is_over e type w w' ts → queued_for e' t' (log w') = queued_for e' t' (log w).
Proof.
  intros [(r & f & p & rest & _ & _ & L & _)|(_ & L & _)]; rewrite L; [|done]. rewrite queued_app. cbn. apply app_nil_r.
Qed.

Lemma perform_ordered t w : ordered w → ordered (perform t w).1.
Proof.
  intros [So O]. destruct t as [[e type d|e type]|r e type]; cbn [JQueryQueue.perform].
  - unfold fn_queue. pose proof (queue_waiting e type d w So) as (S' & L & H). destruct (queue e type d w) as [w' r]. cbn [fst] in *.
    split; [done|]. intros e' t'. rewrite L, H, called_app, called_asked, queued_app, queued_asked, app_nil_r. specialize (O e' t').
    case_decide as D; [destruct D as [-> ->]|by rewrite app_nil_r]. destruct d as [f|l].
    + rewrite app_assoc. by apply sublist_app.
    + apply sublist_app; [|done]. etransitivity; [apply sublist_inserts_r|exact O]. done.
  - pose proof (dequeue_slot e type w So) as H. destruct (dequeue e type w) as [w' ts]. destruct H as [S' H]. split; [exact S'|].
    intros e' t'. rewrite (calls_queued e type w w' ts) by exact H. cbn [fst]. destruct H as [H|H]; [erewrite called_one by exact H|erewrite over_one by exact H]; apply O.
  - destruct (finish_slot r e type w So) as (S' & L & H). split; [exact S'|]. intros e' t'. cbn [fst]. rewrite L, waiting_slot, H.
    case_decide; [|rewrite <- waiting_slot; apply O]. cbn. rewrite app_nil_r. etransitivity; [apply sublist_inserts_r|apply O]. done.
Qed.

Lemma start_sound : sound start.
Proof.
  split; [apply start_sane|done|done|]. intros r. constructor.
Qed.
Lemma reachable_ordered allowed w ts : reachable program allowed w ts → ordered w.
Proof.
  induction 1; [|done|by apply perform_ordered]. split; [apply start_sound|]. done.
Qed.

(** Whatever the functions of the queues do when they are called, at every
    moment the functions that a queue has called, and after them those that
    wait in it, are functions that were queued, in their order and each once
    for each time that it was queued. *)
Theorem queue_order allowed w ts e type :
  reachable program allowed w ts → called_for e type (log w) ++ waiting e type w `sublist_of` queued_for e type (log w).
Proof. intros R. apply (reachable_ordered _ _ _ R). Qed.

(** ** Functions that only queue functions

    Such functions call [dequeue] later, from a timer or a handler. *)

Definition one_function (a : action) : Prop := match a with AQueue _ _ (One _) => True | _ => False end.
Definition tame (a : action) : Prop := match a with AQueue _ _ (Many _) => False | _ => True end.
Hypothesis quiet : ∀ f e type a, a ∈ program f e type → one_function a.

Definition keys (ts : list task) : list (nat * string) :=
  omap (λ t, match t with Finish _ e type => Some (e, type) | Do _ => None end) ts.
Definition queues (ts : list task) : Prop := ∀ a, Do a ∈ ts → one_function a.
(** The arrays of the calls of [dequeue] that have not ended are still those of
    their elements. *)
Definition held w (ts : list task) : Prop :=
  ∀ r e type, Finish r e type ∈ ts → ∃ l, slot e type w = Some (r, l) ∧ (type = "fx" → in_progress l = true).
Definition shape (ts : list task) : Prop :=
  queues ts ∨ ∃ e type rest, ts = Do (ADequeue e type) :: rest ∧ (e, type) ∉ keys rest ∧ queues rest.
Record steady w (ts : list task) : Prop := {
  st_sound : sound w;
  st_exact e type : called_for e type (log w) ++ waiting e type w = queued_for e type (log w);
  st_held : held w ts;
  st_once : NoDup (keys ts);
  st_shape : shape ts;
  st_busy e r l : slot e "fx" w = Some (r, l) → in_progress l = true ∨ head ts = Some (Do (ADequeue e "fx"));
}.

Lemma keys_elem r e type ts : Finish r e type ∈ ts → (e, type) ∈ keys ts.
Proof. intros H. apply list_elem_of_omap. by exists (Finish r e type). Qed.
Lemma keys_do (l : list action) ts : keys ((Do <$> l) ++ ts) = keys ts.
Proof. induction l as [|a l IH]; [done|]. exact IH. Qed.
Lemma queues_tail t ts : shape (t :: ts) → queues ts.
Proof. intros [Q|(e & type & rest & [= -> ->] & _ & Q)]; [|done]. intros a H. apply Q. by right. Qed.

(** A slot that changes, with its call that has not ended. *)
Lemma held_change w w' ts e type s :
  held w ts → (∀ e' t', slot e' t' w' = if decide (e' = e ∧ t' = type) then s else slot e' t' w) →
  (∀ r l, Finish r e type ∈ ts → slot e type w = Some (r, l) → ∃ l', s = Some (r, l') ∧ (type = "fx" → in_progress l = true → in_progress l' = true)) →
  held w' ts.
Proof.
  intros Hd H F r e' t' I. destruct (Hd r e' t' I) as (l & E & P). rewrite H. case_decide as D; [|by exists l].
  destruct D as [-> ->]. destruct (F r l I E) as (l' & -> & P'). exists l'. split; [done|]. intros ->. by apply P', P.
Qed.

Lemma queue_steady e type f w ts :
  steady w (Do (AQueue e type (One f)) :: ts) → steady (fn_queue e type (One f) w).1 ((fn_queue e type (One f) w).2 ++ ts).
Proof.
  intros [So Ex Hd On Sh Bu]. pose proof (queues_tail _ _ Sh) as Q. unfold fn_queue.
  pose proof (queue_waiting e type (One f) w So) as (S' & L & W). pose proof (queue_slot e type (One f) w So) as H.
  destruct (queue e type (One f) w) as [w' r]. destruct H as (_ & _ & A & H). cbn [fst snd] in *.
  set (s := pushed (One f) (slot e type w) (next_ref w)) in *. assert (A2 : array r w' = s.2) by (by rewrite <- A).
  assert (Hd' : held w' ts).
  { eapply held_change; [intros r' e' t' I; apply Hd; by right|exact H|]. intros r' l _ E. subst s. rewrite E. cbn. eexists. split; [done|]. by destruct l as [|[]]. }
  assert (Ex' : ∀ e' t', called_for e' t' (log w') ++ waiting e' t' w' = queued_for e' t' (log w')).
  { intros e' t'. rewrite L, W, called_app, called_asked, queued_app, queued_asked, app_nil_r, <- Ex.
    case_decide as D; [destruct D as [-> ->]; by rewrite app_assoc|by rewrite app_nil_r]. }
  destruct (String.eqb type "fx" && negb (in_progress (array r w'))) eqn:G; cbn [app].
  - apply andb_true_iff in G as [->%String.eqb_eq G%negb_true_iff]. split; try done.
    + intros r' e' t' [?|I]%elem_of_cons; [done|]. by apply Hd'.
    + right. exists e, "fx", ts. split; [done|]. split; [|done]. intros (t & It & Ft)%list_elem_of_omap. destruct t as [|r' e' t']; [done|].
      injection Ft as -> ->. destruct (Hd' r' e "fx" It) as (l & E & P). rewrite H, decide_True in E by done. injection E as E.
      rewrite A2, E in G. cbn in G. by rewrite P in G.
    + intros e' r' l E. destruct (decide (e' = e)) as [->|N]; [by right|]. left. rewrite H, decide_False in E by naive_solver.
      by destruct (Bu e' r' l E).
  - split; try done; [by left|]. intros e' r' l. rewrite H. case_decide as D.
    + destruct D as [-> <-]. intros [= E]. left. rewrite E in A2. cbn in A2. rewrite A2 in G. by destruct (in_progress l).
    + intros E. left. by destruct (Bu e' r' l E).
Qed.

Lemma dequeue_steady e type w ts :
  steady w (Do (ADequeue e type) :: ts) → steady (dequeue e type w).1 ((dequeue e type w).2 ++ ts).
Proof.
  intros [So Ex Hd On Sh Bu]. pose proof (queues_tail _ _ Sh) as Q.
  assert (K : (e, type) ∉ keys ts).
  { destruct Sh as [Q'|(e' & t' & rest & [= -> -> ->] & K & _)]; [|done]. exfalso; by apply (Q' (ADequeue e type)); left. }
  pose proof (dequeue_slot e type w So) as H. destruct (dequeue e type w) as [w' new]. destruct H as [S' H]. cbn [fst snd].
  assert (Ex' : ∀ e' t', called_for e' t' (log w') ++ waiting e' t' w' = queued_for e' t' (log w')).
  { intros e' t'. rewrite (calls_queued e type w w' new e' t' H), <- Ex. destruct H as [H|H]; [by eapply called_one|by eapply over_one]. }
  assert (Hd' : ∀ s, (∀ e' t', slot e' t' w' = if decide (e' = e ∧ t' = type) then s else slot e' t' w) → held w' ts).
  { intros s Hs. eapply held_change; [intros r' e' t' I; apply Hd; by right|exact Hs|]. intros r l I%keys_elem. done. }
  assert (Bu' : ∀ e' r l, e' ≠ e ∨ type ≠ "fx" → slot e' "fx" w = Some (r, l) → in_progress l = true).
  { intros e' r l N E. destruct (Bu e' r l E) as [?|[= -> ->]]; [done|]. by destruct N. }
  destruct H as [(r & f & p & rest & E & P & L & -> & H)|(W & L & -> & H)].
  - rewrite <- app_assoc. cbn [app]. split; try done.
    + intros r' e' t' [(a & ? & _)%list_elem_of_fmap|[[= -> -> ->]|I]%elem_of_cons]%elem_of_app; [done| |by apply (Hd' _ H)].
      rewrite H, decide_True by done. eexists. split; [done|]. by intros ->.
    + rewrite keys_do. cbn. constructor; [done|]. exact On.
    + left. intros a [(a' & [= ->] & I)%list_elem_of_fmap|[?|I]%elem_of_cons]%elem_of_app; [by eapply quiet|done|by apply Q].
    + intros e' r' l'. rewrite H. case_decide as D; [destruct D as [-> <-]; intros [= _ <-]; by left|]. intros E'. left.
      apply (Bu' e' r' l'); [|done]. destruct (decide (e' = e)); [right|by left]. naive_solver.
  - cbn [app]. split; try done; [by apply (Hd' _ H)|by left|]. intros e' r' l'. rewrite H. case_decide as D; [done|]. intros E'. left.
    apply (Bu' e' r' l'); [|done]. destruct (decide (e' = e)); [right|by left]. naive_solver.
Qed.

Lemma finish_steady r e type w ts : steady w (Finish r e type :: ts) → steady (finish r e type w) ts.
Proof.
  intros [So Ex Hd On Sh Bu]. pose proof (queues_tail _ _ Sh) as Q. destruct (finish_slot r e type w So) as (S' & L & H).
  destruct (Hd r e type) as (l & E & P); [by left|]. assert (Al : array r w = l) by (unfold slot in E; destruct (reg e type w); naive_solver).
  cbn in On. apply NoDup_cons in On as [N On]. rewrite Al in H.
  split; [done|..].
  - intros e' t'. rewrite L, <- Ex. f_equal. rewrite !waiting_slot, H. case_decide as D; [|done]. destruct D as (-> & -> & ->). by rewrite E.
  - intros r' e' t' I. destruct (Hd r' e' t') as (l' & E' & P'); [by right|]. exists l'. split; [|done]. rewrite H, decide_False; [done|].
    intros (_ & -> & ->). by apply keys_elem in I.
  - done.
  - by left.
  - intros e' r' l'. rewrite H. case_decide; [done|]. intros E'. by destruct (Bu e' r' l' E'); left.
Qed.

Lemma reachable_steady w ts : reachable program tame w ts → steady w ts.
Proof.
  induction 1 as [|w a T R IH|w t ts R IH].
  - split; [apply start_sound|done|by intros ? ? ? ?%elem_of_nil|constructor|left; by intros ? ?%elem_of_nil|done].
  - destruct IH as [So Ex Hd On Sh Bu]. split; try done.
    + intros r e type [?|?%elem_of_nil]%elem_of_cons; done.
    + destruct a as [e type [f|l]|e type]; [left|done|right].
      * by intros a [[= ->]|?%elem_of_nil]%elem_of_cons.
      * exists e, type, []. split; [done|]. split; [by intros ?%elem_of_nil|]. by intros a ?%elem_of_nil.
    + intros e r l E. left. by destruct (Bu e r l E).
  - destruct t as [[e type [f|l]|e type]|r e type]; [by apply queue_steady| |by apply dequeue_steady|by apply finish_steady].
    exfalso. destruct (st_shape _ _ IH) as [Q|(? & ? & ? & ? & _)]; [|done]. by apply (Q (AQueue e type (Many l))); left.
Qed.

(** C40: when functions that are called only queue functions, and call for the
    next one later, no function is lost: a queue has called the first of those
    that were queued, in their order, and the others wait in it; and functions
    of the queue of effects wait only while one of them is in progress. *)
Theorem queue_exact w ts :
  reachable program tame w ts →
  (∀ e type, called_for e type (log w) ++ waiting e type w = queued_for e type (log w)) ∧
  (ts = [] → ∀ e, waiting e "fx" w ≠ [] → ∃ r l, slot e "fx" w = Some (r, InProgress :: l)).
Proof.
  intros R. destruct (reachable_steady w ts R) as [So Ex Hd On Sh Bu]. split; [done|]. intros -> e.
  rewrite waiting_slot. destruct (slot e "fx" w) as [[r l]|] eqn:E; [|done]. intros _. destruct (Bu e r l E); [|done].
  destruct l as [|[] l]; try done. by exists r, l.
Qed.

Lemma exec_reachable allowed fuel w ts :
  reachable program allowed w ts → reachable program allowed (exec program fuel w ts).1 (exec program fuel w ts).2.
Proof.
  revert w ts. induction fuel as [|fuel IH]; intros w ts R; [done|]. destruct ts as [|t ts]; [done|]. cbn [exec].
  pose proof (reach_step program allowed w t ts R) as R'. destruct (perform t w) as [w' l]. by apply IH.
Qed.
End program.

(** ** Examples *)

(** Function 1 queues function 2. *)
Definition chaining (f e : nat) (type : string) : list action := if (f =? 1)%nat then [AQueue e type (One 2)] else [].
Definition after (program : nat → nat → string → list action) (l : list action) : world :=
  foldl (λ w a, (exec program 20 w [Do a]).1) start l.
Definition two_effects : world := after chaining [AQueue 0 "fx" (One 1); AQueue 0 "fx" (One 3); ADequeue 0 "fx"].
Lemma two_effects_reachable : reachable chaining tame two_effects [].
Proof.
  assert (E : ∀ w a, tame a → reachable chaining tame w [] → (exec chaining 20 w [Do a]).2 = [] →
            reachable chaining tame (exec chaining 20 w [Do a]).1 []).
  { intros w a T R E. pose proof (exec_reachable chaining tame 20 w [Do a] (reach_event _ _ w a T R)) as R'. by rewrite E in R'. }
  unfold two_effects, after. cbn [foldl]. repeat apply E; first [exact I|apply reach_start|vm_compute; reflexivity].
Qed.
Lemma chaining_quiet f e type a : a ∈ chaining f e type → one_function a.
Proof. unfold chaining. case_match; [|by intros ?%elem_of_nil]. by intros ->%list_elem_of_singleton. Qed.

Lemma queue_order_witness : [1; 2; 3] `sublist_of` [1; 2; 3].
Proof. exact (queue_order chaining tame two_effects [] 0 "fx" two_effects_reachable). Defined.
Lemma queue_exact_witness :
  called_for 0 "fx" (log two_effects) = [1; 2] ∧ waiting 0 "fx" two_effects = [3] ∧
  ∃ r l, slot 0 "fx" two_effects = Some (r, InProgress :: l).
Proof.
  destruct (queue_exact chaining chaining_quiet two_effects [] two_effects_reachable) as [_ H].
  split; [vm_compute; reflexivity|]. split; [vm_compute; reflexivity|]. apply H; [reflexivity|vm_compute; discriminate].
Defined.

(** A function that calls for the next one at once and then queues another: the
    call of [dequeue] ends with the array that it began with, which is empty,
    and removes the new queue with it. *)
Definition hasty (f e : nat) (type : string) : list action := if (f =? 1)%nat then [ADequeue e type; AQueue e type (One 2)] else [].
Example queue_lost :
  let w := after hasty [AQueue 0 "work" (One 1); ADequeue 0 "work"; ADequeue 0 "work"] in
  queued_for 0 "work" (log w) = [1; 2] ∧ called_for 0 "work" (log w) = [1] ∧ waiting 0 "work" w = [].
Proof. vm_compute. repeat split. Qed.

(** In the queue of effects the sentinel goes with it: two of them run at the
    same time. *)
Example effects_together :
  let w := after hasty [AQueue 0 "fx" (One 1); AQueue 0 "fx" (One 3)] in called_for 0 "fx" (log w) = [1; 2; 3].
Proof. vm_compute. reflexivity. Qed.

(** [clearQueue] while an effect is in progress: the next one begins at once. *)
Example cleared_effects :
  let w := after (λ _ _ _, []) [AQueue 0 "fx" (One 1); AQueue 0 "fx" (Many []); AQueue 0 "fx" (One 2)] in
  called_for 0 "fx" (log w) = [1; 2].
Proof. vm_compute. reflexivity. Qed.
